(* ===== verification/_CoqProject ===== *)
-Q . S2P
Prelude.v
Text.v
WrappingIntegers.v
ByteStream.v
StreamReassembler.v
ReassemblerProps.v
Buffer.v
Parser.v
InternetChecksum.v
TCPHeader.v
TCPSegment.v
TCPReceiver.v
TCPSender.v
TCPState.v
TCPConnection.v
Transport.v
IPv4Header.v
IPv4Datagram.v
FdAdapter.v
TCPOverIP.v
Address.v
Float.v
HexDump.v
HeaderText.v
CommandLine.v
Options.v
Tcpdump.v
FileDescriptor.v
FileHandle.v
Socket.v
EventLoop.v
Emission.v
AdapterIO.v
ExampleKernel.v
TCPSpongeSocket.v
StreamCopy.v
Acknowledgment.v
StateDiagram.v
Progress.v
Benchmark.v
Lockstep.v
BenchmarkTurns.v
BenchmarkOpening.v
BenchmarkEnds.v
WireSystem.v
SocketPair.v
SocketSetup.v
Process.v
ExampleHost.v
ProcessProps.v
Programs.v
TunHost.v
IPv4Program.v
Clock.v
Webget.v
TunDump.v
Doctests.v
