(* ===== verification/Prelude.v ===== *)
(** * Verification of the sponge TCP library

    This library models the user-space TCP implementation in [src/libsponge] and
    proves that it does what it is for: two endpoints deliver each other's byte
    streams over a network that loses, repeats and reorders packets.

    ** The program and the files that model it

    The program is a stack. A [ByteStream] is a bounded FIFO. A
    [StreamReassembler] puts substrings back in order into a [ByteStream].
    A [TCPReceiver] turns the sequence numbers of segments into stream indices
    for its reassembler; a [TCPSender] cuts an outbound [ByteStream] into
    segments, keeps them until they are acknowledged and repeats them on a
    timer. A [TCPConnection] is one of each with the rules for opening, closing
    and resetting. Segments travel as bytes: [TCPHeader] and [TCPSegment] write
    and read them, [IPv4Header] and [IPv4Datagram] wrap them, and the adapters
    connect them to a UDP socket or a TUN device. A [TCPSpongeSocket] runs all
    this in a thread: rules in an [EventLoop] move datagrams between adapter and
    connection, and bytes between the connection and the stream socket of the
    owner. An application copies between such a socket and the terminal. Each
    class has a file of its own name; its fields keep their names, each method
    is one definition.

    - [Prelude]: integers of 8 to 64 bits and their wrap-around, bytes, strings
      as byte lists with sizes in [Z], exceptions as a result monad, tactics.
    - [Text]: what the program does with text: [snprintf], [strtoul], [strtol],
      numbers in a stream, [strncmp].
    - [WrappingIntegers]: [wrapping_integers.hh], [.cc]; sequence numbers modulo
      2^32, [wrap] and [unwrap].
    - [ByteStream]: [byte_stream.hh], [.cc], and the abstract FIFO it refines.
    - [StreamReassembler]: [stream_reassembler.hh], [.cc]; the loops over the
      list of pieces and the invariant of that list. [ReassemblerProps] has what
      the class promises: refinement of a finite map and in-order delivery.
    - [Buffer], [Parser], [InternetChecksum]: [util/buffer], [util/parser] and the
      checksum class of [util/util].
    - [TCPHeader], [TCPSegment], [IPv4Header], [IPv4Datagram]: the wire formats of
      [tcp_helpers].
    - [TCPReceiver], [TCPSender] (with [TCPConfig]), [TCPState], [TCPConnection]:
      the protocol. Queues are lists, the front first; the [std::map] of
      outstanding segments is a list in key order.
    - [Transport]: two [TCPConnection]s, their applications and the network
      between them as a transition system. [Acknowledgment] and [Progress]
      prove more of that system: what an acknowledgment means, and that
      delivery stays possible; [StateDiagram] relates one connection to the
      state diagram of RFC 793. [Benchmark] ([apps/tcp_benchmark.cc]) is a run
      of it; that its loops end is shown from what a batch of segments does to
      a side that sends and to one that waits ([Lockstep]), from the turns in
      the middle of the transfer ([BenchmarkTurns]), the two opening turns
      ([BenchmarkOpening]) and the wait at the end ([BenchmarkEnds]).
    - [FdAdapter] ([fd_adapter], [lossy_fd_adapter.hh]) and [TCPOverIP]
      ([tcp_over_ip], [tuntap_adapter.hh]): the adapters, behind the interface
      [FdAdapter.FdAdapter]. [Address] ([util/address]) implements the interface
      to addresses they use, over the resolver of the C library.
    - [FileDescriptor] ([util/file_descriptor], [SystemCall] of [util/util]) and
      [Socket] ([util/socket]), over an abstract kernel: classes of system calls
      ([Kernel], [SocketKernel]) and of what their manual pages promise.
      [FileHandle]: the counted handles to a descriptor. [SocketSetup]: opening,
      naming, connecting and accepting, [util/tun], the constructors of
      [TCPSpongeSocket], the start of [apps/tcp_native.cc].
    - [EventLoop] ([util/eventloop]): rules over a world, and what the loop
      promises a client whose rules keep an invariant ([served]).
    - [Emission]: what a connection hands to the network. [AdapterIO]: adapters
      joined with descriptors, as [TCPSpongeSocket] uses them (class [AdaptT]),
      for any bytes that arrive. [WireSystem]: the system of [Transport] on
      datagrams, behind adapters used through an interface ([Medium]).
    - [TCPSpongeSocket] ([tcp_helpers/tcp_sponge_socket]): the rules, the loop,
      [connect], [listen_and_accept], [_tcp_main].
    - [StreamCopy] ([apps/bidirectional_stream_copy.cc]). [ExampleKernel] is a
      kernel for which the laws hold, used by the examples.
    - [SocketPair]: two sockets, each with its kernel, on a network of
      datagrams. [Process]: a program that copies between the terminal and a
      socket, with its two threads (the thread of the socket, its destructor,
      [wait_until_closed], the body of [main]); [ProcessProps]: what such
      programs do, alone and in pairs; [ExampleHost]: the kernel of their
      examples. [Programs]: [main] of [apps/tcp_udp.cc], [apps/tcp_ipv4.cc] and
      [apps/tcp_native.cc], [CS144TCPSocket], and what [tcp_udp] carries;
      [IPv4Program]: what [tcp_ipv4] carries, with the kernel of [TunHost] as
      the example. [Clock]: [timestamp_ms] of
      [util/util] and the ticks of the loop of a socket.
    - Programs and what they print: [Float] and [CommandLine] (the options of
      [apps/tcp_udp.cc] and [apps/tcp_ipv4.cc]), [Options] (what their usage
      texts promise), [HexDump] ([hexdump] of
      [util/util]), [HeaderText] ([to_string] and [summary] of the headers),
      [Tcpdump] ([apps/udp_tcpdump.cc]), [TunDump] ([apps/tun.cc]), [Webget]
      ([apps/webget.cc]), [Doctests] ([doctests/]).

    A method that changes its object returns the new object; one that can throw
    returns a [result]; a reference that is handed out ([stream_in()],
    [stream_out()], [header()], [config_mutable()]) becomes a function that
    applies a change in place ([on_stream_in], [on_stream_out], [set_...]).

    ** What the theorems show

    - End to end ([Transport]): in every reachable state of the two-endpoint
      system, what an application has read and what is buffered for it is a
      prefix of what its peer wrote, all of it once the stream reports its end;
      and no segment the network can deliver raises an exception. A byte leaves
      the retransmission list only after the peer has it ([nothing_forgotten]),
      and from every open state ([open_pair]: both SYNs acknowledged, both sides
      active, the receiving one with a window and its own stream open, the
      sending one with a retransmission left) a continuation delivers all that
      was written ([delivery_possible]), both as long as sequence numbers do not
      pass zero. The benchmark ends, with
      the string delivered, both connections closed and none of its checks
      failed ([benchmark_ends]). Over datagrams, with adapters of any kind at both ends and
      other traffic on the network, every run is one of that system
      ([wire_safe]); with the sockets on top of it, what one owner reads is what
      the other has written ([owner_to_owner]); and with the programs on top of
      these, what one prints is what was typed into the other
      ([terminal_to_terminal], and from two commands on, with the outcomes of
      both, [tcp_udp_carries] and [tcp_ipv4_carries]).
    - The connection: its summaries move along the arrows of the TCP state
      diagram, and it is reset only by a RST or by too many retransmissions
      ([moves_along_diagram]); the three-way handshake works for all configurations; unanswered SYNs are repeated with doubling
      timeouts and then reset; LAST_ACK closes, TIME_WAIT lasts ten timeouts;
      data is acknowledged at once; any segment is survived.
    - The sender: the outstanding segments are adjacent and add up to the bytes
      in flight; every segment is a piece of the stream at its position;
      [fill_window] terminates, sends all it may and stays within the window;
      acknowledgments release exactly what they cover; backoff.
    - The receiver and the reassembler: delivery in order and exactly once for
      any arrival order, refinement of a map of known bytes, the window's right
      edge, progress, robustness against any input.
    - Formats: round trips of headers, segments, datagrams and through both
      adapters; the checksum verifies what was written and detects a changed
      byte.
    - The socket: over any adapter, kernel and network that keep their laws, its
      thread never stops with an exception of its own making (busy wait,
      refused bytes, unexpected state, access to a missing connection); the
      connection gets exactly the bytes the owner writes, and the owner exactly
      the bytes of the inbound stream; no datagram raises an exception; every
      segment that is emitted can be sent. The stream copy loses nothing, and
      [FileDescriptor::write] ends with everything written. An event loop
      cancels, serves and keeps the rules that it should ([wait_next_event_serves]).
      [close(2)] is called once for each [close()], returned or thrown, and by
      the last handle if none has returned; sockets have the domain and type of
      their class. What the ticks of the loop hand to the connection adds up to
      the time that went by, to a millisecond ([ticks_follow_clock]).
    - The programs: they end as they should ([program_outcomes]): [main] returns
      [EXIT_SUCCESS] only after the thread was joined, and [EXIT_FAILURE] only
      with an error of the system caught, whether it opens, copies or waits; the
      destructor waits for one more round at most.
    - Addresses: [Address] keeps the laws that the adapters ask for, and gives
      back the numbers and the text it was made from.
    - Programs: the documented options are read back by [get_config]
      ([options_roundtrip]); [hexdump] equals a reference; from the text of
      [udp_tcpdump] a reader gets the fields of the segment that was sent
      ([capture_shows_segment]), and no captured packet is read past its end;
      [tun] shows what was sent; [webget]
      sends its request and prints the reply to its end.
    - Where the code falls short, a theorem says how: the receiver stalls after
      4 GiB, windows of 64 KiB and more are advertised modulo 2^16, parse errors
      of headers are lost, SYN and FIN together overrun the first window, a
      failing [poll] goes unnoticed; an acknowledgment number counts
      without its flag, so that a repeated SYN can release data that never
      arrived; TIME_WAIT leaves repeated data unanswered, a capture cut
      inside of its UDP header ends [udp_tcpdump], and a segment with a wrong
      checksum is shown as zeros.

    ** Bounds, fuel and hypotheses

    The loops of the program are structural recursions on their lists, except
    some that end by themselves and some that run until stopped.
    [fill_window_loop] has the free window plus one as fuel, enough because
    each iteration but the last takes at least one sequence number
    ([fill_window_complete]); [fold_carries] has two rounds, enough for any
    32-bit sum ([fold_carries_total]); [write_loop] has the number of bytes plus
    one, enough because each call of [writev] takes at least one byte
    ([write_complete]). The loops over [argv] have [argc] as fuel, since each
    turn moves the index on ([walk_interpret]); the search through IPv6
    extension headers has the captured length plus one, since each header is at
    least eight bytes ([packet_search_safe]); [print_loop] of [webget] ends
    with more than the number of bytes to come ([get_url_prints_reply]); a
    number has at most 64 digits. The loops of the benchmark end
    within as many turns as the string has bytes and twelve more, since every
    turn after the first acknowledges something and the wait takes ten turns
    ([benchmark_ends]). [_tcp_loop], [copy_loop], [tun_loop] and [capture_loop]
    run for the number of iterations they are given; their theorems hold for
    every number.

    The invariants ask that a stream stays below 2^62 bytes (2^32 - 2 for a
    receiver and end to end, since a receiver misplaces what is beyond), that a receive capacity is below 2^31, and
    that an application does not write after ending its stream, which
    [ByteStream.write] itself does not check ([write_after_end_input]); on the
    wire, that others do not forge the peer's address or connect before it.

    Parameters stand for what is not in the sources: the number drawn for an
    initial sequence number, the generator of [LossyFdAdapter], addresses
    ([AddressLib], whose laws [AddressLaws] are the documented behaviour of the
    resolver for numeric addresses, with pairs of numbers as an instance), the
    clock ([SteadyLaws]: it does not go back), the results of [getaddrinfo] and [getnameinfo] ([Resolver], with
    [ResolverLaws] for numeric names), the packets that [libpcap] hands out, and
    the system calls. The laws of the calls ([KernelLaws],
    [SocketLaws], [PollKernelLaws], [SetupLaws], [CloseCount], [NetLaws],
    [PipeLaws], [StartLaws]) say what their manual pages say: ranges of the
    values, which bytes a call moves, that other descriptors are left alone, that
    datagrams are received as they were sent or not at all, that a socket pair
    carries bytes from end to end, and that new descriptors are new.
    [ExampleKernel], [ExampleHost] and [TunHost] are instances, and the files that declare
    the others have one. What will be read from a descriptor is part of the
    kernel's state ([input]), as far as a call has not yet brought it.

    The two threads of a program take turns, a round of an event loop at a time;
    they share the kernel, [_abort] and the owner's descriptor. A round that
    throws is the last of its thread, and what it did to the kernel before is
    not followed.

    ** Not modelled

    The random generator ([get_random_generator]), which only seeds one of the
    library, and what is drawn from it, which is an input; messages on the error
    stream; threads that interleave inside of a round; the examples of the
    documentation with UDP and TCP sockets ([doctests/]), and the tests. *)

From stdpp Require Export prelude gmap list strings.
From Stdlib Require Export ZArith Lia.
From Stdlib Require Strings.Byte.

#[global] Open Scope Z_scope.

(** ** Machine integers

    An unsigned integer of width [w] is a [Z] kept in [0 .. 2^w - 1]; the
    functions below are the conversions C++ applies on assignment. *)

Definition u8 (z : Z) : Z := z mod 2 ^ 8.
Definition u16 (z : Z) : Z := z mod 2 ^ 16.
Definition u32 (z : Z) : Z := z mod 2 ^ 32.
Definition u64 (z : Z) : Z := z mod 2 ^ 64.

(** Conversion to a signed two's complement integer. *)
Definition s32 (z : Z) : Z := (z + 2 ^ 31) mod 2 ^ 32 - 2 ^ 31.
Definition s64 (z : Z) : Z := (z + 2 ^ 63) mod 2 ^ 64 - 2 ^ 63.

(** [std::numeric_limits<size_t>::max()], written [ULONG_LONG_MAX] in the code. *)
Definition ULONG_LONG_MAX : Z := 2 ^ 64 - 1.

Lemma u8_small z : 0 <= z < 2 ^ 8 -> u8 z = z.
Proof. apply Z.mod_small. Qed.
Lemma u16_small z : 0 <= z < 2 ^ 16 -> u16 z = z.
Proof. apply Z.mod_small. Qed.
Lemma u32_small z : 0 <= z < 2 ^ 32 -> u32 z = z.
Proof. apply Z.mod_small. Qed.
Lemma u64_small z : 0 <= z < 2 ^ 64 -> u64 z = z.
Proof. apply Z.mod_small. Qed.

Lemma s32_small z : -2 ^ 31 <= z < 2 ^ 31 -> s32 z = z.
Proof. intros. unfold s32. rewrite Z.mod_small; lia. Qed.
Lemma s64_small z : -2 ^ 63 <= z < 2 ^ 63 -> s64 z = z.
Proof. intros. unfold s64. rewrite Z.mod_small; lia. Qed.

Lemma u8_range z : 0 <= u8 z < 2 ^ 8.
Proof. by apply Z.mod_pos_bound. Qed.
Lemma u16_range z : 0 <= u16 z < 2 ^ 16.
Proof. by apply Z.mod_pos_bound. Qed.
Lemma u32_range z : 0 <= u32 z < 2 ^ 32.
Proof. by apply Z.mod_pos_bound. Qed.
Lemma u64_range z : 0 <= u64 z < 2 ^ 64.
Proof. by apply Z.mod_pos_bound. Qed.

(** [word] decides linear goals about wrapped integers by exposing every
    reduction as quotient and remainder. *)
Ltac word :=
  unfold u8, u16, u32, u64, s32, s64, ULONG_LONG_MAX in *;
  Z.div_mod_to_equations; lia.

(** [usmall] removes the 64-bit reductions whose argument [lia] can bound. *)
Ltac usmall :=
  repeat match goal with
  | |- context [u64 ?x] => rewrite (u64_small x) by lia
  | |- context [u32 ?x] => rewrite (u32_small x) by lia
  | |- context [u16 ?x] => rewrite (u16_small x) by lia
  end.
Ltac usmall_in H :=
  repeat match type of H with
  | context [u64 ?x] => rewrite (u64_small x) in H by lia
  | context [u32 ?x] => rewrite (u32_small x) in H by lia
  | context [u16 ?x] => rewrite (u16_small x) in H by lia
  end.

(** ** Bytes *)

Abbreviation byte := Byte.byte.

#[export] Instance byte_eq_dec : EqDecision byte := Byte.byte_eq_dec.

Definition b2z (b : byte) : Z := Z.of_N (Byte.to_N b).

Definition z2b (z : Z) : byte :=
  match Byte.of_N (Z.to_N (u8 z)) with
  | Some b => b
  | None => Byte.x00
  end.

Lemma b2z_range b : 0 <= b2z b < 2 ^ 8.
Proof. unfold b2z. pose proof (Byte.to_N_bounded b). lia. Qed.

Lemma b2z_z2b z : b2z (z2b z) = u8 z.
Proof.
  unfold z2b, b2z. pose proof (u8_range z) as Hr.
  destruct (Byte.of_N _) as [b|] eqn:E.
  - apply Byte.to_of_N in E. rewrite E. lia.
  - apply Byte.of_N_None_iff in E. lia.
Qed.

Lemma z2b_b2z b : z2b (b2z b) = b.
Proof.
  unfold z2b. rewrite u8_small by apply b2z_range.
  unfold b2z. rewrite N2Z.id, Byte.of_to_N. done.
Qed.

(** ** Strings as byte lists, with sizes in [Z] *)

Definition zlen {A} (l : list A) : Z := Z.of_nat (length l).
Arguments zlen : simpl never.

Lemma zlen_nonneg {A} (l : list A) : 0 <= zlen l.
Proof. unfold zlen. lia. Qed.
Lemma zlen_nil {A} : zlen (@nil A) = 0.
Proof. done. Qed.
Lemma zlen_cons {A} (x : A) l : zlen (x :: l) = 1 + zlen l.
Proof. unfold zlen. rewrite length_cons. lia. Qed.
Lemma zlen_app {A} (l k : list A) : zlen (l ++ k) = zlen l + zlen k.
Proof. unfold zlen. rewrite length_app. lia. Qed.
Lemma zlen_take {A} n (l : list A) : zlen (take n l) = Z.min (Z.of_nat n) (zlen l).
Proof. unfold zlen. rewrite length_take. lia. Qed.
Lemma zlen_drop {A} n (l : list A) : zlen (drop n l) = Z.max 0 (zlen l - Z.of_nat n).
Proof. unfold zlen. rewrite length_drop. lia. Qed.
Lemma zlen_zero {A} (l : list A) : zlen l = 0 -> l = [].
Proof. unfold zlen. destruct l; [done|]. rewrite length_cons. lia. Qed.

Create HintDb sponge.
Create Rewrite HintDb zlen.
#[export] Hint Rewrite @zlen_nil @zlen_cons @zlen_app @zlen_take @zlen_drop : zlen.
#[export] Hint Resolve zlen_nonneg b2z_range u8_range u16_range u32_range u64_range : sponge.

(** [substr s pos n] when [pos] is in range: the characters from [pos], at
    most [n] of them. *)
Definition sub {A} (s : list A) (pos n : Z) : list A :=
  take (Z.to_nat (Z.min n (zlen s - pos))) (drop (Z.to_nat pos) s).

Lemma zlen_sub {A} (s : list A) pos n :
  0 <= pos <= zlen s -> 0 <= n -> zlen (sub s pos n) = Z.min n (zlen s - pos).
Proof. intros. unfold sub. rewrite zlen_take, zlen_drop. lia. Qed.

(** [std::string::resize]: cut, or padded with zero bytes. *)
Definition resize (s : list byte) (n : Z) : list byte :=
  take (Z.to_nat n) s ++ replicate (Z.to_nat n - length s) Byte.x00.

(** ** Exceptions

    A function that can throw returns [result]; [Throw] carries the C++
    exception. [undefined] is no exception: it marks an access outside of a
    container, whose effect the language leaves open, and a loop that has used
    up its fuel; theorems about a function exclude it by listing the exceptions
    that are possible. *)

Inductive exn :=
| out_of_range (what : string)
| runtime_error (what : string)
| invalid_argument (what : string)
| length_error (what : string)
| unix_error (attempt : string) (code : Z)
| tagged_error (category attempt : string) (code : Z)
| undefined (what : string).

Inductive result (A : Type) :=
| Ok (a : A)
| Throw (e : exn).
Arguments Ok {A} a.
Arguments Throw {A} e.

#[export] Instance result_ret : MRet result := fun A => @Ok A.
#[export] Instance result_bind : MBind result := fun A B f r =>
  match r with Ok a => f a | Throw e => Throw e end.
#[export] Instance result_fmap : FMap result := fun A B f r =>
  match r with Ok a => Ok (f a) | Throw e => Throw e end.

(** [std::string::substr]: throws when the position is past the end. *)
Definition substr {A} (s : list A) (pos n : Z) : result (list A) :=
  if zlen s <? pos then Throw (out_of_range "basic_string::substr")
  else Ok (sub s pos n).

Lemma substr_ok {A} (s : list A) pos n :
  pos <= zlen s -> substr s pos n = Ok (sub s pos n).
Proof. intros. unfold substr. destruct (Z.ltb_spec (zlen s) pos); [lia|done]. Qed.

(** ** Lists addressed by [Z] positions *)

(** The character at position [i], if there is one. *)
Definition zget {A} (s : list A) (i : Z) : option A :=
  if i <? 0 then None else s !! Z.to_nat i.

Lemma zget_Some {A} (s : list A) i x :
  zget s i = Some x -> 0 <= i < zlen s.
Proof.
  unfold zget, zlen. destruct (Z.ltb_spec i 0); [done|].
  intros ?%lookup_lt_Some. lia.
Qed.

Lemma zget_None {A} (s : list A) i : zget s i = None <-> i < 0 \/ zlen s <= i.
Proof.
  unfold zget, zlen. destruct (Z.ltb_spec i 0); [split; auto with lia|].
  rewrite lookup_ge_None. lia.
Qed.

Lemma zget_is_Some {A} (s : list A) i :
  0 <= i < zlen s -> is_Some (zget s i).
Proof.
  intros. destruct (zget s i) eqn:E; [eauto|]. apply zget_None in E. lia.
Qed.

Lemma zget_app {A} (s t : list A) i :
  0 <= i ->
  zget (s ++ t) i = if i <? zlen s then zget s i else zget t (i - zlen s).
Proof.
  intros. unfold zget, zlen. destruct (Z.ltb_spec i 0); [lia|].
  destruct (Z.ltb_spec i (Z.of_nat (length s))).
  - by rewrite lookup_app_l by lia.
  - destruct (Z.ltb_spec (i - Z.of_nat (length s)) 0); [lia|].
    rewrite lookup_app_r by lia. f_equal. lia.
Qed.

Lemma zget_sub {A} (s : list A) pos n i :
  0 <= pos <= zlen s -> 0 <= i -> 
  zget (sub s pos n) i = if i <? n then zget s (pos + i) else None.
Proof.
  intros Hp Hi. unfold zget, sub, zlen in *.
  destruct (Z.ltb_spec i 0), (Z.ltb_spec (pos + i) 0); try lia.
  destruct (Z.ltb_spec i n).
  - destruct (decide (pos + i < Z.of_nat (length s))).
    + rewrite lookup_take_lt by lia. rewrite lookup_drop. f_equal. lia.
    + rewrite lookup_take_ge by lia. symmetry. apply lookup_ge_None. lia.
  - apply lookup_take_ge. lia.
Qed.

Lemma zget_ext {A} (s t : list A) :
  (forall i, 0 <= i -> zget s i = zget t i) -> s = t.
Proof.
  intros H. apply list_eq. intros i. specialize (H (Z.of_nat i)).
  unfold zget in H. destruct (Z.ltb_spec (Z.of_nat i) 0); [lia|].
  rewrite Nat2Z.id in H. apply H. lia.
Qed.

(** Splitting a substring. *)
Lemma sub_add {A} (s : list A) pos n m :
  0 <= pos -> 0 <= n -> 0 <= m -> pos + n <= zlen s ->
  sub s pos (n + m) = sub s pos n ++ sub s (pos + n) m.
Proof.
  intros. apply zget_ext. intros i Hi. pose proof (zlen_sub s pos n).
  rewrite zget_app by done. rewrite !zget_sub by lia.
  destruct (Z.ltb_spec i (zlen (sub s pos n))); destruct (Z.ltb_spec i (n+m)), (Z.ltb_spec i n); try lia; try done.
  - rewrite zget_sub by lia. destruct (Z.ltb_spec (i - zlen (sub s pos n)) m); [f_equal; lia|lia].
  - rewrite zget_sub by lia. destruct (Z.ltb_spec (i - zlen (sub s pos n)) m); [lia|done].
Qed.

Lemma sub_prefix {A} (s a b : list A) pos :
  0 <= pos <= zlen s -> a ++ b = sub s pos (zlen (a ++ b)) -> a = sub s pos (zlen a).
Proof.
  intros Hp E. apply zget_ext. intros i Hi. rewrite zget_sub by done.
  pose proof (zget_app a b i Hi) as Ha. rewrite E, zget_sub, zlen_app in Ha by done.
  pose proof (zlen_nonneg b).
  destruct (Z.ltb_spec i (zlen a)).
  - destruct (Z.ltb_spec i (zlen a + zlen b)); [done|lia].
  - apply zget_None. lia.
Qed.

Lemma sub_0 {A} (s : list A) pos : sub s pos 0 = [].
Proof. unfold sub. by replace (Z.to_nat _) with 0%nat by lia. Qed.

Lemma mod_mul_add x q v n : n <> 0 -> ((x mod n) * q + v) mod n = (x * q + v) mod n.
Proof.
  intros Hn. rewrite <- (Zplus_mod_idemp_l (_ * q)), Zmult_mod_idemp_l, Zplus_mod_idemp_l. done.
Qed.
