(* ===== verification/Text.v ===== *)
(** * Text

    What the sources use of the C and C++ libraries to read and write text:
    strings up to their terminator, numbers in decimal and hexadecimal as the
    output streams print them, [strtol], [stoi], [strncmp], and the dotted form
    of an IPv4 address that [inet_ntoa] and [inet_ntop] produce. A text is a
    list of bytes. *)

From S2P Require Import Prelude.

(** A literal of the source. *)
Definition txt (s : string) : list byte := String.list_byte_of_string s.

(** The end of a line. *)
Definition nl : list byte := [Byte.x0a].

(** What a function that takes [s.c_str()] sees of [s]. *)
Fixpoint c_str (s : list byte) : list byte :=
  match s with
  | [] => []
  | c :: s => if b2z c =? 0 then [] else c :: c_str s
  end.

(** [strncmp(a, b, n) == 0] for two strings without inner terminators. *)
Definition strncmp_eq (a b : list byte) (n : nat) : bool :=
  bool_decide (take n (a ++ [Byte.x00]) = take n (b ++ [Byte.x00])).

(** ** Writing numbers *)

Definition digit (d : Z) : byte := z2b (if d <? 10 then 48 + d else 87 + d).

(** The digits of [n] before [acc]. *)
Fixpoint digits (base : Z) (fuel : nat) (n : Z) (acc : list byte) : list byte :=
  match fuel with
  | O => acc
  | S fuel =>
      let acc := digit (n mod base) :: acc in
      if n <? base then acc else digits base fuel (n / base) acc
  end.

(** Sixty-four digits are enough for 64 bits in any base. *)
Definition number (base n : Z) : list byte :=
  if n <? 0 then Byte.x2d :: digits base 64 (- n) [] else digits base 64 n [].

(** [std::to_string], and what a stream prints after [dec] and after [hex]. *)
Definition decimal (n : Z) : list byte := number 10 n.
Definition hexadecimal (n : Z) : list byte := number 16 n.

(** [setw(width)] with a fill character. *)
Definition setw (width : nat) (fill : byte) (s : list byte) : list byte :=
  replicate (width - length s) fill ++ s.

Definition spaces (n : Z) : list byte := replicate (Z.to_nat n) Byte.x20.

(** [boolalpha] *)
Definition boolalpha (b : bool) : list byte := txt (if b then "true" else "false").

(** The dotted form of an address given in host order. *)
Definition dotted (ip : Z) : list byte :=
  decimal (ip / 2 ^ 24 mod 2 ^ 8) ++ txt "." ++ decimal (ip / 2 ^ 16 mod 2 ^ 8) ++ txt "." ++
  decimal (ip / 2 ^ 8 mod 2 ^ 8) ++ txt "." ++ decimal (ip mod 2 ^ 8).

(** ** Reading numbers *)

Definition isspace (c : byte) : bool :=
  (b2z c =? 32) || ((9 <=? b2z c) && (b2z c <=? 13)).

Definition digit_value (c : byte) : option Z :=
  let v := b2z c in
  if (48 <=? v) && (v <=? 57) then Some (v - 48)
  else if (97 <=? v) && (v <=? 122) then Some (v - 87)
  else if (65 <=? v) && (v <=? 90) then Some (v - 55)
  else None.

Definition is_digit (base : Z) (c : byte) : bool :=
  match digit_value c with Some d => d <? base | None => false end.

Fixpoint skip_spaces (s : list byte) : list byte :=
  match s with
  | c :: rest => if isspace c then skip_spaces rest else s
  | [] => []
  end.

(** The digits at the front of [s], after the number [acc]; [None] when there
    has been no digit. *)
Fixpoint scan (base : Z) (s : list byte) (acc : option Z) : option Z * list byte :=
  match s with
  | c :: rest =>
      match digit_value c with
      | Some d => if d <? base then scan base rest (Some (default 0 acc * base + d)) else (acc, s)
      | None => (acc, s)
      end
  | [] => (acc, s)
  end.

(** The base that [strtol] uses and the digits it looks at. *)
Definition detect (base : Z) (s : list byte) : Z * list byte :=
  match s with
  | c0 :: c1 :: c2 :: rest =>
      if (b2z c0 =? 48) && ((b2z c1 =? 120) || (b2z c1 =? 88)) && is_digit 16 c2 &&
         ((base =? 0) || (base =? 16))
      then (16, c2 :: rest)
      else if base =? 0 then (if b2z c0 =? 48 then 8 else 10, s) else (base, s)
  | c0 :: _ => if base =? 0 then (if b2z c0 =? 48 then 8 else 10, s) else (base, s)
  | [] => (if base =? 0 then 10 else base, s)
  end.

Definition LONG_MAX : Z := 2 ^ 63 - 1.
Definition LONG_MIN : Z := - 2 ^ 63.

(** [strtol]: the value, [None] when nothing was converted (the function then
    returns zero), and what follows. *)
Definition strtol_scan (s : list byte) (base : Z) : option Z * list byte :=
  let s := skip_spaces s in
  let '(negative, s) :=
    match s with
    | c :: rest => if b2z c =? 45 then (true, rest) else if b2z c =? 43 then (false, rest) else (false, s)
    | [] => (false, s)
    end in
  let '(base, s) := detect base s in
  let '(v, rest) := scan base s None in
  (option_map (fun v => Z.max LONG_MIN (Z.min LONG_MAX (if negative then - v else v))) v, rest).

Definition strtol (s : list byte) (base : Z) : Z := default 0 (strtol_scan s base).1.

Definition stoi (s : list byte) : result Z :=
  match (strtol_scan s 10).1 with
  | None => Throw (invalid_argument "stoi")
  | Some v =>
      if (v <? - 2 ^ 31) || (2 ^ 31 - 1 <? v) then Throw (out_of_range "stoi") else Ok v
  end.

(** ** What is written can be read *)

Lemma digit_value_digit d : 0 <= d < 36 -> digit_value (digit d) = Some d.
Proof.
  intros Hd. unfold digit_value, digit. rewrite b2z_z2b. destruct (Z.ltb_spec d 10); rewrite u8_small by lia.
  - rewrite (proj2 (Z.leb_le 48 _)), (proj2 (Z.leb_le _ 57)) by lia. cbn. f_equal. lia.
  - rewrite (proj2 (Z.leb_gt _ 57)), andb_false_r by lia.
    rewrite (proj2 (Z.leb_le 97 _)), (proj2 (Z.leb_le _ 122)) by lia. cbn. f_equal. lia.
Qed.

Lemma digit_is_digit base d : 0 <= d < base -> base <= 36 -> is_digit base (digit d) = true.
Proof. intros. unfold is_digit. rewrite digit_value_digit by lia. apply Z.ltb_lt. lia. Qed.

Section numbers.
Context (base : Z) (Hb : 2 <= base <= 36).

Lemma digits_are_digits fuel n acc :
  0 <= n -> Forall (fun c => is_digit base c) acc -> Forall (fun c => is_digit base c) (digits base fuel n acc).
Proof.
  revert n acc. induction fuel as [|fuel IH]; intros n acc Hn Ha; cbn [digits]; [done|].
  assert (Hd : Forall (fun c => is_digit base c) (digit (n mod base) :: acc)).
  { constructor; [|done]. rewrite digit_is_digit; [done| |lia]. apply Z.mod_pos_bound. lia. }
  destruct (_ <? _); [done|]. apply IH; [|done]. apply Z.div_pos; lia.
Qed.

(** Leading digits of a number add to what has been read. *)
Lemma scan_digits fuel n acc rest :
  0 <= n < base ^ Z.of_nat fuel -> (0 < fuel)%nat ->
  scan base (digits base fuel n acc ++ rest) None = scan base (acc ++ rest) (Some n).
Proof.
  revert n acc. induction fuel as [|fuel IH]; intros n acc Hn Hf; [lia|]. cbn [digits].
  pose proof (Z.mod_pos_bound n base ltac:(lia)) as Hm.
  assert (Hs : forall v0, scan base ((digit (n mod base) :: acc) ++ rest) v0 =
    scan base (acc ++ rest) (Some (default 0 v0 * base + n mod base))).
  { intros v0. cbn [app scan]. rewrite digit_value_digit by lia.
    by rewrite (proj2 (Z.ltb_lt _ _)) by lia. }
  destruct (Z.ltb_spec n base).
  { rewrite Hs. cbn [default]. do 2 f_equal. rewrite Z.mod_small by lia. lia. }
  destruct fuel as [|fuel]; [cbn in Hn; lia|].
  rewrite IH; [|split; [apply Z.div_pos; lia|]|lia].
  - rewrite Hs. cbn [default]. unfold id. do 2 f_equal. pose proof (Z.div_mod n base). lia.
  - apply Z.div_lt_upper_bound; [lia|]. rewrite <- Z.pow_succ_r by lia. rewrite <- Nat2Z.inj_succ. lia.
Qed.

Lemma base_pow n : n < 2 ^ 64 -> n < base ^ Z.of_nat 64.
Proof. intros. pose proof (Z.pow_le_mono_l 2 base 64). lia. Qed.

Lemma scan_number n rest :
  0 <= n < 2 ^ 64 ->
  scan base (number base n ++ rest) None = scan base rest (Some n).
Proof.
  intros Hn. unfold number. rewrite (proj2 (Z.ltb_ge _ _)) by lia.
  by rewrite (scan_digits 64 n [] rest (conj (proj1 Hn) (base_pow n (proj2 Hn)))) by lia.
Qed.

Lemma number_digits n : 0 <= n -> Forall (fun c => is_digit base c) (number base n).
Proof.
  intros. unfold number. rewrite (proj2 (Z.ltb_ge _ _)) by lia. by apply digits_are_digits.
Qed.

Lemma digits_cons fuel n acc : fuel <> O \/ acc <> [] -> exists c l, digits base fuel n acc = c :: l.
Proof.
  revert n acc. induction fuel as [|fuel IH]; intros n acc Hf; cbn [digits].
  - destruct acc; [by destruct Hf|eauto].
  - destruct (_ <? _); [eauto|]. apply IH. by right.
Qed.

Lemma number_cons n : 0 <= n -> exists c l, number base n = c :: l.
Proof.
  intros. unfold number. rewrite (proj2 (Z.ltb_ge _ _)) by lia. apply digits_cons. by left.
Qed.

(** A text that does not begin with a digit. *)
Definition no_digit (s : list byte) : Prop :=
  match s with c :: _ => is_digit base c = false | [] => True end.

Lemma scan_no_digit s acc : no_digit s -> scan base s acc = (acc, s).
Proof.
  destruct s as [|c s]; [done|]. cbn. unfold is_digit. destruct (digit_value c); [|done]. by intros ->.
Qed.

(** The text of a number ends where the digits end: two texts that begin with
    a number agree on the number and on the rest. *)
Lemma number_inj n n' rest rest' :
  0 <= n < 2 ^ 64 -> 0 <= n' < 2 ^ 64 -> no_digit rest -> no_digit rest' ->
  number base n ++ rest = number base n' ++ rest' -> n = n' /\ rest = rest'.
Proof.
  intros Hn Hn' Hr Hr' E. apply (f_equal (fun s => scan base s None)) in E.
  rewrite !scan_number, !scan_no_digit in E by done. by simplify_eq.
Qed.

End numbers.

Lemma is_digit_10 c : is_digit 10 c = true -> 48 <= b2z c <= 57.
Proof.
  unfold is_digit, digit_value. pose proof (b2z_range c).
  destruct (Z.leb_spec 48 (b2z c)), (Z.leb_spec (b2z c) 57); cbn; intros Hd; try lia;
  destruct (Z.leb_spec 97 (b2z c)), (Z.leb_spec (b2z c) 122), (Z.leb_spec 65 (b2z c)), (Z.leb_spec (b2z c) 90);
  cbn in Hd; try done; apply Z.ltb_lt in Hd; lia.
Qed.

(** [strtol] reads back what [to_string] wrote, once it looks for base ten. *)
Lemma strtol_detected base n rest :
  0 <= n < 2 ^ 63 -> no_digit 10 rest -> detect base (decimal n ++ rest) = (10, decimal n ++ rest) ->
  strtol_scan (decimal n ++ rest) base = (Some n, rest).
Proof.
  intros Hn Hr Hb. unfold strtol_scan, decimal in *.
  destruct (number_cons 10 n) as (c & l & Hc); [lia..|].
  pose proof (number_digits 10 ltac:(lia) n ltac:(lia)) as Hd. rewrite Hc in Hd.
  apply Forall_cons in Hd as [Hd _]. apply Is_true_true, is_digit_10 in Hd.
  pose proof (scan_number 10 ltac:(lia) n rest ltac:(lia)) as Hs. rewrite (scan_no_digit 10 rest) in Hs by done.
  rewrite Hc in *. cbn [app] in *. cbn [skip_spaces]. unfold isspace.
  rewrite (proj2 (Z.eqb_neq (b2z c) 32)), (proj2 (Z.leb_gt (b2z c) 13)), andb_false_r by lia. cbn [orb].
  rewrite (proj2 (Z.eqb_neq (b2z c) 45)), (proj2 (Z.eqb_neq (b2z c) 43)) by lia.
  rewrite Hb, Hs. cbn [option_map]. unfold LONG_MAX, LONG_MIN. do 2 f_equal. lia.
Qed.

Lemma strtol_decimal n rest :
  0 <= n < 2 ^ 63 -> no_digit 10 rest ->
  strtol_scan (decimal n ++ rest) 10 = (Some n, rest).
Proof.
  intros Hn Hr. apply strtol_detected; [done|done|].
  unfold detect. destruct (decimal n ++ rest) as [|c0 [|c1 [|c2 l']]]; [done..|]. cbn. by rewrite andb_false_r.
Qed.

(** A positive number does not start with a zero. *)
Lemma digits_head fuel n acc :
  0 < n < 10 ^ Z.of_nat fuel -> exists d l, digits 10 fuel n acc = digit d :: l /\ 0 < d < 10.
Proof.
  revert n acc. induction fuel as [|fuel IH]; intros n acc Hn; [cbn in Hn; lia|]. cbn [digits].
  destruct (Z.ltb_spec n 10) as [Hs|Hs]; [rewrite Z.mod_small by lia; exists n, acc; split; [done|lia]|].
  apply IH. rewrite Nat2Z.inj_succ, Z.pow_succ_r in Hn by lia.
  split; [apply Z.div_str_pos; lia|apply Z.div_lt_upper_bound; lia].
Qed.

(** Without a base, a decimal number is taken for one. *)
Lemma strtol_any n : 0 <= n < 2 ^ 63 -> strtol (decimal n) 0 = n.
Proof.
  intros Hn. destruct (Z.eq_dec n 0) as [->|]; [reflexivity|]. unfold strtol.
  rewrite <- (app_nil_r (decimal n)). rewrite strtol_detected; [done|done|done|].
  rewrite app_nil_r. unfold decimal, number. rewrite (proj2 (Z.ltb_ge _ _)) by lia.
  destruct (digits_head 64 n []) as (d & l & -> & Hd); [pose proof (base_pow 10); lia|].
  assert ((b2z (digit d) =? 48) = false) as Hz.
  { unfold digit. rewrite (proj2 (Z.ltb_lt d 10)), b2z_z2b, u8_small by lia. apply Z.eqb_neq. lia. }
  unfold detect. by destruct l as [|? [|? ?]]; rewrite Hz.
Qed.

Lemma stoi_decimal n : 0 <= n < 2 ^ 31 -> stoi (decimal n) = Ok n.
Proof.
  intros Hn. pose proof (strtol_decimal n [] ltac:(lia) I) as Hs. rewrite app_nil_r in Hs.
  unfold stoi. rewrite Hs. cbn [fst].
  rewrite (proj2 (Z.ltb_ge n _)), (proj2 (Z.ltb_ge _ n)) by lia. done.
Qed.

Lemma c_str_clean s : Forall (fun c => b2z c <> 0) s -> c_str s = s.
Proof.
  induction 1 as [|c s Hc _ IH]; cbn; [done|]. rewrite (proj2 (Z.eqb_neq _ _)) by done. by rewrite IH.
Qed.

Lemma decimal_clean n : 0 <= n -> Forall (fun c => b2z c <> 0) (decimal n).
Proof.
  intros Hn. eapply Forall_impl; [apply (number_digits 10); lia|]. cbn.
  intros c Hc%Is_true_true%is_digit_10. lia.
Qed.

Lemma dotted_clean ip : Forall (fun c => b2z c <> 0) (dotted ip).
Proof.
  unfold dotted. repeat (apply Forall_app; split); try (apply decimal_clean; apply Z.mod_pos_bound; lia);
    by repeat constructor.
Qed.

(** Different addresses have different texts. *)
Lemma dotted_inj a b : 0 <= a < 2 ^ 32 -> 0 <= b < 2 ^ 32 -> dotted a = dotted b -> a = b.
Proof.
  intros Ha Hb E. unfold dotted, decimal in E.
  pose proof (fun z => Z.mod_pos_bound z (2 ^ 8) eq_refl) as Hm.
  apply (number_inj 10) in E as [E1 E]; [|lia|pose proof (Hm (a / 2 ^ 24)); lia|pose proof (Hm (b / 2 ^ 24)); lia|done..].
  apply app_inv_head, (number_inj 10) in E as [E2 E]; [|lia|pose proof (Hm (a / 2 ^ 16)); lia|pose proof (Hm (b / 2 ^ 16)); lia|done..].
  apply app_inv_head, (number_inj 10) in E as [E3 E]; [|lia|pose proof (Hm (a / 2 ^ 8)); lia|pose proof (Hm (b / 2 ^ 8)); lia|done..].
  apply app_inv_head in E. rewrite <- (app_nil_r (number 10 (a mod _))), <- (app_nil_r (number 10 (b mod _))) in E.
  apply (number_inj 10) in E as [E4 _]; [|lia|pose proof (Hm a); lia|pose proof (Hm b); lia|done..].
  clear -Ha Hb E1 E2 E3 E4. Z.div_mod_to_equations. lia.
Qed.
