(* ===== verification/WrappingIntegers.v ===== *)
(** * Wrapping 32-bit sequence numbers

    Models [src/libsponge/wrapping_integers.hh] and [.cc]: the class
    [WrappingInt32], its operators, and [wrap] / [unwrap] between 64-bit
    absolute and 32-bit relative sequence numbers. *)

From S2P Require Import Prelude.

(** ** Data and operations *)

Record WrappingInt32 := { raw_value : Z }.

#[export] Instance WrappingInt32_eq_dec : EqDecision WrappingInt32.
Proof. solve_decision. Defined.

(** The constructor takes a [uint32_t]. *)
Definition wrapping_int32 (raw : Z) : WrappingInt32 := {| raw_value := u32 raw |}.

(** [operator-(WrappingInt32, WrappingInt32)]: the difference as an [int32_t]. *)
Definition sub_wrapping (a b : WrappingInt32) : Z :=
  s32 (u32 (raw_value a - raw_value b)).

(** [operator==] and [operator!=]. *)
Definition eqb_wrapping (a b : WrappingInt32) : bool := raw_value a =? raw_value b.
Definition neqb_wrapping (a b : WrappingInt32) : bool := negb (eqb_wrapping a b).

(** [operator+(WrappingInt32, uint32_t)] and [operator-(WrappingInt32, uint32_t)]. *)
Definition add_u32 (a : WrappingInt32) (b : Z) : WrappingInt32 :=
  wrapping_int32 (raw_value a + b).
Definition sub_u32 (a : WrappingInt32) (b : Z) : WrappingInt32 :=
  add_u32 a (u32 (- b)).

Definition wrap (n : Z) (isn : WrappingInt32) : WrappingInt32 :=
  let seqno := u32 (u64 (n + raw_value isn)) in
  wrapping_int32 seqno.

Definition unwrap (n isn : WrappingInt32) (checkpoint : Z) : Z :=
  let delta := sub_wrapping n (wrap checkpoint isn) in
  let ans := s64 (u64 (checkpoint + delta)) in
  if 0 <=? ans then ans else u64 (ans + Z.shiftl 1 32).

(** A value the program can hold: the stored integer fits in 32 bits. *)
Definition wi_wf (a : WrappingInt32) : Prop := 0 <= raw_value a < 2 ^ 32.

(** ** Shared lemmas *)

Lemma wrapping_eq a b : raw_value a = raw_value b -> a = b.
Proof. destruct a, b. simpl. congruence. Qed.

Lemma wi_wf_wrapping_int32 z : wi_wf (wrapping_int32 z).
Proof. apply u32_range. Qed.
Lemma wi_wf_wrap n isn : wi_wf (wrap n isn).
Proof. apply wi_wf_wrapping_int32. Qed.
#[export] Hint Resolve wi_wf_wrapping_int32 wi_wf_wrap : sponge.

Lemma raw_wrap n isn : raw_value (wrap n isn) = (n + raw_value isn) mod 2 ^ 32.
Proof. unfold wrap, wrapping_int32. simpl. word. Qed.

(** [n] and [isn + r] name the same relative number. *)
Definition represents (n isn : WrappingInt32) (r : Z) : Prop := wrap r isn = n.

Lemma represents_cong n isn r r' :
  represents n isn r -> represents n isn r' -> (r - r') mod 2 ^ 32 = 0.
Proof.
  unfold represents. intros <- H. apply (f_equal raw_value) in H.
  rewrite !raw_wrap in H. word.
Qed.

(** What [unwrap] computes while the checkpoint stays clear of the sign bit. *)
Lemma unwrap_spec n isn cp :
  wi_wf n -> wi_wf isn -> 0 <= cp < 2 ^ 63 - 2 ^ 31 ->
  let d := (n.(raw_value) - isn.(raw_value) - cp + 2 ^ 31) mod 2 ^ 32 - 2 ^ 31 in
  unwrap n isn cp = if 0 <=? cp + d then cp + d else cp + d + 2 ^ 32.
Proof.
  intros Hn Hi Hc d. unfold wi_wf in Hn, Hi.
  assert (Hd : sub_wrapping n (wrap cp isn) = d).
  { unfold sub_wrapping. rewrite raw_wrap. subst d. word. }
  unfold unwrap. rewrite Hd. change (Z.shiftl 1 32) with (2 ^ 32).
  assert (Hr : - 2 ^ 31 <= d < 2 ^ 31) by (subst d; word).
  assert (Hs : s64 (u64 (cp + d)) = cp + d) by word.
  rewrite Hs. destruct (Z.leb_spec 0 (cp + d)); [done|]. apply u64_small. lia.
Qed.

(** With a checkpoint below [2^31] the absolute number is the unsigned
    distance from the initial sequence number. *)
Lemma unwrap_small_checkpoint n isn cp :
  wi_wf n -> wi_wf isn -> 0 <= cp < 2 ^ 31 ->
  unwrap n isn cp = (raw_value n - raw_value isn) mod 2 ^ 32.
Proof.
  intros Hn Hi Hc. rewrite unwrap_spec by (auto; lia).
  destruct (Z.leb_spec 0 (cp + ((raw_value n - raw_value isn - cp + 2 ^ 31) mod 2 ^ 32 - 2 ^ 31)));
    unfold wi_wf in *; word.
Qed.

Lemma unwrap_nonneg n isn cp : 0 <= unwrap n isn cp.
Proof.
  unfold unwrap. destruct (Z.leb_spec 0 (s64 (u64 (cp + sub_wrapping n (wrap cp isn))))); [done|].
  apply u64_range.
Qed.

Lemma unwrap_represents_lem n isn cp :
  wi_wf n -> wi_wf isn -> 0 <= cp < 2 ^ 63 - 2 ^ 31 ->
  represents n isn (unwrap n isn cp).
Proof.
  intros Hn Hi Hc. unfold represents. apply wrapping_eq. rewrite raw_wrap.
  rewrite unwrap_spec by done.
  destruct (Z.leb_spec 0 (cp + ((raw_value n - raw_value isn - cp + 2 ^ 31) mod 2 ^ 32 - 2 ^ 31)));
    unfold wi_wf in *; word.
Qed.

(** The round trip used by the sender and the receiver. *)
Lemma unwrap_wrap_lem n isn cp :
  wi_wf isn -> 0 <= cp < 2 ^ 63 - 2 ^ 31 -> 0 <= n ->
  - 2 ^ 31 <= n - cp < 2 ^ 31 ->
  unwrap (wrap n isn) isn cp = n.
Proof.
  intros Hi Hc Hn Hd. rewrite unwrap_spec by auto with sponge.
  rewrite raw_wrap. unfold wi_wf in Hi.
  assert (E : ((n + raw_value isn) mod 2 ^ 32 - raw_value isn - cp + 2 ^ 31) mod 2 ^ 32 - 2 ^ 31
              = n - cp) by word.
  rewrite E. destruct (Z.leb_spec 0 (cp + (n - cp))); lia.
Qed.

(** ** Properties *)

(** Round trip. An absolute sequence number within 2^31 of the checkpoint
    survives [wrap] followed by [unwrap]. *)
Theorem unwrap_wrap n isn cp :
  wi_wf isn -> 0 <= cp < 2 ^ 63 - 2 ^ 31 -> 0 <= n ->
  - 2 ^ 31 <= n - cp < 2 ^ 31 ->
  unwrap (wrap n isn) isn cp = n.
Proof. apply unwrap_wrap_lem. Qed.

Lemma unwrap_wrap_witness :
  unwrap (wrap (2 ^ 33 + 5) (wrapping_int32 4294967290)) (wrapping_int32 4294967290) (2 ^ 33)
  = 2 ^ 33 + 5.
Proof. apply unwrap_wrap; [apply wi_wf_wrapping_int32|lia|lia|lia]. Defined.

(** C30: the documented contract of [unwrap], for checkpoints below
    2^63 - 2^31: the result wraps to [n], and no other absolute sequence number
    that wraps to [n] is closer to the checkpoint. (For checkpoints from 2^63 on
    it fails: [unwrap_high_checkpoint].) *)
Theorem unwrap_closest n isn cp m :
  wi_wf n -> wi_wf isn -> 0 <= cp < 2 ^ 63 - 2 ^ 31 ->
  0 <= m -> wrap m isn = n ->
  wrap (unwrap n isn cp) isn = n /\ Z.abs (unwrap n isn cp - cp) <= Z.abs (m - cp).
Proof.
  intros Hn Hi Hc Hm Hw. split; [by apply unwrap_represents_lem|].
  pose proof (represents_cong _ _ _ _ Hw (unwrap_represents_lem n isn cp Hn Hi Hc)) as Hmod.
  revert Hmod. rewrite unwrap_spec by done. clear Hw. unfold wi_wf in *.
  set (d := (raw_value n - raw_value isn - cp + 2 ^ 31) mod 2 ^ 32 - 2 ^ 31).
  assert (- 2 ^ 31 <= d < 2 ^ 31) by (subst d; word). clearbody d.
  destruct (Z.leb_spec 0 (cp + d)); intros; word.
Qed.

Lemma unwrap_closest_witness :
  wrap (unwrap (wrapping_int32 16) (wrapping_int32 16) (2 ^ 32 - 1)) (wrapping_int32 16)
    = wrapping_int32 16 /\
  Z.abs (unwrap (wrapping_int32 16) (wrapping_int32 16) (2 ^ 32 - 1) - (2 ^ 32 - 1)) <= Z.abs (0 - (2 ^ 32 - 1)).
Proof.
  apply unwrap_closest; [apply wi_wf_wrapping_int32..|lia|lia|reflexivity].
Defined.

(** The contract fails for checkpoints with the top bit set. There the
    [int64_t] intermediate value is negative, so [unwrap] adds 2^32 although
    the checkpoint itself already wraps to the given number. *)
Theorem unwrap_high_checkpoint isn cp :
  wi_wf isn -> 2 ^ 63 <= cp < 2 ^ 64 - 2 ^ 32 ->
  unwrap (wrap cp isn) isn cp = cp + 2 ^ 32.
Proof.
  intros Hi Hc. unfold unwrap.
  assert (Hd : sub_wrapping (wrap cp isn) (wrap cp isn) = 0).
  { unfold sub_wrapping. rewrite Z.sub_diag. reflexivity. }
  rewrite Hd. change (Z.shiftl 1 32) with (2 ^ 32).
  assert (s64 (u64 (cp + 0)) = cp - 2 ^ 64) as -> by word.
  destruct (Z.leb_spec 0 (cp - 2 ^ 64)); word.
Qed.

Lemma unwrap_high_checkpoint_witness :
  unwrap (wrap (2 ^ 63) (wrapping_int32 0)) (wrapping_int32 0) (2 ^ 63) = 2 ^ 63 + 2 ^ 32.
Proof. apply unwrap_high_checkpoint; [apply wi_wf_wrapping_int32|lia]. Defined.

(** The difference operator. [a - b] is the signed number of increments
    from [b] to [a], and it is negative exactly when going down from [b] takes
    at most as many steps as going up. *)
Theorem sub_wrapping_spec a b :
  wi_wf a -> wi_wf b ->
  add_u32 b (u32 (sub_wrapping a b)) = a /\
  - 2 ^ 31 <= sub_wrapping a b < 2 ^ 31 /\
  (sub_wrapping a b < 0 <->
   a <> b /\ u32 (raw_value b - raw_value a) <= u32 (raw_value a - raw_value b)).
Proof.
  unfold wi_wf. intros Ha Hb. unfold sub_wrapping, add_u32, wrapping_int32.
  split; [apply wrapping_eq; simpl; word|]. split; [word|].
  assert (Hne : a <> b <-> raw_value a <> raw_value b).
  { split; [intros H E; by apply H, wrapping_eq|congruence]. }
  rewrite Hne. word.
Qed.

Lemma sub_wrapping_spec_witness :
  add_u32 (wrapping_int32 4294967295) (u32 (sub_wrapping (wrapping_int32 1) (wrapping_int32 4294967295)))
    = wrapping_int32 1.
Proof.
  apply (sub_wrapping_spec (wrapping_int32 1) (wrapping_int32 4294967295));
    apply wi_wf_wrapping_int32.
Defined.
