(* ===== verification/ByteStream.v ===== *)
(** * The in-order byte stream

    Models class [ByteStream] of [src/libsponge/byte_stream.hh] and [.cc]: a
    bounded FIFO with total counters, an end-of-input flag and an error flag.
    The second half gives the abstract FIFO the class promises and proves that
    every sequence of calls refines it. *)

From S2P Require Import Prelude.

(** ** State and operations *)

Record ByteStream := {
  _buff : list byte;
  _totin : Z;
  _totout : Z;
  _capacity : Z;
  _isInputEnd : bool;
  _error : bool
}.

(** The constructor. *)
Definition new_ByteStream (capacity : Z) : ByteStream :=
  {| _buff := []; _totin := 0; _totout := 0; _capacity := capacity;
     _isInputEnd := false; _error := false |}.

Definition remaining_capacity (s : ByteStream) : Z := u64 (_capacity s - zlen (_buff s)).

(** Returns the number of bytes accepted and the new stream. *)
Definition write (s : ByteStream) (data : list byte) : Z * ByteStream :=
  let writeBytes := Z.min (zlen data) (remaining_capacity s) in
  (writeBytes,
   {| _buff := _buff s ++ sub data 0 writeBytes;
      _totin := u64 (_totin s + writeBytes);
      _totout := _totout s; _capacity := _capacity s;
      _isInputEnd := _isInputEnd s; _error := _error s |}).

Definition peek_output (s : ByteStream) (len : Z) : list byte :=
  let peekBytes := Z.min len (zlen (_buff s)) in
  sub (_buff s) 0 peekBytes.

Definition pop_output (s : ByteStream) (len : Z) : ByteStream :=
  let popBytes := Z.min len (zlen (_buff s)) in
  {| _buff := drop (Z.to_nat popBytes) (_buff s);
     _totin := _totin s;
     _totout := u64 (_totout s + popBytes);
     _capacity := _capacity s; _isInputEnd := _isInputEnd s; _error := _error s |}.

Definition read (s : ByteStream) (len : Z) : list byte * ByteStream :=
  let outbuff := peek_output s len in
  (outbuff, pop_output s (zlen outbuff)).

Definition end_input (s : ByteStream) : ByteStream :=
  {| _buff := _buff s; _totin := _totin s; _totout := _totout s;
     _capacity := _capacity s; _isInputEnd := true; _error := _error s |}.

Definition set_error (s : ByteStream) : ByteStream :=
  {| _buff := _buff s; _totin := _totin s; _totout := _totout s;
     _capacity := _capacity s; _isInputEnd := _isInputEnd s; _error := true |}.

Definition input_ended (s : ByteStream) : bool := _isInputEnd s.
Definition error (s : ByteStream) : bool := _error s.
Definition buffer_size (s : ByteStream) : Z := zlen (_buff s).
Definition buffer_empty (s : ByteStream) : bool := bool_decide (_buff s = []).
Definition eof (s : ByteStream) : bool := input_ended s && buffer_empty s.
Definition bytes_written (s : ByteStream) : Z := _totin s.
Definition bytes_read (s : ByteStream) : Z := _totout s.

(** ** Well-formedness *)

Record wf (s : ByteStream) : Prop := {
  wf_cap : 0 <= _capacity s < 2 ^ 64;
  wf_buff : zlen (_buff s) <= _capacity s;
  wf_totout : 0 <= _totout s < 2 ^ 64;
  wf_totin : _totin s = u64 (_totout s + zlen (_buff s))
}.

Lemma bs_wf_new c : 0 <= c < 2 ^ 64 -> wf (new_ByteStream c).
Proof. intros. constructor; simpl; rewrite ?zlen_nil; (lia || reflexivity). Qed.

Lemma remaining_capacity_eq s : wf s -> remaining_capacity s = _capacity s - zlen (_buff s).
Proof.
  intros []. unfold remaining_capacity. pose proof (zlen_nonneg (_buff s)). usmall. done.
Qed.

(** The number of bytes [write] accepts. *)
Lemma write_amount s data :
  wf s -> 0 <= fst (write s data) <= zlen data /\
          fst (write s data) <= _capacity s - zlen (_buff s).
Proof.
  intros H. simpl. rewrite remaining_capacity_eq by done.
  pose proof (zlen_nonneg data). destruct H. lia.
Qed.

Lemma wf_write s data : wf s -> wf (snd (write s data)).
Proof.
  intros H. pose proof (write_amount s data H) as Ha.
  destruct H as [H1 H2 H3 H4].
  unfold write in *. simpl in *.
  set (w := Z.min (zlen data) (remaining_capacity s)) in *.
  constructor; simpl; try done; rewrite ?zlen_app, ?(zlen_sub data 0 w) by lia.
  - lia.
  - rewrite H4. word.
Qed.

Lemma wf_pop s n : wf s -> 0 <= n -> wf (pop_output s n).
Proof.
  intros H Hn. pose proof (zlen_nonneg (_buff s)). destruct H as [H1 H2 H3 H4].
  constructor; simpl; rewrite ?zlen_drop; [done|lia|apply u64_range|].
  rewrite H4. set (k := Z.min n (zlen (_buff s))).
  replace (Z.max 0 (zlen (_buff s) - Z.of_nat (Z.to_nat k))) with (zlen (_buff s) - k) by lia.
  clearbody k. word.
Qed.

Lemma wf_read s n : wf s -> wf (snd (read s n)).
Proof. intros. apply wf_pop; auto with sponge. Qed.
Lemma wf_end_input s : wf s -> wf (end_input s).
Proof. by intros []; constructor. Qed.
Lemma wf_set_error s : wf s -> wf (set_error s).
Proof. by intros []; constructor. Qed.
#[export] Hint Resolve bs_wf_new wf_write wf_pop wf_read wf_end_input wf_set_error : sponge.

(** What [read] returns and leaves. *)
Lemma peek_output_take s n :
  0 <= n -> peek_output s n = take (Z.to_nat n) (_buff s).
Proof.
  intros. unfold peek_output, sub, zlen. rewrite drop_0.
  destruct (decide (n <= Z.of_nat (length (_buff s)))).
  - f_equal. lia.
  - rewrite !take_ge by lia. done.
Qed.

Lemma read_spec s n :
  0 <= n ->
  fst (read s n) = take (Z.to_nat n) (_buff s) /\
  _buff (snd (read s n)) = drop (Z.to_nat n) (_buff s).
Proof.
  intros. unfold read. simpl. rewrite peek_output_take by done. split; [done|].
  unfold zlen. rewrite length_take.
  destruct (decide (n <= Z.of_nat (length (_buff s)))).
  - f_equal. lia.
  - rewrite !drop_ge by lia. done.
Qed.

Lemma read_app s n : 0 <= n -> _buff s = fst (read s n) ++ _buff (snd (read s n)).
Proof. intros. destruct (read_spec s n) as [-> ->]; [done|]. by rewrite take_drop. Qed.

(** The read counter, while it does not wrap. *)
Lemma bytes_read_read s n :
  wf s -> bytes_read s + buffer_size s < 2 ^ 64 -> 0 <= n ->
  bytes_read (snd (read s n)) = bytes_read s + zlen (fst (read s n)).
Proof.
  intros Hwf Hb Hn. destruct (read_spec s n Hn) as [E _]. destruct Hwf.
  unfold bytes_read, buffer_size in *. pose proof (zlen_nonneg (_buff s)).
  rewrite E, zlen_take. simpl. rewrite peek_output_take, zlen_take by done.
  rewrite u64_small; lia.
Qed.

Lemma pop_output_buff s n :
  0 <= n -> _buff s = peek_output s n ++ _buff (pop_output s n).
Proof.
  intros. rewrite peek_output_take by done. simpl. unfold zlen.
  destruct (decide (n <= Z.of_nat (length (_buff s)))).
  - rewrite Z.min_l by lia. by rewrite take_drop.
  - rewrite Z.min_r by lia. rewrite take_ge by lia. rewrite drop_ge by lia.
    by rewrite app_nil_r.
Qed.

Lemma write_buff s data :
  wf s ->
  _buff (snd (write s data)) = _buff s ++ take (Z.to_nat (fst (write s data))) data.
Proof.
  intros H. pose proof (write_amount s data H). simpl in *. f_equal.
  unfold sub. rewrite drop_0. f_equal. lia.
Qed.

(** A write that fits is accepted whole. *)
Lemma write_fits s data :
  wf s -> zlen data <= _capacity s - zlen (_buff s) ->
  write s data =
  (zlen data,
   {| _buff := _buff s ++ data; _totin := u64 (_totin s + zlen data);
      _totout := _totout s; _capacity := _capacity s;
      _isInputEnd := _isInputEnd s; _error := _error s |}).
Proof.
  intros H Hf. unfold write. rewrite remaining_capacity_eq by done.
  rewrite Z.min_l by done. do 2 f_equal.
  unfold sub, zlen. rewrite drop_0. f_equal. apply take_ge. lia.
Qed.

Lemma write_nil s : wf s -> snd (write s []) = s.
Proof.
  intros H. rewrite write_fits by (done || (destruct H; autorewrite with zlen; lia)).
  destruct H as [_ _ _ H]. destruct s. simpl in *. autorewrite with zlen.
  rewrite app_nil_r, Z.add_0_r, H. f_equal. word.
Qed.

(** ** The abstract FIFO

    [accepted] is everything ever written, [taken] how much of it the reader
    has consumed; what is buffered is the part in between. *)

Module Fifo.

Record t := {
  accepted : list byte;
  taken : nat;
  ended : bool;
  failed : bool
}.

Definition init : t := {| accepted := []; taken := 0; ended := false; failed := false |}.

Definition contents (f : t) : list byte := drop (taken f) (accepted f).

End Fifo.

(** The calls a client can make, and what each returns. *)
Inductive call :=
| CWrite (data : list byte)
| CPeek (len : nat)
| CPop (len : nat)
| CRead (len : nat)
| CEndInput
| CSetError.

Inductive reply :=
| RCount (n : Z)
| RBytes (bs : list byte)
| RUnit.

(** A call on the class. *)
Definition exec (s : ByteStream) (c : call) : reply * ByteStream :=
  match c with
  | CWrite data => let '(n, s') := write s data in (RCount n, s')
  | CPeek len => (RBytes (peek_output s (Z.of_nat len)), s)
  | CPop len => (RUnit, pop_output s (Z.of_nat len))
  | CRead len => let '(bs, s') := read s (Z.of_nat len) in (RBytes bs, s')
  | CEndInput => (RUnit, end_input s)
  | CSetError => (RUnit, set_error s)
  end.

(** The same call on the abstract FIFO of capacity [cap]; once its input has
    ended, no more bytes can be written. *)
Definition fifo_exec (cap : Z) (f : Fifo.t) (c : call) : reply * Fifo.t :=
  let queued := Fifo.contents f in
  match c with
  | CWrite data =>
      let k := if Fifo.ended f then O else Nat.min (length data) (Z.to_nat cap - length queued) in
      (RCount (Z.of_nat k),
       {| Fifo.accepted := Fifo.accepted f ++ take k data; Fifo.taken := Fifo.taken f;
          Fifo.ended := Fifo.ended f; Fifo.failed := Fifo.failed f |})
  | CPeek len => (RBytes (take len queued), f)
  | CPop len =>
      (RUnit,
       {| Fifo.accepted := Fifo.accepted f;
          Fifo.taken := Fifo.taken f + Nat.min len (length queued);
          Fifo.ended := Fifo.ended f; Fifo.failed := Fifo.failed f |})
  | CRead len =>
      (RBytes (take len queued),
       {| Fifo.accepted := Fifo.accepted f;
          Fifo.taken := Fifo.taken f + Nat.min len (length queued);
          Fifo.ended := Fifo.ended f; Fifo.failed := Fifo.failed f |})
  | CEndInput =>
      (RUnit, {| Fifo.accepted := Fifo.accepted f; Fifo.taken := Fifo.taken f;
                 Fifo.ended := true; Fifo.failed := Fifo.failed f |})
  | CSetError =>
      (RUnit, {| Fifo.accepted := Fifo.accepted f; Fifo.taken := Fifo.taken f;
                 Fifo.ended := Fifo.ended f; Fifo.failed := true |})
  end.

Fixpoint exec_all (s : ByteStream) (cs : list call) : list reply * ByteStream :=
  match cs with
  | [] => ([], s)
  | c :: cs =>
      let '(r, s1) := exec s c in
      let '(rs, s2) := exec_all s1 cs in (r :: rs, s2)
  end.

Fixpoint fifo_exec_all (cap : Z) (f : Fifo.t) (cs : list call) : list reply * Fifo.t :=
  match cs with
  | [] => ([], f)
  | c :: cs =>
      let '(r, f1) := fifo_exec cap f c in
      let '(rs, f2) := fifo_exec_all cap f1 cs in (r :: rs, f2)
  end.

(** A writer that keeps to the contract: after [end_input] it writes nothing.
    [ended] says whether the input has ended before. *)
Fixpoint disciplined (ended : bool) (cs : list call) : Prop :=
  match cs with
  | [] => True
  | CWrite data :: cs => (ended = true -> data = []) /\ disciplined ended cs
  | CEndInput :: cs => disciplined true cs
  | _ :: cs => disciplined ended cs
  end.

(** The refinement relation. *)
Record refines (cap : Z) (s : ByteStream) (f : Fifo.t) : Prop := {
  ref_wf : wf s;
  ref_cap : _capacity s = cap;
  ref_taken : (Fifo.taken f <= length (Fifo.accepted f))%nat;
  ref_buff : _buff s = Fifo.contents f;
  ref_totin : bytes_written s = u64 (zlen (Fifo.accepted f));
  ref_totout : bytes_read s = u64 (Z.of_nat (Fifo.taken f));
  ref_ended : input_ended s = Fifo.ended f;
  ref_failed : error s = Fifo.failed f
}.

Lemma refines_init cap : 0 <= cap < 2 ^ 64 -> refines cap (new_ByteStream cap) Fifo.init.
Proof. intros. by constructor; auto with sponge. Qed.

Lemma refines_write cap s f data :
  refines cap s f -> (Fifo.ended f = true -> data = []) ->
  fst (exec s (CWrite data)) = fst (fifo_exec cap f (CWrite data)) /\
  refines cap (snd (exec s (CWrite data))) (snd (fifo_exec cap f (CWrite data))).
Proof.
  intros [Hwf Hc Ht Hb Hi Ho He Hf] Hd.
  assert (Hk : fst (write s data) =
    Z.of_nat (if Fifo.ended f then O else Nat.min (length data) (Z.to_nat cap - length (Fifo.contents f)))).
  { assert (Hmin : (if Fifo.ended f then O else Nat.min (length data) (Z.to_nat cap - length (Fifo.contents f))) =
      Nat.min (length data) (Z.to_nat cap - length (Fifo.contents f))).
    { destruct (Fifo.ended f); [|done]. by rewrite (Hd eq_refl). }
    rewrite Hmin. simpl. rewrite remaining_capacity_eq, Hb, Hc by done. pose proof (wf_buff _ Hwf).
    rewrite Hb, Hc in *. unfold zlen in *. lia. }
  pose proof (write_buff s data Hwf) as Hw. pose proof (wf_write s data Hwf) as Hwf'.
  unfold exec. rewrite (surjective_pairing (write s data)). split; [by simpl; rewrite <- Hk|].
  rewrite Hk, Nat2Z.id in Hw. cbn [snd fifo_exec] in *.
  set (k := if Fifo.ended f then O else _) in *.
  assert (Hkl : (k <= length data)%nat) by (subst k; destruct (Fifo.ended f); lia).
  constructor; try done; cbn -[u64 write].
  - rewrite length_app. lia.
  - rewrite Hw. unfold Fifo.contents. simpl. rewrite drop_app_le by done. by rewrite Hb.
  - change (bytes_written (snd (write s data))) with (u64 (_totin s + fst (write s data))).
    rewrite Hk. unfold bytes_written in Hi. rewrite Hi, zlen_app, zlen_take.
    unfold zlen. clearbody k. word.
Qed.

Lemma refines_pop cap s f len :
  refines cap s f ->
  refines cap (snd (exec s (CPop len))) (snd (fifo_exec cap f (CPop len))).
Proof.
  intros [Hwf Hc Ht Hb Hi Ho He Hf].
  assert (Hl : length (Fifo.contents f) = (length (Fifo.accepted f) - Fifo.taken f)%nat)
    by apply length_drop.
  constructor; try done; cbn -[u64].
  - apply wf_pop; [done|lia].
  - lia.
  - rewrite Hb. unfold Fifo.contents at 2. simpl. rewrite <- drop_drop.
    fold (Fifo.contents f). unfold zlen. f_equal. lia.
  - unfold bytes_read in *. simpl. rewrite Ho, Hb. unfold zlen. word.
Qed.

Lemma pop_peek s len :
  0 <= len -> pop_output s (zlen (peek_output s len)) = pop_output s len.
Proof.
  intros. rewrite peek_output_take by done. unfold pop_output. rewrite zlen_take.
  do 2 f_equal; [f_equal|f_equal|..]; lia.
Qed.

(** One call refines the corresponding FIFO call. *)
Lemma exec_refines cap s f c :
  refines cap s f -> disciplined (Fifo.ended f) [c] ->
  fst (exec s c) = fst (fifo_exec cap f c) /\
  refines cap (snd (exec s c)) (snd (fifo_exec cap f c)).
Proof.
  intros R Hd. destruct c as [data|len|len|len| |].
  - apply refines_write; [done|apply Hd].
  - simpl. rewrite peek_output_take by lia. rewrite Nat2Z.id. destruct R. by rewrite ref_buff0.
  - split; [done|]. by apply refines_pop.
  - unfold exec. rewrite (surjective_pairing (read s (Z.of_nat len))).
    destruct (read_spec s (Z.of_nat len)) as [-> _]; [lia|]. split.
    + cbn. rewrite Nat2Z.id. by destruct R as [_ _ _ -> _ _ _ _].
    + unfold read. cbn [snd]. rewrite pop_peek by lia. by apply (refines_pop cap s f len).
  - split; [done|]. destruct R. by constructor; simpl; auto with sponge.
  - split; [done|]. destruct R. by constructor; simpl; auto with sponge.
Qed.

Lemma exec_all_refines cs cap s f :
  refines cap s f -> disciplined (Fifo.ended f) cs ->
  fst (exec_all s cs) = fst (fifo_exec_all cap f cs) /\
  refines cap (snd (exec_all s cs)) (snd (fifo_exec_all cap f cs)).
Proof.
  revert s f. induction cs as [|c cs IH]; intros s f R Hd; [done|]. simpl.
  assert (Hd1 : disciplined (Fifo.ended f) [c] /\ disciplined (Fifo.ended (snd (fifo_exec cap f c))) cs)
    by (destruct c; cbn in *; tauto).
  destruct Hd1 as [Hd1 Hd2]. destruct (exec_refines cap s f c R Hd1) as [Hr R1].
  destruct (exec s c) as [r s1], (fifo_exec cap f c) as [r' f1]. simpl in *.
  destruct (IH s1 f1 R1 Hd2) as [Hrs R2].
  destruct (exec_all s1 cs) as [rs s2], (fifo_exec_all cap f1 cs) as [rs' f2].
  simpl in *. by subst.
Qed.

(** ** Properties *)

(** C23: refinement. Any sequence of calls on a fresh [ByteStream] in which
    nothing is written after [end_input] returns exactly what the bounded FIFO
    returns, and ends in a state that represents the FIFO's: same queued bytes,
    and counters equal to the totals modulo 2^64. (Writes after the end, which
    the FIFO refuses, are not refused by the class: [write_after_end_input].) *)
Theorem byte_stream_refines_fifo cap cs :
  0 <= cap < 2 ^ 64 -> disciplined false cs ->
  fst (exec_all (new_ByteStream cap) cs) = fst (fifo_exec_all cap Fifo.init cs) /\
  refines cap (snd (exec_all (new_ByteStream cap) cs)) (snd (fifo_exec_all cap Fifo.init cs)).
Proof. intros Hc Hd. apply exec_all_refines; [by apply refines_init|done]. Qed.

Lemma byte_stream_refines_fifo_witness :
  fst (exec_all (new_ByteStream 2) [CWrite [Byte.x61; Byte.x62; Byte.x63]; CRead 1; CEndInput; CPeek 5])
  = [RCount 2; RBytes [Byte.x61]; RUnit; RBytes [Byte.x62]].
Proof.
  destruct (byte_stream_refines_fifo 2
    [CWrite [Byte.x61; Byte.x62; Byte.x63]; CRead 1; CEndInput; CPeek 5]) as [-> _]; [lia|by split|reflexivity].
Defined.

Lemma exec_bounded s c : wf s -> wf (snd (exec s c)) /\ _capacity (snd (exec s c)) = _capacity s.
Proof.
  intros H. destruct c as [data|len|len|len| |]; cbn [exec snd]; [|done|..].
  4,5: split; [by auto with sponge|done].
  - rewrite (surjective_pairing (write s data)). split; [by apply wf_write|done].
  - split; [apply wf_pop; [done|lia]|done].
  - unfold read. cbn [snd]. rewrite pop_peek by lia. split; [apply wf_pop; [done|lia]|done].
Qed.

Lemma exec_all_bounded cs s : wf s -> wf (snd (exec_all s cs)) /\ _capacity (snd (exec_all s cs)) = _capacity s.
Proof.
  revert s. induction cs as [|c cs IH]; intros s H; [done|]. cbn [exec_all]. destruct (exec_bounded s c H) as [H1 H2].
  destruct (exec s c) as [r s1]. destruct (IH s1 H1) as [H3 H4]. destruct (exec_all s1 cs) as [rs s2]. cbn in *. split; [done|congruence].
Qed.

(** Flow control. Whatever the calls, a stream never holds more than its
    capacity, and the bytes buffered plus the room left make up the capacity. *)
Theorem byte_stream_bounded cap cs :
  0 <= cap < 2 ^ 64 ->
  let s := snd (exec_all (new_ByteStream cap) cs) in
  buffer_size s <= cap /\ buffer_size s + remaining_capacity s = cap.
Proof.
  intros Hc s. destruct (exec_all_bounded cs (new_ByteStream cap)) as [Hw Hcap]; [by auto with sponge|].
  fold s in Hw, Hcap. change (_capacity (new_ByteStream cap)) with cap in Hcap. unfold buffer_size. rewrite remaining_capacity_eq by done.
  destruct Hw. lia.
Qed.

Lemma byte_stream_bounded_witness :
  buffer_size (snd (exec_all (new_ByteStream 2) [CWrite [Byte.x61; Byte.x62; Byte.x63]])) <= 2.
Proof.
  apply (byte_stream_bounded 2 [CWrite [Byte.x61; Byte.x62; Byte.x63]]). lia.
Defined.

(** The end of input is not enforced. After [end_input] a stream with room
    still accepts and buffers bytes, so [eof] can become false again. *)
Theorem write_after_end_input s b :
  wf s -> zlen (_buff s) < _capacity s ->
  fst (write (end_input s) [b]) = 1 /\
  _buff (snd (write (end_input s) [b])) = _buff s ++ [b] /\
  eof (snd (write (end_input s) [b])) = false.
Proof.
  intros H Hc. rewrite write_fits by (simpl; auto with sponge; rewrite ?zlen_cons, ?zlen_nil; lia).
  split; [done|]. split; [done|]. unfold eof, buffer_empty. simpl.
  rewrite bool_decide_eq_false_2; [done|]. by destruct (_buff s).
Qed.

Lemma write_after_end_input_witness :
  fst (write (end_input (new_ByteStream 15)) [Byte.x61]) = 1.
Proof.
  apply (write_after_end_input (new_ByteStream 15) Byte.x61); [apply bs_wf_new; lia|].
  simpl. rewrite zlen_nil. lia.
Defined.
