(* ===== verification/StreamReassembler.v ===== *)
(** * The stream reassembler

    Models class [StreamReassembler] of
    [src/libsponge/stream_reassembler.hh] and [.cc]: substrings that arrive in
    any order, overlapping or repeated, are kept in a sorted list of disjoint
    pieces and moved to a [ByteStream] as soon as they are contiguous with it.
    (The member [sizedebug] is never read or written and has no field here.) *)

From S2P Require Import Prelude ByteStream.

(** ** State and operations *)

Record StreamReassembler := {
  _unassembledBuffer : list (Z * list byte);
  _output : ByteStream;
  _capacity : Z;
  _posEOF : Z;
  _unassembledBytes : Z
}.

(** The constructor; the list starts with a sentinel that is never removed. *)
Definition new_StreamReassembler (capacity : Z) : StreamReassembler :=
  {| _unassembledBuffer := [(ULONG_LONG_MAX, [])];
     _output := ByteStream.new_ByteStream capacity;
     _capacity := capacity;
     _posEOF := ULONG_LONG_MAX;
     _unassembledBytes := 0 |}.

Definition set_output (r : StreamReassembler) (o : ByteStream) : StreamReassembler :=
  {| _unassembledBuffer := _unassembledBuffer r; _output := o; _capacity := _capacity r;
     _posEOF := _posEOF r; _unassembledBytes := _unassembledBytes r |}.

Definition stream_out (r : StreamReassembler) : ByteStream := _output r.
Definition unassembled_bytes (r : StreamReassembler) : Z := _unassembledBytes r.
Definition empty (r : StreamReassembler) : bool :=
  ByteStream.buffer_empty (_output r) && (_unassembledBytes r =? 0).

(** The loop of [push_unassembledString]: [l] is the part of the list from the
    iterator on; pieces are inserted before the iterator. Returns the count of
    bytes added and the new list. *)
Fixpoint push_unassembled_loop (data : list byte) (index pos appendBytes : Z)
    (l : list (Z * list byte)) : result (Z * list (Z * list byte)) :=
  match l with
  | [] => Ok (appendBytes, [])
  | (first, second) :: rest =>
      if u64 (index + zlen data) <=? pos then Ok (appendBytes, l)
      else if index <=? first then
        let pos := if pos <? index then index else pos in
        if first <? pos then
          '(n, rest') ← push_unassembled_loop data index pos appendBytes rest;
          Ok (n, (first, second) :: rest')
        else
          temp ← substr data (u64 (pos - index)) (u64 (first - pos));
          let pos' := u64 (first + zlen second) in
          if zlen temp =? 0 then
            '(n, rest') ← push_unassembled_loop data index pos' appendBytes rest;
            Ok (n, (first, second) :: rest')
          else
            '(n, rest') ← push_unassembled_loop data index pos' (u64 (appendBytes + zlen temp)) rest;
            Ok (n, (pos, temp) :: (first, second) :: rest')
      else
        '(n, rest') ← push_unassembled_loop data index (u64 (first + zlen second)) appendBytes rest;
        Ok (n, (first, second) :: rest')
  end.

Definition push_unassembledString (l : list (Z * list byte)) (data : list byte) (index : Z)
    : result (Z * list (Z * list byte)) :=
  push_unassembled_loop data index index 0 l.

(** The loop of [pop_unassembledString]; the empty list (no sentinel) is not a
    state the class reaches, see [buf_ok]. *)
Fixpoint pop_unassembled_loop (firstUnassembled : Z) (temp : list byte)
    (l : list (Z * list byte)) : list byte * list (Z * list byte) :=
  match l with
  | (first, second) :: rest =>
      if first <? ULONG_LONG_MAX then
        if first =? firstUnassembled then
          pop_unassembled_loop (u64 (firstUnassembled + zlen second)) (temp ++ second) rest
        else (temp, l)
      else (temp, l)
  | [] => (temp, [])
  end.

Definition pop_unassembledString (l : list (Z * list byte)) (firstUnassembled : Z)
    : list byte * list (Z * list byte) :=
  pop_unassembled_loop firstUnassembled [] l.

(** The last statement of [push_substring]. *)
Definition check_end (r : StreamReassembler) : StreamReassembler :=
  if ByteStream.bytes_written (_output r) =? _posEOF r
  then set_output r (ByteStream.end_input (_output r)) else r.

Definition push_substring (r : StreamReassembler) (data : list byte) (index : Z) (eof : bool)
    : result StreamReassembler :=
  let r := {| _unassembledBuffer := _unassembledBuffer r; _output := _output r;
              _capacity := _capacity r;
              _posEOF := if eof then u64 (index + zlen data) else _posEOF r;
              _unassembledBytes := _unassembledBytes r |} in
  let firstUnread := ByteStream.bytes_read (_output r) in
  let firstUnassembled := u64 (firstUnread + ByteStream.buffer_size (_output r)) in
  let firstUnacceptable := Z.min (u64 (firstUnread + _capacity r)) (_posEOF r) in
  if zlen data =? 0 then Ok (check_end r)
  else if (u64 (index + zlen data) <? firstUnassembled) || (firstUnacceptable <=? index)
          || (_posEOF r <? index)
  then Ok r
  else
    let startPos := Z.max index firstUnassembled in
    newString ← substr data (u64 (startPos - index)) (u64 (firstUnacceptable - startPos));
    '(n, l1) ← push_unassembledString (_unassembledBuffer r) newString startPos;
    let '(temp, l2) := pop_unassembledString l1 firstUnassembled in
    Ok (check_end
      {| _unassembledBuffer := l2;
         _output := snd (ByteStream.write (_output r) temp);
         _capacity := _capacity r;
         _posEOF := _posEOF r;
         _unassembledBytes := u64 (u64 (_unassembledBytes r + n) - zlen temp) |}).

(** ** The piece list *)

(** [buf_ok hi lo l]: the pieces of [l] are non-empty, disjoint, in increasing
    order between [lo] and [hi], and followed by the sentinel. *)
Inductive buf_ok (hi : Z) : Z -> list (Z * list byte) -> Prop :=
| buf_ok_sentinel lo : lo <= hi -> buf_ok hi lo [(ULONG_LONG_MAX, [])]
| buf_ok_piece lo p s l :
    lo <= p -> 0 < zlen s -> p + zlen s <= hi ->
    buf_ok hi (p + zlen s) l -> buf_ok hi lo ((p, s) :: l).

(** The byte stored for stream position [i]. *)
Fixpoint buf_get (l : list (Z * list byte)) (i : Z) : option byte :=
  match l with
  | [] => None
  | (p, s) :: l =>
      match zget s (i - p) with
      | Some b => Some b
      | None => buf_get l i
      end
  end.

Fixpoint buf_size (l : list (Z * list byte)) : Z :=
  match l with
  | [] => 0
  | (_, s) :: l => zlen s + buf_size l
  end.

Lemma buf_ok_lo_hi hi lo l : buf_ok hi lo l -> lo <= hi.
Proof. induction 1; lia. Qed.

Lemma buf_ok_weaken hi lo lo' l : buf_ok hi lo l -> lo' <= lo -> buf_ok hi lo' l.
Proof. intros [] ?; constructor; auto; lia. Qed.

Lemma buf_ok_raise hi hi' lo l : buf_ok hi lo l -> hi <= hi' -> buf_ok hi' lo l.
Proof. induction 1; intros; constructor; auto; lia. Qed.

Lemma buf_get_range hi lo l i b :
  buf_ok hi lo l -> buf_get l i = Some b -> lo <= i < hi.
Proof.
  induction 1 as [|lo p s l Hp Hs Hh Hok IH]; simpl.
  - unfold zget. by destruct (_ <? 0).
  - destruct (zget s (i - p)) eqn:E.
    + apply zget_Some in E. lia.
    + intros H. apply IH in H. lia.
Qed.

Lemma buf_get_below hi lo l i : buf_ok hi lo l -> i < lo -> buf_get l i = None.
Proof.
  intros Hok Hi. destruct (buf_get l i) eqn:E; [|done].
  eapply buf_get_range in E; [|done]. lia.
Qed.

Lemma buf_size_nonneg l : 0 <= buf_size l.
Proof. induction l as [|[p s] l IH]; simpl; [lia|]. pose proof (zlen_nonneg s). lia. Qed.

Lemma buf_size_bound hi lo l : buf_ok hi lo l -> buf_size l <= hi - lo.
Proof. induction 1; simpl; autorewrite with zlen; lia. Qed.

Lemma zget_nil i : zget (@nil byte) i = None.
Proof. unfold zget. by destruct (_ <? 0). Qed.

(** ** The two list loops *)

Section push_loop.
Context (hi : Z) (Hhi : hi < ULONG_LONG_MAX).
Context (data : list byte) (index : Z).
Context (Hindex : 0 <= index) (Hend : index + zlen data <= hi).

(** What the loop has to add from position [q] on. *)
Definition merged (l : list (Z * list byte)) (q i : Z) : option byte :=
  match buf_get l i with
  | Some b => Some b
  | None => if q <=? i then zget data (i - index) else None
  end.

(** One iteration on a piece that starts at or after [index]: the gap from
    [q] to the piece is filled, and the rest continues after the piece. *)
Lemma merged_fill q p s l l' i :
  index <= q <= p -> q < index + zlen data ->
  (forall i, i < p + zlen s -> buf_get l i = None) ->
  (forall i, buf_get l' i = merged l (Z.max (p + zlen s) index) i) ->
  let temp := sub data (q - index) (p - q) in
  buf_get (if zlen temp =? 0 then (p, s) :: l' else (q, temp) :: (p, s) :: l') i
  = merged ((p, s) :: l) q i.
Proof.
  intros Hq Hqe Hl Hl' temp.
  assert (Ht : zget temp (i - q) =
               if (q <=? i) && (i <? p) then zget data (i - index) else None).
  { destruct (Z.leb_spec q i); simpl.
    - unfold temp. rewrite zget_sub by lia.
      destruct (Z.ltb_spec (i - q) (p - q)), (Z.ltb_spec i p); try lia; [|done].
      f_equal. lia.
    - apply zget_None. lia. }
  assert (Hfill : match zget temp (i - q) with Some b => Some b
                  | None => buf_get ((p, s) :: l') i end = merged ((p, s) :: l) q i).
  { rewrite Ht. unfold merged. simpl. rewrite Hl'. unfold merged.
    pose proof (zlen_nonneg s).
    destruct (zget s (i - p)) eqn:E.
    - apply zget_Some in E. destruct (Z.ltb_spec i p); [lia|]. by rewrite andb_false_r.
    - apply zget_None in E.
      destruct (Z.ltb_spec i (p + zlen s)); [rewrite Hl by done|];
      destruct (Z.leb_spec q i), (Z.ltb_spec i p); simpl; try lia;
        destruct (Z.leb_spec (Z.max (p + zlen s) index) i); try lia; try done.
      by destruct (zget data (i - index)). }
  destruct (Z.eqb_spec (zlen temp) 0) as [E|E]; [|done].
  apply zlen_zero in E. by rewrite E, zget_nil in Hfill.
Qed.

(** A piece that starts before [index] is kept. *)
Lemma merged_skip p s l l' i :
  p < index ->
  (forall i, buf_get l' i = merged l (Z.max (p + zlen s) index) i) ->
  buf_get ((p, s) :: l') i = merged ((p, s) :: l) index i.
Proof.
  intros Hp Hl'. unfold merged. simpl.
  destruct (zget s (i - p)) eqn:E; [done|]. apply zget_None in E.
  rewrite Hl'. unfold merged. destruct (buf_get l i); [done|].
  destruct (Z.leb_spec index i), (Z.leb_spec (Z.max (p + zlen s) index) i); lia || done.
Qed.

(** Nothing is left to add past the end of [data]. *)
Lemma merged_done l q i : index + zlen data <= q -> buf_get l i = merged l q i.
Proof.
  intros Hq. unfold merged. destruct (buf_get l i); [done|].
  destruct (Z.leb_spec q i); [|done]. symmetry. apply zget_None. lia.
Qed.

Definition loop_post (lo pos acc : Z) (l : list (Z * list byte))
    (res : result (Z * list (Z * list byte))) : Prop :=
  exists n l',
    res = Ok (acc + n, l') /\
    0 <= n <= Z.max 0 (index + zlen data - Z.max pos index) /\
    buf_ok hi lo l' /\ buf_size l' = buf_size l + n /\
    (forall i, buf_get l' i = merged l (Z.max pos index) i).

Lemma loop_post_done lo pos acc l :
  buf_ok hi lo l -> index + zlen data <= pos -> loop_post lo pos acc l (Ok (acc, l)).
Proof.
  intros Hok Hpos. exists 0, l. rewrite !Z.add_0_r. split_and!; try done; try lia.
  intros i. apply merged_done. lia.
Qed.

(** What the loop promises for the list after the piece [(p, s)]. *)
Definition rest_post (p : Z) (s : list byte) (l : list (Z * list byte)) (acc : Z)
    (res : result (Z * list (Z * list byte))) : Prop :=
  exists n l',
    res = Ok (acc + n, l') /\
    0 <= n <= Z.max 0 (index + zlen data - Z.max (p + zlen s) index) /\
    (forall lo, lo <= p -> lo <= hi -> buf_ok hi lo ((p, s) :: l')) /\
    buf_size l' = buf_size l + n /\
    (forall i, buf_get l' i = merged l (Z.max (p + zlen s) index) i).

Lemma loop_post_fill lo pos acc p s l k :
  lo <= hi -> lo <= Z.max pos index -> Z.max pos index <= p <= ULONG_LONG_MAX ->
  Z.max pos index < index + zlen data -> 0 <= acc ->
  acc + (index + zlen data - Z.max pos index) < 2 ^ 64 ->
  (forall i, i < p + zlen s -> buf_get l i = None) ->
  (forall acc', 0 <= acc' ->
     acc' + Z.max 0 (index + zlen data - Z.max (p + zlen s) index) < 2 ^ 64 ->
     rest_post p s l acc' (k acc')) ->
  loop_post lo pos acc ((p, s) :: l)
    (temp ← substr data (u64 (Z.max pos index - index)) (u64 (p - Z.max pos index));
     if zlen temp =? 0 then
       '(n, rest') ← k acc; Ok (n, (p, s) :: rest')
     else
       '(n, rest') ← k (u64 (acc + zlen temp));
       Ok (n, (Z.max pos index, temp) :: (p, s) :: rest')).
Proof.
  set (q := Z.max pos index). intros Hlh Hlo [Hqp HpM] Hqe Ha Hab Hl Hk.
  unfold ULONG_LONG_MAX in *. pose proof (zlen_nonneg s).
  rewrite !u64_small by lia. rewrite substr_ok by lia. cbn [mbind result_bind].
  assert (Hm := merged_fill q p s l). cbv zeta in Hm.
  assert (Ht : zlen (sub data (q - index) (p - q)) = Z.min (p - q) (index + zlen data - q))
    by (rewrite zlen_sub; lia).
  set (temp := sub data (q - index) (p - q)) in *.
  destruct (Hk (if zlen temp =? 0 then acc else u64 (acc + zlen temp)))
    as (n & l' & Hr & Hn & Hok & Hsz & Hget);
    destruct (Z.eqb_spec (zlen temp) 0) as [Hz|Hz]; usmall; try lia.
  - rewrite Hr. exists n, ((p, s) :: l'). split_and!; try done; try lia.
    + apply Hok; lia.
    + simpl. lia.
    + intros i. fold q. rewrite <- (Hm l' i) by (done || lia). done.
  - rewrite u64_small in Hr by lia. rewrite Hr.
    exists (zlen temp + n), ((q, temp) :: (p, s) :: l').
    split_and!; try lia.
    + simpl. by rewrite Z.add_assoc.
    + constructor; try lia. apply Hok; lia.
    + simpl. lia.
    + intros i. fold q. rewrite <- (Hm l' i) by (done || lia). done.
Qed.

Lemma push_unassembled_loop_spec lo l :
  0 < zlen data ->
  buf_ok hi lo l -> forall pos acc,
  0 <= lo -> 0 <= pos -> lo <= Z.max pos index -> pos <= Z.max lo index ->
  0 <= acc -> acc + Z.max 0 (index + zlen data - Z.max pos index) < 2 ^ 64 ->
  loop_post lo pos acc l (push_unassembled_loop data index pos acc l).
Proof.
  intros Hd. unfold ULONG_LONG_MAX in Hhi.
  induction 1 as [lo Hlo|lo p s l Hp Hs Hh Hok IH]; intros pos acc H0 H1 H2 H3 H4 H5;
    cbn [push_unassembled_loop]; rewrite (u64_small (index + zlen data)) by lia;
    (destruct (Z.leb_spec (index + zlen data) pos);
     [by apply loop_post_done; [constructor|lia]|]);
    assert (Hq : (if pos <? index then index else pos) = Z.max pos index)
      by (destruct (Z.ltb_spec pos index); lia); rewrite Hq; clear Hq.
  - (* the sentinel *)
    unfold ULONG_LONG_MAX in *.
    destruct (Z.leb_spec index (2 ^ 64 - 1)); [|lia].
    destruct (Z.ltb_spec (2 ^ 64 - 1) (Z.max pos index)); [lia|].
    apply (loop_post_fill lo pos acc (2 ^ 64 - 1) [] [] (fun acc => Ok (acc, [])));
      try (unfold ULONG_LONG_MAX; lia); [done|].
    intros acc' Ha Hb. autorewrite with zlen in Hb.
    exists 0, []. autorewrite with zlen. rewrite !Z.add_0_r. split_and!; try done; try lia.
    + intros. by constructor.
    + intros i. apply merged_done. lia.
  - destruct (Z.leb_spec index p).
    + destruct (Z.ltb_spec p (Z.max pos index)); [lia|].
      apply (loop_post_fill lo pos acc p s l
        (fun acc => push_unassembled_loop data index (u64 (p + zlen s)) acc l));
        try (unfold ULONG_LONG_MAX; lia).
      { intros i Hi. by apply (buf_get_below hi (p + zlen s)). }
      intros acc' Ha Hb. rewrite u64_small by lia.
      destruct (IH (p + zlen s) acc') as (n & l' & Hr & Hn & Hok' & Hsz & Hget); try lia.
      exists n, l'. split_and!; try done; try lia. intros. by constructor.
    + rewrite u64_small by lia.
      destruct (IH (p + zlen s) acc) as (n & l' & Hr & Hn & Hok' & Hsz & Hget); try lia.
      rewrite Hr. exists n, ((p, s) :: l'). split_and!; try done; try lia.
      * by constructor.
      * simpl. lia.
      * intros i. rewrite (Z.max_r pos index) by lia. by apply merged_skip.
Qed.
End push_loop.

(** The pop loop moves the longest run that starts at [fu]. *)
Lemma pop_unassembled_loop_spec hi lo l :
  hi < ULONG_LONG_MAX -> buf_ok hi lo l -> forall fu temp, 0 <= fu <= lo ->
  exists t l',
    pop_unassembled_loop fu temp l = (temp ++ t, l') /\
    buf_ok hi (fu + zlen t) l' /\ buf_size l = zlen t + buf_size l' /\
    (forall i, buf_get l i = if i <? fu + zlen t then zget t (i - fu) else buf_get l' i) /\
    buf_get l' (fu + zlen t) = None.
Proof.
  intros Hhi. induction 1 as [lo Hlo|lo p s l Hp Hs Hh Hok IH]; intros fu temp Hfu.
  - exists [], [(ULONG_LONG_MAX, [])]. cbn [pop_unassembled_loop].
    rewrite Z.ltb_irrefl, app_nil_r. autorewrite with zlen. rewrite Z.add_0_r.
    split_and!; try done; [constructor; lia| |simpl; by rewrite zget_nil].
    intros i. simpl. rewrite !zget_nil. by destruct (_ <? _).
  - cbn [pop_unassembled_loop]. destruct (Z.ltb_spec p ULONG_LONG_MAX); [|lia].
    destruct (Z.eqb_spec p fu) as [->|Hne].
    + unfold ULONG_LONG_MAX in *. rewrite u64_small by lia.
      destruct (IH (fu + zlen s) (temp ++ s)) as (t & l' & Hr & Hok' & Hsz & Hget & Hn); [lia|].
      exists (s ++ t), l'. rewrite Hr, zlen_app, Z.add_assoc, app_assoc.
      split_and!; try done; [simpl; lia|].
      intros i. simpl. rewrite Hget. pose proof (zlen_nonneg t).
      destruct (Z.ltb_spec i fu).
      { rewrite !(proj2 (zget_None _ (i - fu))) by lia.
        destruct (Z.ltb_spec i (fu + zlen s + zlen t)); [|lia]. apply zget_None. lia. }
      rewrite zget_app by lia.
      destruct (Z.ltb_spec i (fu + zlen s + zlen t)), (Z.ltb_spec (i - fu) (zlen s)); try lia.
      * destruct (zget_is_Some s (i - fu)) as [b ->]; [lia|done].
      * rewrite (proj2 (zget_None s _)) by lia. f_equal. lia.
      * by rewrite (proj2 (zget_None s _)) by lia.
    + assert (Hok' : buf_ok hi p ((p, s) :: l)) by (constructor; auto; lia).
      exists [], ((p, s) :: l). autorewrite with zlen. rewrite app_nil_r, Z.add_0_r.
      split_and!; try done.
      * by apply (buf_ok_weaken hi p); [|lia].
      * intros i. destruct (Z.ltb_spec i fu); [|done]. rewrite zget_nil.
        by apply (buf_get_below hi p); [|lia].
      * by apply (buf_get_below hi p); [|lia].
Qed.

(** ** Well-formed reassemblers *)

(** Everything the class maintains, as long as fewer than 2^63 bytes have been
    read from the output. *)
Record wf (r : StreamReassembler) : Prop := {
  wf_output : ByteStream.wf (_output r);
  wf_capacity : ByteStream._capacity (_output r) = _capacity r;
  wf_room : ByteStream.bytes_read (_output r) + _capacity r < 2 ^ 63;
  wf_buffer : buf_ok (ByteStream.bytes_read (_output r) + _capacity r)
                (ByteStream.bytes_written (_output r)) (_unassembledBuffer r);
  wf_next : buf_get (_unassembledBuffer r) (ByteStream.bytes_written (_output r)) = None;
  wf_count : _unassembledBytes r = buf_size (_unassembledBuffer r);
  wf_eof : 0 <= _posEOF r <= ULONG_LONG_MAX
}.

(** The stream is marked as ended once everything before the end of stream has
    been written. *)
Definition ended_ok (r : StreamReassembler) : Prop :=
  ByteStream.bytes_written (_output r) = _posEOF r ->
  ByteStream.input_ended (_output r) = true.

Lemma sr_wf_new cap : 0 <= cap < 2 ^ 63 -> wf (new_StreamReassembler cap).
Proof.
  intros Hc. constructor; simpl; try done; try lia.
  - apply ByteStream.bs_wf_new. lia.
  - constructor. unfold ByteStream.bytes_read, ByteStream.bytes_written. simpl. lia.
Qed.

Lemma wf_capacity_nonneg r : wf r -> 0 <= _capacity r.
Proof.
  intros H. rewrite <- (wf_capacity r H). apply ByteStream.wf_cap, wf_output, H.
Qed.

(** The counters of the output do not wrap in a well-formed reassembler. *)
Lemma wf_written r :
  wf r ->
  0 <= ByteStream.bytes_read (_output r) /\
  ByteStream.bytes_written (_output r) =
    ByteStream.bytes_read (_output r) + ByteStream.buffer_size (_output r) /\
  ByteStream.bytes_written (_output r) <= ByteStream.bytes_read (_output r) + _capacity r.
Proof.
  intros [[Ha Hb Hc Hd] He Hf _ _ _ _].
  unfold ByteStream.bytes_read, ByteStream.bytes_written, ByteStream.buffer_size in *.
  pose proof (zlen_nonneg (ByteStream._buff (_output r))). rewrite Hd. usmall. lia.
Qed.

Lemma wf_unassembled_bound r : wf r -> 0 <= unassembled_bytes r <= _capacity r.
Proof.
  intros H. pose proof (wf_written r H). destruct H as [[] Hc _ Hb _ Hn _].
  unfold unassembled_bytes. rewrite Hn. apply buf_size_bound in Hb.
  pose proof (buf_size_nonneg (_unassembledBuffer r)).
  pose proof (zlen_nonneg (ByteStream._buff (_output r))).
  unfold ByteStream.buffer_size in *. lia.
Qed.

(** ** One push *)

Lemma push_unassembledString_spec hi lo l data index :
  hi < ULONG_LONG_MAX -> buf_ok hi lo l -> 0 <= lo <= index ->
  index + zlen data <= hi ->
  exists n l',
    push_unassembledString l data index = Ok (n, l') /\ 0 <= n <= zlen data /\
    buf_ok hi lo l' /\ buf_size l' = buf_size l + n /\
    (forall i, buf_get l' i = merged data index l index i).
Proof.
  intros Hhi Hok Hlo He. unfold push_unassembledString. unfold ULONG_LONG_MAX in Hhi.
  pose proof (zlen_nonneg data) as Hd. destruct (decide (zlen data = 0)) as [Hz|Hz].
  - exists 0, l. split_and!; try done; try lia.
    + destruct Hok; cbn [push_unassembled_loop]; rewrite Hz, Z.add_0_r, u64_small by lia;
        by rewrite Z.leb_refl.
    + intros i. apply merged_done. lia.
  - destruct (push_unassembled_loop_spec hi Hhi data index ltac:(lia) He lo l ltac:(lia) Hok index 0)
      as (n & l' & Hr & Hn & Hok' & Hsz & Hget); try lia.
    exists n, l'. rewrite Z.max_id in *. split_and!; try done; try lia.
Qed.

(** The end-of-stream position once the arguments of a push are taken in. *)
Definition new_eof (r : StreamReassembler) (data : list byte) (index : Z) (eof : bool) : Z :=
  if eof then u64 (index + zlen data) else _posEOF r.

(** The first position a push does not take bytes for. When the announced end
    of stream lies before what has been written already, the subtraction
    [firstUnacceptable - startPos] wraps and all of [data] is taken. *)
Definition window_end (r : StreamReassembler) (data : list byte) (index : Z) (eof : bool) : Z :=
  if ByteStream.bytes_written (_output r) <=? new_eof r data index eof
  then Z.min (ByteStream.bytes_read (_output r) + _capacity r) (new_eof r data index eof)
  else index + zlen data.

(** The bytes known after a push: the stored ones, and the new ones of [data]
    up to the end of the window. *)
Definition incoming (r : StreamReassembler) (data : list byte) (index : Z) (eof : bool) (i : Z)
    : option byte :=
  match buf_get (_unassembledBuffer r) i with
  | Some b => Some b
  | None =>
      if (ByteStream.bytes_written (_output r) <=? i) && (i <? window_end r data index eof)
      then zget data (i - index) else None
  end.

(** The effect of a push: the run [t] goes to the output, the rest is stored. *)
Record pushed (r : StreamReassembler) (data : list byte) (index : Z) (eof : bool)
    (t : list byte) (r' : StreamReassembler) : Prop := {
  pushed_wf : wf r';
  pushed_cap : _capacity r' = _capacity r;
  pushed_eof : _posEOF r' = new_eof r data index eof;
  pushed_buff : ByteStream._buff (_output r') = ByteStream._buff (_output r) ++ t;
  pushed_read : ByteStream.bytes_read (_output r') = ByteStream.bytes_read (_output r);
  pushed_written :
    ByteStream.bytes_written (_output r') = ByteStream.bytes_written (_output r) + zlen t;
  pushed_error : ByteStream.error (_output r') = ByteStream.error (_output r);
  pushed_ended :
    ByteStream.input_ended (_output r') =
    ByteStream.input_ended (_output r) ||
    (ByteStream.bytes_written (_output r') =? new_eof r data index eof);
  pushed_get : forall i,
    incoming r data index eof i =
    if i <? ByteStream.bytes_written (_output r) + zlen t
    then zget t (i - ByteStream.bytes_written (_output r))
    else buf_get (_unassembledBuffer r') i
}.

Definition with_eof (r : StreamReassembler) (e : Z) : StreamReassembler :=
  {| _unassembledBuffer := _unassembledBuffer r; _output := _output r;
     _capacity := _capacity r; _posEOF := e; _unassembledBytes := _unassembledBytes r |}.

Lemma buf_ok_shrink hi hi' lo l :
  buf_ok hi' lo l -> (forall i b, buf_get l i = Some b -> i < hi) -> lo <= hi -> buf_ok hi lo l.
Proof.
  induction 1 as [|lo p s l Hp Hs Hh Hok IH]; intros Hget Hlo; [by constructor|].
  assert (p + zlen s <= hi).
  { destruct (zget_is_Some s (zlen s - 1)) as [b Hb]; [lia|].
    specialize (Hget (p + zlen s - 1) b). simpl in Hget.
    replace (p + zlen s - 1 - p) with (zlen s - 1) in Hget by lia. rewrite Hb in Hget.
    specialize (Hget eq_refl). lia. }
  constructor; try done. apply IH; [|done].
  intros i b Hb. apply (Hget i b). simpl. destruct (zget s (i - p)) eqn:E; [|done].
  apply zget_Some in E. rewrite (buf_get_below hi' (p + zlen s)) in Hb; [done|done|lia].
Qed.

(** Storing a substring and moving out the run that becomes contiguous. *)
Lemma store_spec hi r ns sp :
  wf r -> hi < ULONG_LONG_MAX ->
  ByteStream.bytes_read (_output r) + _capacity r <= hi ->
  ByteStream.bytes_written (_output r) <= sp -> sp + zlen ns <= hi ->
  exists n t l1 l2,
    push_unassembledString (_unassembledBuffer r) ns sp = Ok (n, l1) /\
    pop_unassembledString l1 (ByteStream.bytes_written (_output r)) = (t, l2) /\
    buf_ok hi (ByteStream.bytes_written (_output r) + zlen t) l2 /\
    buf_get l2 (ByteStream.bytes_written (_output r) + zlen t) = None /\
    u64 (u64 (_unassembledBytes r + n) - zlen t) = buf_size l2 /\
    (forall i, merged ns sp (_unassembledBuffer r) sp i =
       if i <? ByteStream.bytes_written (_output r) + zlen t
       then zget t (i - ByteStream.bytes_written (_output r)) else buf_get l2 i).
Proof.
  intros Hwf Hhi Hwin Hsp He. pose proof (wf_written r Hwf) as (Hr0 & Hw & Hwc).
  unfold ByteStream.buffer_size in Hw. pose proof (zlen_nonneg (ByteStream._buff (_output r))).
  assert (Hok := buf_ok_raise _ hi _ _ (wf_buffer r Hwf) ltac:(lia)).
  set (fu := ByteStream.bytes_written (_output r)) in *.
  destruct (push_unassembledString_spec hi fu (_unassembledBuffer r) ns sp)
    as (n & l1 & Hp & Hn & Hok1 & Hsz1 & Hget1); try done; try lia.
  destruct (pop_unassembled_loop_spec hi fu l1 Hhi Hok1 fu [])
    as (t & l2 & Hq & Hok2 & Hsz2 & Hget2 & Hnone); [lia|].
  exists n, t, l1, l2. split_and!; try done.
  - pose proof (buf_size_nonneg l2). pose proof (buf_size_bound _ _ _ Hok1).
    pose proof (buf_size_nonneg (_unassembledBuffer r)). pose proof (zlen_nonneg t).
    unfold ULONG_LONG_MAX in *. rewrite (wf_count r Hwf). usmall. lia.
  - intros i. by rewrite <- Hget1.
Qed.

(** The output after [t] has been written to it. *)
Lemma output_write r t :
  wf r ->
  let hi := ByteStream.bytes_read (_output r) + _capacity r in
  let fu := ByteStream.bytes_written (_output r) in
  let o' := snd (ByteStream.write (_output r) t) in
  ByteStream.bytes_written o' = Z.min (fu + zlen t) hi /\
  (fu + zlen t <= hi -> ByteStream._buff o' = ByteStream._buff (_output r) ++ t).
Proof.
  intros Hwf hi fu o'. pose proof (wf_written r Hwf) as (Hr0 & Hw & Hwc).
  pose proof (zlen_nonneg t). pose proof (wf_output r Hwf) as Ho.
  pose proof (wf_capacity r Hwf). pose proof (wf_room r Hwf).
  unfold ByteStream.buffer_size in Hw. pose proof (zlen_nonneg (ByteStream._buff (_output r))).
  pose proof (ByteStream.write_buff _ t Ho) as Hb. fold o' in Hb.
  assert (Ha : fst (ByteStream.write (_output r) t) = Z.min (zlen t) (hi - fu)).
  { simpl. rewrite ByteStream.remaining_capacity_eq by done. unfold hi, fu. lia. }
  split.
  - change (ByteStream.bytes_written o') with (u64 (fu + fst (ByteStream.write (_output r) t))).
    rewrite Ha. unfold fu, hi in *. rewrite u64_small; lia.
  - intros Hfit. rewrite Hb, Ha. f_equal. apply take_ge. unfold zlen in *. lia.
Qed.

Lemma wf_check_end r : wf r -> wf (check_end r).
Proof.
  intros Hwf. unfold check_end. destruct (_ =? _); [|done]. destruct Hwf.
  constructor; try done. by apply ByteStream.wf_end_input.
Qed.

(** The state that stores [l] and has written [t] is well-formed, even when
    [t] was cut short by the capacity. *)
Lemma wf_stored hi r t l e :
  wf r -> buf_ok hi (ByteStream.bytes_written (_output r) + zlen t) l ->
  buf_get l (ByteStream.bytes_written (_output r) + zlen t) = None ->
  (forall i b, buf_get l i = Some b -> i < ByteStream.bytes_read (_output r) + _capacity r) ->
  0 <= e <= ULONG_LONG_MAX ->
  wf {| _unassembledBuffer := l; _output := snd (ByteStream.write (_output r) t);
        _capacity := _capacity r; _posEOF := e; _unassembledBytes := buf_size l |}.
Proof.
  intros Hwf Hok Hnone Hlt He. destruct (output_write r t Hwf) as [Hw _].
  set (fu := ByteStream.bytes_written (_output r)) in *.
  set (win := ByteStream.bytes_read (_output r) + _capacity r) in *.
  destruct Hwf as [Ho Hc Hroom _ _ _ _].
  constructor; try done; cbn -[ByteStream.write ByteStream.bytes_written ByteStream.bytes_read].
  - by apply ByteStream.wf_write.
  - change (ByteStream.bytes_read (snd (ByteStream.write (_output r) t)))
      with (ByteStream.bytes_read (_output r)). rewrite Hw. fold win.
    apply (buf_ok_shrink _ hi); [|done|lia]. apply (buf_ok_weaken _ (fu + zlen t)); [done|lia].
  - rewrite Hw. destruct (decide (fu + zlen t <= win)); [by rewrite Z.min_l|].
    rewrite Z.min_r by lia. apply (buf_get_below hi (fu + zlen t)); [done|lia].
Qed.

(** The three ways through [push_substring]. *)
Inductive push_case (r : StreamReassembler) (data : list byte) (index : Z) (eof : bool)
    : result StreamReassembler -> Prop :=
| push_empty :
    zlen data = 0 ->
    push_case r data index eof (Ok (check_end (with_eof r (new_eof r data index eof))))
| push_ignored :
    0 < zlen data ->
    (u64 (index + zlen data) < ByteStream.bytes_written (_output r) \/
     Z.min (ByteStream.bytes_read (_output r) + _capacity r) (new_eof r data index eof) <= index) ->
    push_case r data index eof (Ok (with_eof r (new_eof r data index eof)))
| push_stored hi t l :
    0 < zlen data ->
    index < Z.min (ByteStream.bytes_read (_output r) + _capacity r) (new_eof r data index eof) ->
    ByteStream.bytes_written (_output r) <= index + zlen data ->
    buf_ok hi (ByteStream.bytes_written (_output r) + zlen t) l ->
    buf_get l (ByteStream.bytes_written (_output r) + zlen t) = None ->
    (forall i, incoming r data index eof i =
       if i <? ByteStream.bytes_written (_output r) + zlen t
       then zget t (i - ByteStream.bytes_written (_output r)) else buf_get l i) ->
    push_case r data index eof
      (Ok (check_end {| _unassembledBuffer := l;
                        _output := snd (ByteStream.write (_output r) t);
                        _capacity := _capacity r; _posEOF := new_eof r data index eof;
                        _unassembledBytes := buf_size l |})).

Lemma new_eof_range r data index eof :
  wf r -> 0 <= new_eof r data index eof <= ULONG_LONG_MAX.
Proof.
  intros Hwf. unfold new_eof. destruct eof; [|apply wf_eof, Hwf].
  pose proof (u64_range (index + zlen data)). unfold ULONG_LONG_MAX. lia.
Qed.

(** The substring that is stored stands for the bytes taken from [data]. *)
Lemma merged_incoming r data index eof i :
  let fu := ByteStream.bytes_written (_output r) in
  let sp := Z.max index fu in
  let fua := Z.min (ByteStream.bytes_read (_output r) + _capacity r) (new_eof r data index eof) in
  wf r -> 0 <= index < fua -> zlen data < 2 ^ 63 -> fu <= index + zlen data ->
  merged (sub data (sp - index) (u64 (fua - sp))) sp (_unassembledBuffer r) sp i
  = incoming r data index eof i.
Proof.
  intros fu sp fua Hwf Hi Hd He. pose proof (new_eof_range r data index eof Hwf).
  pose proof (wf_room r Hwf). pose proof (wf_written r Hwf) as (? & ? & ?).
  pose proof (zlen_nonneg data). unfold ByteStream.buffer_size in *.
  pose proof (zlen_nonneg (ByteStream._buff (_output r))).
  unfold merged, incoming. destruct (buf_get _ i); [done|]. fold fu.
  assert (Hwe : window_end r data index eof = if fu <=? new_eof r data index eof
                then fua else index + zlen data) by done.
  destruct (Z.leb_spec fu i), (Z.leb_spec sp i); try lia; try done; simpl.
  - rewrite zget_sub by lia. rewrite Hwe. unfold ULONG_LONG_MAX in *.
    destruct (Z.leb_spec fu (new_eof r data index eof)).
    + rewrite u64_small by lia.
      destruct (Z.ltb_spec (i - sp) (fua - sp)), (Z.ltb_spec i fua); try lia; [f_equal; lia|done].
    + assert (u64 (fua - sp) = fua - sp + 2 ^ 64) as -> by word.
      destruct (Z.ltb_spec i (index + zlen data)).
      * destruct (Z.ltb_spec (i - sp) (fua - sp + 2 ^ 64)); [f_equal|]; lia.
      * destruct (Z.ltb_spec (i - sp) (fua - sp + 2 ^ 64)); [apply zget_None; lia|done].
  - destruct (Z.ltb_spec i (window_end r data index eof)); [|done].
    symmetry. apply zget_None. lia.
Qed.

(** [push_substring] never throws, and takes one of the three ways. *)
Lemma push_substring_cases r data index eof :
  wf r -> 0 <= index < 2 ^ 64 -> zlen data < 2 ^ 63 ->
  push_case r data index eof (push_substring r data index eof).
Proof.
  intros Hwf Hi Hdl. pose proof (wf_written r Hwf) as (Hr0 & Hw & Hwc).
  pose proof (zlen_nonneg data). pose proof (wf_room r Hwf) as Hroom.
  pose proof (new_eof_range r data index eof Hwf) as Her.
  assert (Hm := merged_incoming r data index eof).
  unfold push_substring. cbn [_posEOF _output _capacity _unassembledBuffer _unassembledBytes].
  fold (new_eof r data index eof) (with_eof r (new_eof r data index eof)). rewrite <- Hw.
  assert (0 <= ByteStream.buffer_size (_output r)) by apply zlen_nonneg.
  rewrite (u64_small (ByteStream.bytes_written (_output r))) by lia.
  rewrite (u64_small (ByteStream.bytes_read (_output r) + _capacity r)) by lia.
  destruct (Z.eqb_spec (zlen data) 0) as [Hz|Hz]; [by apply push_empty|].
  destruct (_ || _) eqn:G.
  { apply push_ignored; [lia|].
    apply orb_true_iff in G as [[G|G]%orb_true_iff|G]; lia. }
  apply orb_false_iff in G as [[G1 G2]%orb_false_iff _]. rewrite u64_small in G1 by lia.
  rewrite (u64_small (Z.max _ _ - index)) by lia. rewrite substr_ok by lia.
  cbn [mbind result_bind].
  set (hi := Z.max (ByteStream.bytes_read (_output r) + _capacity r) (index + zlen data)).
  pose proof (u64_range (Z.min (ByteStream.bytes_read (_output r) + _capacity r)
    (new_eof r data index eof) - Z.max index (ByteStream.bytes_written (_output r)))).
  set (sp := Z.max index (ByteStream.bytes_written (_output r))) in *.
  set (ns := sub data (sp - index) _) in *.
  assert (Hns : sp + zlen ns <= index + zlen data) by (unfold ns; rewrite zlen_sub; lia).
  destruct (store_spec hi r ns sp) as (n & t & l1 & l2 & -> & Hpop & Hok & Hnone & Hsz & Hget);
    [done|unfold ULONG_LONG_MAX; lia|lia..|].
  cbn [mbind result_bind]. rewrite Hpop, Hsz.
  apply (push_stored _ _ _ _ hi); try done; try lia.
  intros i. rewrite <- Hget. symmetry. apply Hm; lia || done.
Qed.

(** ** Consequences *)

(** A stored byte always lies inside the window, whatever was pushed. *)
Lemma stored_below_window r data index eof t l :
  wf r -> zlen data < 2 ^ 63 -> 0 <= index ->
  index < Z.min (ByteStream.bytes_read (_output r) + _capacity r) (new_eof r data index eof) ->
  (forall i, incoming r data index eof i =
     if i <? ByteStream.bytes_written (_output r) + zlen t
     then zget t (i - ByteStream.bytes_written (_output r)) else buf_get l i) ->
  buf_get l (ByteStream.bytes_written (_output r) + zlen t) = None ->
  (forall i, i < ByteStream.bytes_written (_output r) + zlen t -> buf_get l i = None) ->
  forall i b, buf_get l i = Some b -> i < ByteStream.bytes_read (_output r) + _capacity r.
Proof.
  intros Hwf Hd H0 Hi Hget Hnone Hlow i b Hb.
  set (fu := ByteStream.bytes_written (_output r)) in *. pose proof (zlen_nonneg t).
  destruct (Z.ltb_spec i (fu + zlen t)); [by rewrite Hlow in Hb|].
  pose proof (Hget i) as Hgi. destruct (Z.ltb_spec i (fu + zlen t)); [lia|].
  rewrite Hb in Hgi. unfold incoming in Hgi.
  destruct (buf_get (_unassembledBuffer r) i) eqn:E.
  { eapply buf_get_range in E; [|apply Hwf]. lia. }
  unfold window_end in *. fold fu in Hgi. destruct (Z.leb_spec fu (new_eof r data index eof)).
  { destruct (_ && _) eqn:B; [|done]. lia. }
  (* the whole of [data] was contiguous, so it has been moved out *)
  exfalso. pose proof (Hget (fu + zlen t)) as Hgt. rewrite Z.ltb_irrefl, Hnone in Hgt.
  unfold incoming in Hgt. destruct (buf_get (_unassembledBuffer r) (fu + zlen t)); [done|].
  unfold window_end in *. fold fu in Hgt.
  destruct (Z.leb_spec fu (new_eof r data index eof)); [lia|].
  destruct ((fu <=? i) && (i <? index + zlen data)) eqn:B; [|done].
  destruct ((fu <=? fu + zlen t) && (fu + zlen t <? index + zlen data)) eqn:B'; [|lia].
  apply zget_None in Hgt. lia.
Qed.

(** Whatever is pushed, [push_substring] returns normally and the new state is
    well-formed. *)
Lemma push_substring_wf r data index eof :
  wf r -> 0 <= index < 2 ^ 64 -> zlen data < 2 ^ 63 ->
  exists r', push_substring r data index eof = Ok r' /\ wf r' /\
    _capacity r' = _capacity r /\
    ByteStream.bytes_read (_output r') = ByteStream.bytes_read (_output r) /\
    ByteStream.error (_output r') = ByteStream.error (_output r) /\
    _posEOF r' = new_eof r data index eof.
Proof.
  intros Hwf Hi Hd. pose proof (new_eof_range r data index eof Hwf) as He.
  assert (Hwe : wf (with_eof r (new_eof r data index eof))) by (destruct Hwf; by constructor).
  destruct (push_substring_cases r data index eof Hwf Hi Hd) as [Hz|Hz Hr|hi t l Hz Hr Hf Hok Hnone Hget].
  - eexists. split; [done|]. split; [by apply wf_check_end|].
    unfold check_end. by destruct (_ =? _).
  - by eexists.
  - eexists. split; [done|]. split.
    + apply wf_check_end, (wf_stored hi); try done.
      eapply (stored_below_window r data index eof t l); try done; try lia.
      intros. by eapply buf_get_below.
    + unfold check_end. by destruct (_ =? _).
Qed.

Lemma check_end_fields r :
  _unassembledBuffer (check_end r) = _unassembledBuffer r /\
  _capacity (check_end r) = _capacity r /\ _posEOF (check_end r) = _posEOF r /\
  ByteStream._buff (_output (check_end r)) = ByteStream._buff (_output r) /\
  ByteStream.bytes_read (_output (check_end r)) = ByteStream.bytes_read (_output r) /\
  ByteStream.bytes_written (_output (check_end r)) = ByteStream.bytes_written (_output r) /\
  ByteStream.error (_output (check_end r)) = ByteStream.error (_output r) /\
  ByteStream.input_ended (_output (check_end r)) =
    ByteStream.input_ended (_output r) || (ByteStream.bytes_written (_output r) =? _posEOF r).
Proof.
  unfold check_end. destruct (_ =? _); split_and!; try done;
    [by rewrite orb_true_r|by rewrite orb_false_r].
Qed.

(** Nothing of [data] is new: the push stores and moves nothing. *)
Lemma incoming_out_of_reach r data index eof i :
  ByteStream.bytes_written (_output r) <= new_eof r data index eof ->
  zlen data = 0 \/ index + zlen data < ByteStream.bytes_written (_output r) \/
  Z.min (ByteStream.bytes_read (_output r) + _capacity r) (new_eof r data index eof) <= index ->
  incoming r data index eof i = buf_get (_unassembledBuffer r) i.
Proof.
  intros He H. unfold incoming. destruct (buf_get _ i); [done|].
  destruct (Z.leb_spec (ByteStream.bytes_written (_output r)) i); [|done].
  unfold window_end. rewrite (proj2 (Z.leb_le _ _) He).
  destruct (Z.ltb_spec i (Z.min (ByteStream.bytes_read (_output r) + _capacity r)
    (new_eof r data index eof))); [|done].
  simpl. apply zget_None. lia.
Qed.

(** The run that is moved out fits in the output. *)
Lemma run_fits r data index eof t l :
  wf r -> ByteStream.bytes_written (_output r) <= new_eof r data index eof ->
  (forall i, incoming r data index eof i =
     if i <? ByteStream.bytes_written (_output r) + zlen t
     then zget t (i - ByteStream.bytes_written (_output r)) else buf_get l i) ->
  ByteStream.bytes_written (_output r) + zlen t <= ByteStream.bytes_read (_output r) + _capacity r.
Proof.
  intros Hwf He Hget. pose proof (wf_written r Hwf) as (_ & _ & ?).
  set (fu := ByteStream.bytes_written (_output r)) in *. pose proof (zlen_nonneg t).
  destruct (decide (zlen t = 0)); [lia|].
  specialize (Hget (fu + zlen t - 1)).
  destruct (Z.ltb_spec (fu + zlen t - 1) (fu + zlen t)); [|lia].
  destruct (zget_is_Some t (fu + zlen t - 1 - fu)) as [b Hb]; [lia|]. rewrite Hb in Hget.
  unfold incoming in Hget. destruct (buf_get (_unassembledBuffer r) _) eqn:E.
  - eapply buf_get_range in E; [|apply Hwf]. lia.
  - unfold window_end in Hget. fold fu in Hget. rewrite (proj2 (Z.leb_le _ _) He) in Hget.
    destruct (_ && _) eqn:B; [lia|done].
Qed.

(** A push that finds nothing new only updates the end of stream. *)
Lemma pushed_nothing r data index eof r' :
  wf r -> (r' = with_eof r (new_eof r data index eof) \/
           r' = check_end (with_eof r (new_eof r data index eof))) ->
  (ByteStream.bytes_written (_output r) = new_eof r data index eof ->
   ByteStream.input_ended (_output r') = true) ->
  (forall i, incoming r data index eof i = buf_get (_unassembledBuffer r) i) ->
  pushed r data index eof [] r'.
Proof.
  intros Hwf Hr Hend Hget.
  assert (Hwe : wf (with_eof r (new_eof r data index eof)))
    by (pose proof (new_eof_range r data index eof Hwf); destruct Hwf; by constructor).
  destruct (check_end_fields (with_eof r (new_eof r data index eof)))
    as (F1 & F2 & F3 & F4 & F5 & F6 & F7 & F8).
  constructor; autorewrite with zlen; rewrite ?app_nil_r, ?Z.add_0_r;
    try (by destruct Hr as [->| ->]; auto using wf_check_end).
  - destruct Hr as [->| ->]; [|by rewrite F8, F6]. cbn [_output with_eof] in *.
    destruct (Z.eqb_spec (ByteStream.bytes_written (_output r)) (new_eof r data index eof)) as [E|];
      [by rewrite Hend|by rewrite orb_false_r].
  - intros i. rewrite zget_nil, Hget.
    destruct (Z.ltb_spec i (ByteStream.bytes_written (_output r)));
      [eapply buf_get_below; [apply Hwf|done]|].
    by destruct Hr as [->| ->]; rewrite ?F1.
Qed.

(** What a push does when the end of stream is not before what was written. *)
Lemma push_substring_pushed r data index eof :
  wf r -> ended_ok r -> 0 <= index < 2 ^ 64 -> zlen data < 2 ^ 63 ->
  (eof = true -> index + zlen data < 2 ^ 64) ->
  ByteStream.bytes_written (_output r) <= new_eof r data index eof ->
  exists t r', push_substring r data index eof = Ok r' /\ pushed r data index eof t r'.
Proof.
  intros Hwf Hend Hi Hd Hne He. pose proof (wf_room r Hwf).
  pose proof (wf_written r Hwf) as (? & _ & ?).
  destruct (push_substring_wf r data index eof Hwf Hi Hd) as (r' & Hr' & Hwf' & Hc' & Hrd' & Her' & Heof').
  revert Hr'. destruct (push_substring_cases r data index eof Hwf Hi Hd)
    as [Hz|Hz Hr|hi t l Hz Hr Hf Hok Hnone Hget]; intros [= <-].
  - exists [], (check_end (with_eof r (new_eof r data index eof))). split; [done|].
    apply pushed_nothing; auto using incoming_out_of_reach.
    intros E. destruct (check_end_fields (with_eof r (new_eof r data index eof)))
      as (_ & _ & _ & _ & _ & _ & _ & ->). simpl. by rewrite E, Z.eqb_refl, orb_true_r.
  - exists [], (with_eof r (new_eof r data index eof)). split; [done|].
    assert (Hreach : eof = true \/ index + zlen data < 2 ^ 64 -> 
      index + zlen data < ByteStream.bytes_written (_output r) \/
      Z.min (ByteStream.bytes_read (_output r) + _capacity r) (new_eof r data index eof) <= index).
    { intros [->|]; [specialize (Hne eq_refl)|]; rewrite u64_small in Hr by lia; done. }
    apply pushed_nothing; auto.
    + intros E. destruct eof; [|by apply Hend]. specialize (Hne eq_refl).
      exfalso. unfold new_eof in *. rewrite u64_small in * by lia. lia.
    + intros i. apply incoming_out_of_reach; [done|].
      destruct (decide (index + zlen data < 2 ^ 64)); [auto|]. right. right. lia.
  - eexists t, _. split; [done|]. destruct (output_write r t Hwf) as [Hw Hb].
    pose proof (run_fits r data index eof t l Hwf He Hget) as Hfit. specialize (Hb Hfit).
    rewrite Z.min_l in Hw by lia.
    set (r1 := {| _unassembledBuffer := l |}) in *.
    destruct (check_end_fields r1) as (F1 & F2 & F3 & F4 & F5 & F6 & F7 & F8).
    constructor; try done; try congruence.
    + by rewrite F4.
    + by rewrite F6.
    + by rewrite F8, F6.
    + intros i. by rewrite Hget, F1.
Qed.

(** After a push the end flag is set whenever the end has been reached. *)
Lemma pushed_ended_ok r data index eof t r' :
  pushed r data index eof t r' -> ended_ok r'.
Proof. intros []. unfold ended_ok. rewrite pushed_eof0, pushed_ended0. intros ->. 
  by rewrite Z.eqb_refl, orb_true_r. Qed.

(** Reading from the output keeps the reassembler well-formed. *)
Lemma read_wf r n :
  wf r -> ByteStream.bytes_written (_output r) + _capacity r < 2 ^ 63 -> 0 <= n ->
  wf (set_output r (snd (ByteStream.read (_output r) n))).
Proof.
  intros Hwf Hroom Hn. pose proof (wf_written r Hwf) as (Hr0 & Hw & Hwc).
  assert (Hrd : ByteStream.bytes_read (_output r)
    <= ByteStream.bytes_read (snd (ByteStream.read (_output r) n))
    <= ByteStream.bytes_written (_output r)).
  { unfold ByteStream.bytes_read, ByteStream.bytes_written, ByteStream.buffer_size in *. simpl.
    set (k := Z.min _ _). pose proof (zlen_nonneg (ByteStream._buff (_output r))).
    pose proof (zlen_nonneg (ByteStream.peek_output (_output r) n)).
    assert (0 <= k <= zlen (ByteStream._buff (_output r))) by lia.
    rewrite u64_small by lia. lia. }
  destruct Hwf as [Ho Hc Hwr Hb Hnx Hct He].
  constructor; cbn [set_output _output _capacity _unassembledBuffer _posEOF _unassembledBytes];
    try done.
  - by apply ByteStream.wf_read.
  - lia.
  - apply (buf_ok_raise (ByteStream.bytes_read (_output r) + _capacity r)); [done|lia].
Qed.

(** ** Properties *)

(** Robustness. For any data, index and end mark, [push_substring] on a
    well-formed reassembler returns normally (its [substr] calls never throw),
    leaves a well-formed reassembler, and the bytes buffered for the reader
    plus the bytes stored out of order stay within the capacity. *)
Theorem push_substring_robust r data index eof :
  wf r -> 0 <= index < 2 ^ 64 -> zlen data < 2 ^ 63 ->
  exists r', push_substring r data index eof = Ok r' /\ wf r' /\
    0 <= unassembled_bytes r' /\
    ByteStream.buffer_size (stream_out r') + unassembled_bytes r' <= _capacity r.
Proof.
  intros Hwf Hi Hd.
  destruct (push_substring_wf r data index eof Hwf Hi Hd) as (r' & Hr & Hwf' & Hc & _).
  exists r'. split_and!; try done; [by apply wf_unassembled_bound|].
  pose proof (wf_written r' Hwf') as (_ & Hw & _). unfold unassembled_bytes.
  rewrite (wf_count r' Hwf'). pose proof (buf_size_bound _ _ _ (wf_buffer r' Hwf')).
  unfold stream_out. lia.
Qed.

Lemma push_substring_robust_witness :
  exists r', push_substring (new_StreamReassembler 4) [Byte.x61; Byte.x62] 3 true = Ok r' /\
    wf r' /\ 0 <= unassembled_bytes r' /\
    ByteStream.buffer_size (stream_out r') + unassembled_bytes r' <= 4.
Proof.
  apply (push_substring_robust (new_StreamReassembler 4));
    [apply sr_wf_new; lia|lia|vm_compute; done].
Defined.

(** [empty] also looks at the output. With nothing waiting to be assembled
    it still returns false while the output holds unread bytes, although its
    documentation excludes the output stream. *)
Theorem empty_depends_on_output r :
  unassembled_bytes r = 0 -> empty r = ByteStream.buffer_empty (stream_out r).
Proof.
  intros H. unfold empty, unassembled_bytes in *. rewrite H. simpl. by rewrite andb_true_r.
Qed.

Lemma empty_depends_on_output_witness :
  exists r, push_substring (new_StreamReassembler 8) [Byte.x61] 0 false = Ok r /\
    unassembled_bytes r = 0 /\ empty r = false.
Proof.
  eexists. split; [reflexivity|]. split; [reflexivity|].
  rewrite empty_depends_on_output; reflexivity.
Defined.
