(* ===== verification/ReassemblerProps.v ===== *)
(** * Properties of the stream reassembler

    Three views of [StreamReassembler]: robustness against arbitrary input, the
    refinement to a finite map of known bytes, and the contract for substrings
    of one fixed stream (only a prefix of the stream is ever delivered, and it
    grows as soon as the next bytes arrive). *)

From S2P Require Import Prelude ByteStream StreamReassembler.

(** ** Substrings of one stream *)

(** [data] at [index] is a part of [W], and the last one if [eof]. *)
Record piece_of (W data : list byte) (index : Z) (eof : bool) : Prop := {
  piece_bytes : forall k b, zget data k = Some b -> zget W (index + k) = Some b;
  piece_eof : eof = true -> index + zlen data = zlen W
}.

(** The reassembler [r] has only seen parts of [W]. *)
Record follows (W : list byte) (r : StreamReassembler) : Prop := {
  fol_wf : StreamReassembler.wf r;
  fol_ended_ok : ended_ok r;
  fol_written : ByteStream.bytes_written (_output r) <= zlen W;
  fol_buff : forall k b, zget (ByteStream._buff (_output r)) k = Some b ->
    zget W (ByteStream.bytes_read (_output r) + k) = Some b;
  fol_stored : forall i b, buf_get (_unassembledBuffer r) i = Some b -> zget W i = Some b;
  fol_eof : _posEOF r = ULONG_LONG_MAX \/ _posEOF r = zlen W;
  fol_ended : ByteStream.input_ended (_output r) = true ->
    ByteStream.bytes_written (_output r) = zlen W /\ _posEOF r = zlen W
}.

Lemma follows_new W cap :
  0 <= cap < 2 ^ 63 -> zlen W < 2 ^ 63 -> follows W (new_StreamReassembler cap).
Proof.
  intros Hc HW. constructor; try done; simpl.
  - by apply StreamReassembler.sr_wf_new.
  - unfold ByteStream.bytes_written. simpl. auto with sponge.
  - intros k b. by rewrite zget_nil.
  - intros i b. by rewrite zget_nil.
  - auto.
Qed.

Lemma piece_length W data index eof :
  piece_of W data index eof -> zlen data = 0 \/ 0 <= index + zlen data <= zlen W.
Proof.
  intros [Hb _]. pose proof (zlen_nonneg data). destruct (decide (zlen data = 0)); [auto|].
  destruct (zget_is_Some data (zlen data - 1)) as [b E]; [lia|].
  apply Hb in E. apply zget_Some in E. lia.
Qed.

(** A part of [W], computed. *)
Lemma piece_of_sub W data index (eof : bool) :
  0 <= index <= zlen W -> data = sub W index (zlen data) ->
  (if eof then index + zlen data = zlen W else True) -> piece_of W data index eof.
Proof.
  intros Hi Hd He. constructor; [|by intros ->]. intros k b Hb. pose proof (zget_Some _ _ _ Hb).
  rewrite Hd, zget_sub in Hb by lia. destruct (_ <? _); done.
Qed.

Section follows.
Context (W : list byte) (HW : zlen W < 2 ^ 63).

Lemma incoming_follows r data index eof i b :
  follows W r -> piece_of W data index eof ->
  incoming r data index eof i = Some b -> zget W i = Some b.
Proof.
  intros Hf [Hp _]. unfold incoming. destruct (buf_get _ i) eqn:E.
  - intros [= <-]. by apply (fol_stored W r Hf).
  - destruct (_ && _); [|done]. intros Hb. apply Hp in Hb.
    by replace (index + (i - index)) with i in Hb by lia.
Qed.

Lemma piece_eof_ok r data index eof :
  follows W r -> piece_of W data index eof -> 0 <= index < 2 ^ 64 ->
  ByteStream.bytes_written (_output r) <= new_eof r data index eof /\
  (new_eof r data index eof = ULONG_LONG_MAX \/ new_eof r data index eof = zlen W) /\
  zlen data < 2 ^ 63 /\ (eof = true -> index + zlen data < 2 ^ 64).
Proof.
  intros Hf Hp Hi. pose proof (fol_written W r Hf). pose proof (zlen_nonneg data).
  pose proof (piece_length _ _ _ _ Hp). pose proof (fol_eof W r Hf).
  unfold new_eof, ULONG_LONG_MAX in *. destruct eof.
  - pose proof (piece_eof _ _ _ _ Hp eq_refl) as E. rewrite u64_small by lia. 
    split_and!; lia || (by right).
  - split_and!; try lia; done.
Qed.

(** A push of a part of [W] keeps the contract. *)
Lemma push_follows r data index eof :
  follows W r -> piece_of W data index eof -> 0 <= index < 2 ^ 64 ->
  exists t r', push_substring r data index eof = Ok r' /\
    pushed r data index eof t r' /\ follows W r'.
Proof.
  intros Hf Hp Hi. destruct (piece_eof_ok r data index eof Hf Hp Hi) as (He & Hew & Hd & Hne).
  destruct (push_substring_pushed r data index eof) as (t & r' & Hr & Hpu); try done;
    [apply Hf..|]. exists t, r'. split_and!; try done.
  pose proof (pushed_ended_ok _ _ _ _ _ _ Hpu) as Hok. destruct Hpu as
    [Hwf' Hc' Heof' Hbuff' Hread' Hwr' Herr' Hend' Hget'].
  pose proof (StreamReassembler.wf_written r (fol_wf W r Hf)) as (Hr0 & Hw & _).
  unfold ByteStream.buffer_size in Hw.
  assert (Ht : forall k b, zget t k = Some b ->
            zget W (ByteStream.bytes_written (_output r) + k) = Some b).
  { intros k b Hk. pose proof (zget_Some _ _ _ Hk).
    apply (incoming_follows r data index eof); [done..|]. rewrite Hget'.
    destruct (Z.ltb_spec (ByteStream.bytes_written (_output r) + k)
      (ByteStream.bytes_written (_output r) + zlen t)); [|lia].
    by replace (ByteStream.bytes_written (_output r) + k - ByteStream.bytes_written (_output r))
      with k by lia. }
  pose proof (zlen_nonneg t). pose proof (fol_written W r Hf).
  assert (Hlen : ByteStream.bytes_written (_output r) + zlen t <= zlen W).
  { destruct (decide (zlen t = 0)); [lia|].
    destruct (zget_is_Some t (zlen t - 1)) as [b E]; [lia|].
    apply Ht, zget_Some in E. lia. }
  constructor; try done; try lia.
  - intros k b. rewrite Hbuff', Hread'. intros E. pose proof (zget_Some _ _ _ E).
    rewrite zget_app in E by lia.
    destruct (Z.ltb_spec k (zlen (ByteStream._buff (_output r)))).
    + by apply (fol_buff W r Hf).
    + apply Ht in E. rewrite <- E. f_equal. lia.
  - intros i b E. apply (incoming_follows r data index eof); [done..|]. rewrite Hget'.
    pose proof (buf_get_range _ _ _ _ _ (StreamReassembler.wf_buffer r' Hwf') E).
    destruct (Z.ltb_spec i (ByteStream.bytes_written (_output r) + zlen t)); [lia|done].
  - rewrite Hend', Heof', Hwr'. intros [E|E]%orb_true_iff.
    + apply (fol_ended W r Hf) in E. split; [lia|].
      destruct Hew as [Hew|]; [|done]. unfold new_eof in *. destruct eof; [|lia].
      pose proof (piece_eof _ _ _ _ Hp eq_refl). specialize (Hne eq_refl).
      pose proof (zlen_nonneg data). rewrite u64_small by lia. lia.
    + unfold ULONG_LONG_MAX in *. lia.
Qed.

(** A push that covers the first unassembled byte delivers what it brings. *)
Lemma push_progress r data index eof :
  follows W r -> piece_of W data index eof -> 0 <= index ->
  index <= ByteStream.bytes_written (stream_out r) ->
  exists r', push_substring r data index eof = Ok r' /\ follows W r' /\
    Z.min (index + zlen data) (ByteStream.bytes_read (stream_out r) + _capacity r)
      <= ByteStream.bytes_written (stream_out r').
Proof.
  unfold stream_out. intros Hf Hp Hi0 Hi.
  pose proof (StreamReassembler.wf_written r (fol_wf W r Hf)) as (Hr0 & Hw & Hwc).
  pose proof (fol_written W r Hf). pose proof (wf_room r (fol_wf W r Hf)).
  destruct (push_follows r data index eof Hf Hp) as (t & r' & Hr & Hpu & Hf'); [lia|].
  exists r'. split_and!; try done.
  destruct (piece_eof_ok r data index eof Hf Hp) as (He & Hew & Hd & Hne); [lia|].
  pose proof (piece_length _ _ _ _ Hp) as Hlen. unfold ULONG_LONG_MAX in *.
  destruct Hpu as [Hwf' _ _ _ _ Hwr _ _ Hget].
  set (fu := ByteStream.bytes_written (_output r)) in *.
  specialize (Hget (fu + zlen t)). pose proof (zlen_nonneg t).
  rewrite Z.ltb_irrefl, <- Hwr, (wf_next r' Hwf') in Hget. unfold incoming in Hget.
  destruct (buf_get _ _); [done|]. unfold window_end in Hget. fold fu in Hget.
  rewrite (proj2 (Z.leb_le _ _) He) in Hget. destruct (_ && _) eqn:B.
  - apply zget_None in Hget. lia.
  - apply andb_false_iff in B as [B|B]; lia.
Qed.

(** Reading from the output keeps it too. *)
Lemma read_follows r n :
  follows W r -> zlen W + _capacity r < 2 ^ 63 -> 0 <= n ->
  follows W (set_output r (snd (ByteStream.read (_output r) n))).
Proof.
  intros Hf Hroom Hn. pose proof (fol_written W r Hf).
  pose proof (StreamReassembler.wf_written r (fol_wf W r Hf)) as (Hr0 & Hw & _).
  pose proof (StreamReassembler.wf_capacity_nonneg r (fol_wf W r Hf)).
  assert (Hrd := ByteStream.bytes_read_read (_output r) n
    (StreamReassembler.wf_output r (fol_wf W r Hf)) ltac:(lia) Hn).
  pose proof (ByteStream.read_app (_output r) n Hn) as Ha.
  constructor; try (apply Hf); cbn [set_output _output].
  - apply read_wf; [apply Hf|lia|done].
  - intros k b E. pose proof (zget_Some _ _ _ E).
    rewrite Hrd, <- Z.add_assoc. apply (fol_buff W r Hf). rewrite Ha.
    pose proof (zlen_nonneg (fst (ByteStream.read (_output r) n))).
    rewrite zget_app by lia.
    destruct (Z.ltb_spec (zlen (fst (ByteStream.read (_output r) n)) + k)
      (zlen (fst (ByteStream.read (_output r) n)))); [lia|].
    rewrite <- E. f_equal. lia.
Qed.
End follows.

(** ** Histories of pushes and reads *)

Inductive event :=
| Push (data : list byte) (index : Z) (eof : bool)
| Read (n : Z).

(** Runs the events and collects the bytes read from the output. *)
Fixpoint run (r : StreamReassembler) (evs : list event)
    : result (list byte * StreamReassembler) :=
  match evs with
  | [] => Ok ([], r)
  | Push data index eof :: evs =>
      r1 ← push_substring r data index eof; run r1 evs
  | Read n :: evs =>
      let '(bs, o) := ByteStream.read (_output r) n in
      '(out, r2) ← run (set_output r o) evs;
      Ok (bs ++ out, r2)
  end.

(** The events a peer that sends [W] can cause. *)
Definition event_of (W : list byte) (ev : event) : Prop :=
  match ev with
  | Push data index eof => piece_of W data index eof /\ 0 <= index < 2 ^ 64
  | Read n => 0 <= n
  end.

Lemma push_capacity r data index eof t r' :
  pushed r data index eof t r' -> _capacity r' = _capacity r.
Proof. by intros []. Qed.

(** What the buffer holds, as a part of [W]. *)
Lemma follows_buffer W r :
  follows W r ->
  ByteStream._buff (_output r) =
  sub W (ByteStream.bytes_read (_output r)) (zlen (ByteStream._buff (_output r))).
Proof.
  intros Hf. pose proof (StreamReassembler.wf_written r (fol_wf W r Hf)) as (Hr0 & Hw & _).
  pose proof (fol_written W r Hf). unfold ByteStream.buffer_size in Hw.
  pose proof (zlen_nonneg (ByteStream._buff (_output r))).
  apply zget_ext. intros i Hi. rewrite zget_sub by lia.
  destruct (Z.ltb_spec i (zlen (ByteStream._buff (_output r)))).
  - destruct (zget_is_Some (ByteStream._buff (_output r)) i) as [b Hb]; [lia|].
    rewrite Hb. symmetry. by apply (fol_buff W r Hf).
  - apply zget_None. lia.
Qed.

(** The bytes taken by a read, as a part of [W] that later reads extend. *)
Lemma read_out_follows W r n :
  follows W r -> zlen W + _capacity r < 2 ^ 63 -> 0 <= n ->
  let bs := fst (ByteStream.read (_output r) n) in
  let o := snd (ByteStream.read (_output r) n) in
  ByteStream.bytes_read o = ByteStream.bytes_read (_output r) + zlen bs /\
  (forall out, out = sub W (ByteStream.bytes_read o) (zlen out) ->
    bs ++ out = sub W (ByteStream.bytes_read (_output r)) (zlen (bs ++ out))).
Proof.
  intros Hf Hroom Hn bs o. pose proof (fol_written W r Hf).
  pose proof (StreamReassembler.wf_written r (fol_wf W r Hf)) as (Hr0 & Hw & _).
  pose proof (StreamReassembler.wf_capacity_nonneg r (fol_wf W r Hf)).
  assert (Hrn : ByteStream.bytes_read o = ByteStream.bytes_read (_output r) + zlen bs).
  { apply (ByteStream.bytes_read_read (_output r) n); [apply Hf|lia|done]. }
  split; [done|]. intros out Hout.
  assert (Ha : ByteStream._buff (_output r) = bs ++ ByteStream._buff o)
    by apply (ByteStream.read_app (_output r) n Hn).
  pose proof (follows_buffer W r Hf) as Hb. unfold ByteStream.buffer_size in *.
  assert (Hl := f_equal zlen Ha). rewrite zlen_app in Hl.
  pose proof (zlen_nonneg bs). pose proof (zlen_nonneg (ByteStream._buff o)).
  assert (Hbs : bs = sub W (ByteStream.bytes_read (_output r)) (zlen bs)).
  { apply (sub_prefix W bs (ByteStream._buff o)); [lia|by rewrite <- Ha]. }
  rewrite zlen_app, sub_add by (auto with sponge; lia). by rewrite <- Hbs, <- Hrn, <- Hout.
Qed.

Lemma run_follows W evs r :
  follows W r -> zlen W + _capacity r < 2 ^ 63 -> Forall (event_of W) evs ->
  exists out r', run r evs = Ok (out, r') /\ follows W r' /\
    ByteStream.bytes_read (_output r') = ByteStream.bytes_read (_output r) + zlen out /\
    out = sub W (ByteStream.bytes_read (_output r)) (zlen out).
Proof.
  intros Hf Hroom Hevs. revert r Hf Hroom.
  induction Hevs as [|ev evs Hev Hevs IH]; intros r Hf Hroom.
  - exists [], r. autorewrite with zlen. rewrite sub_0. split_and!; try done; lia.
  - pose proof (StreamReassembler.wf_written r (fol_wf W r Hf)) as (Hr0 & Hw & _).
    pose proof (fol_written W r Hf).
    pose proof (StreamReassembler.wf_capacity_nonneg r (fol_wf W r Hf)).
    destruct ev as [data index eof|n]; simpl in Hev.
    + destruct Hev as [Hp Hi].
      destruct (push_follows W ltac:(lia) r data index eof Hf Hp Hi) as (t & r1 & Hr1 & Hpu & Hf1).
      destruct (IH r1 Hf1) as (out & r' & Hr' & Hf' & Hrd & Hout).
      { by rewrite (push_capacity _ _ _ _ _ _ Hpu). }
      rewrite (pushed_read _ _ _ _ _ _ Hpu) in *.
      exists out, r'. cbn [run]. rewrite Hr1. by split_and!.
    + pose proof (read_follows W ltac:(lia) r n Hf Hroom Hev) as Hf1.
      destruct (read_out_follows W r n Hf Hroom Hev) as [Hrn Hsub].
      cbn [run]. destruct (ByteStream.read (_output r) n) as [bs o]. cbn [fst snd] in *.
      destruct (IH _ Hf1 Hroom) as (out & r' & Hr' & Hf' & Hrd & Hout).
      cbn [set_output _output] in *. rewrite Hr'.
      exists (bs ++ out), r'. split_and!; try done; [rewrite zlen_app; lia|by apply Hsub].
Qed.

(** ** The known bytes as a finite map *)

(** The bytes of [s] placed from position [p] on. *)
Fixpoint str_map (p : Z) (s : list byte) : gmap Z byte :=
  match s with
  | [] => ∅
  | b :: s => <[p := b]> (str_map (p + 1) s)
  end.

Fixpoint buf_map (l : list (Z * list byte)) : gmap Z byte :=
  match l with
  | [] => ∅
  | (p, s) :: l => str_map p s ∪ buf_map l
  end.

(** The run of consecutive positions from [p] on. *)
Fixpoint drain (n : nat) (p : Z) (m : gmap Z byte) : list byte :=
  match n with
  | O => []
  | S n => match m !! p with
           | Some b => b :: drain n (p + 1) m
           | None => []
           end
  end.

(** The abstract push: known bytes win over the new ones, positions outside
    [next .. last - 1] are dropped, then the run from [next] on is moved out. *)
Definition spec_push (next last : Z) (known : gmap Z byte) (data : list byte) (index : Z)
    : list byte * gmap Z byte :=
  let fresh := filter (fun '(i, _) => next <= i < last) (str_map index data) in
  let all := known ∪ fresh in
  let out := drain (size all) next all in
  (out, filter (fun '(i, _) => next + zlen out <= i) all).

Lemma lookup_str_map p s i : str_map p s !! i = zget s (i - p).
Proof.
  revert p. induction s as [|b s IH]; intros p; simpl.
  - by rewrite lookup_empty, zget_nil.
  - rewrite lookup_insert, IH. unfold zget. destruct (decide (p = i)) as [->|Hne].
    + by rewrite Z.sub_diag.
    + destruct (Z.ltb_spec (i - (p + 1)) 0), (Z.ltb_spec (i - p) 0); try lia; [done|].
      replace (Z.to_nat (i - p)) with (S (Z.to_nat (i - (p + 1)))) by lia. done.
Qed.

Lemma lookup_buf_map l i : buf_map l !! i = buf_get l i.
Proof.
  induction l as [|[p s] l IH]; simpl; [by rewrite lookup_empty|].
  rewrite lookup_union, lookup_str_map, IH.
  by destruct (zget s (i - p)), (buf_get l i).
Qed.

Lemma size_str_map p s : size (str_map p s) = length s.
Proof.
  revert p. induction s as [|b s IH]; intros p; simpl; [by rewrite map_size_empty|].
  rewrite map_size_insert_None, IH; [done|]. rewrite lookup_str_map. apply zget_None. lia.
Qed.

(** Pieces do not overlap, so every byte is counted once. *)
Lemma size_buf_map hi lo l : buf_ok hi lo l -> Z.of_nat (size (buf_map l)) = buf_size l.
Proof.
  induction 1 as [|lo p s l Hp Hs Hh Hok IH]; simpl.
  - by rewrite (left_id_L ∅ (∪)), map_size_empty.
  - rewrite map_size_disj_union, size_str_map; [unfold zlen; lia|].
    apply map_disjoint_spec. intros i x y. rewrite lookup_str_map, lookup_buf_map.
    intros H1%zget_Some H2. eapply buf_get_range in H2; [|done]. lia.
Qed.

(** [drain] finds the run that ends at the first unknown position. *)
Lemma drain_spec t m p :
  (forall k b, zget t k = Some b -> m !! (p + k) = Some b) -> m !! (p + zlen t) = None ->
  (length t <= size m)%nat -> drain (size m) p m = t.
Proof.
  generalize (size m) as n. intros n. revert p n.
  induction t as [|b t IH]; intros p n Ht Hn Hl.
  - autorewrite with zlen in Hn. rewrite Z.add_0_r in Hn. destruct n; [done|]. simpl. by rewrite Hn.
  - destruct n as [|n]; [simpl in Hl; lia|]. simpl.
    pose proof (Ht 0 b eq_refl) as H0. rewrite Z.add_0_r in H0. rewrite H0. f_equal.
    apply IH; [|by rewrite <- Hn, zlen_cons; f_equal; lia|simpl in Hl; lia].
    intros k c Hk. rewrite <- Z.add_assoc. apply Ht. pose proof (zget_Some _ _ _ Hk).
    unfold zget in *. destruct (Z.ltb_spec k 0), (Z.ltb_spec (1 + k) 0); try lia.
    by replace (Z.to_nat (1 + k)) with (S (Z.to_nat k)) by lia.
Qed.

(** A map that contains a run is at least as large. *)
Lemma run_size t (m : gmap Z byte) p :
  (forall k b, zget t k = Some b -> m !! (p + k) = Some b) -> (length t <= size m)%nat.
Proof.
  intros Ht. rewrite <- (size_str_map p t). apply map_subseteq_size, map_subseteq_spec.
  intros i b. rewrite lookup_str_map. intros E. apply Ht in E. by replace (p + (i - p)) with i in E by lia.
Qed.

(** What has been taken followed by what is buffered. *)
Lemma follows_taken W r out :
  follows W r -> ByteStream.bytes_read (stream_out r) = zlen out -> out = sub W 0 (zlen out) ->
  out ++ ByteStream._buff (stream_out r) =
    take (Z.to_nat (ByteStream.bytes_written (stream_out r))) W /\
  (ByteStream.input_ended (stream_out r) = true -> out ++ ByteStream._buff (stream_out r) = W).
Proof.
  intros Hf Hrd Hout. pose proof (zlen_nonneg W). unfold stream_out in *.
  pose proof (follows_buffer W r Hf) as Hb.
  pose proof (StreamReassembler.wf_written r (fol_wf W r Hf)) as (Hr0 & Hw & _).
  pose proof (fol_written W r Hf). pose proof (zlen_nonneg (ByteStream._buff (_output r))).
  unfold ByteStream.buffer_size in Hw.
  assert (Ht : out ++ ByteStream._buff (_output r) =
    take (Z.to_nat (ByteStream.bytes_written (_output r))) W).
  { pose proof (zlen_nonneg out).
    pose proof (sub_add W 0 (zlen out) (zlen (ByteStream._buff (_output r)))) as Hadd.
    rewrite <- Hout, Z.add_0_l, <- Hrd, <- Hb in Hadd. rewrite <- Hadd by lia.
    unfold sub. rewrite drop_0. f_equal. lia. }
  split_and!; try done. intros He. apply (fol_ended W r Hf) in He as [He _].
  rewrite Ht, He. apply take_ge. unfold zlen. lia.
Qed.

(** ** How far a stream can get *)

(** Nothing at or behind position [B] is stored or written. *)
Record bounded (B : Z) (r : StreamReassembler) : Prop := {
  bounded_written : ByteStream.bytes_written (_output r) <= B;
  bounded_stored : forall i b, buf_get (_unassembledBuffer r) i = Some b -> i < B
}.

Lemma check_end_bounded B r : bounded B r -> bounded B (check_end r).
Proof.
  intros []. destruct (check_end_fields r) as (F1 & _ & _ & _ & _ & F6 & _).
  constructor; rewrite ?F1, ?F6; done.
Qed.

Lemma incoming_bounded B r data index eof i b :
  bounded B r -> index + zlen data <= B -> incoming r data index eof i = Some b -> i < B.
Proof.
  intros [_ Hs] Hi. unfold incoming. destruct (buf_get _ i) eqn:E; [by eauto|].
  destruct (_ && _); [|done]. intros Hz%zget_Some. lia.
Qed.

(** A push of bytes below [B] stays below [B], as does one that is not taken. *)
Lemma push_bounded B r data index eof r' :
  wf r -> bounded B r -> 0 <= index < 2 ^ 64 -> zlen data < 2 ^ 63 ->
  (index < ByteStream.bytes_read (_output r) + _capacity r -> index + zlen data <= B) ->
  push_substring r data index eof = Ok r' -> bounded B r'.
Proof.
  intros Hwf Hb Hi Hd HB. destruct (push_substring_cases r data index eof Hwf Hi Hd)
    as [Hz|Hz Hr|hi t l Hz Hr Hf Hok Hnone Hget]; intros [= <-].
  - apply check_end_bounded. by destruct Hb.
  - by destruct Hb.
  - apply check_end_bounded. assert (HB' : index + zlen data <= B) by lia.
    pose proof (fun i b => incoming_bounded B r data index eof i b Hb HB') as Hin.
    destruct (output_write r t Hwf) as [Hw _]. pose proof (zlen_nonneg t).
    constructor; cbn [_output _unassembledBuffer].
    + change (ByteStream.bytes_written (snd (ByteStream.write (_output r) t)) <= B). rewrite Hw. pose proof (bounded_written B r Hb).
      destruct (decide (zlen t = 0)); [lia|].
      destruct (zget_is_Some t (zlen t - 1)) as [b Hb']; [lia|].
      specialize (Hin (ByteStream.bytes_written (_output r) + zlen t - 1) b). rewrite Hget in Hin.
      rewrite (proj2 (Z.ltb_lt _ _)) in Hin by lia.
      replace (_ + zlen t - 1 - _) with (zlen t - 1) in Hin by lia. specialize (Hin Hb'). lia.
    + intros i b Hl. destruct (Z.ltb_spec i (ByteStream.bytes_written (_output r) + zlen t)) as [Hlt|Hge].
      { rewrite (buf_get_below hi _ l i Hok Hlt) in Hl. done. }
      apply (Hin i b). rewrite Hget. by rewrite (proj2 (Z.ltb_ge _ _)).
Qed.

(** ** Properties *)

(** C17: refinement to a finite map. A push moves to the output exactly the run
    of known bytes that starts at the first unassembled position, where the
    known bytes are those stored before together with the bytes of [data] that
    lie inside the window; the rest stays stored, and [unassembled_bytes]
    counts each stored position once. *)
Theorem push_substring_refines_map r data index eof :
  StreamReassembler.wf r -> ended_ok r -> 0 <= index < 2 ^ 64 -> zlen data < 2 ^ 63 ->
  (eof = true -> index + zlen data < 2 ^ 64) ->
  ByteStream.bytes_written (stream_out r) <= new_eof r data index eof ->
  exists r', push_substring r data index eof = Ok r' /\
    let '(out, known) :=
      spec_push (ByteStream.bytes_written (stream_out r)) (window_end r data index eof)
        (buf_map (_unassembledBuffer r)) data index in
    ByteStream._buff (stream_out r') = ByteStream._buff (stream_out r) ++ out /\
    buf_map (_unassembledBuffer r') = known /\
    unassembled_bytes r' = Z.of_nat (size known).
Proof.
  intros Hwf Hend Hi Hd Hne He. unfold stream_out in *.
  destruct (push_substring_pushed r data index eof) as (t & r' & Hr & Hpu); try done.
  exists r'. split; [done|]. unfold spec_push.
  destruct Hpu as [Hwf' _ _ Hbuff _ Hwr _ _ Hget].
  set (fu := ByteStream.bytes_written (_output r)) in *.
  set (all := buf_map _ ∪ _).
  assert (Hall : forall i, all !! i = incoming r data index eof i).
  { intros i. unfold all, incoming. rewrite lookup_union, lookup_buf_map, map_lookup_filter,
      lookup_str_map. fold fu. destruct (buf_get _ i); [by destruct (zget data (i - index)); simpl; [case_guard|]|].
    destruct (Z.leb_spec fu i), (Z.ltb_spec i (window_end r data index eof)); simpl;
      destruct (zget data (i - index)); simpl; try done; case_guard; try done; lia. }
  assert (Hrun : forall k b, zget t k = Some b -> all !! (fu + k) = Some b).
  { intros k b Hk. pose proof (zget_Some _ _ _ Hk). rewrite Hall, Hget.
    destruct (Z.ltb_spec (fu + k) (fu + zlen t)); [|lia].
    by replace (fu + k - fu) with k by lia. }
  assert (Hnone : all !! (fu + zlen t) = None).
  { rewrite Hall, Hget, Z.ltb_irrefl, <- Hwr. apply Hwf'. }
  rewrite (drain_spec t all fu Hrun Hnone (run_size t all fu Hrun)).
  assert (Hknown : buf_map (_unassembledBuffer r') =
    filter (fun '(i, _) => fu + zlen t <= i) all).
  { apply map_eq. intros i. rewrite lookup_buf_map, map_lookup_filter, Hall, Hget.
    destruct (Z.ltb_spec i (fu + zlen t)).
    - rewrite (buf_get_below _ _ _ i (wf_buffer r' Hwf')) by lia.
      destruct (zget t (i - fu)); simpl; [case_guard; [lia|done]|done].
    - destruct (buf_get (_unassembledBuffer r') i); simpl; [case_guard; [done|lia]|done]. }
  split_and!; [done|done|]. rewrite <- Hknown, (size_buf_map _ _ _ (wf_buffer r' Hwf')).
  apply (wf_count r' Hwf').
Qed.

Lemma push_substring_refines_map_witness :
  exists r', push_substring (new_StreamReassembler 4) [Byte.x61; Byte.x62] 1 false = Ok r' /\
    ByteStream._buff (stream_out r') = [] /\ unassembled_bytes r' = 2.
Proof.
  destruct (push_substring_refines_map (new_StreamReassembler 4) [Byte.x61; Byte.x62] 1 false)
    as (r' & Hr & Hb & _ & Hn);
    [apply StreamReassembler.sr_wf_new; lia|discriminate|lia|vm_compute; done|done|vm_compute; done|].
  exists r'. split; [exact Hr|]. split; [exact Hb|exact Hn].
Defined.

(** C14: reassembly. Whatever parts of a stream [W] arrive, in any order, any
    number of times and overlapping, mixed with reads of any size: nothing is
    thrown, and the bytes read so far followed by the bytes buffered are the
    first [bytes_written] bytes of [W]; if the output has ended they are all
    of [W]. *)
Theorem reassembler_delivers_prefix W cap evs :
  0 <= cap -> zlen W + cap < 2 ^ 63 -> Forall (event_of W) evs ->
  exists out r, run (new_StreamReassembler cap) evs = Ok (out, r) /\
    zlen out = ByteStream.bytes_read (stream_out r) /\
    out ++ ByteStream._buff (stream_out r) =
      take (Z.to_nat (ByteStream.bytes_written (stream_out r))) W /\
    (ByteStream.input_ended (stream_out r) = true -> out ++ ByteStream._buff (stream_out r) = W).
Proof.
  intros Hc Hr Hevs. pose proof (zlen_nonneg W).
  destruct (run_follows W evs (new_StreamReassembler cap)) as (out & r & Hrun & Hf & Hrd & Hout);
    [apply follows_new; lia|simpl; lia|done|].
  change (ByteStream.bytes_read _) with 0 in Hrd at 2.
  change (ByteStream.bytes_read _) with 0 in Hout. rewrite Z.add_0_l in Hrd.
  exists out, r. unfold stream_out. split_and!; [done|done|..];
    by apply (follows_taken W r out Hf).
Qed.

Lemma reassembler_delivers_prefix_witness :
  exists out r, run (new_StreamReassembler 8)
    [Push [Byte.x62; Byte.x63] 1 true; Push [Byte.x61; Byte.x62] 0 false; Read 2] = Ok (out, r) /\
    out ++ ByteStream._buff (stream_out r) = [Byte.x61; Byte.x62; Byte.x63].
Proof.
  destruct (reassembler_delivers_prefix [Byte.x61; Byte.x62; Byte.x63] 8
    [Push [Byte.x62; Byte.x63] 1 true; Push [Byte.x61; Byte.x62] 0 false; Read 2])
    as (out & r & Hr & _ & _ & He); [lia|vm_compute; done| |].
  - apply Forall_cons_2; [split; [apply piece_of_sub; vm_compute; done|lia]|].
    apply Forall_cons_2; [split; [apply piece_of_sub; vm_compute; done|lia]|].
    apply Forall_cons_2; [simpl; lia|apply Forall_nil_2].
  - exists out, r. split; [exact Hr|]. apply He.
    revert Hr. vm_compute. intros [= <- <-]. reflexivity.
Defined.

(** Progress. When a part of the stream covers the first unassembled byte,
    everything it brings up to the end of the window is written to the output
    in the same call. *)
Theorem push_delivers_contiguous W r data index eof :
  follows W r -> zlen W < 2 ^ 63 -> piece_of W data index eof -> 0 <= index ->
  index <= ByteStream.bytes_written (stream_out r) ->
  exists r', push_substring r data index eof = Ok r' /\ follows W r' /\
    Z.min (index + zlen data) (ByteStream.bytes_read (stream_out r) + _capacity r)
      <= ByteStream.bytes_written (stream_out r').
Proof. intros Hf HW. apply (push_progress W HW r data index eof Hf). Qed.

Lemma push_delivers_contiguous_witness :
  exists r', push_substring (new_StreamReassembler 8) [Byte.x61] 0 true = Ok r' /\
    1 <= ByteStream.bytes_written (stream_out r').
Proof.
  destruct (push_delivers_contiguous [Byte.x61] (new_StreamReassembler 8) [Byte.x61] 0 true)
    as (r' & Hr & _ & Hw); [apply follows_new; vm_compute; done|vm_compute; done|..].
  - constructor; [done|reflexivity].
  - lia.
  - vm_compute. done.
  - exists r'. split; [exact Hr|exact Hw].
Defined.
