(* ===== verification/Buffer.v ===== *)
(** * Reference-counted strings

    Models [Buffer], [BufferList] and [BufferViewList] of
    [src/libsponge/util/buffer.hh] and [.cc]. The shared string is never
    modified after construction, so sharing is modelled by value. *)

From S2P Require Import Prelude.

(** ** Buffer *)

Record Buffer := {
  _storage : option (list byte);
  _starting_offset : Z
}.

(** The default constructor and the one that takes a string. *)
Definition empty_Buffer : Buffer := {| _storage := None; _starting_offset := 0 |}.
Definition new_Buffer (s : list byte) : Buffer := {| _storage := Some s; _starting_offset := 0 |}.

Definition str (b : Buffer) : list byte :=
  match _storage b with
  | None => []
  | Some s => drop (Z.to_nat (_starting_offset b)) s
  end.

Definition at_ (b : Buffer) (n : Z) : result Z :=
  match zget (str b) n with
  | Some c => Ok (b2z c)
  | None => Throw (out_of_range "basic_string_view::at")
  end.

Definition buf_length (b : Buffer) : Z := zlen (str b).
Definition copy (b : Buffer) : list byte := str b.

Definition remove_prefix (b : Buffer) (n : Z) : result Buffer :=
  if zlen (str b) <? n then Throw (out_of_range "Buffer::remove_prefix")
  else
    let off := u64 (_starting_offset b + n) in
    let storage :=
      match _storage b with
      | Some s => if off =? zlen s then None else Some s
      | None => None
      end in
    Ok {| _storage := storage; _starting_offset := off |}.

(** ** BufferList *)

Abbreviation BufferList := (list Buffer).

Definition bl_append (l other : BufferList) : BufferList := l ++ other.

(** [operator Buffer]. *)
Definition bl_to_Buffer (l : BufferList) : result Buffer :=
  match l with
  | [] => Ok empty_Buffer
  | [b] => Ok b
  | _ => Throw (runtime_error "BufferList: please use concatenate() to combine a multi-Buffer BufferList into one Buffer")
  end.

Definition bl_concatenate (l : BufferList) : list byte :=
  fold_left (fun ret b => ret ++ str b) l [].

Definition bl_size (l : BufferList) : Z :=
  fold_left (fun ret b => u64 (ret + buf_length b)) l 0.

Fixpoint bl_remove_prefix (l : BufferList) (n : Z) : result BufferList :=
  if n <=? 0 then Ok l
  else match l with
  | [] => Throw (out_of_range "BufferList::remove_prefix")
  | b :: rest =>
      if n <? zlen (str b) then b' ← remove_prefix b n; Ok (b' :: rest)
      else bl_remove_prefix rest (u64 (n - zlen (str b)))
  end.

(** ** BufferViewList *)

Abbreviation BufferViewList := (list (list byte)).

(** The constructors from a string (or view) and from a [BufferList]. *)
Definition bvl_of_string (s : list byte) : BufferViewList := [s].
Definition bvl_of_BufferList (l : BufferList) : BufferViewList := map str l.

Fixpoint bvl_remove_prefix (l : BufferViewList) (n : Z) : result BufferViewList :=
  if n <=? 0 then Ok l
  else match l with
  | [] => Throw (out_of_range "BufferListView::remove_prefix")
  | v :: rest =>
      if n <? zlen v then Ok (drop (Z.to_nat n) v :: rest)
      else bvl_remove_prefix rest (u64 (n - zlen v))
  end.

Definition bvl_size (l : BufferViewList) : Z :=
  fold_left (fun ret v => u64 (ret + zlen v)) l 0.

(** Base pointer and length of each piece; the pointer is modelled by the bytes
    it points to. *)
Definition as_iovecs (l : BufferViewList) : list (list byte * Z) :=
  map (fun v => (v, zlen v)) l.

(** ** Lemmas *)

(** The offset lies inside the string, whose size fits in 64 bits. *)
Definition wf_Buffer (b : Buffer) : Prop :=
  match _storage b with
  | None => True
  | Some s => 0 <= _starting_offset b <= zlen s /\ zlen s < 2 ^ 64
  end.

Lemma str_new s : str (new_Buffer s) = s.
Proof. reflexivity. Qed.

Lemma wf_new_Buffer s : zlen s < 2 ^ 64 -> wf_Buffer (new_Buffer s).
Proof. intros. unfold wf_Buffer. simpl. pose proof (zlen_nonneg s). lia. Qed.

Lemma remove_prefix_spec b n :
  wf_Buffer b -> 0 <= n <= zlen (str b) ->
  exists b', remove_prefix b n = Ok b' /\ str b' = drop (Z.to_nat n) (str b) /\ wf_Buffer b'.
Proof.
  intros Hwf Hn. unfold remove_prefix. destruct (Z.ltb_spec (zlen (str b)) n); [lia|].
  eexists. split; [done|]. unfold str, wf_Buffer in *. simpl.
  destruct (_storage b) as [s|]; [|by rewrite drop_nil].
  rewrite zlen_drop in Hn. rewrite u64_small by lia.
  destruct (Z.eqb_spec (_starting_offset b + n) (zlen s)) as [E|E].
  - split; [|done]. rewrite drop_drop. symmetry. apply drop_ge. unfold zlen in E. lia.
  - split; [rewrite drop_drop; f_equal|]; lia.
Qed.

Lemma bl_concatenate_cons_acc l acc :
  fold_left (fun ret b => ret ++ str b) l acc = acc ++ bl_concatenate l.
Proof.
  unfold bl_concatenate. revert acc. induction l as [|b l IH]; intros acc; simpl;
    [by rewrite app_nil_r|]. rewrite IH, (IH (str b)). by rewrite app_assoc.
Qed.

Lemma bl_concatenate_cons b l : bl_concatenate (b :: l) = str b ++ bl_concatenate l.
Proof. unfold bl_concatenate at 1. simpl. apply bl_concatenate_cons_acc. Qed.

Lemma bl_concatenate_app l k : bl_concatenate (bl_append l k) = bl_concatenate l ++ bl_concatenate k.
Proof.
  unfold bl_append. induction l as [|b l IH]; [done|].
  by rewrite <- app_comm_cons, !bl_concatenate_cons, IH, app_assoc.
Qed.

Lemma bl_size_spec l acc :
  0 <= acc -> acc + zlen (bl_concatenate l) < 2 ^ 64 ->
  fold_left (fun ret b => u64 (ret + buf_length b)) l acc = acc + zlen (bl_concatenate l).
Proof.
  revert acc. induction l as [|b l IH]; intros acc Ha Hb; simpl.
  - unfold bl_concatenate. simpl. autorewrite with zlen. lia.
  - rewrite bl_concatenate_cons, zlen_app in *. unfold buf_length.
    pose proof (zlen_nonneg (str b)). pose proof (zlen_nonneg (bl_concatenate l)).
    rewrite u64_small by lia. rewrite IH; lia.
Qed.

(** ** Properties *)

(** Discarding from a discontiguous string. [BufferList::remove_prefix]
    removes exactly the first [n] bytes of the concatenation, across buffer
    boundaries, and throws [out_of_range] exactly when there are fewer. *)
Theorem bl_remove_prefix_spec l n :
  Forall wf_Buffer l -> 0 <= n < 2 ^ 64 ->
  if n <=? zlen (bl_concatenate l)
  then exists l', bl_remove_prefix l n = Ok l' /\ Forall wf_Buffer l' /\
         bl_concatenate l' = drop (Z.to_nat n) (bl_concatenate l)
  else bl_remove_prefix l n = Throw (out_of_range "BufferList::remove_prefix").
Proof.
  intros Hwf. revert n. induction Hwf as [|b l Hb Hl IH]; intros n Hn.
  - unfold bl_concatenate. simpl. autorewrite with zlen.
    destruct (Z.leb_spec n 0); [|done]. exists []. by rewrite drop_nil.
  - rewrite bl_concatenate_cons, zlen_app. cbn [bl_remove_prefix].
    pose proof (zlen_nonneg (str b)). pose proof (zlen_nonneg (bl_concatenate l)).
    destruct (Z.leb_spec n 0).
    { destruct (Z.leb_spec n (zlen (str b) + zlen (bl_concatenate l))); [|lia].
      exists (b :: l). replace (Z.to_nat n) with 0%nat by lia.
      rewrite bl_concatenate_cons. split_and!; [done|by constructor|done]. }
    destruct (Z.ltb_spec n (zlen (str b))).
    + destruct (Z.leb_spec n (zlen (str b) + zlen (bl_concatenate l))); [|lia].
      destruct (remove_prefix_spec b n Hb) as (b' & -> & Hs & Hw); [lia|].
      exists (b' :: l). rewrite bl_concatenate_cons, Hs, drop_app_le by (unfold zlen in *; lia).
      split_and!; [done|by constructor|done].
    + rewrite u64_small by lia. specialize (IH (n - zlen (str b)) ltac:(lia)).
      destruct (Z.leb_spec (n - zlen (str b)) (zlen (bl_concatenate l))),
        (Z.leb_spec n (zlen (str b) + zlen (bl_concatenate l))); try lia; [|done].
      destruct IH as (l' & Hr & Hw & Hc). exists l'. split_and!; try done.
      rewrite Hc, drop_app_ge by (unfold zlen in *; lia). f_equal. unfold zlen in *. lia.
Qed.

Lemma bl_remove_prefix_spec_witness :
  exists l', bl_remove_prefix [new_Buffer [Byte.x61; Byte.x62]; new_Buffer [Byte.x63; Byte.x64]] 3 = Ok l' /\
    Forall wf_Buffer l' /\ bl_concatenate l' = [Byte.x64].
Proof.
  apply (bl_remove_prefix_spec [new_Buffer [Byte.x61; Byte.x62]; new_Buffer [Byte.x63; Byte.x64]] 3);
    [|lia]. apply Forall_cons_2; [apply wf_new_Buffer; vm_compute; done|].
  apply Forall_cons_2; [apply wf_new_Buffer; vm_compute; done|apply Forall_nil_2].
Defined.

Lemma bvl_remove_prefix_lem (l : BufferViewList) n :
  0 <= n < 2 ^ 64 ->
  if n <=? zlen (concat l)
  then exists l', bvl_remove_prefix l n = Ok l' /\ concat l' = drop (Z.to_nat n) (concat l)
  else bvl_remove_prefix l n = Throw (out_of_range "BufferListView::remove_prefix").
Proof.
  revert n. induction l as [|v l IH]; intros n Hn; simpl.
  - autorewrite with zlen. destruct (Z.leb_spec n 0); [|done]. exists []. by rewrite drop_nil.
  - rewrite zlen_app. pose proof (zlen_nonneg v). pose proof (zlen_nonneg (concat l)).
    destruct (Z.leb_spec n 0).
    { destruct (Z.leb_spec n (zlen v + zlen (concat l))); [|lia].
      exists (v :: l). by replace (Z.to_nat n) with 0%nat by lia. }
    destruct (Z.ltb_spec n (zlen v)).
    + destruct (Z.leb_spec n (zlen v + zlen (concat l))); [|lia].
      exists (drop (Z.to_nat n) v :: l). simpl. by rewrite drop_app_le by (unfold zlen in *; lia).
    + rewrite u64_small by lia. specialize (IH (n - zlen v) ltac:(lia)).
      destruct (Z.leb_spec (n - zlen v) (zlen (concat l))),
        (Z.leb_spec n (zlen v + zlen (concat l))); try lia; [|done].
      destruct IH as (l' & Hr & Hc). exists l'. split; [done|].
      rewrite Hc, drop_app_ge by (unfold zlen in *; lia). f_equal. unfold zlen in *. lia.
Qed.

(** Views. [BufferViewList::remove_prefix] removes the first [n] bytes of
    the views or throws, and the pieces handed to the kernel by [as_iovecs]
    join to what remains. *)
Theorem bvl_remove_prefix_spec (l : BufferViewList) n :
  0 <= n < 2 ^ 64 ->
  if n <=? zlen (concat l)
  then exists l', bvl_remove_prefix l n = Ok l' /\ concat l' = drop (Z.to_nat n) (concat l) /\
         concat (map fst (as_iovecs l')) = drop (Z.to_nat n) (concat l)
  else bvl_remove_prefix l n = Throw (out_of_range "BufferListView::remove_prefix").
Proof.
  intros Hn. pose proof (bvl_remove_prefix_lem l n Hn) as H. destruct (_ <=? _); [|done].
  destruct H as (l' & Hr & Hc). exists l'. split_and!; try done.
  unfold as_iovecs. by rewrite map_map, map_id.
Qed.

Lemma bvl_remove_prefix_spec_witness :
  exists l', bvl_remove_prefix [[Byte.x61; Byte.x62]; [Byte.x63]] 2 = Ok l' /\
    concat l' = [Byte.x63] /\ concat (map fst (as_iovecs l')) = [Byte.x63].
Proof. apply (bvl_remove_prefix_spec [[Byte.x61; Byte.x62]; [Byte.x63]] 2). lia. Defined.
