(* ===== verification/Parser.v ===== *)
(** * Network-order parsing and unparsing

    Models [ParseResult], [NetParser] and [NetUnparser] of
    [src/libsponge/util/parser.hh] and [.cc]. A method of [NetParser] is a
    function that threads the parser object; [Buffer::at] and
    [Buffer::remove_prefix] can throw, so the methods return [result]. *)

From S2P Require Import Prelude Buffer.

(** ** Data and operations *)

Inductive ParseResult :=
| NoError
| BadChecksum
| PacketTooShort
| WrongIPVersion
| HeaderTooShort
| TruncatedPacket
| Unsupported.

#[export] Instance ParseResult_eq_dec : EqDecision ParseResult.
Proof. solve_decision. Defined.

(** [as_string]: the array of names has no entry for [Unsupported]. *)
Definition as_string (r : ParseResult) : option string :=
  match r with
  | NoError => Some "NoError"
  | BadChecksum => Some "BadChecksum"
  | PacketTooShort => Some "PacketTooShort"
  | WrongIPVersion => Some "WrongIPVersion"
  | HeaderTooShort => Some "HeaderTooShort"
  | TruncatedPacket => Some "TruncatedPacket"
  | Unsupported => None
  end%string.

Record NetParser := {
  _buffer : Buffer;
  _error : ParseResult
}.

Definition new_NetParser (b : Buffer) : NetParser := {| _buffer := b; _error := NoError |}.

Definition buffer (p : NetParser) : Buffer := _buffer p.
Definition get_error (p : NetParser) : ParseResult := _error p.
Definition set_error (p : NetParser) (res : ParseResult) : NetParser :=
  {| _buffer := _buffer p; _error := res |}.
Definition error (p : NetParser) : bool := bool_decide (get_error p <> NoError).

Definition check_size (p : NetParser) (size : Z) : NetParser :=
  if buf_length (_buffer p) <? size then set_error p PacketTooShort else p.

(** The loop of [_parse_int] for a type of [bits] bits, from byte [i] on. *)
Fixpoint parse_int_loop (bits : Z) (b : Buffer) (n : nat) (i ret : Z) : result Z :=
  match n with
  | O => Ok ret
  | S n =>
      let ret := Z.shiftl ret 8 mod 2 ^ bits in
      c ← at_ b i;
      parse_int_loop bits b n (i + 1) ((ret + c) mod 2 ^ bits)
  end.

(** [_parse_int<T>] with [sizeof(T) = len]. *)
Definition parse_int (len : nat) (p : NetParser) : result (Z * NetParser) :=
  let p := check_size p (Z.of_nat len) in
  if error p then Ok (0, p)
  else
    ret ← parse_int_loop (8 * Z.of_nat len) (_buffer p) len 0 0;
    b ← Buffer.remove_prefix (_buffer p) (Z.of_nat len);
    Ok (ret, {| _buffer := b; _error := _error p |}).

Definition parse_u32 : NetParser -> result (Z * NetParser) := parse_int 4.
Definition parse_u16 : NetParser -> result (Z * NetParser) := parse_int 2.
Definition parse_u8 : NetParser -> result (Z * NetParser) := parse_int 1.

Definition skip_prefix (n : Z) (p : NetParser) : result NetParser :=
  let p := check_size p n in
  if error p then Ok p
  else b ← Buffer.remove_prefix (_buffer p) n; Ok {| _buffer := b; _error := _error p |}.

(** [_unparse_int<T>] with [sizeof(T) = len]: pushes the bytes from the most
    significant one down; [k] bytes are left. *)
Fixpoint unparse_int_loop (k : nat) (s : list byte) (val : Z) : list byte :=
  match k with
  | O => s
  | S k =>
      let the_byte := Z.land (Z.shiftr val (Z.of_nat k * 8)) 255 in
      unparse_int_loop k (s ++ [z2b the_byte]) val
  end.

Definition unparse_u32 (s : list byte) (val : Z) : list byte := unparse_int_loop 4 s val.
Definition unparse_u16 (s : list byte) (val : Z) : list byte := unparse_int_loop 2 s val.
Definition unparse_u8 (s : list byte) (val : Z) : list byte := unparse_int_loop 1 s val.

(** ** Big-endian byte strings *)

(** The value of a byte string in network order. *)
Fixpoint be_value (bs : list byte) : Z :=
  match bs with
  | [] => 0
  | b :: bs => b2z b * 2 ^ (8 * zlen bs) + be_value bs
  end.

(** The [k] low bytes of a value in network order. *)
Fixpoint be_bytes (k : nat) (val : Z) : list byte :=
  match k with
  | O => []
  | S k => z2b (Z.land (Z.shiftr val (Z.of_nat k * 8)) 255) :: be_bytes k val
  end.

Lemma length_be_bytes k v : length (be_bytes k v) = k.
Proof. induction k; simpl; congruence. Qed.

Lemma zlen_be_bytes k v : zlen (be_bytes k v) = Z.of_nat k.
Proof. unfold zlen. by rewrite length_be_bytes. Qed.

Lemma be_value_range bs : 0 <= be_value bs < 2 ^ (8 * zlen bs).
Proof.
  induction bs as [|b bs IH]; [by vm_compute|]. cbn [be_value].
  pose proof (b2z_range b). rewrite zlen_cons.
  replace (8 * (1 + zlen bs)) with (8 + 8 * zlen bs) by lia.
  rewrite Z.pow_add_r by (pose proof (zlen_nonneg bs); lia). nia.
Qed.

Lemma be_value_bytes k v : be_value (be_bytes k v) = v mod 2 ^ (8 * Z.of_nat k).
Proof.
  induction k as [|k IH]; [by rewrite Z.mod_1_r|]. cbn [be_bytes be_value].
  rewrite IH, zlen_be_bytes, b2z_z2b.
  change 255 with (Z.ones 8). rewrite Z.land_ones by lia. rewrite Z.shiftr_div_pow2 by lia.
  unfold u8. rewrite Z.mod_mod by lia.
  replace (8 * Z.of_nat (S k)) with (8 * Z.of_nat k + 8) by lia.
  rewrite Z.pow_add_r by lia. rewrite Z.rem_mul_r by lia.
  rewrite (Z.mul_comm (Z.of_nat k) 8). lia.
Qed.

Lemma unparse_int_loop_spec k s v : unparse_int_loop k s v = s ++ be_bytes k v.
Proof.
  revert s. induction k as [|k IH]; intros s; simpl; [by rewrite app_nil_r|].
  by rewrite IH, <- app_assoc.
Qed.

(** ** Parsing a well-formed buffer *)

Lemma parse_int_loop_spec bits b bs pre rest ret :
  0 <= bits -> str b = pre ++ bs ++ rest ->
  parse_int_loop bits b (length bs) (zlen pre) ret =
  Ok (match bs with [] => ret | _ => (ret * 2 ^ (8 * zlen bs) + be_value bs) mod 2 ^ bits end).
Proof.
  intros Hbits. revert pre ret. induction bs as [|c bs IH]; intros pre ret Hs; [done|].
  cbn [length parse_int_loop]. unfold at_.
  assert (zget (str b) (zlen pre) = Some c) as ->.
  { rewrite Hs. pose proof (zlen_nonneg pre). rewrite zget_app by lia.
    rewrite Z.ltb_irrefl, Z.sub_diag. done. }
  cbn [mbind result_bind]. replace (zlen pre + 1) with (zlen (pre ++ [c]))
    by (autorewrite with zlen; lia).
  rewrite IH by (rewrite Hs, <- app_assoc; done).
  rewrite Z.shiftl_mul_pow2 by lia. rewrite zlen_cons. pose proof (zlen_nonneg bs).
  assert (Hp : 2 ^ bits <> 0) by (apply Z.pow_nonzero; lia).
  replace (8 * (1 + zlen bs)) with (8 + 8 * zlen bs) by lia.
  rewrite Z.pow_add_r by lia. cbn [be_value].
  f_equal. destruct bs as [|d bs'].
  - cbn [be_value]. rewrite (@zlen_nil byte). change (2 ^ (8 * 0)) with 1.
    rewrite Zplus_mod_idemp_l. f_equal. lia.
  - generalize (be_value (d :: bs')), (2 ^ (8 * zlen (d :: bs'))). intros v q.
    rewrite mod_mul_add by done. rewrite Z.mul_add_distr_r, <- Z.add_assoc.
    rewrite mod_mul_add by done. f_equal. lia.
Qed.

(** The parser reads [bs] as a number and leaves [rest]. *)
Definition at_rest (p : NetParser) (rest : list byte) : Prop :=
  _error p = NoError /\ str (_buffer p) = rest /\ wf_Buffer (_buffer p).

Lemma at_rest_new s : zlen s < 2 ^ 64 -> at_rest (new_NetParser (new_Buffer s)) s.
Proof. intros. split_and!; [done|done|]. by apply wf_new_Buffer. Qed.

Lemma check_size_ok p n rest :
  at_rest p rest -> n <= zlen rest -> check_size p n = p /\ error p = false.
Proof.
  intros (He & Hs & _) Hn. unfold check_size, buf_length. rewrite Hs.
  destruct (Z.ltb_spec (zlen rest) n); [lia|]. unfold error, get_error. rewrite He.
  split; [done|]. apply bool_decide_eq_false_2. tauto.
Qed.

Lemma parse_int_spec len p bs rest :
  at_rest p (bs ++ rest) -> length bs = len -> (0 < len)%nat ->
  exists p', parse_int len p = Ok (be_value bs, p') /\ at_rest p' rest.
Proof.
  intros Hp Hl Hpos. destruct (check_size_ok p (Z.of_nat len) _ Hp) as [Hc He].
  { rewrite zlen_app. pose proof (zlen_nonneg rest). unfold zlen in *. lia. }
  unfold parse_int. rewrite Hc, He. destruct Hp as (Hn & Hs & Hw).
  pose proof (parse_int_loop_spec (8 * Z.of_nat len) (_buffer p) bs [] rest 0 ltac:(lia) Hs) as Hloop.
  rewrite Hl in Hloop. change (zlen []) with 0 in Hloop. rewrite Hloop. cbn [mbind result_bind].
  destruct (remove_prefix_spec (_buffer p) (Z.of_nat len) Hw) as (b' & -> & Hs' & Hw').
  { rewrite Hs, zlen_app. pose proof (zlen_nonneg rest). unfold zlen in *. lia. }
  cbn [mbind result_bind]. eexists. split.
  - do 2 f_equal. pose proof (be_value_range bs) as Hr. destruct bs as [|c bs]; [simpl in Hl; lia|].
    rewrite Z.mul_0_l, Z.add_0_l. apply Z.mod_small. unfold zlen in Hr. by rewrite <- Hl.
  - split_and!; [done| |done]. simpl. rewrite Hs', Hs, drop_app_length'; [done|lia].
Qed.

(** Parsing what was unparsed. *)
Lemma parse_int_be_bytes len p v rest :
  at_rest p (be_bytes len v ++ rest) -> (0 < len)%nat -> 0 <= v < 2 ^ (8 * Z.of_nat len) ->
  exists p', parse_int len p = Ok (v, p') /\ at_rest p' rest.
Proof.
  intros Hp Hl Hv. destruct (parse_int_spec len p (be_bytes len v) rest Hp) as (p' & Hr & Hp');
    [apply length_be_bytes|done|]. exists p'. split; [|done].
  by rewrite Hr, be_value_bytes, Z.mod_small.
Qed.

Lemma skip_prefix_spec p s rest :
  at_rest p (s ++ rest) -> exists p', skip_prefix (zlen s) p = Ok p' /\ at_rest p' rest.
Proof.
  intros Hp. destruct (check_size_ok p (zlen s) _ Hp) as [Hc He].
  { rewrite zlen_app. pose proof (zlen_nonneg rest). lia. }
  unfold skip_prefix. rewrite Hc, He. destruct Hp as (Hn & Hs & Hw).
  destruct (remove_prefix_spec (_buffer p) (zlen s) Hw) as (b' & -> & Hs' & Hw').
  { rewrite Hs, zlen_app. pose proof (zlen_nonneg rest). pose proof (zlen_nonneg s). lia. }
  eexists. split; [done|]. split_and!; [done| |done].
  simpl. rewrite Hs', Hs, drop_app_length'; [done|unfold zlen; lia].
Qed.

(** ** Parsing arbitrary bytes *)

(** The parser has moved on. *)
Definition shrinks (p p' : NetParser) : Prop :=
  wf_Buffer (_buffer p') /\ zlen (str (_buffer p')) <= zlen (str (_buffer p)).

Lemma check_size_cases p n :
  error (check_size p n) = true \/
  (check_size p n = p /\ error p = false /\ _error p = NoError /\ n <= zlen (str (_buffer p))).
Proof.
  unfold check_size, buf_length. destruct (Z.ltb_spec (zlen (str (_buffer p))) n); [by left|].
  unfold error, get_error. destruct (decide (_error p = NoError)) as [He|He].
  - right. split_and!; [done| |done|done]. by rewrite bool_decide_eq_false_2 by tauto.
  - left. by apply bool_decide_eq_true_2.
Qed.

Lemma check_size_buffer p n : _buffer (check_size p n) = _buffer p.
Proof. unfold check_size. by destruct (_ <? _). Qed.

(** Reads never throw: on a short buffer the parser records the error. *)
Lemma parse_int_total len p :
  wf_Buffer (_buffer p) -> (0 < len)%nat ->
  exists v p', parse_int len p = Ok (v, p') /\ shrinks p p' /\ 0 <= v < 2 ^ (8 * Z.of_nat len).
Proof.
  intros Hw Hl. destruct (check_size_cases p (Z.of_nat len)) as [He|(Hc & He & Hne & Hn)].
  - unfold parse_int. rewrite He. eexists 0, _. split; [done|].
    unfold shrinks. rewrite check_size_buffer. split; [split; [done|lia]|]. split; [done|].
    apply Z.pow_pos_nonneg; lia.
  - destruct (parse_int_spec len p (take len (str (_buffer p))) (drop len (str (_buffer p))))
      as (p' & Hr & _ & Hs & Hw').
    + split_and!; [done|by rewrite take_drop|done].
    + rewrite length_take. unfold zlen in Hn. lia.
    + done.
    + eexists _, p'. split; [done|]. split; [split; [done|rewrite Hs, zlen_drop; pose proof (zlen_nonneg (str (_buffer p))); lia]|].
      pose proof (be_value_range (take len (str (_buffer p)))) as Hr'.
      rewrite zlen_take in Hr'. by replace (Z.min _ _) with (Z.of_nat len) in Hr' by lia.
Qed.

Lemma skip_prefix_total n p :
  wf_Buffer (_buffer p) -> 0 <= n < 2 ^ 64 ->
  exists p', skip_prefix n p = Ok p' /\ shrinks p p'.
Proof.
  intros Hw Hn. unfold skip_prefix. destruct (check_size_cases p n) as [He|(Hc & He & Hne & Hle)].
  - rewrite He. eexists. split; [done|]. unfold shrinks. rewrite check_size_buffer. by split; [|lia].
  - rewrite Hc, He. destruct (remove_prefix_spec (_buffer p) n Hw) as (b' & -> & Hs & Hw'); [lia|].
    eexists. split; [done|]. split; [done|]. cbn. rewrite Hs, zlen_drop.
    pose proof (zlen_nonneg (str (_buffer p))). lia.
Qed.

(** ** Properties *)

(** Integers round trip. A value written by [NetUnparser] in front of any
    bytes is read back by [NetParser] at the same width, which then stands at
    those bytes without an error. *)
Theorem parse_unparse_int v16 v32 v8 rest :
  0 <= v8 < 2 ^ 8 -> 0 <= v16 < 2 ^ 16 -> 0 <= v32 < 2 ^ 32 -> zlen rest < 2 ^ 63 ->
  exists p1 p2 p3,
    parse_u8 (new_NetParser (new_Buffer
      (unparse_u32 (unparse_u16 (unparse_u8 [] v8) v16) v32 ++ rest))) = Ok (v8, p1) /\
    parse_u16 p1 = Ok (v16, p2) /\ parse_u32 p2 = Ok (v32, p3) /\
    get_error p3 = NoError /\ str (buffer p3) = rest.
Proof.
  intros H8 H16 H32 Hr. unfold unparse_u8, unparse_u16, unparse_u32.
  rewrite !unparse_int_loop_spec, app_nil_l, <- !app_assoc.
  destruct (parse_int_be_bytes 1 (new_NetParser (new_Buffer (be_bytes 1 v8 ++ be_bytes 2 v16 ++ be_bytes 4 v32 ++ rest)))
    v8 (be_bytes 2 v16 ++ be_bytes 4 v32 ++ rest)) as (p1 & H1 & Hp1); [|lia|done|].
  { apply at_rest_new. rewrite !zlen_app, !zlen_be_bytes. lia. }
  destruct (parse_int_be_bytes 2 p1 v16 (be_bytes 4 v32 ++ rest)) as (p2 & H2 & Hp2); [done|lia|done|].
  destruct (parse_int_be_bytes 4 p2 v32 rest) as (p3 & H3 & Hp3); [done|lia|done|].
  exists p1, p2, p3. split_and!; try done; apply Hp3.
Qed.

Lemma parse_unparse_int_witness :
  exists p1 p2 p3,
    parse_u8 (new_NetParser (new_Buffer
      (unparse_u32 (unparse_u16 (unparse_u8 [] 7) 258) 16909060 ++ [Byte.x61]))) = Ok (7, p1) /\
    parse_u16 p1 = Ok (258, p2) /\ parse_u32 p2 = Ok (16909060, p3) /\
    get_error p3 = NoError /\ str (buffer p3) = [Byte.x61].
Proof. apply parse_unparse_int; [lia..|vm_compute; done]. Defined.
