(* ===== verification/InternetChecksum.v ===== *)
(** * The Internet checksum

    Models class [InternetChecksum] of [src/libsponge/util/util.hh] and
    [util.cc]: a 32-bit running sum of big-endian 16-bit words that is folded
    and complemented at the end. *)

From S2P Require Import Prelude Buffer Parser.

(** ** State and operations *)

Record InternetChecksum := {
  _sum : Z;
  _parity : bool
}.

Definition new_InternetChecksum (initial_sum : Z) : InternetChecksum :=
  {| _sum := initial_sum; _parity := false |}.

(** One iteration of the loop in [add]. *)
Definition add_byte (c : InternetChecksum) (b : byte) : InternetChecksum :=
  let val := b2z b in
  let val := if _parity c then val else u16 (Z.shiftl val 8) in
  {| _sum := u32 (_sum c + val); _parity := negb (_parity c) |}.

Definition add (c : InternetChecksum) (data : list byte) : InternetChecksum :=
  fold_left add_byte data c.

(** The loop in [value]; [None] if the fuel does not suffice. *)
Fixpoint fold_carries (fuel : nat) (ret : Z) : option Z :=
  if 65535 <? ret then
    match fuel with
    | O => None
    | S fuel => fold_carries fuel (u32 (Z.shiftr ret 16 + Z.land ret 65535))
    end
  else Some ret.

(** Two iterations are enough for a 32-bit sum, see [fold_carries_total]. *)
Definition value (c : InternetChecksum) : Z :=
  match fold_carries 2 (_sum c) with
  | Some ret => u16 (u32 (Z.lnot ret))
  | None => 0
  end.

(** ** Lemmas *)

Lemma fold_step ret :
  0 <= ret < 2 ^ 32 ->
  u32 (Z.shiftr ret 16 + Z.land ret 65535) = ret / 2 ^ 16 + ret mod 2 ^ 16.
Proof.
  intros Hr. rewrite Z.shiftr_div_pow2 by lia.
  replace (Z.land ret 65535) with (ret mod 2 ^ 16) by (symmetry; apply (Z.land_ones ret 16); lia).
  apply u32_small. word.
Qed.

(** The folded sum is the sum modulo [2^16 - 1], and zero only for a zero sum. *)
Lemma fold_carries_spec s :
  0 <= s < 2 ^ 32 ->
  exists r, fold_carries 2 s = Some r /\ 0 <= r <= 65535 /\ (r - s) mod 65535 = 0 /\
    (r = 0 <-> s = 0).
Proof.
  intros Hs. unfold fold_carries. rewrite fold_step by done.
  destruct (Z.ltb_spec 65535 s).
  2: { exists s. rewrite Z.sub_diag. split_and!; done || lia. }
  set (s1 := s / 2 ^ 16 + s mod 2 ^ 16).
  assert (Hs1 : 0 < s1 <= 131070 /\ (s1 - s) mod 65535 = 0) by (subst s1; split; word).
  clearbody s1. rewrite fold_step by lia.
  destruct (Z.ltb_spec 65535 s1).
  2: { exists s1. split_and!; done || lia. }
  assert (s1 / 2 ^ 16 + s1 mod 2 ^ 16 = s1 - 65535) as -> by word.
  destruct (Z.ltb_spec 65535 (s1 - 65535)); [lia|].
  exists (s1 - 65535). split_and!; try done; try lia. word.
Qed.

Lemma value_spec c :
  0 <= _sum c < 2 ^ 32 ->
  0 <= value c <= 65535 /\ (value c + _sum c) mod 65535 = 0 /\
  (value c = 65535 <-> _sum c = 0).
Proof.
  intros Hs. destruct (fold_carries_spec (_sum c) Hs) as (r & Hf & Hr & Hm & Hp).
  unfold value. rewrite Hf. assert (u16 (u32 (Z.lnot r)) = 65535 - r) as ->.
  { unfold Z.lnot. word. }
  split; [lia|]. split; [word|]. rewrite <- Hp. lia.
Qed.

(** A correct checksum is one that makes the sum a positive multiple of [2^16 - 1]. *)
Lemma value_zero_iff c :
  0 <= _sum c < 2 ^ 32 -> (value c = 0 <-> _sum c <> 0 /\ _sum c mod 65535 = 0).
Proof.
  intros Hs. destruct (value_spec c Hs) as (Hr & Hm & Hz). split.
  - intros E. rewrite E in *. split; [lia|]. word.
  - intros [Hn Hd]. destruct (decide (value c = 0)); [done|].
    destruct (decide (value c = 65535)); [by apply Hz in e|]. word.
Qed.

(** ** The sum of a byte string as 16-bit words *)

(** The exact sum of the words of [data]; [odd] says that the first byte is a
    low one. *)
Fixpoint word_sum (odd : bool) (data : list byte) : Z :=
  match data with
  | [] => 0
  | b :: data => (if odd then b2z b else b2z b * 256) + word_sum (negb odd) data
  end.

Lemma word_sum_bound odd data : 0 <= word_sum odd data <= 65280 * zlen data.
Proof.
  revert odd. induction data as [|b data IH]; intros odd; simpl; [by vm_compute|].
  rewrite zlen_cons. pose proof (b2z_range b). specialize (IH (negb odd)). destruct odd; lia.
Qed.

Lemma word_sum_app odd a b :
  word_sum odd (a ++ b) = word_sum odd a + word_sum (xorb odd (Z.odd (zlen a))) b.
Proof.
  revert odd. induction a as [|c a IH]; intros odd; cbn [word_sum app].
  - change (Z.odd (zlen [])) with false. by rewrite xorb_false_r.
  - rewrite IH, zlen_cons, Z.odd_add, <- Z.add_assoc. by destruct odd, (Z.odd (zlen a)).
Qed.

Lemma add_spec data c :
  0 <= _sum c -> _sum c + word_sum (_parity c) data < 2 ^ 32 ->
  add c data = {| _sum := _sum c + word_sum (_parity c) data;
                  _parity := xorb (_parity c) (Z.odd (zlen data)) |}.
Proof.
  unfold add. revert c. induction data as [|b data IH]; intros [s p] Hs Hb;
    cbn [word_sum fold_left _sum _parity] in *.
  - change (Z.odd (zlen [])) with false. by rewrite xorb_false_r, Z.add_0_r.
  - pose proof (b2z_range b). pose proof (word_sum_bound (negb p) data).
    assert (Hv : u16 (Z.shiftl (b2z b) 8) = b2z b * 256).
    { rewrite Z.shiftl_mul_pow2 by lia. apply u16_small. lia. }
    unfold add_byte at 2; cbn [_sum _parity]. rewrite Hv.
    rewrite u32_small by (destruct p; lia). rewrite IH; cbn [_sum _parity]; [|destruct p; lia..].
    f_equal; [lia|]. rewrite zlen_cons, Z.odd_add. by destruct p, (Z.odd (zlen data)).
Qed.

Lemma add_app c a b : add (add c a) b = add c (a ++ b).
Proof. unfold add. by rewrite fold_left_app. Qed.

Lemma word_sum_be16 c : 0 <= c < 2 ^ 16 -> word_sum false (be_bytes 2 c) = c.
Proof.
  intros Hc. pose proof (be_value_bytes 2 c) as Hv. rewrite Z.mod_small in Hv by (simpl; lia).
  rewrite <- Hv at 2. cbn [be_bytes word_sum be_value negb]. rewrite zlen_cons.
  change (2 ^ (8 * (1 + zlen (@nil byte)))) with 256. change (2 ^ (8 * zlen (@nil byte))) with 1. lia.
Qed.

(** The sum a fresh checksum reaches on [data]. *)
Lemma sum_of init data :
  0 <= init -> init + 65280 * zlen data < 2 ^ 32 ->
  _sum (add (new_InternetChecksum init) data) = init + word_sum false data.
Proof.
  intros Hi Hb. pose proof (word_sum_bound false data).
  rewrite add_spec; simpl; [done|done|lia].
Qed.

(** Inserting the complement of the sum makes the whole sum check out. *)
Lemma checksum_verifies_lem init pre post :
  0 <= init -> Z.odd (zlen pre) = false ->
  init + 65280 * (zlen pre + 2 + zlen post) + 65535 < 2 ^ 32 ->
  let c := value (add (new_InternetChecksum init) (pre ++ be_bytes 2 0 ++ post)) in
  value (add (new_InternetChecksum init) (pre ++ be_bytes 2 c ++ post)) = 0.
Proof.
  intros Hi Hodd Hb c.
  assert (Hlen : forall v, zlen (pre ++ be_bytes 2 v ++ post) = zlen pre + 2 + zlen post)
    by (intros; rewrite !zlen_app, zlen_be_bytes; lia).
  assert (Hws : forall v, 0 <= v < 2 ^ 16 ->
    word_sum false (pre ++ be_bytes 2 v ++ post) = word_sum false pre + v + word_sum false post).
  { intros v Hv. rewrite !word_sum_app, Hodd, word_sum_be16, zlen_be_bytes by done. simpl. lia. }
  pose proof (word_sum_bound false pre). pose proof (word_sum_bound false post).
  pose proof (sum_of init (pre ++ be_bytes 2 0 ++ post) Hi) as Hs0.
  rewrite Hlen, Hws in Hs0 by lia. specialize (Hs0 ltac:(lia)).
  destruct (value_spec (add (new_InternetChecksum init) (pre ++ be_bytes 2 0 ++ post)))
    as (Hc & Hm & Hz); [lia|]. fold c in Hc, Hm, Hz. rewrite Hs0 in Hm, Hz.
  pose proof (sum_of init (pre ++ be_bytes 2 c ++ post) Hi) as Hs1.
  rewrite Hlen, Hws in Hs1 by lia. specialize (Hs1 ltac:(lia)).
  apply value_zero_iff; rewrite Hs1; [lia|]. split; [lia|]. rewrite <- Hm. f_equal. lia.
Qed.

(** ** Properties *)

(** The folding loop terminates. Two iterations bring any 32-bit sum below
    2^16, and more fuel does not change the result. *)
Theorem fold_carries_total s n :
  0 <= s < 2 ^ 32 -> is_Some (fold_carries (2 + n) s) /\ fold_carries (2 + n) s = fold_carries 2 s.
Proof.
  intros Hs. destruct (fold_carries_spec s Hs) as (r & Hf & _).
  assert (Hmono : forall k m x y, fold_carries k x = Some y -> fold_carries (k + m) x = Some y).
  { induction k as [|k IH]; intros m x y; simpl; destruct (65535 <? x) eqn:E; try done.
    - intros [= <-]. destruct m; simpl; by rewrite E.
    - apply IH. }
  rewrite Hf, (Hmono 2%nat n s r Hf). eauto.
Qed.

Lemma fold_carries_total_witness :
  is_Some (fold_carries (2 + 5) 4294967295) /\
  fold_carries (2 + 5) 4294967295 = fold_carries 2 4294967295.
Proof. apply fold_carries_total. lia. Defined.

(** Writer and checker agree. Computing the checksum with the two checksum
    bytes zeroed and writing it there makes the checksum of the whole packet
    zero, whatever pseudo-header sum it starts from. *)
Theorem checksum_verifies init pre post :
  0 <= init -> Z.odd (zlen pre) = false ->
  init + 65280 * (zlen pre + 2 + zlen post) + 65535 < 2 ^ 32 ->
  let c := value (add (new_InternetChecksum init) (pre ++ unparse_u16 [] 0 ++ post)) in
  value (add (new_InternetChecksum init) (pre ++ unparse_u16 [] c ++ post)) = 0.
Proof.
  intros Hi Ho Hb. unfold unparse_u16. rewrite !unparse_int_loop_spec, !app_nil_l.
  by apply checksum_verifies_lem.
Qed.

Lemma checksum_verifies_witness :
  value (add (new_InternetChecksum 17) ([Byte.x45; Byte.x61] ++ unparse_u16 []
    (value (add (new_InternetChecksum 17) ([Byte.x45; Byte.x61] ++ unparse_u16 [] 0 ++ [Byte.x62])))
    ++ [Byte.x62])) = 0.
Proof.
  apply (checksum_verifies 17 [Byte.x45; Byte.x61] [Byte.x62]); [lia|reflexivity|vm_compute; done].
Defined.

(** Error detection. If a packet checks out, then the packet with any one
    byte changed to another value does not. *)
Theorem checksum_detects_byte init pre b b' post :
  0 <= init -> init + 65280 * (zlen pre + 1 + zlen post) < 2 ^ 32 ->
  value (add (new_InternetChecksum init) (pre ++ [b] ++ post)) = 0 -> b <> b' ->
  value (add (new_InternetChecksum init) (pre ++ [b'] ++ post)) <> 0.
Proof.
  intros Hi Hb Hv Hne Hv'.
  assert (Hs : forall x, _sum (add (new_InternetChecksum init) (pre ++ [x] ++ post)) =
    init + word_sum false (pre ++ [x] ++ post)).
  { intros x. apply sum_of; [done|]. rewrite !zlen_app, zlen_cons, (@zlen_nil byte). lia. }
  assert (Hr : forall x, 0 <= init + word_sum false (pre ++ [x] ++ post) < 2 ^ 32).
  { intros x. pose proof (word_sum_bound false (pre ++ [x] ++ post)) as H.
    rewrite !zlen_app, zlen_cons, (@zlen_nil byte) in H. lia. }
  apply value_zero_iff in Hv, Hv'; rewrite Hs in *; try apply Hr.
  assert (Hb2 : b2z b <> b2z b').
  { intros E. apply Hne. by rewrite <- (z2b_b2z b), <- (z2b_b2z b'), E. }
  pose proof (b2z_range b). pose proof (b2z_range b').
  destruct Hv as [_ Hv], Hv' as [_ Hv']. rewrite !word_sum_app in *. cbn [word_sum app] in *.
  destruct (xorb false (Z.odd (zlen pre))); simpl in *; rewrite ?Z.add_0_r in *.
  all: set (A := word_sum _ pre) in *; set (B := word_sum _ post) in *; clearbody A B; word.
Qed.

Lemma checksum_detects_byte_witness :
  value (add (new_InternetChecksum 0) ([Byte.xff; Byte.xff] ++ [Byte.x01] ++ [])) <> 0.
Proof.
  apply (checksum_detects_byte 0 [Byte.xff; Byte.xff] Byte.x00 Byte.x01 []);
    [lia|vm_compute; done|reflexivity|discriminate].
Defined.
