(* ===== verification/TCPHeader.v ===== *)
(** * TCP segment headers

    Models [TCPHeader] of [src/libsponge/tcp_helpers/tcp_header.hh] and [.cc]:
    the fields, [parse], [serialize] and [operator==]. The textual dumps
    [to_string] and [summary] are in [HeaderText]. *)

From S2P Require Import Prelude WrappingIntegers Buffer Parser.

(** ** Data and operations *)

Definition LENGTH : Z := 20.

Record TCPHeader := {
  sport : Z;
  dport : Z;
  seqno : WrappingInt32;
  ackno : WrappingInt32;
  doff : Z;
  urg : bool;
  ack : bool;
  psh : bool;
  rst : bool;
  syn : bool;
  fin : bool;
  win : Z;
  cksum : Z;
  uptr : Z
}.

(** The default member initializers. *)
Definition default_TCPHeader : TCPHeader :=
  {| sport := 0; dport := 0; seqno := wrapping_int32 0; ackno := wrapping_int32 0;
     doff := LENGTH / 4; urg := false; ack := false; psh := false; rst := false;
     syn := false; fin := false; win := 0; cksum := 0; uptr := 0 |}.

(** [static_cast<bool>(x & mask)]. *)
Definition bit_set (x mask : Z) : bool := negb (Z.land x mask =? 0).

(** Returns the result, the new header and the parser. *)
Definition parse (p : NetParser) : result (ParseResult * TCPHeader * NetParser) :=
  '(sport, p) ← parse_u16 p;
  '(dport, p) ← parse_u16 p;
  '(seq, p) ← parse_u32 p;
  '(ackn, p) ← parse_u32 p;
  '(off_b, p) ← parse_u8 p;
  '(fl_b, p) ← parse_u8 p;
  '(win, p) ← parse_u16 p;
  '(cksum, p) ← parse_u16 p;
  '(uptr, p) ← parse_u16 p;
  let doff := Z.shiftr off_b 4 in
  let h := {| sport := sport; dport := dport; seqno := wrapping_int32 seq;
              ackno := wrapping_int32 ackn; doff := doff;
              urg := bit_set fl_b 32; ack := bit_set fl_b 16; psh := bit_set fl_b 8;
              rst := bit_set fl_b 4; syn := bit_set fl_b 2; fin := bit_set fl_b 1;
              win := win; cksum := cksum; uptr := uptr |} in
  if doff <? 5 then Ok (HeaderTooShort, h, p)
  else
    p ← skip_prefix (u64 (doff * 4 - LENGTH)) p;
    if Parser.error p then Ok (get_error p, h, p) else Ok (NoError, h, p).

Definition flag (b : bool) (mask : Z) : Z := if b then mask else 0.

(** The flag byte. *)
Definition flags_byte (h : TCPHeader) : Z :=
  Z.lor (Z.lor (Z.lor (Z.lor (Z.lor (flag (urg h) 32) (flag (ack h) 16)) (flag (psh h) 8))
    (flag (rst h) 4)) (flag (syn h) 2)) (flag (fin h) 1).

Definition serialize (h : TCPHeader) : result (list byte) :=
  if doff h <? 5 then Throw (runtime_error "TCP header too short")
  else
    let ret := unparse_u16 [] (sport h) in
    let ret := unparse_u16 ret (dport h) in
    let ret := unparse_u32 ret (raw_value (seqno h)) in
    let ret := unparse_u32 ret (raw_value (ackno h)) in
    let ret := unparse_u8 ret (u8 (Z.shiftl (doff h) 4)) in
    let ret := unparse_u8 ret (u8 (flags_byte h)) in
    let ret := unparse_u16 ret (win h) in
    let ret := unparse_u16 ret (cksum h) in
    let ret := unparse_u16 ret (uptr h) in
    Ok (resize ret (4 * doff h)).

(** [operator==]: ports and checksum are not compared. *)
Definition eqb_TCPHeader (a b : TCPHeader) : bool :=
  eqb_wrapping (seqno a) (seqno b) && eqb_wrapping (ackno a) (ackno b) && (doff a =? doff b) &&
  Bool.eqb (urg a) (urg b) && Bool.eqb (ack a) (ack b) && Bool.eqb (psh a) (psh b) &&
  Bool.eqb (rst a) (rst b) && Bool.eqb (syn a) (syn b) && Bool.eqb (fin a) (fin b) &&
  (win a =? win b) && (uptr a =? uptr b).

(** Assignments to one field through [header()], used by the sender and the
    connection. *)
Definition set_seqno (h : TCPHeader) (v : WrappingInt32) : TCPHeader :=
  {| sport := sport h; dport := dport h; seqno := v; ackno := ackno h; doff := doff h;
     urg := urg h; ack := ack h; psh := psh h; rst := rst h; syn := syn h; fin := fin h;
     win := win h; cksum := cksum h; uptr := uptr h |}.
Definition set_syn (h : TCPHeader) : TCPHeader :=
  {| sport := sport h; dport := dport h; seqno := seqno h; ackno := ackno h; doff := doff h;
     urg := urg h; ack := ack h; psh := psh h; rst := rst h; syn := true; fin := fin h;
     win := win h; cksum := cksum h; uptr := uptr h |}.
Definition set_fin (h : TCPHeader) : TCPHeader :=
  {| sport := sport h; dport := dport h; seqno := seqno h; ackno := ackno h; doff := doff h;
     urg := urg h; ack := ack h; psh := psh h; rst := rst h; syn := syn h; fin := true;
     win := win h; cksum := cksum h; uptr := uptr h |}.
Definition set_rst (h : TCPHeader) : TCPHeader :=
  {| sport := sport h; dport := dport h; seqno := seqno h; ackno := ackno h; doff := doff h;
     urg := urg h; ack := ack h; psh := psh h; rst := true; syn := syn h; fin := fin h;
     win := win h; cksum := cksum h; uptr := uptr h |}.
Definition set_ack (h : TCPHeader) (v : WrappingInt32) (w : Z) : TCPHeader :=
  {| sport := sport h; dport := dport h; seqno := seqno h; ackno := v; doff := doff h;
     urg := urg h; ack := true; psh := psh h; rst := rst h; syn := syn h; fin := fin h;
     win := w; cksum := cksum h; uptr := uptr h |}.

(** ** Lemmas *)

(** Every field fits its type; a header of 20 to 60 bytes. *)
Record wf_TCPHeader (h : TCPHeader) : Prop := {
  wf_sport : 0 <= sport h < 2 ^ 16;
  wf_dport : 0 <= dport h < 2 ^ 16;
  wf_seqno : wi_wf (seqno h);
  wf_ackno : wi_wf (ackno h);
  wf_doff : 5 <= doff h < 16;
  wf_win : 0 <= win h < 2 ^ 16;
  wf_cksum : 0 <= cksum h < 2 ^ 16;
  wf_uptr : 0 <= uptr h < 2 ^ 16
}.

Definition set_cksum (h : TCPHeader) (c : Z) : TCPHeader :=
  {| sport := sport h; dport := dport h; seqno := seqno h; ackno := ackno h; doff := doff h;
     urg := urg h; ack := ack h; psh := psh h; rst := rst h; syn := syn h; fin := fin h;
     win := win h; cksum := c; uptr := uptr h |}.

(** The bytes in front of the checksum field, and those after it. *)
Definition before_cksum (h : TCPHeader) : list byte :=
  be_bytes 2 (sport h) ++ be_bytes 2 (dport h) ++ be_bytes 4 (raw_value (seqno h)) ++
  be_bytes 4 (raw_value (ackno h)) ++ be_bytes 1 (u8 (Z.shiftl (doff h) 4)) ++
  be_bytes 1 (u8 (flags_byte h)) ++ be_bytes 2 (win h).

Definition after_cksum (h : TCPHeader) : list byte :=
  be_bytes 2 (uptr h) ++ replicate (Z.to_nat (4 * doff h) - 20) Byte.x00.

Lemma zlen_before_cksum h : zlen (before_cksum h) = 16.
Proof. unfold before_cksum. rewrite !zlen_app, !zlen_be_bytes. lia. Qed.

Lemma zlen_after_cksum h : 5 <= doff h -> zlen (after_cksum h) = 4 * doff h - 18.
Proof.
  intros. unfold after_cksum. rewrite zlen_app, zlen_be_bytes. unfold zlen.
  rewrite length_replicate. lia.
Qed.

Lemma serialize_layout h :
  5 <= doff h ->
  TCPHeader.serialize h = Ok (before_cksum h ++ be_bytes 2 (cksum h) ++ after_cksum h).
Proof.
  intros Hd. unfold TCPHeader.serialize. destruct (Z.ltb_spec (doff h) 5); [lia|].
  unfold unparse_u8, unparse_u16, unparse_u32. rewrite !unparse_int_loop_spec, app_nil_l.
  f_equal. unfold resize. rewrite take_ge.
  - rewrite !length_app, !length_be_bytes. unfold before_cksum, after_cksum.
    rewrite <- !app_assoc. reflexivity.
  - rewrite !length_app, !length_be_bytes. lia.
Qed.

(** The flag byte keeps the six flags apart. *)
Lemma bit_set_flags h :
  bit_set (u8 (flags_byte h)) 32 = urg h /\ bit_set (u8 (flags_byte h)) 16 = ack h /\
  bit_set (u8 (flags_byte h)) 8 = psh h /\ bit_set (u8 (flags_byte h)) 4 = rst h /\
  bit_set (u8 (flags_byte h)) 2 = syn h /\ bit_set (u8 (flags_byte h)) 1 = fin h.
Proof. unfold flags_byte. by destruct (urg h), (ack h), (psh h), (rst h), (syn h), (fin h). Qed.

(** [parse_field] steps over one field that was written by [be_bytes]. *)
Ltac parse_field :=
  match goal with
  | H : at_rest ?p (be_bytes ?n ?v ++ ?r) |- context [parse_int ?n ?p] =>
      let p' := fresh "p" in let Hp := fresh "Hp" in
      destruct (parse_int_be_bytes n p v r H) as (p' & -> & Hp); [lia|simpl; try lia|];
      cbn [mbind result_bind]; clear H
  end.

Lemma parse_layout h p rest :
  wf_TCPHeader h ->
  at_rest p (before_cksum h ++ be_bytes 2 (cksum h) ++ after_cksum h ++ rest) ->
  exists p', parse p = Ok (NoError, h, p') /\ at_rest p' rest.
Proof.
  intros [H1 H2 H3 H4 H5 H6 H7 H8] Hp. unfold wi_wf in *.
  unfold before_cksum, after_cksum in Hp. rewrite <- !app_assoc in Hp.
  unfold parse, parse_u8, parse_u16, parse_u32.
  assert (Hoff : 0 <= u8 (Z.shiftl (doff h) 4) < 2 ^ 8) by apply u8_range.
  assert (Hfl : 0 <= u8 (flags_byte h) < 2 ^ 8) by apply u8_range.
  do 9 parse_field.
  assert (Hdoff : Z.shiftr (u8 (Z.shiftl (doff h) 4)) 4 = doff h).
  { rewrite Z.shiftl_mul_pow2, Z.shiftr_div_pow2 by lia. word. }
  rewrite Hdoff. destruct (Z.ltb_spec (doff h) 5); [lia|].
  assert (u64 (doff h * 4 - LENGTH) =
    zlen (replicate (Z.to_nat (4 * doff h) - 20) Byte.x00)) as ->.
  { unfold LENGTH, zlen. rewrite u64_small, length_replicate by lia. lia. }
  match goal with H : at_rest ?q (replicate _ _ ++ rest) |- _ =>
    destruct (skip_prefix_spec q _ rest H) as (p' & -> & Hp') end.
  cbn [mbind result_bind]. destruct (check_size_ok p' 0 rest Hp' (zlen_nonneg rest)) as [_ ->].
  exists p'. split; [|done]. destruct (bit_set_flags h) as (-> & -> & -> & -> & -> & ->).
  unfold wrapping_int32. rewrite !u32_small by lia. by destruct h as [? ? [] []].
Qed.

(** [parse_raw] steps over a field of arbitrary bytes. *)
Ltac parse_raw bs :=
  match goal with
  | H : at_rest ?p ?s |- context [parse_int ?n ?p] =>
      let p' := fresh "p" in let Hp := fresh "Hp" in
      destruct (parse_int_spec n p bs (drop n s) H) as (p' & -> & Hp); [reflexivity|lia|];
      cbn [mbind result_bind]; simpl drop in Hp; clear H
  end.

(** A data offset below five 32-bit words is reported by the return value only:
    the parser itself has no error, and stands after the first 20 bytes. *)
Lemma parse_short_offset p s :
  at_rest p s -> 20 <= zlen s ->
  (forall b, s !! 12%nat = Some b -> Z.shiftr (b2z b) 4 < 5) ->
  exists h p', parse p = Ok (HeaderTooShort, h, p') /\ at_rest p' (drop 20 s) /\ doff h < 5.
Proof.
  intros Hp Hl Ho. do 20 (destruct s as [|? s];
    [exfalso; rewrite ?zlen_cons, (@zlen_nil byte) in Hl; lia|]).
  specialize (Ho _ eq_refl). clear Hl. cbn [drop].
  unfold parse, parse_u8, parse_u16, parse_u32.
  parse_raw [b; b0]. parse_raw [b1; b2]. parse_raw [b3; b4; b5; b6].
  parse_raw [b7; b8; b9; b10]. parse_raw [b11]. parse_raw [b12].
  parse_raw [b13; b14]. parse_raw [b15; b16]. parse_raw [b17; b18].
  assert (Hv : be_value [b11] = b2z b11).
  { cbn [be_value]. change (2 ^ (8 * zlen (@nil byte))) with 1. lia. }
  rewrite Hv. destruct (Z.ltb_spec (Z.shiftr (b2z b11) 4) 5); [|lia].
  eexists _, _. split; [done|]. split; [done|]. done.
Qed.

(** [parse_any] steps over one field of whatever there is. *)
Ltac parse_any :=
  match goal with
  | H : wf_Buffer (_buffer ?p) |- context [parse_int ?n ?p] =>
      let v := fresh "v" in let p' := fresh "p" in let Hp := fresh "Hp" in
      destruct (parse_int_total n p H) as (v & p' & -> & [? ?] & Hp); [lia|]; cbn [mbind result_bind]
  end.

(** Any bytes are parsed without an exception, into fields of their widths. *)
Lemma parse_total p :
  wf_Buffer (_buffer p) ->
  exists r h p', parse p = Ok (r, h, p') /\ shrinks p p' /\
    wi_wf (seqno h) /\ wi_wf (ackno h) /\ 0 <= win h < 2 ^ 16 /\ 0 <= doff h < 2 ^ 4 /\
    0 <= sport h < 2 ^ 16 /\ 0 <= dport h < 2 ^ 16.
Proof.
  intros Hw. unfold parse, parse_u8, parse_u16, parse_u32, shrinks. do 9 parse_any.
  match goal with |- context [Z.shiftr ?x 4] =>
    assert (Hd : 0 <= Z.shiftr x 4 < 2 ^ 4) by (rewrite Z.shiftr_div_pow2 by lia; simpl in *; word);
    destruct (Z.ltb_spec (Z.shiftr x 4) 5) end.
  - do 3 eexists. split; [done|]. split; [split; [done|lia]|].
    split; [apply wi_wf_wrapping_int32|]. split; [apply wi_wf_wrapping_int32|]. simpl in *. lia.
  - match goal with |- context [skip_prefix ?n ?q] =>
      destruct (skip_prefix_total n q) as (q' & -> & [? ?]); [done|apply u64_range|] end.
    cbn [mbind result_bind]. destruct (Parser.error _); do 3 eexists; (split; [done|]);
      (split; [split; [done|lia]|]); (split; [apply wi_wf_wrapping_int32|]);
      (split; [apply wi_wf_wrapping_int32|]); simpl in *; lia.
Qed.

(** ** Properties *)

(** Header round trip. Serializing a header whose fields fit their types
    gives [4 * doff] bytes, and parsing them in front of any payload gives the
    header back without an error and stops at the payload. *)
Theorem tcp_header_roundtrip h rest :
  wf_TCPHeader h -> zlen rest < 2 ^ 63 ->
  exists s p, serialize h = Ok s /\ zlen s = 4 * doff h /\
    parse (new_NetParser (new_Buffer (s ++ rest))) = Ok (NoError, h, p) /\
    str (buffer p) = rest.
Proof.
  intros Hwf Hr. pose proof (wf_doff h Hwf).
  assert (Hl : zlen (before_cksum h ++ be_bytes 2 (cksum h) ++ after_cksum h) = 4 * doff h).
  { rewrite !zlen_app, zlen_before_cksum, zlen_be_bytes, zlen_after_cksum; lia. }
  destruct (parse_layout h (new_NetParser (new_Buffer
    (before_cksum h ++ be_bytes 2 (cksum h) ++ after_cksum h ++ rest))) rest Hwf) as (p & Hp & Hrest).
  { apply at_rest_new. rewrite !zlen_app in *. lia. }
  exists (before_cksum h ++ be_bytes 2 (cksum h) ++ after_cksum h), p.
  split_and!; [apply serialize_layout; lia|done| |apply Hrest].
  by rewrite <- !app_assoc.
Qed.

Lemma tcp_header_roundtrip_witness :
  exists s p, serialize default_TCPHeader = Ok s /\ zlen s = 20 /\
    parse (new_NetParser (new_Buffer (s ++ [Byte.x61]))) = Ok (NoError, default_TCPHeader, p) /\
    str (buffer p) = [Byte.x61].
Proof.
  apply (tcp_header_roundtrip default_TCPHeader [Byte.x61]); [|vm_compute; done].
  constructor; vm_compute; done.
Defined.
