(* ===== verification/TCPSegment.v ===== *)
(** * TCP segments

    Models [TCPSegment] of [src/libsponge/tcp_helpers/tcp_segment.hh] and
    [.cc]: header and payload, [parse], [serialize] with the checksum over the
    whole segment and a pseudo-header, and the length in sequence space. *)

From S2P Require Import Prelude WrappingIntegers Buffer Parser InternetChecksum TCPHeader.

(** ** Data and operations *)

Record TCPSegment := {
  _header : TCPHeader;
  _payload : Buffer
}.

Definition default_TCPSegment : TCPSegment :=
  {| _header := default_TCPHeader; _payload := empty_Buffer |}.

Definition header (seg : TCPSegment) : TCPHeader := _header seg.
Definition payload (seg : TCPSegment) : Buffer := _payload seg.

(** The return value of [TCPHeader::parse] is not looked at. *)
Definition parse (seg : TCPSegment) (buf : Buffer) (datagram_layer_checksum : Z)
    : result (ParseResult * TCPSegment) :=
  let check := add (new_InternetChecksum datagram_layer_checksum) (str buf) in
  if negb (value check =? 0) then Ok (BadChecksum, seg)
  else
    '(_, h, p) ← TCPHeader.parse (new_NetParser buf);
    Ok (get_error p, {| _header := h; _payload := Parser.buffer p |}).

Definition length_in_sequence_space (seg : TCPSegment) : Z :=
  u64 (zlen (str (payload seg)) + (if syn (header seg) then 1 else 0)
       + (if fin (header seg) then 1 else 0)).

Definition serialize (seg : TCPSegment) (datagram_layer_checksum : Z) : result BufferList :=
  let header_out := set_cksum (_header seg) 0 in
  hdr0 ← TCPHeader.serialize header_out;
  let check := new_InternetChecksum datagram_layer_checksum in
  let check := add check hdr0 in
  let check := add check (str (_payload seg)) in
  let header_out := set_cksum header_out (value check) in
  hdr ← TCPHeader.serialize header_out;
  Ok (bl_append (bl_append [] [new_Buffer hdr]) [_payload seg]).

(** ** Lemmas *)

Lemma set_cksum_layout h c :
  before_cksum (set_cksum h c) = before_cksum h /\ after_cksum (set_cksum h c) = after_cksum h.
Proof. done. Qed.

Lemma wf_set_cksum h c : wf_TCPHeader h -> 0 <= c < 2 ^ 16 -> wf_TCPHeader (set_cksum h c).
Proof. by intros [] ?; constructor. Qed.

(** The bytes [serialize] produces, with the checksum it computes. *)
Lemma segment_serialize_layout seg ck :
  5 <= doff (_header seg) ->
  let h := _header seg in
  let c := value (add (new_InternetChecksum ck)
             (before_cksum h ++ be_bytes 2 0 ++ after_cksum h ++ str (_payload seg))) in
  exists bl, serialize seg ck = Ok bl /\
    bl_concatenate bl = before_cksum h ++ be_bytes 2 c ++ after_cksum h ++ str (_payload seg).
Proof.
  intros Hd h c. unfold serialize. rewrite serialize_layout by done. cbn [mbind result_bind].
  rewrite add_app, <- !app_assoc.
  change (cksum (set_cksum (_header seg) 0)) with 0.
  destruct (set_cksum_layout (_header seg) 0) as [-> ->]. fold h. fold c.
  rewrite serialize_layout by done. cbn [mbind result_bind].
  eexists. split; [done|]. unfold bl_append. rewrite app_nil_l. cbn [app].
  rewrite !bl_concatenate_cons, str_new. change (bl_concatenate []) with (@nil byte).
  by rewrite app_nil_r, <- !app_assoc.
Qed.

(** [parse] after [serialize], and where the checksum is. *)
Lemma segment_roundtrip_layout seg seg0 ck :
  wf_TCPHeader (_header seg) -> 0 <= ck < 2 ^ 20 -> zlen (str (_payload seg)) <= 65495 ->
  exists bl c, serialize seg ck = Ok bl /\ 0 <= c < 2 ^ 16 /\
    bl_concatenate bl =
      before_cksum (_header seg) ++ be_bytes 2 c ++ after_cksum (_header seg) ++ str (_payload seg) /\
    zlen (bl_concatenate bl) = 4 * doff (_header seg) + zlen (str (_payload seg)) /\
    forall buf, wf_Buffer buf -> str buf = bl_concatenate bl ->
    exists p, parse seg0 buf ck =
        Ok (NoError, {| _header := set_cksum (_header seg) c; _payload := p |}) /\
      str p = str (_payload seg).
Proof.
  intros Hwf Hck Hpay. pose proof (wf_doff _ Hwf) as Hd.
  destruct (segment_serialize_layout seg ck) as (bl & Hs & Hb); [lia|].
  set (h := _header seg) in *. set (c := value _) in Hb.
  pose proof (zlen_before_cksum h) as Hl1. pose proof (zlen_after_cksum h) as Hl2.
  pose proof (zlen_nonneg (str (_payload seg))).
  assert (Hz : value (add (new_InternetChecksum ck) (bl_concatenate bl)) = 0).
  { rewrite Hb. apply checksum_verifies_lem; [lia|by rewrite Hl1|].
    rewrite !zlen_app, Hl1, Hl2 by lia. lia. }
  assert (Hc : 0 <= c < 2 ^ 16).
  { pose proof (sum_of ck (before_cksum h ++ be_bytes 2 0 ++ after_cksum h ++ str (_payload seg))) as Hsum.
    pose proof (word_sum_bound false (before_cksum h ++ be_bytes 2 0 ++ after_cksum h ++ str (_payload seg))) as Hwb.
    rewrite !zlen_app, Hl1, Hl2, zlen_be_bytes in * by lia.
    destruct (value_spec (add (new_InternetChecksum ck)
      (before_cksum h ++ be_bytes 2 0 ++ after_cksum h ++ str (_payload seg)))) as (Hv & _).
    - rewrite Hsum; lia.
    - fold c in Hv. lia. }
  exists bl, c. split; [done|]. split; [done|]. split; [done|]. split.
  { rewrite Hb, !zlen_app, Hl1, Hl2, zlen_be_bytes by lia. lia. }
  intros buf Hwb Hstr.
  destruct (parse_layout (set_cksum h c) (new_NetParser buf) (str (_payload seg))) as (p & Hp & Hrest).
  { by apply wf_set_cksum. }
  { split; [done|]. split; [|done]. cbn [_buffer new_NetParser]. by rewrite Hstr, Hb. }
  exists (_buffer p). unfold parse. rewrite Hstr, Hz. cbn [negb Z.eqb].
  rewrite Hp. destruct Hrest as (He & Hr & _). unfold get_error.
  cbn [mbind result_bind]. rewrite He. done.
Qed.

Lemma segment_roundtrip_lem seg seg0 ck :
  wf_TCPHeader (_header seg) -> 0 <= ck < 2 ^ 20 -> zlen (str (_payload seg)) <= 65495 ->
  exists bl c, serialize seg ck = Ok bl /\
    zlen (bl_concatenate bl) = 4 * doff (_header seg) + zlen (str (_payload seg)) /\
    forall buf, wf_Buffer buf -> str buf = bl_concatenate bl ->
    exists p, parse seg0 buf ck =
        Ok (NoError, {| _header := set_cksum (_header seg) c; _payload := p |}) /\
      str p = str (_payload seg).
Proof.
  intros Hwf Hck Hpay. destruct (segment_roundtrip_layout seg seg0 ck Hwf Hck Hpay) as (bl & c & H1 & _ & _ & H2).
  by exists bl, c.
Qed.

(** Any bytes are parsed without an exception. *)
Lemma segment_parse_total seg buf ck :
  wf_Buffer buf ->
  exists r seg', parse seg buf ck = Ok (r, seg') /\
    (r = NoError -> wi_wf (seqno (header seg')) /\ wi_wf (ackno (header seg')) /\
      0 <= win (header seg') < 2 ^ 16 /\ wf_Buffer (payload seg') /\
      zlen (str (payload seg')) <= zlen (str buf)).
Proof.
  intros Hw. unfold parse. destruct (negb _); [by exists BadChecksum, seg|].
  destruct (parse_total (new_NetParser buf) Hw) as (r & h & p & -> & [? ?] & H1 & H2 & H3 & _).
  cbn [mbind result_bind]. eexists _, _. split; [done|]. intros _. by split_and!; try apply H3.
Qed.

(** ** Properties *)

(** Segment round trip. What [serialize] produces for a pseudo-header sum
    is accepted by [parse] with the same sum, and gives back the header (with
    the computed checksum) and the payload. *)
Theorem tcp_segment_roundtrip seg seg0 ck :
  wf_TCPHeader (_header seg) -> 0 <= ck < 2 ^ 20 -> zlen (str (_payload seg)) <= 65495 ->
  exists bl c p, serialize seg ck = Ok bl /\
    parse seg0 (new_Buffer (bl_concatenate bl)) ck =
      Ok (NoError, {| _header := set_cksum (_header seg) c; _payload := p |}) /\
    str p = str (_payload seg).
Proof.
  intros Hwf Hck Hpay. destruct (segment_roundtrip_lem seg seg0 ck Hwf Hck Hpay) as (bl & c & Hs & Hl & Hp).
  pose proof (wf_doff _ Hwf). destruct (Hp (new_Buffer (bl_concatenate bl))) as (p & H1 & H2);
    [apply wf_new_Buffer; lia|apply str_new|]. by exists bl, c, p.
Qed.

Lemma tcp_segment_roundtrip_witness :
  exists bl c p,
    serialize {| _header := default_TCPHeader; _payload := new_Buffer [Byte.x68; Byte.x69; Byte.x21] |} 4660 = Ok bl /\
    parse default_TCPSegment (new_Buffer (bl_concatenate bl)) 4660 =
      Ok (NoError, {| _header := set_cksum default_TCPHeader c; _payload := p |}) /\
    str p = [Byte.x68; Byte.x69; Byte.x21].
Proof.
  apply (tcp_segment_roundtrip
    {| _header := default_TCPHeader; _payload := new_Buffer [Byte.x68; Byte.x69; Byte.x21] |});
    [constructor; vm_compute; done|lia|vm_compute; done].
Defined.

(** A bad checksum is always refused, and the object is left as it was. *)
Theorem tcp_segment_bad_checksum seg buf ck :
  value (add (new_InternetChecksum ck) (str buf)) <> 0 ->
  parse seg buf ck = Ok (BadChecksum, seg).
Proof. intros H. unfold parse. by rewrite (proj2 (Z.eqb_neq _ _) H). Qed.

Lemma tcp_segment_bad_checksum_witness :
  parse default_TCPSegment (new_Buffer [Byte.x61]) 0 = Ok (BadChecksum, default_TCPSegment).
Proof. apply tcp_segment_bad_checksum. vm_compute. done. Defined.

(** A data offset that is too small is not refused. [TCPHeader::parse]
    returns [HeaderTooShort] but leaves no error in the parser, and
    [TCPSegment::parse] only looks at the parser: a segment of at least 20
    bytes with a correct checksum is accepted with the error lost. *)
Theorem tcp_segment_accepts_short_offset seg s ck :
  zlen s < 2 ^ 63 -> 20 <= zlen s ->
  value (add (new_InternetChecksum ck) s) = 0 ->
  (forall b, s !! 12%nat = Some b -> Z.shiftr (b2z b) 4 < 5) ->
  (exists h p, TCPHeader.parse (new_NetParser (new_Buffer s)) = Ok (HeaderTooShort, h, p)) /\
  exists seg', parse seg (new_Buffer s) ck = Ok (NoError, seg') /\ doff (header seg') < 5.
Proof.
  intros Hs Hl Hv Ho.
  destruct (parse_short_offset (new_NetParser (new_Buffer s)) s) as (h & p & Hp & Hr & Hd); try done.
  { apply at_rest_new. lia. }
  split; [eauto|]. unfold parse. rewrite str_new, Hv. cbn [negb Z.eqb]. rewrite Hp.
  destruct Hr as (He & _). unfold get_error. cbn [mbind result_bind]. rewrite He. eauto.
Qed.

Lemma tcp_segment_accepts_short_offset_witness :
  exists seg', parse default_TCPSegment
    (new_Buffer (replicate 16 Byte.x00 ++ [Byte.xff; Byte.xff; Byte.x00; Byte.x00])) 0
    = Ok (NoError, seg') /\ doff (header seg') < 5.
Proof.
  apply (tcp_segment_accepts_short_offset default_TCPSegment
    (replicate 16 Byte.x00 ++ [Byte.xff; Byte.xff; Byte.x00; Byte.x00]) 0);
    [vm_compute; done|vm_compute; done|reflexivity|intros b [= <-]; vm_compute; done].
Defined.
