(* ===== verification/TCPReceiver.v ===== *)
(** * The TCP receiver

    Models class [TCPReceiver] of [src/libsponge/tcp_receiver.hh] and [.cc]:
    segments are unwrapped to stream positions and handed to the reassembler;
    the acknowledgment number and the window are computed from its output.
    (The members [_checkpoint] and [_fin] are written but never read.) *)

From S2P Require Import Prelude WrappingIntegers ByteStream StreamReassembler ReassemblerProps Buffer TCPHeader TCPSegment.

(** ** State and operations *)

Record TCPReceiver := {
  _reassembler : StreamReassembler;
  _capacity : Z;
  _isn : Z;
  _checkpoint : Z;
  _syn : bool;
  _fin : bool
}.

Definition new_TCPReceiver (capacity : Z) : TCPReceiver :=
  {| _reassembler := new_StreamReassembler capacity; _capacity := capacity;
     _isn := 0; _checkpoint := 0; _syn := false; _fin := false |}.

Definition stream_out (r : TCPReceiver) : ByteStream :=
  StreamReassembler.stream_out (_reassembler r).
Definition unassembled_bytes (r : TCPReceiver) : Z :=
  StreamReassembler.unassembled_bytes (_reassembler r).

Definition set_reassembler (r : TCPReceiver) (a : StreamReassembler) : TCPReceiver :=
  {| _reassembler := a; _capacity := _capacity r; _isn := _isn r;
     _checkpoint := _checkpoint r; _syn := _syn r; _fin := _fin r |}.

(** A change made through the reference [stream_out()]. *)
Definition on_stream_out (f : ByteStream -> ByteStream) (r : TCPReceiver) : TCPReceiver :=
  set_reassembler r (set_output (_reassembler r) (f (stream_out r))).

Definition segment_received (r : TCPReceiver) (seg : TCPSegment) : result TCPReceiver :=
  let h := header seg in
  if negb (syn h) && negb (_syn r) then Ok r
  else if syn h && _syn r then Ok r
  else
    let r1 := {| _reassembler := _reassembler r; _capacity := _capacity r;
                 _isn := if syn h then raw_value (seqno h) else _isn r;
                 _checkpoint := _checkpoint r;
                 _syn := if syn h then true else _syn r;
                 _fin := if fin h then true else _fin r |} in
    let index := unwrap (seqno h) (wrapping_int32 (_isn r1))
                   (StreamReassembler.unassembled_bytes (_reassembler r1)) in
    a ← push_substring (_reassembler r1) (copy (payload seg))
          (if syn h then 0 else u64 (index - 1)) (fin h);
    Ok (set_reassembler r1 a).

Definition ackno (r : TCPReceiver) : option WrappingInt32 :=
  if negb (_syn r) then None
  else
    let absolute_seqno := u64 (ByteStream.bytes_written (stream_out r) + 1) in
    if ByteStream.input_ended (stream_out r)
    then Some (wrap (u64 (absolute_seqno + 1)) (wrapping_int32 (_isn r)))
    else Some (wrap absolute_seqno (wrapping_int32 (_isn r))).

Definition window_size (r : TCPReceiver) : Z :=
  u64 (_capacity r - ByteStream.buffer_size (stream_out r)).

(** ** Well-formedness *)

(** A segment whose fields and payload a 16-bit IP length allows. *)
Definition seg_ok (seg : TCPSegment) : Prop :=
  wi_wf (seqno (header seg)) /\ wi_wf (TCPHeader.ackno (header seg)) /\
  zlen (str (payload seg)) < 2 ^ 32.

Record wf (r : TCPReceiver) : Prop := {
  wf_reassembler : StreamReassembler.wf (_reassembler r);
  wf_same_capacity : StreamReassembler._capacity (_reassembler r) = _capacity r;
  wf_capacity_small : _capacity r < 2 ^ 31;
  wf_isn : 0 <= _isn r < 2 ^ 32
}.

Lemma recv_wf_new cap : 0 <= cap < 2 ^ 31 -> wf (new_TCPReceiver cap).
Proof. intros. constructor; simpl; try lia. apply sr_wf_new. lia. Qed.

(** The index computed for a segment: with an unassembled count as checkpoint
    it is the unsigned distance from the initial sequence number. *)
Lemma index_eq r n :
  wf r -> wi_wf n ->
  unwrap n (wrapping_int32 (_isn r)) (StreamReassembler.unassembled_bytes (_reassembler r))
  = (raw_value n - _isn r) mod 2 ^ 32.
Proof.
  intros [Hr Hc Hs Hi] Hn. pose proof (wf_unassembled_bound _ Hr).
  rewrite unwrap_small_checkpoint; [|done|apply wi_wf_wrapping_int32|lia].
  unfold wrapping_int32. simpl. by rewrite (u32_small (_isn r)).
Qed.

(** Any segment is handled without an exception. *)
Lemma segment_received_wf r seg :
  wf r -> seg_ok seg ->
  exists r', segment_received r seg = Ok r' /\ wf r' /\ _capacity r' = _capacity r /\
    (_syn r = true -> _syn r' = true /\ _isn r' = _isn r) /\
    (_syn r' = _syn r || syn (header seg)).
Proof.
  intros Hwf (Hs & _ & Hl). unfold segment_received.
  destruct (negb (syn (header seg)) && negb (_syn r)) eqn:E1.
  { exists r. split_and!; try done. apply andb_true_iff in E1 as [E1 E2].
    apply negb_true_iff in E1, E2. by rewrite E1, E2. }
  destruct (syn (header seg) && _syn r) eqn:E2.
  { exists r. split_and!; try done. by apply andb_true_iff in E2 as [-> ->]. }
  cbn [_reassembler _isn]. destruct Hwf as [Hr Hc Hsm Hi].
  match goal with |- context [push_substring ?a ?d ?i ?e] =>
    destruct (push_substring_wf a d i e) as (a' & -> & Ha & Hcap & _) end.
  - done.
  - destruct (syn (header seg)); [lia|apply u64_range].
  - unfold copy. lia.
  - eexists. split; [done|]. split_and!; simpl; try done; try congruence.
    + constructor; simpl; try done; try congruence. by destruct (syn (header seg)).
    + intros Hsyn. rewrite Hsyn in *. destruct (syn (header seg)); [done|]. done.
    + by destruct (syn (header seg)), (_syn r).
Qed.

(** ** Receiving a stream

    [seg_of W isn seg]: [seg] is a segment that a sender of the stream [W] with
    initial sequence number [isn] may send, [q] being its absolute sequence
    number. A SYN carries the first bytes of the stream. *)
Definition seg_of (W : list byte) (isn : WrappingInt32) (seg : TCPSegment) : Prop :=
  exists q, 0 <= q < 2 ^ 32 /\ seqno (header seg) = wrap q isn /\
    (syn (header seg) = true -> q = 0) /\
    piece_of W (str (payload seg))
      (if syn (header seg) then 0 else u64 (q - 1)) (fin (header seg)).

(** The receiver has only seen segments of [W]. *)
Record receives (W : list byte) (isn : WrappingInt32) (r : TCPReceiver) : Prop := {
  rcv_wf : wf r;
  rcv_follows : follows W (_reassembler r);
  rcv_isn : _syn r = true -> _isn r = raw_value isn
}.

Lemma receives_new W isn cap :
  0 <= cap < 2 ^ 31 -> zlen W < 2 ^ 63 -> receives W isn (new_TCPReceiver cap).
Proof.
  intros. constructor; [by apply recv_wf_new|apply follows_new; simpl; lia|done].
Qed.

(** The position at which the payload of a segment is stored. *)
Definition position (isn : Z) (seg : TCPSegment) : Z :=
  if syn (header seg) then 0 else u64 ((raw_value (seqno (header seg)) - isn) mod 2 ^ 32 - 1).

Lemma position_range isn seg : 0 <= position isn seg < 2 ^ 64.
Proof. unfold position. destruct (syn _); [lia|apply u64_range]. Qed.

(** The two early returns of [segment_received], and what is pushed otherwise. *)
Definition ignored (r : TCPReceiver) (seg : TCPSegment) : bool :=
  Bool.eqb (syn (header seg)) (_syn r).

Lemma segment_received_eq r seg :
  wf r -> wi_wf (seqno (header seg)) ->
  segment_received r seg =
  if ignored r seg then Ok r
  else
    let isn := if syn (header seg) then raw_value (seqno (header seg)) else _isn r in
    a ← push_substring (_reassembler r) (str (payload seg)) (position isn seg) (fin (header seg));
    Ok {| _reassembler := a; _capacity := _capacity r; _isn := isn; _checkpoint := _checkpoint r;
          _syn := true; _fin := if fin (header seg) then true else _fin r |}.
Proof.
  intros Hwf Hs. unfold segment_received, ignored, position.
  destruct (syn (header seg)) eqn:Esyn, (_syn r) eqn:Er; simpl; try done.
  by rewrite index_eq.
Qed.

Lemma position_of W isn seg :
  wi_wf isn -> seg_of W isn seg ->
  piece_of W (str (payload seg)) (position (raw_value isn) seg) (fin (header seg)) /\
  wi_wf (seqno (header seg)) /\
  (syn (header seg) = true -> raw_value (seqno (header seg)) = raw_value isn).
Proof.
  intros Hi (q & Hq & Hs & H0 & Hp). unfold position. rewrite Hs, raw_wrap.
  replace ((((q + raw_value isn) mod 2 ^ 32) - raw_value isn) mod 2 ^ 32) with q by word.
  split_and!; [done|apply wi_wf_wrap|]. intros E. rewrite (H0 E).
  unfold wi_wf in Hi. by rewrite Z.mod_small by lia.
Qed.

(** A segment of the stream keeps the receiver on the stream. *)
Lemma segment_received_receives W isn r seg :
  wi_wf isn -> zlen W < 2 ^ 63 -> receives W isn r -> seg_of W isn seg ->
  exists r', segment_received r seg = Ok r' /\ receives W isn r' /\
    _capacity r' = _capacity r /\ _syn r' = (_syn r || syn (header seg)) /\
    ByteStream.bytes_read (stream_out r') = ByteStream.bytes_read (stream_out r) /\
    (ignored r seg = false ->
     position (raw_value isn) seg <= ByteStream.bytes_written (stream_out r) ->
     Z.min (position (raw_value isn) seg + zlen (str (payload seg)))
           (ByteStream.bytes_read (stream_out r) + _capacity r)
       <= ByteStream.bytes_written (stream_out r')).
Proof.
  intros Hi HW [Hwf Hf Hisn] Hseg.
  destruct (position_of W isn seg Hi Hseg) as (Hp & Hs & Hsyn).
  rewrite segment_received_eq by done. destruct (ignored r seg) eqn:Ei.
  { exists r. split_and!; try done. unfold ignored in Ei. by destruct (syn _), (_syn r). }
  cbn zeta. set (isn' := if syn (header seg) then _ else _).
  assert (Hisn' : isn' = raw_value isn).
  { unfold isn', ignored in *. destruct (syn (header seg)); [auto|].
    destruct (_syn r); [auto|done]. }
  rewrite Hisn'. pose proof (position_range (raw_value isn) seg) as Hpr.
  destruct (push_follows W HW (_reassembler r) _ _ _ Hf Hp Hpr) as (t & a & Hpush & Hpu & Hfa).
  destruct Hwf as [Hr Hc Hsm Hri]. rewrite Hpush. cbn [mbind result_bind].
  assert (Hcap := push_capacity _ _ _ _ _ _ Hpu).
  eexists. split; [done|]. split_and!; simpl; try done.
  - constructor; simpl; try done. constructor; simpl; try done; try congruence. apply Hfa.
  - by rewrite orb_comm; unfold ignored in Ei; destruct (syn _), (_syn r).
  - apply (pushed_read _ _ _ _ _ _ Hpu).
  - intros _ Hle. destruct (push_progress W HW (_reassembler r) _ _ _ Hf Hp ltac:(lia) Hle)
      as (a' & Ha' & _ & Hprog).
    rewrite Hpush in Ha'. injection Ha' as <-. by rewrite <- Hc.
Qed.

(** Reading from the inbound stream. *)
Lemma read_receives W isn r n :
  receives W isn r -> zlen W + _capacity r < 2 ^ 63 -> 0 <= n ->
  receives W isn (on_stream_out (fun s => snd (ByteStream.read s n)) r).
Proof.
  intros [[Hr Hc Hsm Hi] Hf Hisn] HW Hn.
  pose proof (wf_capacity_nonneg _ Hr).
  assert (Hf' := read_follows W ltac:(lia) (_reassembler r) n Hf ltac:(lia) Hn).
  constructor; [|done..]. constructor; simpl; try done. apply Hf'.
Qed.

(** ** The length of a stream

    An index is unwrapped around the number of unassembled bytes, so it stays
    below 2^32: whatever the peer sends, the stream stays below 2^33 bytes. *)
Record bounded_wf (r : TCPReceiver) : Prop := {
  bnd_wf : wf r;
  bnd_stream : bounded (2 ^ 33) (_reassembler r)
}.

Lemma position_bound isn seg room :
  zlen (str (payload seg)) < 2 ^ 32 -> room < 2 ^ 63 -> position isn seg < room ->
  position isn seg + zlen (str (payload seg)) <= 2 ^ 33.
Proof.
  intros Hl Hr. unfold position. destruct (syn _); [lia|].
  pose proof (Z.mod_pos_bound (raw_value (seqno (header seg)) - isn) (2 ^ 32) ltac:(lia)) as Hm.
  revert Hm. generalize ((raw_value (seqno (header seg)) - isn) mod 2 ^ 32). intros k Hk. word.
Qed.

Lemma segment_received_bounded r seg :
  bounded_wf r -> seg_ok seg -> exists r', segment_received r seg = Ok r' /\ bounded_wf r'.
Proof.
  intros [Hwf Hb] Hs. destruct (segment_received_wf r seg Hwf Hs) as (r' & Hr & Hwf' & _).
  exists r'. split; [done|]. constructor; [done|]. destruct Hs as (Hs & _ & Hl).
  rewrite segment_received_eq in Hr by done. destruct (ignored r seg); [by injection Hr as <-|]. cbn zeta in Hr.
  set (isn := if syn (header seg) then _ else _) in *.
  destruct (push_substring _ _ _ _) as [a|] eqn:E; [|done]. injection Hr as <-. cbn [_reassembler].
  pose proof (wf_room _ (wf_reassembler r Hwf)) as Hroom.
  eapply (push_bounded (2 ^ 33)); [apply Hwf|done|apply position_range| | |exact E]; [lia|].
  intros Hp. by eapply position_bound; [|exact Hroom|].
Qed.

Lemma read_bounded r n : bounded_wf r -> 0 <= n -> bounded_wf (on_stream_out (fun s => snd (ByteStream.read s n)) r).
Proof.
  intros [[Hr Hc Hsm Hi] [Hw Hst]] Hn. constructor.
  - constructor; try done. cbn. apply StreamReassembler.read_wf; [done|rewrite Hc; lia|done].
  - by constructor.
Qed.

Lemma error_bounded r : bounded_wf r -> bounded_wf (on_stream_out ByteStream.set_error r).
Proof.
  intros [[[] ? ? ?] []]. constructor; [|done]. constructor; try done. constructor; try done.
  by apply ByteStream.wf_set_error.
Qed.

Lemma bounded_new cap : 0 <= cap < 2 ^ 31 -> bounded_wf (new_TCPReceiver cap).
Proof. intros. constructor; [by apply recv_wf_new|]. constructor; [done|]. intros i b. cbn. by rewrite zget_nil. Qed.

(** ** Runs of a receiver and its reader *)

Inductive event :=
| Segment (seg : TCPSegment)
| ReadOut (n : Z).

Fixpoint run (r : TCPReceiver) (evs : list event) : result (list byte * TCPReceiver) :=
  match evs with
  | [] => Ok ([], r)
  | Segment seg :: evs => r1 ← segment_received r seg; run r1 evs
  | ReadOut n :: evs =>
      let bs := fst (ByteStream.read (stream_out r) n) in
      '(out, r2) ← run (on_stream_out (fun s => snd (ByteStream.read s n)) r) evs;
      Ok (bs ++ out, r2)
  end.

Definition event_of (W : list byte) (isn : WrappingInt32) (ev : event) : Prop :=
  match ev with Segment seg => seg_of W isn seg | ReadOut n => 0 <= n end.

Lemma run_receives W isn evs r :
  wi_wf isn -> receives W isn r -> zlen W + _capacity r < 2 ^ 63 ->
  Forall (event_of W isn) evs ->
  exists out r', run r evs = Ok (out, r') /\ receives W isn r' /\
    ByteStream.bytes_read (stream_out r') = ByteStream.bytes_read (stream_out r) + zlen out /\
    out = sub W (ByteStream.bytes_read (stream_out r)) (zlen out).
Proof.
  intros Hisn Hr HW Hevs. pose proof (zlen_nonneg W). revert r Hr HW.
  induction Hevs as [|ev evs Hev Hevs IH]; intros r Hr HW.
  { exists [], r. autorewrite with zlen. rewrite sub_0. split_and!; try done; lia. }
  pose proof (wf_capacity_nonneg _ (wf_reassembler r (rcv_wf _ _ _ Hr))) as Hc0.
  rewrite (wf_same_capacity r (rcv_wf _ _ _ Hr)) in Hc0.
  destruct ev as [seg|n]; cbn [run].
  - destruct (segment_received_receives W isn r seg Hisn) as (r1 & -> & Hr1 & Hc & _ & Hrd & _);
      [lia|done..|]. cbn [mbind result_bind].
    rewrite <- Hrd. apply IH; [done|lia].
  - assert (Hr1 := read_receives W isn r n Hr ltac:(lia) Hev). set (r1 := on_stream_out _ r) in *.
    destruct (IH r1 Hr1) as (out & r2 & -> & Hr2 & Hrd & Ho); [done|].
    cbn [mbind result_bind]. eexists _, r2. split; [done|]. split; [done|].
    destruct (read_out_follows W (_reassembler r) n (rcv_follows _ _ _ Hr)) as (Hn & Hsub);
      [|done|]. { rewrite (wf_same_capacity r (rcv_wf _ _ _ Hr)). lia. }
    change (ByteStream.bytes_read (stream_out r1)) with
      (ByteStream.bytes_read (snd (ByteStream.read (stream_out r) n))) in *.
    split; [rewrite zlen_app; change (_output (_reassembler r)) with (stream_out r) in *; lia|].
    by apply Hsub.
Qed.

(** ** Properties *)

(** The absolute sequence number a receiver of a stream acknowledges. *)
Definition next_expected (r : TCPReceiver) : Z :=
  1 + ByteStream.bytes_written (stream_out r)
  + (if ByteStream.input_ended (stream_out r) then 1 else 0).

Lemma ackno_eq r :
  wf r ->
  ackno r = if _syn r then Some (wrap (next_expected r) (wrapping_int32 (_isn r))) else None.
Proof.
  intros [Hr _ _ _]. pose proof (wf_written _ Hr) as (H0 & Hw & Hle).
  pose proof (wf_room _ Hr). pose proof (zlen_nonneg (ByteStream._buff (stream_out r))).
  unfold ackno, next_expected, ByteStream.buffer_size in *.
  change (_output (_reassembler r)) with (stream_out r) in *.
  destruct (_syn r); [|done]. simpl.
  destruct (ByteStream.input_ended (stream_out r)); f_equal; f_equal; usmall; lia.
Qed.

Lemma window_size_eq r :
  wf r -> window_size r = _capacity r - ByteStream.buffer_size (stream_out r) /\
  0 <= window_size r <= _capacity r.
Proof.
  intros [Hr Hc Hsm _]. pose proof (wf_written _ Hr) as (H0 & Hw & Hle).
  pose proof (zlen_nonneg (ByteStream._buff (stream_out r))).
  unfold window_size, ByteStream.buffer_size in *.
  change (_output (_reassembler r)) with (stream_out r) in *. rewrite u64_small by lia. lia.
Qed.

(** A segment of the stream [W]: the SYN has number 0, the bytes follow from 1
    on, the FIN comes after them, and [q] is where the segment begins. *)
Definition segment_of (W : list byte) (isn : WrappingInt32) (seg : TCPSegment) : Prop :=
  exists q, 0 <= q <= zlen W + 2 /\ seqno (header seg) = wrap q isn /\
    (syn (header seg) = true -> q = 0) /\
    piece_of W (str (payload seg)) (if syn (header seg) then 0 else u64 (q - 1)) (fin (header seg)).

(** What arrives, and what the application reads. *)
Definition stream_event (W : list byte) (isn : WrappingInt32) (ev : event) : Prop :=
  match ev with Segment seg => segment_of W isn seg | ReadOut n => 0 <= n end.

Lemma stream_events W isn evs : zlen W + 2 < 2 ^ 32 -> Forall (stream_event W isn) evs -> Forall (event_of W isn) evs.
Proof.
  intros HW He. eapply Forall_impl; [exact He|]. intros [seg|n]; [|done]. intros (q & Hq & H1). exists q. split; [lia|done].
Qed.

(** C11: The receiver of a stream of at most 2^32 - 3 bytes. Whatever segments of
    the stream [W] arrive, in any order, duplicated, overlapping or missing, and
    however the application reads, [segment_received] never throws; what was read
    followed by what is buffered is a prefix of [W], all of it once the stream
    has ended; and after the SYN the acknowledgment number is the wrapped
    absolute number of the first byte not yet written (one more after the FIN).
    Of a longer stream the receiver misplaces segments. *)
Theorem receiver_delivers_prefix W isn cap evs :
  wi_wf isn -> 0 <= cap < 2 ^ 31 -> zlen W + 2 < 2 ^ 32 -> Forall (stream_event W isn) evs ->
  exists out r, run (new_TCPReceiver cap) evs = Ok (out, r) /\
    out ++ ByteStream._buff (stream_out r) =
      take (Z.to_nat (ByteStream.bytes_written (stream_out r))) W /\
    (ByteStream.input_ended (stream_out r) = true ->
     out ++ ByteStream._buff (stream_out r) = W) /\
    (_syn r = true -> ackno r = Some (wrap (next_expected r) isn)).
Proof.
  intros Hisn Hcap HW Hevs%stream_events; [|done]. pose proof (zlen_nonneg W).
  destruct (run_receives W isn evs (new_TCPReceiver cap)) as (out & r & Hr & Hrc & Hrd & Ho);
    [done|apply receives_new; lia|simpl; lia|done|].
  exists out, r. split; [done|].
  destruct (follows_taken W (_reassembler r) out (rcv_follows _ _ _ Hrc)) as [Hp He]; [done..|].
  split_and!; [done|done|]. intros Hs. rewrite ackno_eq by apply Hrc. rewrite Hs.
  rewrite (rcv_isn _ _ _ Hrc Hs). do 2 f_equal. apply wrapping_eq. simpl.
  by apply u32_small.
Qed.

(** A segment with the given flags, sequence number and payload. *)
Definition segment_at (s f : bool) (n : WrappingInt32) (d : list byte) : TCPSegment :=
  let h := set_seqno default_TCPHeader n in
  let h := if s then set_syn h else h in
  {| _header := if f then set_fin h else h; _payload := new_Buffer d |}.

Lemma receiver_delivers_prefix_witness :
  exists out r, run (new_TCPReceiver 8)
    [Segment (segment_at false true (wrapping_int32 1) [Byte.x62]);
     Segment (segment_at true false (wrapping_int32 (2 ^ 32 - 1)) []);
     Segment (segment_at false true (wrapping_int32 1) [Byte.x62]);
     Segment (segment_at false false (wrapping_int32 0) [Byte.x61; Byte.x62]);
     ReadOut 1] = Ok (out, r) /\
    out ++ ByteStream._buff (stream_out r) = [Byte.x61; Byte.x62].
Proof.
  destruct (receiver_delivers_prefix [Byte.x61; Byte.x62] (wrapping_int32 (2 ^ 32 - 1)) 8
    [Segment (segment_at false true (wrapping_int32 1) [Byte.x62]);
     Segment (segment_at true false (wrapping_int32 (2 ^ 32 - 1)) []);
     Segment (segment_at false true (wrapping_int32 1) [Byte.x62]);
     Segment (segment_at false false (wrapping_int32 0) [Byte.x61; Byte.x62]);
     ReadOut 1]) as (out & r & Hr & _ & He & _); [vm_compute; split; done|lia|vm_compute; done| |].
  - repeat apply Forall_cons_2; try apply Forall_nil_2; cbn [stream_event]; try lia.
    all: lazymatch goal with
      | |- segment_of _ _ (segment_at true _ _ _) => exists 0
      | |- segment_of _ _ (segment_at _ true _ _) => exists 2
      | _ => exists 1 end.
    all: split; [vm_compute; split; discriminate|]; split; [reflexivity|]; split; [done|]; apply piece_of_sub; vm_compute; done.
  - exists out, r. split; [exact Hr|]. apply He.
    revert Hr. vm_compute. intros [= <- <-]. reflexivity.
Defined.

(** The advertised window. It is the free space of the reader's buffer, and
    a segment never moves the right edge of the window (the bytes written plus
    the window): only the application does, by reading. Bytes up to the edge
    that arrive in order are accepted in full. *)
Theorem receiver_window_edge W isn r seg :
  wi_wf isn -> zlen W < 2 ^ 63 -> receives W isn r -> seg_of W isn seg ->
  let edge r := ByteStream.bytes_written (stream_out r) + window_size r in
  exists r', segment_received r seg = Ok r' /\ receives W isn r' /\
    edge r' = edge r /\ 0 <= window_size r' <= _capacity r /\
    (ignored r seg = false ->
     position (raw_value isn) seg <= ByteStream.bytes_written (stream_out r) ->
     Z.min (position (raw_value isn) seg + zlen (str (payload seg))) (edge r)
       <= ByteStream.bytes_written (stream_out r')).
Proof.
  intros Hisn HW Hr Hseg edge.
  assert (He : forall x, wf x -> edge x = ByteStream.bytes_read (stream_out x) + _capacity x).
  { intros x Hx. unfold edge. destruct (window_size_eq x Hx) as [-> _].
    pose proof (wf_written _ (wf_reassembler x Hx)) as (_ & Hw & _).
    change (_output (_reassembler x)) with (stream_out x) in Hw. lia. }
  destruct (segment_received_receives W isn r seg) as (r' & Hs & Hr' & Hc & _ & Hrd & Hp); [done..|].
  exists r'. rewrite !He, Hrd, Hc by first [apply Hr|apply Hr'].
  destruct (window_size_eq r' (rcv_wf _ _ _ Hr')) as [_ Hw]. rewrite Hc in Hw. split_and!; (done || lia).
Qed.

Lemma receiver_window_edge_witness :
  exists r', segment_received (new_TCPReceiver 8)
      (segment_at true false (wrapping_int32 7) [Byte.x61]) = Ok r' /\
    ByteStream.bytes_written (stream_out r') + window_size r' = 8 /\
    1 <= ByteStream.bytes_written (stream_out r').
Proof.
  destruct (receiver_window_edge [Byte.x61] (wrapping_int32 7) (new_TCPReceiver 8)
    (segment_at true false (wrapping_int32 7) [Byte.x61])) as (r' & Hr & _ & He & _ & Hp).
  - vm_compute. split; done.
  - vm_compute. done.
  - apply receives_new; vm_compute; split; done.
  - exists 0. split; [lia|]. split; [reflexivity|]. split; [done|].
    apply piece_of_sub; vm_compute; done.
  - exists r'. split; [exact Hr|]. split; [exact He|]. apply Hp; vm_compute; done.
Defined.

(** Any segment at all, from any peer, is handled without an exception and
    leaves a well-formed receiver whose window stays within the capacity. *)
Theorem receiver_robust r seg :
  wf r -> seg_ok seg ->
  exists r', segment_received r seg = Ok r' /\ wf r' /\
    0 <= window_size r' <= _capacity r' /\ (is_Some (ackno r) -> is_Some (ackno r')).
Proof.
  intros Hwf Hs. destruct (segment_received_wf r seg Hwf Hs) as (r' & Hr & Hwf' & _ & Hsyn & _).
  exists r'. split_and!; try done; try apply (window_size_eq r' Hwf').
  rewrite !ackno_eq by done. destruct (_syn r); [|by intros []]. destruct Hsyn as [-> _]; eauto.
Qed.

Lemma receiver_robust_witness :
  exists r', segment_received (new_TCPReceiver 8)
      (segment_at true true (wrapping_int32 5) [Byte.x61]) = Ok r' /\ wf r'.
Proof.
  destruct (receiver_robust (new_TCPReceiver 8)
    (segment_at true true (wrapping_int32 5) [Byte.x61])) as (r' & Hr & Hw & _).
  - apply recv_wf_new. lia.
  - split; [vm_compute; split; done|]. split; [vm_compute; split; done|vm_compute; done].
  - exists r'. split; [exact Hr|exact Hw].
Defined.

(** A push of nothing, or of bytes written before, leaves the output bytes. *)
Lemma push_old r data index eof :
  StreamReassembler.wf r ->
  zlen data = 0 \/ u64 (index + zlen data) < ByteStream.bytes_written (_output r) ->
  exists r', push_substring r data index eof = Ok r' /\
    ByteStream._buff (_output r') = ByteStream._buff (_output r) /\
    ByteStream.bytes_written (_output r') = ByteStream.bytes_written (_output r).
Proof.
  intros Hwf H. pose proof (wf_written _ Hwf) as (H0 & Hw & Hc). pose proof (wf_room _ Hwf).
  pose proof (zlen_nonneg (ByteStream._buff (_output r))). unfold push_substring.
  destruct (Z.eqb_spec (zlen data) 0).
  - eexists. split; [done|]. unfold check_end. by destruct (_ =? _).
  - destruct H as [|H]; [done|]. cbn [_output]. rewrite <- Hw, (u64_small (ByteStream.bytes_written _)).
    2: { unfold ByteStream.buffer_size in *. lia. }
    rewrite (proj2 (Z.ltb_lt _ _) H). by eexists.
Qed.

(** C39: The receiver stops after 4 GiB. The stream index of a segment is
    unwrapped around the number of unassembled bytes instead of the number of
    bytes written, so it is always below 2^32. Once that many bytes have been
    written, no segment that begins inside of the receiver's window, at the byte
    it asks for or later, reaches the output. *)
Theorem receiver_stalls_after_4GiB r seg q :
  wf r -> _syn r = true -> 2 ^ 32 <= ByteStream.bytes_written (stream_out r) ->
  ByteStream.bytes_written (stream_out r) < q <= ByteStream.bytes_written (stream_out r) + 1 + _capacity r ->
  seqno (header seg) = wrap q (wrapping_int32 (_isn r)) -> zlen (str (payload seg)) < 2 ^ 31 ->
  exists r', segment_received r seg = Ok r' /\
    ByteStream._buff (stream_out r') = ByteStream._buff (stream_out r) /\
    ByteStream.bytes_written (stream_out r') = ByteStream.bytes_written (stream_out r).
Proof.
  intros Hwf Hsyn Hbig Hq Hseq HL2. assert (Hs : wi_wf (seqno (header seg))) by (rewrite Hseq; apply wi_wf_wrap).
  rewrite segment_received_eq by done. unfold ignored.
  rewrite Hsyn. destruct (syn (header seg)) eqn:Esyn; [by exists r|]. cbn zeta.
  simpl Bool.eqb. cbv iota. pose proof (zlen_nonneg (str (payload seg))) as HL.
  destruct (push_old (_reassembler r) (str (payload seg)) (position (_isn r) seg)
    (fin (header seg))) as (a & -> & Ha); [apply Hwf| |by eexists].
  destruct (decide (zlen (str (payload seg)) = 0)) as [|Hne]; [by left|right].
  change (_output (_reassembler r)) with (stream_out r). unfold position. rewrite Esyn, Hseq.
  pose proof (wf_written _ (wf_reassembler r Hwf)) as (_ & _ & Hc). pose proof (wf_room _ (wf_reassembler r Hwf)).
  pose proof (wf_isn r Hwf). pose proof (wf_capacity_small r Hwf).
  change (_output (_reassembler r)) with (stream_out r) in *.
  assert (Hk : (raw_value (wrap q (wrapping_int32 (_isn r))) - _isn r) mod 2 ^ 32 = q mod 2 ^ 32).
  { cbn. word. }
  rewrite Hk. revert Hbig HL HL2 Hne Hq. generalize (zlen (str (payload seg))) as L. intros L Hbig HL HL2 Hne Hq. word.
Qed.

(** The receiver after [n] bytes have been written and read. *)
Definition receiver_at (cap isn n : Z) : TCPReceiver :=
  let o := {| ByteStream._buff := []; ByteStream._totin := n; ByteStream._totout := n;
              ByteStream._capacity := cap; ByteStream._isInputEnd := false;
              ByteStream._error := false |} in
  {| _reassembler := set_output (new_StreamReassembler cap) o; _capacity := cap; _isn := isn;
     _checkpoint := 0; _syn := true; _fin := false |}.

Lemma receiver_at_wf cap isn n :
  0 <= cap < 2 ^ 31 -> 0 <= isn < 2 ^ 32 -> 0 <= n < 2 ^ 62 -> wf (receiver_at cap isn n).
Proof.
  intros Hc Hi Hn. constructor; simpl; try done; try lia.
  constructor; cbn; try done; try lia.
  - constructor; cbn; autorewrite with zlen; try lia. rewrite u64_small; lia.
  - constructor. lia.
  - by rewrite zget_nil.
Qed.

Lemma receiver_stalls_after_4GiB_witness :
  exists r', segment_received (receiver_at 64000 0 (2 ^ 32))
      (segment_at false false (wrap (2 ^ 32 + 1) (wrapping_int32 0)) [Byte.x61]) = Ok r' /\
    ackno (receiver_at 64000 0 (2 ^ 32)) = Some (wrap (2 ^ 32 + 1) (wrapping_int32 0)) /\
    ByteStream.bytes_written (stream_out r') = 2 ^ 32.
Proof.
  destruct (receiver_stalls_after_4GiB (receiver_at 64000 0 (2 ^ 32))
    (segment_at false false (wrap (2 ^ 32 + 1) (wrapping_int32 0)) [Byte.x61]) (2 ^ 32 + 1))
    as (r' & Hr & _ & Hw).
  - apply receiver_at_wf; lia.
  - reflexivity.
  - vm_compute. discriminate.
  - vm_compute. split; [reflexivity|discriminate].
  - reflexivity.
  - vm_compute. reflexivity.
  - exists r'. split; [exact Hr|]. split; [reflexivity|exact Hw].
Defined.
