(* ===== verification/TCPSender.v ===== *)
(** * The TCP sender

    Models class [TCPSender] of [src/libsponge/tcp_sender.hh] and [.cc] with the
    constants of [src/libsponge/tcp_helpers/tcp_config.hh]: the outbound stream
    is cut into segments as the peer's window allows, segments are kept until
    acknowledged, and the oldest one is sent again when the timer expires. *)

From S2P Require Import Prelude WrappingIntegers ByteStream StreamReassembler ReassemblerProps Buffer TCPHeader TCPSegment.

(** ** Configuration *)

Definition DEFAULT_CAPACITY : Z := 64000.
Definition MAX_PAYLOAD_SIZE : Z := 1000.
Definition TIMEOUT_DFLT : Z := 1000.
Definition MAX_RETX_ATTEMPTS : Z := 8.

Record TCPConfig := {
  rt_timeout : Z;
  recv_capacity : Z;
  send_capacity : Z;
  fixed_isn : option WrappingInt32
}.

Definition default_TCPConfig : TCPConfig :=
  {| rt_timeout := TIMEOUT_DFLT; recv_capacity := DEFAULT_CAPACITY;
     send_capacity := DEFAULT_CAPACITY; fixed_isn := None |}.

(** ** State *)

(** [_segments_out] is the queue, its front first; [_segments_outgoing] is the
    [std::map] as a list in key order. *)
Record TCPSender := {
  _isn : WrappingInt32;
  _segments_out : list TCPSegment;
  _initial_retransmission_timeout : Z;
  _stream : ByteStream;
  _next_seqno : Z;
  _retransmission_timeout : Z;
  _retransmission_timecount : Z;
  _consecutive_retransmissions : Z;
  _segments_outgoing : list (Z * TCPSegment);
  _outgoing_bytes : Z;
  _syn : bool;
  _fin : bool;
  _win_size : Z
}.

(** The constructor; [random] is the value drawn from [random_device]. *)
Definition new_TCPSender (capacity retx_timeout : Z) (fixed_isn : option WrappingInt32)
    (random : Z) : TCPSender :=
  {| _isn := default (wrapping_int32 random) fixed_isn; _segments_out := [];
     _initial_retransmission_timeout := retx_timeout; _stream := new_ByteStream capacity;
     _next_seqno := 0; _retransmission_timeout := 0; _retransmission_timecount := 0;
     _consecutive_retransmissions := 0; _segments_outgoing := []; _outgoing_bytes := 0;
     _syn := false; _fin := false; _win_size := 1 |}.

Definition stream_in (s : TCPSender) : ByteStream := _stream s.
Definition segments_out (s : TCPSender) : list TCPSegment := _segments_out s.
Definition next_seqno_absolute (s : TCPSender) : Z := _next_seqno s.
Definition next_seqno (s : TCPSender) : WrappingInt32 := wrap (_next_seqno s) (_isn s).
Definition bytes_in_flight (s : TCPSender) : Z := _outgoing_bytes s.
Definition consecutive_retransmissions (s : TCPSender) : Z := _consecutive_retransmissions s.

(** A change made through the reference [stream_in()]. *)
Definition on_stream_in (f : ByteStream -> ByteStream) (s : TCPSender) : TCPSender :=
  {| _isn := _isn s; _segments_out := _segments_out s;
     _initial_retransmission_timeout := _initial_retransmission_timeout s;
     _stream := f (_stream s); _next_seqno := _next_seqno s;
     _retransmission_timeout := _retransmission_timeout s;
     _retransmission_timecount := _retransmission_timecount s;
     _consecutive_retransmissions := _consecutive_retransmissions s;
     _segments_outgoing := _segments_outgoing s; _outgoing_bytes := _outgoing_bytes s;
     _syn := _syn s; _fin := _fin s; _win_size := _win_size s |}.

(** Popping every segment from the queue [segments_out()]. *)
Definition clear_segments_out (s : TCPSender) : TCPSender :=
  {| _isn := _isn s; _segments_out := [];
     _initial_retransmission_timeout := _initial_retransmission_timeout s;
     _stream := _stream s; _next_seqno := _next_seqno s;
     _retransmission_timeout := _retransmission_timeout s;
     _retransmission_timecount := _retransmission_timecount s;
     _consecutive_retransmissions := _consecutive_retransmissions s;
     _segments_outgoing := _segments_outgoing s; _outgoing_bytes := _outgoing_bytes s;
     _syn := _syn s; _fin := _fin s; _win_size := _win_size s |}.

(** ** Operations *)

(** [std::map::insert]: a present key is left alone. *)
Fixpoint map_insert {A} (k : Z) (v : A) (l : list (Z * A)) : list (Z * A) :=
  match l with
  | [] => [(k, v)]
  | (k', v') :: rest =>
      if k <? k' then (k, v) :: l
      else if k =? k' then l else (k', v') :: map_insert k v rest
  end.

(** The segment built by one iteration of the loop of [fill_window], with the
    bytes left in the stream. *)
Definition build_segment (win_size : Z) (s : TCPSender) : TCPSegment * ByteStream :=
  let h := default_TCPHeader in
  let h := if _syn s then h else set_syn h in
  let h := set_seqno h (next_seqno s) in
  let payload_size :=
    Z.min MAX_PAYLOAD_SIZE
      (u64 (u64 (win_size - _outgoing_bytes s) - (if TCPHeader.syn h then 1 else 0))) in
  let '(payload, stream) := ByteStream.read (_stream s) payload_size in
  let h := if negb (_fin s) && ByteStream.eof stream
              && (u64 (zlen payload + _outgoing_bytes s) <? win_size)
           then set_fin h else h in
  ({| _header := h; _payload := new_Buffer payload |}, stream).

(** The rest of an iteration: the segment is queued and recorded. *)
Definition push_segment (s : TCPSender) (seg : TCPSegment) (stream : ByteStream) : TCPSender :=
  let reset := match _segments_outgoing s with [] => true | _ => false end in
  {| _isn := _isn s;
     _segments_out := _segments_out s ++ [seg];
     _initial_retransmission_timeout := _initial_retransmission_timeout s;
     _stream := stream;
     _next_seqno := u64 (_next_seqno s + length_in_sequence_space seg);
     _retransmission_timeout :=
       if reset then _initial_retransmission_timeout s else _retransmission_timeout s;
     _retransmission_timecount := if reset then 0 else _retransmission_timecount s;
     _consecutive_retransmissions := _consecutive_retransmissions s;
     _segments_outgoing := map_insert (_next_seqno s) seg (_segments_outgoing s);
     _outgoing_bytes := u64 (_outgoing_bytes s + length_in_sequence_space seg);
     _syn := true;
     _fin := _fin s || TCPHeader.fin (header seg);
     _win_size := _win_size s |}.

(** The loop of [fill_window]; [None] when the fuel runs out. An iteration that
    builds an empty segment changes nothing: [_syn] is set already and nothing
    was read. *)
Fixpoint fill_window_loop (fuel : nat) (win_size : Z) (s : TCPSender) : option TCPSender :=
  match fuel with
  | O => None
  | S fuel =>
      if negb (_outgoing_bytes s <? win_size) then Some s
      else
        let '(seg, stream) := build_segment win_size s in
        if length_in_sequence_space seg =? 0 then Some (on_stream_in (fun _ => stream) s)
        else
          let s' := push_segment s seg stream in
          if TCPHeader.fin (header seg) then Some s'
          else fill_window_loop fuel win_size s'
  end.

Definition effective_window (s : TCPSender) : Z := if _win_size s =? 0 then 1 else _win_size s.

(** Every iteration but the last adds at least one to [_outgoing_bytes]. *)
Definition fill_window_fuel (s : TCPSender) : nat :=
  S (Z.to_nat (effective_window s - _outgoing_bytes s)).

Definition fill_window (s : TCPSender) : TCPSender :=
  default s (fill_window_loop (fill_window_fuel s) (effective_window s) s).

(** The loop of [ack_received] over the outstanding segments: drops the ones
    that are acknowledged in full; returns the rest, the bytes still in flight
    and whether anything was dropped. *)
Fixpoint ack_loop (absolute_seqno : Z) (l : list (Z * TCPSegment)) (outgoing : Z)
    (reset : bool) : list (Z * TCPSegment) * Z * bool :=
  match l with
  | [] => ([], outgoing, reset)
  | (k, seg) :: rest =>
      if u64 (k + length_in_sequence_space seg) <=? absolute_seqno
      then ack_loop absolute_seqno rest (u64 (outgoing - length_in_sequence_space seg)) true
      else (l, outgoing, reset)
  end.

Definition ack_received (s : TCPSender) (ackno : WrappingInt32) (window_size : Z) : TCPSender :=
  let absolute_seqno := unwrap ackno (_isn s) (_next_seqno s) in
  if _next_seqno s <? absolute_seqno then s
  else
    let '(l, outgoing, reset) :=
      ack_loop absolute_seqno (_segments_outgoing s) (_outgoing_bytes s) false in
    fill_window
      {| _isn := _isn s; _segments_out := _segments_out s;
         _initial_retransmission_timeout := _initial_retransmission_timeout s;
         _stream := _stream s; _next_seqno := _next_seqno s;
         _retransmission_timeout :=
           if reset then _initial_retransmission_timeout s else _retransmission_timeout s;
         _retransmission_timecount := if reset then 0 else _retransmission_timecount s;
         _consecutive_retransmissions := 0;
         _segments_outgoing := l; _outgoing_bytes := outgoing;
         _syn := _syn s; _fin := _fin s; _win_size := window_size |}.

Definition tick (s : TCPSender) (ms_since_last_tick : Z) : TCPSender :=
  let timecount := u32 (_retransmission_timecount s + ms_since_last_tick) in
  let set rto count resent out :=
    {| _isn := _isn s; _segments_out := out;
       _initial_retransmission_timeout := _initial_retransmission_timeout s;
       _stream := _stream s; _next_seqno := _next_seqno s;
       _retransmission_timeout := rto; _retransmission_timecount := count;
       _consecutive_retransmissions := resent;
       _segments_outgoing := _segments_outgoing s; _outgoing_bytes := _outgoing_bytes s;
       _syn := _syn s; _fin := _fin s; _win_size := _win_size s |} in
  match _segments_outgoing s with
  | (_, seg) :: _ =>
      if _retransmission_timeout s <=? timecount then
        set (if 0 <? _win_size s then u32 (_retransmission_timeout s * 2)
             else _retransmission_timeout s)
          0 (u32 (_consecutive_retransmissions s + 1)) (_segments_out s ++ [seg])
      else set (_retransmission_timeout s) timecount (_consecutive_retransmissions s) (_segments_out s)
  | [] => set (_retransmission_timeout s) timecount (_consecutive_retransmissions s) (_segments_out s)
  end.

Definition send_empty_segment (s : TCPSender) : TCPSender :=
  let seg := {| _header := set_seqno default_TCPHeader (next_seqno s); _payload := empty_Buffer |} in
  {| _isn := _isn s; _segments_out := _segments_out s ++ [seg];
     _initial_retransmission_timeout := _initial_retransmission_timeout s;
     _stream := _stream s; _next_seqno := _next_seqno s;
     _retransmission_timeout := _retransmission_timeout s;
     _retransmission_timecount := _retransmission_timecount s;
     _consecutive_retransmissions := _consecutive_retransmissions s;
     _segments_outgoing := _segments_outgoing s; _outgoing_bytes := _outgoing_bytes s;
     _syn := _syn s; _fin := _fin s; _win_size := _win_size s |}.

(** The first segment of a connection without data. *)
Definition segment_of_syn (isn : WrappingInt32) : TCPSegment :=
  {| _header := set_seqno (set_syn default_TCPHeader) (wrap 0 isn); _payload := new_Buffer [] |}.

(** A small run: the SYN, then 2500 bytes cut for a window of 1500, then a
    timeout. *)
Definition example_sender : TCPSender :=
  let s := fill_window (new_TCPSender 4000 1000 (Some (wrapping_int32 (2 ^ 32 - 1))) 0) in
  let s := on_stream_in (fun b => snd (ByteStream.write b (repeat Byte.x61 2500))) s in
  ack_received s (wrapping_int32 0) 1500.

Example example_sender_runs :
  map (fun seg => (raw_value (seqno (header seg)), length_in_sequence_space seg))
    (segments_out (tick example_sender 1000)) =
  [(2 ^ 32 - 1, 1); (0, 1000); (1000, 500); (0, 1000)] /\ bytes_in_flight example_sender = 1500.
Proof. vm_compute. split; reflexivity. Qed.

(** ** Invariant *)

(** The outstanding segments are adjacent from [lo] to [hi]. *)
Fixpoint chain (lo : Z) (l : list (Z * TCPSegment)) (hi : Z) : Prop :=
  match l with
  | [] => lo = hi
  | (k, seg) :: rest =>
      k = lo /\ 0 < length_in_sequence_space seg /\ chain (lo + length_in_sequence_space seg) rest hi
  end.

Definition b1 (b : bool) : Z := if b then 1 else 0.

Record wf (s : TCPSender) : Prop := {
  wf_stream : ByteStream.wf (_stream s);
  wf_isn : wi_wf (_isn s);
  wf_bound : ByteStream.bytes_read (_stream s) + ByteStream.buffer_size (_stream s) < 2 ^ 62;
  wf_chain : chain (_next_seqno s - _outgoing_bytes s) (_segments_outgoing s) (_next_seqno s);
  wf_flight : 0 <= _outgoing_bytes s <= _next_seqno s;
  wf_next : _next_seqno s = ByteStream.bytes_read (_stream s) + b1 (_syn s) + b1 (_fin s);
  wf_syn : _syn s = false -> ByteStream.bytes_read (_stream s) = 0 /\ _fin s = false;
  wf_fin : _fin s = true -> ByteStream.eof (_stream s) = true;
  wf_win : 0 <= _win_size s < 2 ^ 16;
  wf_initial : 0 <= _initial_retransmission_timeout s < 2 ^ 16;
  wf_timeout : 0 <= _retransmission_timeout s < 2 ^ 32;
  wf_timecount : 0 <= _retransmission_timecount s < 2 ^ 32;
  wf_consecutive : 0 <= _consecutive_retransmissions s < 2 ^ 32
}.

Lemma snd_wf_new cap rt isn rnd :
  0 <= cap < 2 ^ 64 -> 0 <= rt < 2 ^ 16 -> (forall i, isn = Some i -> wi_wf i) ->
  wf (new_TCPSender cap rt isn rnd).
Proof.
  intros Hc Hr Hi. constructor; cbn; try done; try lia.
  - by apply bs_wf_new.
  - destruct isn; [auto|apply wi_wf_wrapping_int32].
Qed.

Lemma length_small seg :
  zlen (str (payload seg)) < 2 ^ 62 ->
  length_in_sequence_space seg =
    zlen (str (payload seg)) + b1 (TCPHeader.syn (header seg)) + b1 (TCPHeader.fin (header seg)).
Proof.
  intros. unfold length_in_sequence_space, b1. pose proof (zlen_nonneg (str (payload seg))).
  rewrite u64_small; [done|]. destruct (TCPHeader.syn _), (TCPHeader.fin _); lia.
Qed.

Lemma chain_app lo l mid seg hi :
  chain lo l mid -> 0 < length_in_sequence_space seg -> hi = mid + length_in_sequence_space seg ->
  chain lo (l ++ [(mid, seg)]) hi.
Proof.
  revert lo. induction l as [|[k x] l IH]; intros lo; simpl.
  - intros -> Hl ->. by split_and!.
  - intros (-> & Hx & Hc) Hl Hhi. split_and!; try done. by apply IH.
Qed.

Lemma chain_le lo l hi : chain lo l hi -> lo <= hi.
Proof.
  revert lo. induction l as [|[k x] l IH]; intros lo; simpl; [lia|].
  intros (-> & Hx & Hc). apply IH in Hc. lia.
Qed.

(** Inserting behind the last key appends. *)
Lemma map_insert_end lo l hi seg :
  chain lo l hi -> map_insert hi seg l = l ++ [(hi, seg)].
Proof.
  revert lo. induction l as [|[k x] l IH]; intros lo; simpl; [done|].
  intros (-> & Hx & Hc). pose proof (chain_le _ _ _ Hc).
  destruct (Z.ltb_spec hi lo), (Z.eqb_spec hi lo); try lia. by rewrite (IH _ Hc).
Qed.

(** The segment an iteration builds. *)
Definition payload_room (win : Z) (s : TCPSender) : Z :=
  Z.min MAX_PAYLOAD_SIZE (win - _outgoing_bytes s - b1 (negb (_syn s))).

Lemma build_segment_spec win s :
  wf s -> _outgoing_bytes s < win -> win < 2 ^ 16 ->
  let '(seg, stream) := build_segment win s in
  stream = snd (ByteStream.read (_stream s) (payload_room win s)) /\
  str (payload seg) = take (Z.to_nat (payload_room win s)) (ByteStream._buff (_stream s)) /\
  header seg = (let h := set_seqno (if _syn s then default_TCPHeader
                                    else set_syn default_TCPHeader) (next_seqno s) in
                if TCPHeader.fin (header seg) then set_fin h else h) /\
  TCPHeader.syn (header seg) = negb (_syn s) /\
  TCPHeader.fin (header seg) =
    (negb (_fin s) && ByteStream.eof stream &&
     (zlen (str (payload seg)) + _outgoing_bytes s <? win)) /\
  0 <= payload_room win s /\
  length_in_sequence_space seg =
    zlen (str (payload seg)) + b1 (TCPHeader.syn (header seg)) + b1 (TCPHeader.fin (header seg)).
Proof.
  intros Hwf Ho Hw. pose proof (wf_flight s Hwf). unfold build_segment.
  assert (Hroom : payload_room win s = Z.min MAX_PAYLOAD_SIZE
    (u64 (u64 (win - _outgoing_bytes s) - b1 (negb (_syn s))))).
  { unfold payload_room, b1. destruct (_syn s); simpl; usmall; lia. }
  assert (H0 : 0 <= payload_room win s).
  { unfold payload_room, MAX_PAYLOAD_SIZE, b1. destruct (_syn s); simpl; lia. }
  destruct (ByteStream.read_spec (_stream s) (payload_room win s) H0) as [Hp _].
  destruct (_syn s) eqn:Es; cbn [TCPHeader.syn set_seqno set_syn default_TCPHeader negb b1] in *;
    rewrite <- Hroom; destruct (ByteStream.read _ _) as [p st]; cbn [fst snd] in Hp; subst p.
  all: set (p := take _ _); assert (zlen p <= 1000)
    by (unfold p, payload_room, MAX_PAYLOAD_SIZE in *; rewrite zlen_take; lia);
    pose proof (zlen_nonneg p); cbn [header payload _header _payload]; rewrite str_new;
    rewrite (u64_small (zlen p + _)) by lia;
    destruct (negb (_fin s) && ByteStream.eof st && (zlen p + _outgoing_bytes s <? win)) eqn:E;
    cbn [TCPHeader.fin set_fin set_seqno set_syn default_TCPHeader TCPHeader.syn]; split_and!; try done;
    rewrite length_small; cbn [header payload _header _payload]; rewrite ?str_new; done || lia.
Qed.

(** Reading from the stream, without wrap-around. *)
Lemma stream_read s n :
  ByteStream.wf s -> ByteStream.bytes_read s + ByteStream.buffer_size s < 2 ^ 62 -> 0 <= n ->
  let bs := take (Z.to_nat n) (ByteStream._buff s) in
  let s' := snd (ByteStream.read s n) in
  ByteStream.wf s' /\ ByteStream._buff s = bs ++ ByteStream._buff s' /\
  ByteStream.bytes_read s' = ByteStream.bytes_read s + zlen bs /\
  ByteStream.bytes_written s' = ByteStream.bytes_written s /\
  ByteStream.input_ended s' = ByteStream.input_ended s /\
  ByteStream.bytes_read s' + ByteStream.buffer_size s' < 2 ^ 62.
Proof.
  intros Hwf Hb Hn bs s'. destruct (ByteStream.read_spec s n Hn) as [Hf Hd].
  assert (Ha := ByteStream.read_app s n Hn). fold s' in Ha. rewrite Hf in Ha. fold bs in Ha.
  assert (Hl := f_equal zlen Ha). rewrite zlen_app in Hl.
  unfold ByteStream.buffer_size in *. pose proof (zlen_nonneg bs).
  pose proof (zlen_nonneg (ByteStream._buff s')). pose proof (ByteStream.wf_totout s Hwf).
  assert (Hr : ByteStream.bytes_read s' = ByteStream.bytes_read s + zlen bs).
  { unfold s'. change (ByteStream.bytes_read (snd (ByteStream.read s n))) with
      (u64 (ByteStream.bytes_read s +
            Z.min (zlen (fst (ByteStream.read s n))) (zlen (ByteStream._buff s)))).
    rewrite Hf. fold bs. unfold ByteStream.bytes_read in *. usmall. lia. }
  split_and!; try done; [by apply ByteStream.wf_read|lia].
Qed.

Lemma eof_iff s :
  ByteStream.eof s = true <-> ByteStream.input_ended s = true /\ ByteStream._buff s = [].
Proof.
  unfold ByteStream.eof, ByteStream.buffer_empty. rewrite andb_true_iff. by rewrite bool_decide_eq_true.
Qed.

(** One iteration keeps the invariant. *)
Lemma push_segment_wf win s :
  wf s -> _outgoing_bytes s < win -> win < 2 ^ 16 ->
  let '(seg, stream) := build_segment win s in
  0 < length_in_sequence_space seg -> wf (push_segment s seg stream) /\
  _next_seqno (push_segment s seg stream) = _next_seqno s + length_in_sequence_space seg /\
  _outgoing_bytes (push_segment s seg stream) = _outgoing_bytes s + length_in_sequence_space seg /\
  _segments_outgoing (push_segment s seg stream) = _segments_outgoing s ++ [(_next_seqno s, seg)].
Proof.
  intros Hwf Ho Hw. pose proof (build_segment_spec win s Hwf Ho Hw) as Hb.
  destruct (build_segment win s) as [seg st].
  destruct Hb as (Hst & Hp & _ & Hsyn & Hfin & Hroom & Hlen). intros Hpos.
  destruct Hwf as [Hws Hi Hbd Hch Hfl Hnx Hs0 Hf0 Hwin Hini Hto Htc Hcr].
  pose proof (stream_read (_stream s) _ Hws Hbd Hroom) as (Hw' & Hbuf & Hrd & _ & Hie & Hbd').
  rewrite <- Hst, <- Hp in *.
  assert (Hl := f_equal zlen Hbuf). rewrite zlen_app in Hl. unfold ByteStream.buffer_size in *.
  pose proof (zlen_nonneg (ByteStream._buff st)). pose proof (ByteStream.wf_totout _ Hws) as Hto0.
  change (ByteStream._totout (_stream s)) with (ByteStream.bytes_read (_stream s)) in Hto0.
  assert (length_in_sequence_space seg <= 2 ^ 62 + 2 - ByteStream.bytes_read (_stream s)).
  { rewrite Hlen. unfold b1. destruct (TCPHeader.syn _), (TCPHeader.fin _); lia. }
  assert (b1 (_syn s) + b1 (_fin s) <= 2) by (unfold b1; destruct (_syn s), (_fin s); lia).
  assert (Hn : u64 (_next_seqno s + length_in_sequence_space seg)
    = _next_seqno s + length_in_sequence_space seg) by (apply u64_small; lia).
  assert (Hob : u64 (_outgoing_bytes s + length_in_sequence_space seg)
    = _outgoing_bytes s + length_in_sequence_space seg) by (apply u64_small; lia).
  split_and!; try done; [|simpl; by eapply map_insert_end].
  constructor; cbn [_stream _isn _next_seqno _outgoing_bytes _segments_outgoing _syn _fin push_segment
    _win_size _initial_retransmission_timeout _retransmission_timeout _retransmission_timecount
    _consecutive_retransmissions]; rewrite ?Hn, ?Hob; try done.
  - rewrite (map_insert_end _ _ _ _ Hch). apply chain_app; [|done|done].
    by replace (_ + _ - _) with (_next_seqno s - _outgoing_bytes s) by lia.
  - lia.
  - rewrite Hnx, Hrd, Hlen, Hsyn, Hfin. destruct (_fin s); cbn [negb andb orb b1].
    + destruct (_syn s); cbn [negb b1]; lia.
    + destruct (_syn s); cbn [negb b1]; lia.
  - rewrite orb_true_iff, Hfin. intros [H'|H'].
    + apply Hf0 in H'. apply eof_iff in H' as [He Hn0]. apply eof_iff. rewrite Hie. split; [done|].
      rewrite Hn0 in Hbuf. by apply eq_sym, app_nil in Hbuf as [_ ?].
    + by apply andb_true_iff in H' as [[_ ?]%andb_true_iff _].
  - destruct (_segments_outgoing s); lia.
  - destruct (_segments_outgoing s); lia.
Qed.

(** ** What [fill_window] does *)

(** The iterations that send a segment, as a relation. *)
Inductive fills (win : Z) : TCPSender -> TCPSender -> Prop :=
| fills_done s : fills win s s
| fills_step s seg stream s' :
    _outgoing_bytes s < win -> build_segment win s = (seg, stream) ->
    0 < length_in_sequence_space seg ->
    fills win (push_segment s seg stream) s' -> fills win s s'.

(** Nothing is left that the window admits. *)
Definition filled (win : Z) (s : TCPSender) : Prop :=
  win <= _outgoing_bytes s \/
  (ByteStream._buff (_stream s) = [] /\ _syn s = true /\
   (ByteStream.input_ended (_stream s) = true -> _fin s = true)).

(** A predicate kept by every iteration is kept by [fills]. *)
Lemma fills_ind_wf (P : TCPSender -> Prop) win :
  win < 2 ^ 16 ->
  (forall s seg stream, wf s -> P s -> _outgoing_bytes s < win ->
    build_segment win s = (seg, stream) -> 0 < length_in_sequence_space seg ->
    wf (push_segment s seg stream) -> P (push_segment s seg stream)) ->
  forall s s', fills win s s' -> wf s -> P s -> wf s' /\ P s'.
Proof.
  intros Hw Hstep s s' H. induction H as [s|s seg st s' Ho Hb Hl _ IH]; [done|]. intros Hwf Hp.
  pose proof (push_segment_wf win s Hwf Ho Hw) as Hn. rewrite Hb in Hn.
  destruct (Hn Hl) as [Hwf' _]. apply IH; [done|]. by eapply Hstep.
Qed.

Lemma read_nothing s n :
  ByteStream.wf s -> 0 <= n -> take (Z.to_nat n) (ByteStream._buff s) = [] ->
  snd (ByteStream.read s n) = s.
Proof.
  intros Hwf Hn Ht. destruct (ByteStream.read_spec s n Hn) as [Hf Hd].
  pose proof (ByteStream.read_app s n Hn) as Ha. rewrite Hf, Ht in Ha.
  unfold ByteStream.read in *. cbn [fst snd] in *. rewrite Hf, Ht in *.
  pose proof (ByteStream.wf_totout s Hwf). pose proof (zlen_nonneg (ByteStream._buff s)).
  unfold ByteStream.pop_output in *. rewrite (@zlen_nil byte).
  rewrite Z.min_l by done. destruct s as [b i o c e r]. cbn in *. f_equal. by rewrite Z.add_0_r, u64_small.
Qed.

(** The segment built is empty only when nothing is left to send. *)
Lemma build_empty win s seg stream :
  wf s -> _outgoing_bytes s < win -> win < 2 ^ 16 -> build_segment win s = (seg, stream) ->
  length_in_sequence_space seg = 0 -> stream = _stream s /\ filled win s.
Proof.
  intros Hwf Ho Hw Hb Hl. pose proof (build_segment_spec win s Hwf Ho Hw) as Hs. rewrite Hb in Hs.
  destruct Hs as (Hst & Hp & _ & Hsyn & Hfin & Hroom & Hlen). rewrite Hl in Hlen.
  pose proof (zlen_nonneg (str (payload seg))).
  assert (zlen (str (payload seg)) = 0 /\ TCPHeader.syn (header seg) = false /\
          TCPHeader.fin (header seg) = false) as (Hz & Hsy & Hfi).
  { unfold b1 in Hlen. destruct (TCPHeader.syn _), (TCPHeader.fin _); split_and!; try done; lia. }
  apply zlen_zero in Hz. rewrite Hz in Hp. rewrite Hsyn in Hsy. apply negb_false_iff in Hsy.
  assert (Hst' : stream = _stream s).
  { rewrite Hst. apply read_nothing; [apply Hwf|done|by rewrite Hp]. }
  split; [done|]. right. unfold payload_room, MAX_PAYLOAD_SIZE in Hp. rewrite Hsy in Hp. cbn [negb b1] in Hp.
  assert (Hbuf : ByteStream._buff (_stream s) = []).
  { destruct (ByteStream._buff (_stream s)) as [|x b]; [done|].
    replace (Z.to_nat _) with (S (Z.to_nat (Z.min 1000 (win - _outgoing_bytes s) - 1))) in Hp by lia.
    done. }
  split_and!; [done|done|]. intros He. rewrite Hfin, Hst', Hz, zlen_nil, Z.add_0_l in Hfi.
  rewrite (proj2 (Z.ltb_lt _ _) Ho), (proj2 (eof_iff (_stream s)) (conj He Hbuf)) in Hfi.
  by destruct (_fin s).
Qed.

Lemma build_fin win s seg stream :
  wf s -> _outgoing_bytes s < win -> win < 2 ^ 16 -> build_segment win s = (seg, stream) ->
  TCPHeader.fin (header seg) = true -> filled win (push_segment s seg stream).
Proof.
  intros Hwf Ho Hw Hb Hf. pose proof (build_segment_spec win s Hwf Ho Hw) as Hs. rewrite Hb in Hs.
  destruct Hs as (_ & _ & _ & _ & Hfin & _ & _). right. simpl. rewrite Hf, orb_true_r.
  rewrite Hfin in Hf. apply andb_true_iff in Hf as [[_ He]%andb_true_iff _].
  by apply eof_iff in He as [_ He].
Qed.

(** With the fuel given the loop ends, by its guard or by a [break]. *)
Lemma fill_window_loop_spec win fuel s :
  win < 2 ^ 16 -> wf s -> Z.max 0 (win - _outgoing_bytes s) < Z.of_nat fuel ->
  exists s', fill_window_loop fuel win s = Some s' /\ fills win s s' /\ filled win s'.
Proof.
  intros Hw. revert s. induction fuel as [|fuel IH]; intros s Hwf Hf.
  - lia.
  - cbn [fill_window_loop]. destruct (Z.ltb_spec (_outgoing_bytes s) win) as [Ho|Ho]; cbn [negb].
    2: { exists s. split_and!; [done|constructor|by left]. }
    pose proof (push_segment_wf win s Hwf Ho Hw) as Hpush.
    destruct (build_segment win s) as [seg st] eqn:Hb.
    destruct (Z.eqb_spec (length_in_sequence_space seg) 0) as [Hz|Hz].
    + destruct (build_empty win s seg st Hwf Ho Hw Hb Hz) as [-> Hfl].
      exists s. split_and!; [by destruct s|constructor|done].
    + assert (Hl : 0 < length_in_sequence_space seg).
      { unfold length_in_sequence_space in *. pose proof (u64_range (zlen (str (payload seg)) +
          (if TCPHeader.syn (header seg) then 1 else 0) +
          (if TCPHeader.fin (header seg) then 1 else 0))). lia. }
      destruct (Hpush Hl) as (Hwf' & _ & Ho' & _).
      destruct (TCPHeader.fin (header seg)) eqn:Efin.
      * eexists. split_and!; [done|by eapply fills_step; [..|constructor]|by eapply build_fin].
      * destruct (IH _ Hwf') as (s' & Hr & Hfs & Hfl); [lia|].
        exists s'. split_and!; [done|by eapply fills_step|done].
Qed.

Lemma effective_window_range s : wf s -> 1 <= effective_window s < 2 ^ 16.
Proof. intros H. pose proof (wf_win s H). unfold effective_window. destruct (Z.eqb_spec (_win_size s) 0); lia. Qed.

Lemma fill_window_spec s :
  wf s ->
  fill_window_loop (fill_window_fuel s) (effective_window s) s = Some (fill_window s) /\
  fills (effective_window s) s (fill_window s) /\ filled (effective_window s) (fill_window s).
Proof.
  intros Hwf. pose proof (effective_window_range s Hwf).
  destruct (fill_window_loop_spec (effective_window s) (fill_window_fuel s) s) as (s' & Hr & Hs);
    [lia|done|unfold fill_window_fuel; lia|].
  unfold fill_window. by rewrite Hr.
Qed.

(** A sender with nothing to send is left as it is. *)
Lemma fill_window_filled s :
  wf s -> filled (effective_window s) s -> fill_window s = s.
Proof.
  intros Hwf Hfl. pose proof (effective_window_range s Hwf) as Hw. unfold fill_window, fill_window_fuel.
  cbn [fill_window_loop]. destruct (Z.ltb_spec (_outgoing_bytes s) (effective_window s)) as [Ho|Ho]; [|done].
  destruct Hfl as [?|(Hb & Hs & Hf)]; [lia|]. cbn [negb].
  pose proof (build_segment_spec _ s Hwf Ho ltac:(lia)) as Hbs.
  destruct (build_segment (effective_window s) s) as [seg st].
  destruct Hbs as (Hst & Hp & _ & Hsy & Hfi & Hroom & Hlen).
  assert (st = _stream s) as ->.
  { rewrite Hst. apply read_nothing; [apply Hwf|done|by rewrite Hb, take_nil]. }
  rewrite Hb, take_nil in Hp. rewrite Hs in Hsy.
  assert (TCPHeader.fin (header seg) = false) as Hff.
  { rewrite Hfi. destruct (ByteStream.eof (_stream s)) eqn:E; [|by rewrite andb_false_r].
    apply eof_iff in E as [E _]. by rewrite (Hf E). }
  rewrite Hlen, Hp, Hsy, Hff, (@zlen_nil byte). by destruct s.
Qed.

Lemma fill_window_wf s : wf s -> wf (fill_window s).
Proof.
  intros Hwf. destruct (fill_window_spec s Hwf) as (_ & Hf & _).
  pose proof (effective_window_range s Hwf).
  by eapply (fills_ind_wf (fun _ => True)) in Hf as [? _]; [|lia|..].
Qed.

(** ** The other operations *)

(** The outstanding segments that [ack_loop] keeps. *)
Definition unacked (a : Z) (p : Z * TCPSegment) : bool :=
  a <? p.1 + length_in_sequence_space p.2.

Lemma unacked_above a lo l hi : chain lo l hi -> a <= lo -> List.filter (unacked a) l = l.
Proof.
  revert lo. induction l as [|[k x] l IH]; intros lo; simpl; [done|].
  intros (-> & Hx & Hc) Ha. unfold unacked at 1. simpl.
  rewrite (proj2 (Z.ltb_lt _ _)) by lia. f_equal. apply (IH (lo + length_in_sequence_space x)); [done|lia].
Qed.

Lemma ack_loop_spec a lo l hi reset :
  chain lo l hi -> 0 <= lo -> hi < 2 ^ 63 ->
  let '(l', o, r) := ack_loop a l (hi - lo) reset in
  l' = List.filter (unacked a) l /\ chain (hi - o) l' hi /\ 0 <= o <= hi - lo /\
  hi - o <= Z.max lo a /\ r = (reset || (o <? hi - lo)).
Proof.
  revert lo reset. induction l as [|[k x] l IH]; intros lo reset; simpl.
  - intros -> _ _. rewrite Z.sub_diag, Z.ltb_irrefl, orb_false_r. split_and!; try done; lia.
  - intros (-> & Hx & Hc) Hlo Hhi. pose proof (chain_le _ _ _ Hc). rewrite u64_small by lia.
    unfold unacked at 1. cbn [fst snd]. rewrite Z.ltb_antisym.
    destruct (Z.leb_spec (lo + length_in_sequence_space x) a) as [Hle|Hgt]; cbn [negb].
    + rewrite u64_small by lia. specialize (IH (lo + length_in_sequence_space x) true Hc).
      replace (hi - (lo + length_in_sequence_space x)) with (hi - lo - length_in_sequence_space x) in IH by lia.
      destruct (ack_loop _ _ _ _) as [[l' o] r]. destruct IH as (-> & Hch & Ho & Hm & ->); [lia..|].
      split_and!; try done; try lia. 
    + rewrite Z.ltb_irrefl, orb_false_r. erewrite unacked_above by (done || lia).
      replace (hi - (hi - lo)) with lo by lia. split_and!; try done; lia.
Qed.

Lemma chain_keys lo l hi p : chain lo l hi -> In p l -> lo <= p.1.
Proof.
  revert lo. induction l as [|[k x] l IH]; intros lo; [done|]. intros (-> & Hx & Hc) [<-|Hp]; [simpl; lia|].
  apply (IH _ Hc) in Hp. lia.
Qed.

(** A chain has one start, and dropping from its front moves it. *)
Lemma chain_start lo lo' l hi : chain lo l hi -> chain lo' l hi -> l = [] \/ lo = lo'.
Proof. destruct l as [|[k x] l]; [by left|]. intros (-> & _) (-> & _). by right. Qed.

Lemma unacked_prefix a lo l hi :
  chain lo l hi -> chain lo (List.filter (unacked a) l) hi -> List.filter (unacked a) l = l.
Proof.
  destruct l as [|[k x] l]; [done|]. intros (-> & Hx & Hc). simpl.
  destruct (unacked a (lo, x)) eqn:U.
  - intros _. f_equal. apply Z.ltb_lt in U. simpl in U. eapply unacked_above; [done|lia].
  - intros Hf. exfalso.
    assert (Hk : forall p, In p (List.filter (unacked a) l) -> lo + length_in_sequence_space x <= p.1).
    { intros p [Hp _]%filter_In. by eapply chain_keys. }
    destruct (List.filter (unacked a) l) as [|[k' x'] l'] eqn:E.
    + simpl in Hf. subst. pose proof (chain_le _ _ _ Hc). lia.
    + destruct Hf as (-> & _). specialize (Hk (lo, x') (or_introl eq_refl)). simpl in Hk. lia.
Qed.

Lemma unacked_none hi lo l : chain lo l hi -> List.filter (unacked hi) l = [].
Proof.
  revert lo. induction l as [|[k x] l IH]; intros lo; [done|]. intros (-> & Hx & Hc). simpl.
  pose proof (chain_le _ _ _ Hc). unfold unacked at 1. simpl.
  rewrite (proj2 (Z.ltb_ge _ _)) by lia. by eapply IH.
Qed.

(** The state [ack_received] calls [fill_window] on. *)
Definition ack_state (s : TCPSender) (l : list (Z * TCPSegment)) (outgoing window_size : Z)
    : TCPSender :=
  let reset := outgoing <? _outgoing_bytes s in
  {| _isn := _isn s; _segments_out := _segments_out s;
     _initial_retransmission_timeout := _initial_retransmission_timeout s;
     _stream := _stream s; _next_seqno := _next_seqno s;
     _retransmission_timeout :=
       if reset then _initial_retransmission_timeout s else _retransmission_timeout s;
     _retransmission_timecount := if reset then 0 else _retransmission_timecount s;
     _consecutive_retransmissions := 0;
     _segments_outgoing := l; _outgoing_bytes := outgoing;
     _syn := _syn s; _fin := _fin s; _win_size := window_size |}.

Lemma next_seqno_small s : wf s -> 0 <= _next_seqno s < 2 ^ 62 + 2.
Proof.
  intros Hwf. pose proof (wf_next s Hwf). pose proof (wf_flight s Hwf). pose proof (wf_bound s Hwf).
  unfold ByteStream.buffer_size in *. pose proof (zlen_nonneg (ByteStream._buff (_stream s))).
  unfold b1 in *. destruct (_syn s), (_fin s); lia.
Qed.

Lemma ack_received_eq s ackno win :
  wf s -> 0 <= win < 2 ^ 16 ->
  let a := unwrap ackno (_isn s) (_next_seqno s) in
  (_next_seqno s < a /\ ack_received s ackno win = s) \/
  (a <= _next_seqno s /\ exists o,
    let s' := ack_state s (List.filter (unacked a) (_segments_outgoing s)) o win in
    ack_received s ackno win = fill_window s' /\ wf s' /\
    0 <= o <= _outgoing_bytes s /\
    _next_seqno s - o <= Z.max (_next_seqno s - _outgoing_bytes s) a).
Proof.
  intros Hwf Hwin a. unfold ack_received. fold a.
  destruct (Z.ltb_spec (_next_seqno s) a); [by left|right]. split; [done|].
  pose proof (next_seqno_small s Hwf). pose proof (wf_flight s Hwf).
  pose proof (ack_loop_spec a _ _ _ false (wf_chain s Hwf) ltac:(lia) ltac:(lia)) as Hl.
  replace (_next_seqno s - (_next_seqno s - _outgoing_bytes s)) with (_outgoing_bytes s) in Hl by lia.
  destruct (ack_loop _ _ _ _) as [[l o] r]. destruct Hl as (-> & Hch & Ho & Hm & ->).
  exists o. cbn zeta. split_and!; try done; try lia.
  destruct Hwf. constructor; cbn; try done; try lia; destruct (_ <? _); lia.
Qed.

Lemma ack_received_wf s ackno win :
  wf s -> 0 <= win < 2 ^ 16 -> wf (ack_received s ackno win).
Proof.
  intros Hwf Hwin. destruct (ack_received_eq s ackno win Hwf Hwin)
    as [[_ ->]|(_ & o & -> & Hwf' & _)]; [done|]. by apply fill_window_wf.
Qed.

Lemma tick_wf s ms : wf s -> wf (tick s ms).
Proof.
  intros []. unfold tick. pose proof (u32_range (_retransmission_timecount s + ms)).
  pose proof (u32_range (_retransmission_timeout s * 2)).
  pose proof (u32_range (_consecutive_retransmissions s + 1)).
  destruct (_segments_outgoing s) as [|[k seg] l] eqn:E; [|destruct (_ <=? _)];
    constructor; cbn; rewrite ?E; try done; try lia; by destruct (0 <? _).
Qed.

Lemma send_empty_segment_wf s : wf s -> wf (send_empty_segment s).
Proof. by intros []; constructor. Qed.

Lemma clear_segments_out_wf s : wf s -> wf (clear_segments_out s).
Proof. by intros []; constructor. Qed.

Lemma end_input_wf s : wf s -> wf (on_stream_in ByteStream.end_input s).
Proof.
  intros []. constructor; try done; [by apply ByteStream.wf_end_input|].
  intros H%wf_fin0. apply eof_iff in H as [_ H]. by apply eof_iff.
Qed.

Lemma stream_error_wf s : wf s -> wf (on_stream_in ByteStream.set_error s).
Proof. intros []. constructor; try done. by apply ByteStream.wf_set_error. Qed.
#[export] Hint Resolve fill_window_wf ack_received_wf tick_wf send_empty_segment_wf
  clear_segments_out_wf end_input_wf stream_error_wf snd_wf_new : sponge.

(** What a run of iterations adds: segments that partition a prefix of the
    stream's buffer and are numbered one after the other. *)
Fixpoint numbered (isn : WrappingInt32) (n : Z) (segs : list TCPSegment) : Prop :=
  match segs with
  | [] => True
  | seg :: rest =>
      TCPHeader.seqno (header seg) = wrap n isn /\
      zlen (str (payload seg)) <= MAX_PAYLOAD_SIZE /\ 0 < length_in_sequence_space seg /\
      numbered isn (n + length_in_sequence_space seg) rest
  end.

Definition payloads (segs : list TCPSegment) : list byte :=
  concat (map (fun seg => str (payload seg)) segs).

Definition seq_lengths (segs : list TCPSegment) : Z :=
  foldr Z.add 0 (map length_in_sequence_space segs).

(** The first segment that goes out starts the timer. *)
Definition starts_timer (outgoing : list (Z * TCPSegment)) (segs : list TCPSegment) : bool :=
  match outgoing, segs with [], _ :: _ => true | _, _ => false end.

Record sends_more (s s' : TCPSender) (segs : list TCPSegment) : Prop := {
  more_out : _segments_out s' = _segments_out s ++ segs;
  more_payload : ByteStream._buff (_stream s) = payloads segs ++ ByteStream._buff (_stream s');
  more_numbered : numbered (_isn s) (_next_seqno s) segs;
  more_next : _next_seqno s' = _next_seqno s + seq_lengths segs;
  more_flight : _outgoing_bytes s' = _outgoing_bytes s + seq_lengths segs;
  more_isn : _isn s' = _isn s;
  more_ended : ByteStream.input_ended (_stream s') = ByteStream.input_ended (_stream s);
  more_win : _win_size s' = _win_size s;
  more_written : ByteStream.bytes_written (_stream s') = ByteStream.bytes_written (_stream s);
  more_syn : _syn s = true -> _syn s' = true;
  more_error : ByteStream.error (_stream s') = ByteStream.error (_stream s);
  more_outgoing :
    map snd (_segments_outgoing s') = map snd (_segments_outgoing s) ++ segs;
  more_consecutive : _consecutive_retransmissions s' = _consecutive_retransmissions s;
  more_timer :
    (_retransmission_timeout s', _retransmission_timecount s') =
    if starts_timer (_segments_outgoing s) segs then (_initial_retransmission_timeout s, 0)
    else (_retransmission_timeout s, _retransmission_timecount s)
}.

Lemma fills_more win s s' :
  win < 2 ^ 16 -> fills win s s' -> wf s ->
  exists segs, sends_more s s' segs /\
    (_outgoing_bytes s' <= Z.max (_outgoing_bytes s) (win + b1 (negb (_syn s)))).
Proof.
  intros Hw H. induction H as [s|s seg st s' Ho Hb Hl _ IH]; intros Hwf.
  { exists []. split; [|lia]. constructor; cbn; rewrite ?app_nil_r; try done; [lia..|by destruct (_segments_outgoing s)]. }
  pose proof (push_segment_wf win s Hwf Ho Hw) as Hn. rewrite Hb in Hn.
  destruct (Hn Hl) as (Hwf' & Hnx & Hob & Hmap).
  pose proof (build_segment_spec win s Hwf Ho Hw) as Hs. rewrite Hb in Hs.
  destruct Hs as (Hst & Hp & Hh & Hsy & Hfi & Hroom & Hlen).
  pose proof (stream_read (_stream s) _ (wf_stream s Hwf) (wf_bound s Hwf) Hroom)
    as (_ & Hbuf & _ & Hwr & Hie & _). rewrite <- Hst, <- Hp in *.
  destruct (IH Hwf') as (segs & [M1 M2 M3 M4 M5 M6 M7 M8 M9 M10 M11 M12 M13 M14] & Hm).
  rewrite Hnx in M3, M4. rewrite Hob in M5, Hm.
  assert (Hplen : zlen (str (payload seg)) <= payload_room win s).
  { rewrite Hp, zlen_take. lia. }
  exists (seg :: segs). split.
  - constructor; cbn [_segments_out _stream push_segment _isn _win_size] in *; try done.
    + by rewrite M1, <- app_assoc.
    + rewrite Hbuf, M2. unfold payloads. simpl. by rewrite <- app_assoc.
    + cbn [numbered]. split_and!; try done.
      * rewrite Hh. by destruct (_syn s), (TCPHeader.fin (header seg)).
      * unfold payload_room in Hplen. lia.
    + rewrite M4. unfold seq_lengths. simpl. lia.
    + rewrite M5. unfold seq_lengths. simpl. lia.
    + congruence.
    + congruence.
    + intros _. by apply M10.
    + rewrite M11, Hst. done.
    + by rewrite M12, Hmap, map_app, <- app_assoc.
    + rewrite M14, Hmap. unfold push_segment. cbn. by destruct (_segments_outgoing s).
  - cbn [push_segment _syn negb b1] in Hm. unfold payload_room in Hplen.
    rewrite Hlen, Hsy in Hm. clear - Hm Hplen Hfi Hsy Ho.
    destruct (TCPHeader.fin (header seg)).
    + symmetry in Hfi. apply andb_true_iff in Hfi as [_ Hfi%Z.ltb_lt]. unfold b1 in *.
      destruct (_syn s); cbn [negb] in *; lia.
    + unfold b1 in *. destruct (_syn s); cbn [negb] in *; lia.
Qed.

Lemma fill_window_more s :
  wf s -> exists segs, sends_more s (fill_window s) segs /\
    (_outgoing_bytes (fill_window s) <=
       Z.max (_outgoing_bytes s) (effective_window s + b1 (negb (_syn s)))).
Proof.
  intros Hwf. pose proof (effective_window_range s Hwf).
  destruct (fill_window_spec s Hwf) as (_ & Hf & _). apply fills_more; [lia|done..].
Qed.

(** ** The stream a sender sends

    [sent W ended isn seg]: [seg] is a segment of the stream [W], of which
    [ended] says whether it is complete; [q] is its absolute number. *)
Definition sent_at (W : list byte) (ended : bool) (isn : WrappingInt32) (q : Z)
    (seg : TCPSegment) : Prop :=
  0 <= win (header seg) < 2 ^ 16 /\
  (TCPHeader.fin (header seg) = true -> ended = true) /\
  0 <= q <= zlen W + 2 /\ TCPHeader.seqno (header seg) = wrap q isn /\
  (TCPHeader.syn (header seg) = true -> q = 0) /\
  piece_of W (str (payload seg))
    (if TCPHeader.syn (header seg) then 0 else u64 (q - 1)) (TCPHeader.fin (header seg)).

Definition sent (W : list byte) (ended : bool) (isn : WrappingInt32) (seg : TCPSegment) : Prop :=
  0 <= win (header seg) < 2 ^ 16 /\
  (TCPHeader.fin (header seg) = true -> ended = true) /\
  exists q, 0 <= q <= zlen W + 2 /\ TCPHeader.seqno (header seg) = wrap q isn /\
    (TCPHeader.syn (header seg) = true -> q = 0) /\
    piece_of W (str (payload seg))
      (if TCPHeader.syn (header seg) then 0 else u64 (q - 1)) (TCPHeader.fin (header seg)).

Lemma sent_at_sent W ended isn q seg : sent_at W ended isn q seg -> sent W ended isn seg.
Proof. intros (? & ? & H). split; [done|]. split; [done|]. by exists q. Qed.

Lemma piece_grow W D data index : piece_of W data index false -> piece_of (W ++ D) data index false.
Proof.
  intros [Hb _]. constructor; [|done]. intros k b Hk. apply Hb in Hk.
  pose proof (zget_Some _ _ _ Hk) as Hr. rewrite zget_app by lia.
  by rewrite (proj2 (Z.ltb_lt _ _)) by lia.
Qed.

Lemma sent_at_grow W D ended isn q seg :
  sent_at W false isn q seg -> sent_at (W ++ D) ended isn q seg.
Proof.
  intros (Hw & Hf & Hq & Hs & H0 & Hp). pose proof (zlen_nonneg D).
  assert (E : TCPHeader.fin (header seg) = false) by (destruct (TCPHeader.fin _); [by specialize (Hf eq_refl)|done]).
  split; [done|]. split; [by rewrite E|]. rewrite zlen_app, E in *. split_and!; try done; try lia.
  by apply piece_grow.
Qed.

Lemma sent_grow W D ended isn seg : sent W false isn seg -> sent (W ++ D) ended isn seg.
Proof. intros (? & ? & q & H). by apply (sent_at_sent _ _ _ q), sent_at_grow. Qed.

Lemma sent_end W ended isn seg : sent W ended isn seg -> sent W true isn seg.
Proof. by intros (? & _ & H). Qed.

Record sends (W : list byte) (s : TCPSender) : Prop := {
  snd_wf : wf s;
  snd_read : ByteStream.bytes_read (_stream s) <= zlen W;
  snd_buff : ByteStream._buff (_stream s) = drop (Z.to_nat (ByteStream.bytes_read (_stream s))) W;
  snd_out : Forall (sent W (ByteStream.input_ended (_stream s)) (_isn s)) (_segments_out s);
  snd_outgoing : Forall (fun p => sent W (ByteStream.input_ended (_stream s)) (_isn s) p.2)
                   (_segments_outgoing s)
}.

Lemma sends_new cap rt isn rnd :
  0 <= cap < 2 ^ 64 -> 0 <= rt < 2 ^ 16 -> (forall i, isn = Some i -> wi_wf i) ->
  sends [] (new_TCPSender cap rt isn rnd).
Proof. intros. constructor; cbn; try done; try apply Forall_nil_2. by apply snd_wf_new. Qed.

(** The segment built by an iteration is the next one of the stream. *)
Lemma build_segment_at W win s seg stream :
  sends W s -> _outgoing_bytes s < win -> win < 2 ^ 16 -> build_segment win s = (seg, stream) ->
  sent_at W (ByteStream.input_ended (_stream s)) (_isn s) (_next_seqno s) seg.
Proof.
  intros [Hwf Hrd Hbuf _ _] Ho Hw Hb. pose proof (build_segment_spec win s Hwf Ho Hw) as Hs.
  rewrite Hb in Hs. destruct Hs as (Hst & Hp & Hh & Hsy & Hfi & Hroom & _).
  pose proof (stream_read (_stream s) _ (wf_stream s Hwf) (wf_bound s Hwf) Hroom)
    as (_ & Happ & _ & _ & Hie & _). rewrite <- Hst, <- Hp in *.
  pose proof (wf_next s Hwf) as Hnx. pose proof (ByteStream.wf_totout _ (wf_stream s Hwf)) as Hto.
  pose proof (next_seqno_small s Hwf) as Hns. pose proof (wf_syn s Hwf) as Hs0.
  pose proof (wf_fin s Hwf) as Hf0.
  change (ByteStream._totout (_stream s)) with (ByteStream.bytes_read (_stream s)) in Hto.
  set (rd := ByteStream.bytes_read (_stream s)) in *.
  assert (Hget : forall k b, zget (str (payload seg)) k = Some b -> zget W (rd + k) = Some b).
  { intros k b Hk. pose proof (zget_Some _ _ _ Hk) as Hr.
    assert (zget (ByteStream._buff (_stream s)) k = Some b) as Hk'.
    { rewrite Happ, zget_app by lia. by rewrite (proj2 (Z.ltb_lt _ _)) by lia. }
    rewrite Hbuf in Hk'. unfold zget in *. destruct (Z.ltb_spec k 0), (Z.ltb_spec (rd + k) 0); try lia.
    rewrite lookup_drop in Hk'. rewrite <- Hk'. f_equal. lia. }
  assert (Hfin : TCPHeader.fin (header seg) = true ->
    _fin s = false /\ ByteStream.input_ended (_stream s) = true /\ rd + zlen (str (payload seg)) = zlen W).
  { rewrite Hfi. rewrite !andb_true_iff, eof_iff, Hie. intros [[Hnf [He Hn]] _].
    apply negb_true_iff in Hnf. split_and!; try done. rewrite Hn, app_nil_r in Happ.
    rewrite <- Happ, Hbuf, zlen_drop. lia. }
  split; [rewrite Hh; by destruct (_syn s), (TCPHeader.fin (header seg))|].
  split; [by intros (_ & ? & _)%Hfin|].
  assert (TCPHeader.seqno (header seg) = wrap (_next_seqno s) (_isn s)) as ->.
  { rewrite Hh. by destruct (_syn s), (TCPHeader.fin (header seg)). }
  rewrite Hsy. unfold b1 in Hnx.
  destruct (_syn s); cbn [negb].
  - split_and!; try done; [lia|destruct (_fin s); lia|].
    destruct (_fin s) eqn:Ef.
    + assert (str (payload seg) = []) as ->.
      { specialize (Hf0 eq_refl). apply eof_iff in Hf0 as [_ Hn]. rewrite Hn in Happ.
        by apply eq_sym, app_nil in Happ as [? _]. }
      constructor; [intros k b; by rewrite zget_nil|]. by intros [? _]%Hfin.
    + replace (_next_seqno s - 1) with rd by lia. rewrite u64_small by lia.
      constructor; [done|]. by intros (_ & _ & ?)%Hfin.
  - destruct (Hs0 eq_refl) as [Hz Hf]. rewrite Hf in Hnx. pose proof (zlen_nonneg W).
    assert (rd = 0) by done. split_and!; try done; try lia.
    constructor; [intros k b Hk%Hget; by replace (rd + k) with (0 + k) in Hk by lia|].
    intros (_ & _ & ?)%Hfin. lia.
Qed.

Lemma build_segment_sent W win s seg stream :
  sends W s -> _outgoing_bytes s < win -> win < 2 ^ 16 -> build_segment win s = (seg, stream) ->
  sent W (ByteStream.input_ended (_stream s)) (_isn s) seg.
Proof. intros. by eapply sent_at_sent, build_segment_at. Qed.

(** The stream position after the bytes of an iteration have been read. *)
Lemma sends_push W win s seg stream :
  sends W s -> _outgoing_bytes s < win -> win < 2 ^ 16 -> build_segment win s = (seg, stream) ->
  0 < length_in_sequence_space seg -> sends W (push_segment s seg stream).
Proof.
  intros Hs Ho Hw Hb Hl. pose proof (build_segment_sent W win s seg stream Hs Ho Hw Hb) as Hseg.
  destruct Hs as [Hwf Hrd Hbuf Hout Hog].
  pose proof (push_segment_wf win s Hwf Ho Hw) as Hn. rewrite Hb in Hn.
  destruct (Hn Hl) as (Hwf' & _ & _ & Hmap).
  pose proof (build_segment_spec win s Hwf Ho Hw) as Hs. rewrite Hb in Hs.
  destruct Hs as (Hst & Hp & _ & _ & _ & Hroom & _).
  pose proof (stream_read (_stream s) _ (wf_stream s Hwf) (wf_bound s Hwf) Hroom)
    as (_ & Happ & Hrd' & _ & Hie & _). rewrite <- Hst in *.
  pose proof (ByteStream.wf_totout _ (wf_stream s Hwf)) as Hto.
  change (ByteStream._totout (_stream s)) with (ByteStream.bytes_read (_stream s)) in Hto.
  set (bs := take _ _) in *. assert (Hl' := f_equal zlen Happ).
  rewrite zlen_app, Hbuf, zlen_drop in Hl'. pose proof (zlen_nonneg (ByteStream._buff stream)).
  constructor; try done.
  - cbn [push_segment _stream]. lia.
  - cbn [push_segment _stream]. rewrite Hrd', Z2Nat.inj_add by (auto with sponge; lia).
    rewrite <- drop_drop, <- Hbuf, Happ. unfold zlen. rewrite Nat2Z.id. by rewrite drop_app_length.
  - cbn [push_segment _stream _segments_out _isn]. rewrite Hie. apply Forall_app. split; [done|].
    apply Forall_cons_2; [done|apply Forall_nil_2].
  - rewrite Hmap. cbn [push_segment _stream _isn]. rewrite Hie. apply Forall_app. split; [done|].
    apply Forall_cons_2; [done|apply Forall_nil_2].
Qed.

Lemma sends_fill W s : sends W s -> sends W (fill_window s).
Proof.
  intros Hs. pose proof (snd_wf W s Hs) as Hwf. pose proof (effective_window_range s Hwf).
  destruct (fill_window_spec s Hwf) as (_ & Hf & _).
  apply (fills_ind_wf (sends W)) in Hf as [_ ?]; [done|lia| |done|done].
  intros s1 seg st _ H1 Ho Hb Hl _. eapply sends_push; [done..|lia|done|done].
Qed.

Lemma sends_ack W s ackno win :
  sends W s -> 0 <= win < 2 ^ 16 -> sends W (ack_received s ackno win).
Proof.
  intros Hs Hwin. destruct (ack_received_eq s ackno win (snd_wf W s Hs) Hwin)
    as [[_ ->]|(_ & o & -> & Hwf' & _)]; [done|]. apply sends_fill. destruct Hs.
  constructor; try done. cbn [_segments_outgoing ack_state _stream _isn].
  rewrite Forall_forall in snd_outgoing0 |- *. intros p Hp. apply snd_outgoing0.
  apply list_elem_of_In, filter_In in Hp as [Hp _]. by apply list_elem_of_In.
Qed.

Lemma sends_tick W s ms : sends W s -> sends W (tick s ms).
Proof.
  intros Hs. pose proof (tick_wf s ms (snd_wf W s Hs)) as Hwf. destruct Hs.
  unfold tick in *. destruct (_segments_outgoing s) as [|[k seg] l] eqn:E; [|destruct (_ <=? _)];
    constructor; cbn in *; rewrite ?E; try done.
  apply Forall_app. split; [done|]. apply Forall_cons_2; [|apply Forall_nil_2].
  by inversion snd_outgoing0; subst.
Qed.

Lemma sends_empty W s : sends W s -> sends W (send_empty_segment s).
Proof.
  intros Hs. pose proof (send_empty_segment_wf s (snd_wf W s Hs)) as Hwf. destruct Hs.
  constructor; try done. apply Forall_app. split; [done|]. apply Forall_cons_2; [|apply Forall_nil_2].
  split; [done|]. split; [done|]. exists (_next_seqno s). pose proof (wf_next s snd_wf0).
  pose proof (next_seqno_small s snd_wf0). unfold b1 in *.
  split_and!; try done; [lia|destruct (_syn s), (_fin s); lia|].
  constructor; [intros k b; by rewrite zget_nil|done].
Qed.

Lemma sends_clear W s : sends W s -> sends W (clear_segments_out s).
Proof. intros []. constructor; try done. by apply clear_segments_out_wf. Qed.

Lemma sends_end W s : sends W s -> sends W (on_stream_in ByteStream.end_input s).
Proof.
  intros []. constructor; try done; [by apply end_input_wf|..].
  - eapply Forall_impl; [exact snd_out0|]. intros seg. apply sent_end.
  - eapply Forall_impl; [exact snd_outgoing0|]. intros p. apply sent_end.
Qed.

(** Writing while the input is open. *)
Lemma write_wf s data :
  wf s -> ByteStream.input_ended (_stream s) = false ->
  ByteStream.bytes_read (_stream s) + ByteStream.buffer_size (_stream s) + zlen data < 2 ^ 62 ->
  wf (on_stream_in (fun b => snd (ByteStream.write b data)) s).
Proof.
  intros Hwf He Hb. pose proof (ByteStream.write_buff (_stream s) data (wf_stream s Hwf)) as Hwb.
  destruct Hwf. constructor; try done; cbn [on_stream_in _stream].
  - by apply ByteStream.wf_write.
  - change (ByteStream.bytes_read (snd (ByteStream.write (_stream s) data)))
      with (ByteStream.bytes_read (_stream s)).
    unfold ByteStream.buffer_size in *. rewrite Hwb, zlen_app, zlen_take. lia.
  - intros Hf. apply wf_fin0 in Hf. apply eof_iff in Hf as [Hf _]. congruence.
Qed.

(** [zlen W] bytes have been written; more are accepted while input is open. *)
Lemma sends_write W s data :
  sends W s -> ByteStream.input_ended (_stream s) = false -> zlen W + zlen data < 2 ^ 62 ->
  let n := fst (ByteStream.write (_stream s) data) in
  sends (W ++ take (Z.to_nat n) data)
    (on_stream_in (fun b => snd (ByteStream.write b data)) s).
Proof.
  intros [Hwf Hrd Hbuf Hout Hog] He Hb n. pose proof (ByteStream.write_buff (_stream s) data (wf_stream s Hwf)) as Hwb.
  fold n in Hwb. pose proof (ByteStream.wf_totout _ (wf_stream s Hwf)) as Hto.
  pose proof (ByteStream.write_amount (_stream s) data (wf_stream s Hwf)) as [Hn _]. fold n in Hn.
  change (ByteStream._totout (_stream s)) with (ByteStream.bytes_read (_stream s)) in Hto.
  assert (Hbl := f_equal zlen Hbuf). rewrite zlen_drop in Hbl.
  constructor; cbn [on_stream_in _stream _segments_out _segments_outgoing _isn].
  - apply write_wf; [done|done|]. unfold ByteStream.buffer_size. lia.
  - change (ByteStream.bytes_read (snd (ByteStream.write (_stream s) data)))
      with (ByteStream.bytes_read (_stream s)). rewrite zlen_app. pose proof (zlen_nonneg (take (Z.to_nat n) data)). lia.
  - rewrite Hwb, Hbuf. change (ByteStream.bytes_read (snd (ByteStream.write (_stream s) data)))
      with (ByteStream.bytes_read (_stream s)). rewrite drop_app_le; [done|]. unfold zlen in *. lia.
  - rewrite He in Hout. eapply Forall_impl; [done|]. intros; by apply sent_grow.
  - rewrite He in Hog. eapply Forall_impl; [done|]. intros p Hp; by apply sent_grow.
Qed.

(** ** Reachable senders

    The calls a sender gets, in any order: the owner writes and ends the
    stream, acknowledgments (of any number, from any peer) and the passing of
    time come in, and the queue is emptied. The first component is the stream
    accepted so far. The owner does not write after ending the stream. *)
Inductive sender_step : list byte * TCPSender -> list byte * TCPSender -> Prop :=
| step_write W s data :
    ByteStream.input_ended (stream_in s) = false -> zlen W + zlen data < 2 ^ 62 ->
    sender_step (W, s)
      (W ++ take (Z.to_nat (fst (ByteStream.write (stream_in s) data))) data,
       on_stream_in (fun b => snd (ByteStream.write b data)) s)
| step_end W s : sender_step (W, s) (W, on_stream_in ByteStream.end_input s)
| step_fill W s : sender_step (W, s) (W, fill_window s)
| step_ack W s ackno win :
    0 <= win < 2 ^ 16 -> sender_step (W, s) (W, ack_received s ackno win)
| step_tick W s ms : sender_step (W, s) (W, tick s ms)
| step_empty W s : sender_step (W, s) (W, send_empty_segment s)
| step_dequeue W s : sender_step (W, s) (W, clear_segments_out s).

Lemma sender_steps_sends x y :
  rtc sender_step x y -> sends x.1 x.2 -> sends y.1 y.2.
Proof.
  induction 1 as [x|x y z Hxy _ IH]; [done|]. intros Hs. apply IH.
  destruct Hxy; cbn [fst snd] in *; auto using sends_end, sends_fill, sends_ack, sends_tick, sends_empty,
    sends_clear, sends_write.
Qed.

(** ** Properties *)

(** C12: The invariant of the sender. In every state a sender reaches, whatever
    acknowledgments arrive, the outstanding segments are adjacent, end at the
    next sequence number and add up to [bytes_in_flight]; the next sequence
    number counts the bytes taken from the stream plus SYN and FIN; and every
    segment queued or outstanding carries bytes of the stream written so far,
    at the position its sequence number says, a FIN only at its end. *)
Theorem sender_invariant cap rt isn rnd W s :
  0 <= cap < 2 ^ 64 -> 0 <= rt < 2 ^ 16 -> (forall i, isn = Some i -> wi_wf i) ->
  rtc sender_step ([], new_TCPSender cap rt isn rnd) (W, s) ->
  chain (next_seqno_absolute s - bytes_in_flight s) (_segments_outgoing s) (next_seqno_absolute s) /\
  0 <= bytes_in_flight s <= next_seqno_absolute s /\
  next_seqno_absolute s = ByteStream.bytes_read (stream_in s) + b1 (_syn s) + b1 (_fin s) /\
  ByteStream._buff (stream_in s) = drop (Z.to_nat (ByteStream.bytes_read (stream_in s))) W /\
  Forall (sent W (ByteStream.input_ended (stream_in s)) (_isn s)) (segments_out s) /\
  Forall (fun p => sent W (ByteStream.input_ended (stream_in s)) (_isn s) p.2) (_segments_outgoing s).
Proof.
  intros Hc Hr Hi Hsteps. apply sender_steps_sends in Hsteps; [|by apply sends_new].
  simpl in Hsteps. destruct Hsteps as [[] ? ? ? ?]. split_and!; (done || apply wf_flight0).
Qed.

Lemma sender_invariant_witness :
  let s := ack_received (on_stream_in (fun b => snd (ByteStream.write b [Byte.x61; Byte.x62]))
             (fill_window (new_TCPSender 10 1000 (Some (wrapping_int32 5)) 0)))
             (wrapping_int32 6) 10 in
  next_seqno_absolute s = 3 /\ bytes_in_flight s = 2 /\
  Forall (sent [Byte.x61; Byte.x62] false (_isn s)) (segments_out s).
Proof.
  intros s. destruct (sender_invariant 10 1000 (Some (wrapping_int32 5)) 0 [Byte.x61; Byte.x62] s)
    as (_ & _ & _ & _ & Ho & _).
  - lia.
  - lia.
  - intros i [= <-]. apply wi_wf_wrapping_int32.
  - eapply rtc_l; [apply step_fill|].
    eapply rtc_l; [apply (step_write _ _ [Byte.x61; Byte.x62]); vm_compute; done|].
    eapply rtc_l; [apply (step_ack _ _ (wrapping_int32 6) 10); lia|].
    match goal with |- rtc _ (?w, _) (?w', _) => change w with w' end. apply rtc_refl.
  - split; [vm_compute; reflexivity|]. split; [vm_compute; reflexivity|exact Ho].
Defined.

(** C18: [fill_window] terminates and sends all it may. Its loop ends within the
    fuel given; afterwards the window is full, or the stream is empty with the
    SYN sent and, if the stream has ended, the FIN sent too. The segments it
    queues cut the front of the stream into payloads of at most
    [MAX_PAYLOAD_SIZE] bytes, in order and numbered one after the other. *)
Theorem fill_window_complete s :
  wf s ->
  fill_window_loop (fill_window_fuel s) (effective_window s) s = Some (fill_window s) /\
  filled (effective_window s) (fill_window s) /\
  exists segs,
    segments_out (fill_window s) = segments_out s ++ segs /\
    ByteStream._buff (stream_in s) = payloads segs ++ ByteStream._buff (stream_in (fill_window s)) /\
    numbered (_isn s) (next_seqno_absolute s) segs /\
    next_seqno_absolute (fill_window s) = next_seqno_absolute s + seq_lengths segs /\
    bytes_in_flight (fill_window s) = bytes_in_flight s + seq_lengths segs.
Proof.
  intros Hwf. destruct (fill_window_spec s Hwf) as (Hl & _ & Hf).
  destruct (fill_window_more s Hwf) as (segs & [] & _). split_and!; try done.
  exists segs. by split_and!.
Qed.

Lemma fill_window_complete_witness :
  filled 1 (fill_window (new_TCPSender 10 1000 None 77)).
Proof.
  destruct (fill_window_complete (new_TCPSender 10 1000 None 77)) as (_ & Hf & _);
    [apply snd_wf_new; [lia|lia|done]|exact Hf].
Defined.

(** The window is respected. Once the SYN is out, [fill_window] never takes
    the bytes in flight beyond the peer's window (or one byte, when the window
    is closed), unless they were beyond it already. *)
Theorem fill_window_within_window s :
  wf s -> _syn s = true ->
  bytes_in_flight (fill_window s) <= Z.max (bytes_in_flight s) (effective_window s).
Proof.
  intros Hwf Hsyn. destruct (fill_window_more s Hwf) as (segs & _ & Hb).
  rewrite Hsyn, Z.add_0_r in Hb. done.
Qed.

Lemma fill_window_within_window_witness :
  _syn example_sender = true /\ bytes_in_flight (fill_window example_sender) <= 1500.
Proof.
  split; [vm_compute; reflexivity|].
  assert (Hwf : wf example_sender).
  { apply ack_received_wf; [|lia]. set (s := fill_window _).
    assert (Hs : sends [] s).
    { apply sends_fill, sends_new; [lia|lia|]. intros i [= <-]. apply wi_wf_wrapping_int32. }
    eapply snd_wf, (sends_write [] s); [exact Hs|vm_compute; reflexivity|vm_compute; reflexivity]. }
  pose proof (fill_window_within_window example_sender Hwf) as H.
  apply H. vm_compute. reflexivity.
Defined.

(** The exception to the window. The test for the FIN counts the payload but
    not the SYN, so a sender whose stream has ended before it starts sends SYN
    and FIN together into the initial window of one. *)
Theorem syn_fin_overruns_window cap rt isn rnd :
  let s := fill_window (on_stream_in ByteStream.end_input (new_TCPSender cap rt isn rnd)) in
  bytes_in_flight s = 2 /\ effective_window s = 1 /\
  map (fun seg => (TCPHeader.syn (header seg), TCPHeader.fin (header seg))) (segments_out s) =
    [(true, true)].
Proof. by destruct isn. Qed.

(** C19: Acknowledgments. An acknowledgment of more than was sent changes nothing.
    One of [n] within what was sent releases exactly the segments that end at
    or before [n], keeps the others in order, takes over the window, clears the
    retransmission count and fills the new window, with segments [segs]; the
    timer restarts, with the initial timeout, exactly when something was
    released, or when nothing was outstanding and something is sent. *)
Theorem ack_received_cumulative s n win :
  wf s -> 0 <= n -> - 2 ^ 31 <= n - next_seqno_absolute s < 2 ^ 31 -> 0 <= win < 2 ^ 16 ->
  let s' := ack_received s (wrap n (_isn s)) win in
  let kept := List.filter (unacked n) (_segments_outgoing s) in
  (next_seqno_absolute s < n -> s' = s) /\
  (n <= next_seqno_absolute s ->
   exists segs,
     map snd (_segments_outgoing s') = map snd kept ++ segs /\
     segments_out s' = segments_out s ++ segs /\
     _win_size s' = win /\ filled (effective_window s') s' /\ consecutive_retransmissions s' = 0 /\
     (kept <> _segments_outgoing s \/ starts_timer (_segments_outgoing s) segs = true ->
      _retransmission_timeout s' = _initial_retransmission_timeout s /\
      _retransmission_timecount s' = 0) /\
     (kept = _segments_outgoing s -> starts_timer (_segments_outgoing s) segs = false ->
      _retransmission_timeout s' = _retransmission_timeout s /\
      _retransmission_timecount s' = _retransmission_timecount s)).
Proof.
  intros Hwf Hn Hd Hwin s' kept. pose proof (next_seqno_small s Hwf) as Hns.
  unfold next_seqno_absolute in *. destruct (ack_received_eq s (wrap n (_isn s)) win Hwf Hwin) as [H|H];
    rewrite unwrap_wrap_lem in H by (done || lia || apply Hwf).
  - destruct H as [Hlt Heq]. split; [done|lia].
  - destruct H as (Hle & o & Heq & Hwf' & Ho & _). split; [lia|]. intros _. subst s'. rewrite Heq.
    destruct (fill_window_spec _ Hwf') as (_ & _ & Hfill).
    destruct (fill_window_more _ Hwf') as (segs & [] & _).
    exists segs. unfold effective_window in *. rewrite more_win0. cbn [ack_state _segments_outgoing
      _initial_retransmission_timeout _retransmission_timeout _retransmission_timecount] in more_timer0. fold kept in more_timer0.
    assert (Hrel : if o <? _outgoing_bytes s then kept <> _segments_outgoing s else kept = _segments_outgoing s).
    { assert (Hch := wf_chain _ Hwf'). cbn in Hch. fold kept in Hch. destruct (Z.ltb_spec o (_outgoing_bytes s)).
      - intros E. rewrite E in Hch. destruct (chain_start _ _ _ _ Hch (wf_chain s Hwf)) as [Hnil|?]; [|lia].
        pose proof (wf_chain s Hwf) as Hch0. rewrite Hnil in Hch, Hch0. cbn in Hch, Hch0. lia.
      - apply (unacked_prefix n _ _ _ (wf_chain s Hwf)). fold kept.
        by replace (_next_seqno s - _outgoing_bytes s) with (_next_seqno s - o) by lia. }
    split_and!; try done; intros H1; [|intros H2]; apply pair_equal_spec; fold kept; rewrite more_timer0;
      destruct (o <? _outgoing_bytes s).
    + by destruct (starts_timer kept segs).
    + destruct H1 as [H1|H1]; [done|]. by rewrite Hrel, H1.
    + done.
    + by rewrite H1, H2.
Qed.

Lemma ack_received_cumulative_witness :
  let s := tick (fill_window (new_TCPSender 10 1000 (Some (wrapping_int32 5)) 0)) 300 in
  let s' := ack_received s (wrap 1 (wrapping_int32 5)) 7 in
  length (_segments_outgoing s) = 1%nat /\ _segments_outgoing s' = [] /\
  _retransmission_timecount s = 300 /\ _retransmission_timecount s' = 0.
Proof.
  intros s s'. split; [reflexivity|]. split; [vm_compute; reflexivity|]. split; [reflexivity|].
  destruct (ack_received_cumulative s 1 7) as (_ & H); [|lia|vm_compute; split; [discriminate|reflexivity]|lia|].
  - apply tick_wf, fill_window_wf, snd_wf_new; [lia|lia|]. intros i [= <-]. apply wi_wf_wrapping_int32.
  - destruct H as (segs & _ & _ & _ & _ & _ & Ht & _); [vm_compute; discriminate|].
    apply Ht. left. vm_compute. discriminate.
Defined.

(** The clock runs until the timer expires. *)
Definition expire (s : TCPSender) : TCPSender :=
  tick s (_retransmission_timeout s - _retransmission_timecount s).

Lemma expire_spec s k seg rest :
  wf s -> _segments_outgoing s = (k, seg) :: rest -> 0 < _win_size s ->
  _retransmission_timeout s * 2 < 2 ^ 32 -> _consecutive_retransmissions s + 1 < 2 ^ 32 ->
  _segments_out (expire s) = _segments_out s ++ [seg] /\
  _segments_outgoing (expire s) = _segments_outgoing s /\ _win_size (expire s) = _win_size s /\
  _retransmission_timeout (expire s) = _retransmission_timeout s * 2 /\
  _retransmission_timecount (expire s) = 0 /\
  _consecutive_retransmissions (expire s) = _consecutive_retransmissions s + 1.
Proof.
  intros Hwf Hout Hwin Hto Hcr. pose proof (wf_timeout s Hwf). pose proof (wf_timecount s Hwf).
  pose proof (wf_consecutive s Hwf). unfold expire, tick. rewrite Hout.
  rewrite (u32_small (_ + _)), (proj2 (Z.leb_le _ _)) by lia.
  cbn. rewrite (proj2 (Z.ltb_lt _ _) Hwin). usmall. by split_and!.
Qed.

(** Retransmission with exponential backoff. While nothing is acknowledged
    and the window is open, [n] expiries in a row send the oldest outstanding
    segment [n] times, count [n] retransmissions and double the timeout each
    time; before the next expiry nothing more is sent. *)
Theorem retransmission_backoff n s k seg rest :
  wf s -> _segments_outgoing s = (k, seg) :: rest -> 0 < _win_size s ->
  _retransmission_timeout s * 2 ^ Z.of_nat n < 2 ^ 32 ->
  _consecutive_retransmissions s + Z.of_nat n < 2 ^ 32 ->
  let s' := Nat.iter n expire s in
  segments_out s' = segments_out s ++ repeat seg n /\
  _segments_outgoing s' = _segments_outgoing s /\ _win_size s' = _win_size s /\
  _retransmission_timeout s' = _retransmission_timeout s * 2 ^ Z.of_nat n /\
  consecutive_retransmissions s' = consecutive_retransmissions s + Z.of_nat n /\ wf s' /\
  (forall ms, 0 <= ms < _retransmission_timeout s' - _retransmission_timecount s' ->
     segments_out (tick s' ms) = segments_out s').
Proof.
  intros Hwf Hout Hwin Hto Hcr s'.
  assert (segments_out s' = segments_out s ++ repeat seg n /\
    _segments_outgoing s' = _segments_outgoing s /\ _win_size s' = _win_size s /\
    _retransmission_timeout s' = _retransmission_timeout s * 2 ^ Z.of_nat n /\
    consecutive_retransmissions s' = consecutive_retransmissions s + Z.of_nat n /\ wf s')
    as (H1 & H2 & H3 & H4 & H5 & H6).
  - subst s'. unfold consecutive_retransmissions, segments_out in *.
    induction n as [|n IH]; [simpl; rewrite app_nil_r; split_and!; (done || lia)|].
    pose proof (wf_timeout s Hwf) as Ht0.
    rewrite Nat2Z.inj_succ, Z.pow_succ_r in Hto |- * by lia.
    assert (0 < 2 ^ Z.of_nat n) by (apply Z.pow_pos_nonneg; lia).
    destruct IH as (I1 & I2 & I3 & I4 & I5 & I6); [nia|lia|].
    change (Nat.iter (S n) expire s) with (expire (Nat.iter n expire s)).
    set (x := Nat.iter n expire s) in *.
    destruct (expire_spec x k seg rest) as (E1 & E2 & E3 & E4 & E5 & E6);
      [done|congruence|lia|rewrite I4; lia|lia|].
    split_and!; try congruence; try lia; [|by apply tick_wf].
    rewrite E1, I1, <- app_assoc. f_equal. by rewrite <- repeat_cons.
  - split_and!; try done. intros ms Hms. pose proof (wf_timecount s' H6). pose proof (wf_timeout s' H6).
    unfold tick. rewrite H2, Hout, (u32_small (_ + _)) by lia.
    by rewrite (proj2 (Z.leb_gt _ _)) by lia.
Qed.

Lemma retransmission_backoff_witness :
  let s := fill_window (new_TCPSender 10 1000 (Some (wrapping_int32 5)) 0) in
  _retransmission_timeout (Nat.iter 8 expire s) = 256000 /\
  consecutive_retransmissions (Nat.iter 8 expire s) = 8.
Proof.
  intros s. destruct (retransmission_backoff 8 s 0 (segment_of_syn (wrapping_int32 5)) [])
    as (_ & _ & _ & Ht & Hc & _).
  - apply fill_window_wf, snd_wf_new; [lia|lia|]. intros i [= <-]. apply wi_wf_wrapping_int32.
  - vm_compute. reflexivity.
  - vm_compute. reflexivity.
  - vm_compute. reflexivity.
  - vm_compute. reflexivity.
  - split; [exact Ht|exact Hc].
Defined.
