(* ===== verification/TCPState.v ===== *)
(** * Summaries of a connection's state

    Models [TCPState] of [src/libsponge/tcp_helpers/tcp_state.hh] and [.cc]: the
    strings that summarize a sender and a receiver, and the official names. *)

From S2P Require Import Prelude WrappingIntegers ByteStream StreamReassembler ReassemblerProps Buffer TCPHeader TCPSegment TCPReceiver TCPSender.

(** ** Data *)

Module TCPReceiverStateSummary.
Definition ERROR : string := "error (connection was reset)".
Definition LISTEN : string := "waiting for SYN: ackno is empty".
Definition SYN_RECV : string := "SYN received (ackno exists), and input to stream hasn't ended".
Definition FIN_RECV : string := "input to stream has ended".
End TCPReceiverStateSummary.

Module TCPSenderStateSummary.
Definition ERROR : string := "error (connection was reset)".
Definition CLOSED : string := "waiting for stream to begin (no SYN sent)".
Definition SYN_SENT : string := "stream started but nothing acknowledged".
Definition SYN_ACKED : string := "stream ongoing".
Definition FIN_SENT : string := "stream finished (FIN sent) but not fully acknowledged".
Definition FIN_ACKED : string := "stream finished and fully acknowledged".
End TCPSenderStateSummary.

Module R := TCPReceiverStateSummary.
Module S := TCPSenderStateSummary.

Inductive State :=
| LISTEN | SYN_RCVD | SYN_SENT | ESTABLISHED | CLOSE_WAIT | LAST_ACK
| FIN_WAIT_1 | FIN_WAIT_2 | CLOSING | TIME_WAIT | CLOSED | RESET.

#[export] Instance State_eq_dec : EqDecision State.
Proof. solve_decision. Defined.

Record TCPState := {
  _sender : string;
  _receiver : string;
  _active : bool;
  _linger_after_streams_finish : bool
}.

(** ** Operations *)

Definition eqb_TCPState (a b : TCPState) : bool :=
  Bool.eqb (_active a) (_active b) &&
  Bool.eqb (_linger_after_streams_finish a) (_linger_after_streams_finish b) &&
  String.eqb (_sender a) (_sender b) && String.eqb (_receiver a) (_receiver b).
Definition neqb_TCPState (a b : TCPState) : bool := negb (eqb_TCPState a b).

(** [std::to_string] on a [bool]. *)
Definition to_string (b : bool) : string := if b then "1" else "0".

Definition name (t : TCPState) : string :=
  "sender=`" +:+ _sender t +:+ "`, receiver=`" +:+ _receiver t +:+ "`, active="
  +:+ to_string (_active t) +:+ ", linger_after_streams_finish="
  +:+ to_string (_linger_after_streams_finish t).

(** The constructor from an official name; unset members keep their defaults. *)
Definition of_State (st : State) : TCPState :=
  let mk r s l a :=
    {| _sender := s; _receiver := r; _active := a; _linger_after_streams_finish := l |} in
  match st with
  | LISTEN => mk R.LISTEN S.CLOSED true true
  | SYN_RCVD => mk R.SYN_RECV S.SYN_SENT true true
  | SYN_SENT => mk R.LISTEN S.SYN_SENT true true
  | ESTABLISHED => mk R.SYN_RECV S.SYN_ACKED true true
  | CLOSE_WAIT => mk R.FIN_RECV S.SYN_ACKED false true
  | LAST_ACK => mk R.FIN_RECV S.FIN_SENT false true
  | CLOSING => mk R.FIN_RECV S.FIN_SENT true true
  | FIN_WAIT_1 => mk R.SYN_RECV S.FIN_SENT true true
  | FIN_WAIT_2 => mk R.SYN_RECV S.FIN_ACKED true true
  | TIME_WAIT => mk R.FIN_RECV S.FIN_ACKED true true
  | RESET => mk R.ERROR S.ERROR false false
  | CLOSED => mk R.FIN_RECV S.FIN_ACKED false false
  end.

Definition receiver_summary (r : TCPReceiver) : string :=
  if ByteStream.error (TCPReceiver.stream_out r) then R.ERROR
  else match TCPReceiver.ackno r with
       | None => R.LISTEN
       | Some _ => if ByteStream.input_ended (TCPReceiver.stream_out r) then R.FIN_RECV
                   else R.SYN_RECV
       end.

Definition sender_summary (s : TCPSender) : string :=
  if ByteStream.error (stream_in s) then S.ERROR
  else if next_seqno_absolute s =? 0 then S.CLOSED
  else if next_seqno_absolute s =? bytes_in_flight s then S.SYN_SENT
  else if negb (ByteStream.eof (stream_in s)) then S.SYN_ACKED
  else if next_seqno_absolute s <? u64 (ByteStream.bytes_written (stream_in s) + 2) then S.SYN_ACKED
  else if negb (bytes_in_flight s =? 0) then S.FIN_SENT
  else S.FIN_ACKED.

Definition new_TCPState (s : TCPSender) (r : TCPReceiver) (active linger : bool) : TCPState :=
  {| _sender := sender_summary s; _receiver := receiver_summary r; _active := active;
     _linger_after_streams_finish := if active then linger else false |}.

(** ** Properties *)

Lemma eqb_TCPState_eq a b : eqb_TCPState a b = true <-> a = b.
Proof.
  unfold eqb_TCPState. rewrite !andb_true_iff, !Bool.eqb_true_iff, !String.eqb_eq.
  destruct a, b. simpl. split; [by intros [[[-> ->] ->] ->]|by intros [= -> -> -> ->]].
Qed.

(** No two official TCP states have the same summary, so comparing summaries
    with [operator==] tells all twelve apart. *)
Theorem official_states_distinct a b : eqb_TCPState (of_State a) (of_State b) = bool_decide (a = b).
Proof. destruct a, b; reflexivity. Qed.

(** Bytes written to the outbound stream, without wrap-around. *)
Lemma sender_written s :
  TCPSender.wf s ->
  0 <= ByteStream.bytes_read (stream_in s) /\
  ByteStream.bytes_written (stream_in s) =
    ByteStream.bytes_read (stream_in s) + ByteStream.buffer_size (stream_in s) /\
  ByteStream.bytes_written (stream_in s) < 2 ^ 62.
Proof.
  intros Hwf. pose proof (wf_bound s Hwf). destruct (wf_stream s Hwf) as [_ _ Hto Htin].
  unfold stream_in, ByteStream.bytes_written, ByteStream.bytes_read, ByteStream.buffer_size in *.
  pose proof (zlen_nonneg (ByteStream._buff (TCPSender._stream s))).
  rewrite u64_small in Htin by lia. lia.
Qed.

(** A sender has sent its SYN when its next sequence number is not zero. *)
Lemma next_zero s : TCPSender.wf s -> (next_seqno_absolute s =? 0) = negb (TCPSender._syn s).
Proof.
  intros Hwf. pose proof (wf_next s Hwf) as Hn. pose proof (wf_syn s Hwf) as Hs.
  pose proof (sender_written s Hwf) as (H0 & _). unfold next_seqno_absolute, stream_in, b1 in *.
  destruct (TCPSender._syn s), (TCPSender._fin s); simpl.
  1,2: apply Z.eqb_neq; lia.
  - by destruct (Hs eq_refl).
  - apply Z.eqb_eq. destruct (Hs eq_refl). lia.
Qed.

(** The summary in terms of the flags. *)
Lemma sender_summary_eq s :
  TCPSender.wf s ->
  sender_summary s =
    if ByteStream.error (stream_in s) then S.ERROR
    else if negb (TCPSender._syn s) then S.CLOSED
    else if next_seqno_absolute s =? bytes_in_flight s then S.SYN_SENT
    else if negb (TCPSender._fin s) then S.SYN_ACKED
    else if bytes_in_flight s =? 0 then S.FIN_ACKED else S.FIN_SENT.
Proof.
  intros Hwf. unfold sender_summary. rewrite next_zero by done.
  destruct (ByteStream.error _); [done|]. destruct (TCPSender._syn s) eqn:Es; [|done]. cbn [negb].
  destruct (_ =? bytes_in_flight s); [done|].
  pose proof (wf_next s Hwf) as Hn. pose proof (wf_fin s Hwf) as Hfin.
  pose proof (sender_written s Hwf) as (H0 & Hw & Hb).
  unfold stream_in, next_seqno_absolute, ByteStream.buffer_size in *. rewrite Es in Hn.
  pose proof (zlen_nonneg (ByteStream._buff (TCPSender._stream s))). rewrite u64_small by lia.
  destruct (TCPSender._fin s) eqn:Ef; cbn [b1 negb] in *.
  - specialize (Hfin eq_refl). rewrite Hfin. apply eof_iff in Hfin as [_ Hn0].
    rewrite Hn0 in Hw. autorewrite with zlen in Hw. rewrite (proj2 (Z.ltb_ge _ _)) by lia.
    by destruct (bytes_in_flight s =? 0).
  - destruct (ByteStream.eof _); [|done]. cbn [negb]. by rewrite (proj2 (Z.ltb_lt _ _)) by lia.
Qed.

(** What the sender summary means. On a sender that satisfies its invariant
    the summary, computed from counters, tells whether the SYN is out, whether
    anything has been acknowledged, whether the FIN is out and whether it has
    been acknowledged. *)
Theorem sender_summary_correct s :
  TCPSender.wf s ->
  sender_summary s =
    if ByteStream.error (stream_in s) then S.ERROR
    else if negb (TCPSender._syn s) then S.CLOSED
    else if next_seqno_absolute s =? bytes_in_flight s then S.SYN_SENT
    else if negb (TCPSender._fin s) then S.SYN_ACKED
    else if bytes_in_flight s =? 0 then S.FIN_ACKED else S.FIN_SENT.
Proof. apply sender_summary_eq. Qed.

Lemma sender_summary_correct_witness :
  sender_summary (fill_window (new_TCPSender 10 1000 (Some (wrapping_int32 5)) 0)) = S.SYN_SENT.
Proof.
  rewrite (sender_summary_correct (fill_window (new_TCPSender 10 1000 (Some (wrapping_int32 5)) 0))).
  - vm_compute. reflexivity.
  - apply fill_window_wf, snd_wf_new; [lia|lia|]. intros i [= <-]. apply wi_wf_wrapping_int32.
Defined.
