(* ===== verification/TCPConnection.v ===== *)
(** * A TCP connection

    Models class [TCPConnection] of [src/libsponge/tcp_connection.hh] and [.cc]:
    one endpoint, made of a sender and a receiver, the queue of segments for
    the network, and the flags that decide when it is over. The counter-based
    case distinction of [segment_received] is kept as it is written. *)

From S2P Require Import Prelude WrappingIntegers ByteStream StreamReassembler ReassemblerProps Buffer TCPHeader TCPSegment TCPReceiver TCPSender TCPState.

(** ** State *)

Record TCPConnection := {
  _time_since_last_segment_received : Z;
  _active : bool;
  _cfg : TCPConfig;
  _receiver : TCPReceiver;
  _sender : TCPSender;
  _segments_out : list TCPSegment;
  _linger_after_streams_finish : bool
}.

(** The constructor; [random] is drawn by the sender when no number is fixed. *)
Definition new_TCPConnection (cfg : TCPConfig) (random : Z) : TCPConnection :=
  {| _time_since_last_segment_received := 0; _active := true; _cfg := cfg;
     _receiver := new_TCPReceiver (recv_capacity cfg);
     _sender := new_TCPSender (send_capacity cfg) (rt_timeout cfg) (fixed_isn cfg) random;
     _segments_out := []; _linger_after_streams_finish := true |}.

Definition set_time (c : TCPConnection) (t : Z) : TCPConnection :=
  {| _time_since_last_segment_received := t; _active := _active c; _cfg := _cfg c;
     _receiver := _receiver c; _sender := _sender c; _segments_out := _segments_out c;
     _linger_after_streams_finish := _linger_after_streams_finish c |}.
Definition set_inactive (c : TCPConnection) : TCPConnection :=
  {| _time_since_last_segment_received := _time_since_last_segment_received c; _active := false;
     _cfg := _cfg c; _receiver := _receiver c; _sender := _sender c;
     _segments_out := _segments_out c;
     _linger_after_streams_finish := _linger_after_streams_finish c |}.
Definition set_receiver (c : TCPConnection) (r : TCPReceiver) : TCPConnection :=
  {| _time_since_last_segment_received := _time_since_last_segment_received c;
     _active := _active c; _cfg := _cfg c; _receiver := r; _sender := _sender c;
     _segments_out := _segments_out c;
     _linger_after_streams_finish := _linger_after_streams_finish c |}.
Definition set_sender (c : TCPConnection) (s : TCPSender) : TCPConnection :=
  {| _time_since_last_segment_received := _time_since_last_segment_received c;
     _active := _active c; _cfg := _cfg c; _receiver := _receiver c; _sender := s;
     _segments_out := _segments_out c;
     _linger_after_streams_finish := _linger_after_streams_finish c |}.
Definition set_segments_out (c : TCPConnection) (q : list TCPSegment) : TCPConnection :=
  {| _time_since_last_segment_received := _time_since_last_segment_received c;
     _active := _active c; _cfg := _cfg c; _receiver := _receiver c; _sender := _sender c;
     _segments_out := q;
     _linger_after_streams_finish := _linger_after_streams_finish c |}.
Definition clear_linger (c : TCPConnection) : TCPConnection :=
  {| _time_since_last_segment_received := _time_since_last_segment_received c;
     _active := _active c; _cfg := _cfg c; _receiver := _receiver c; _sender := _sender c;
     _segments_out := _segments_out c; _linger_after_streams_finish := false |}.

(** ** Accessors *)

Definition remaining_outbound_capacity (c : TCPConnection) : Z :=
  ByteStream.remaining_capacity (stream_in (_sender c)).
Definition bytes_in_flight (c : TCPConnection) : Z := TCPSender.bytes_in_flight (_sender c).
Definition unassembled_bytes (c : TCPConnection) : Z := TCPReceiver.unassembled_bytes (_receiver c).
Definition time_since_last_segment_received (c : TCPConnection) : Z :=
  _time_since_last_segment_received c.
Definition active (c : TCPConnection) : bool := _active c.
Definition segments_out (c : TCPConnection) : list TCPSegment := _segments_out c.
Definition inbound_stream (c : TCPConnection) : ByteStream := TCPReceiver.stream_out (_receiver c).
Definition state (c : TCPConnection) : TCPState :=
  new_TCPState (_sender c) (_receiver c) (active c) (_linger_after_streams_finish c).

(** A change made through the reference [inbound_stream()]. *)
Definition on_inbound_stream (f : ByteStream -> ByteStream) (c : TCPConnection) : TCPConnection :=
  set_receiver c (on_stream_out f (_receiver c)).

(** ** Operations *)

(** What [send_segments] writes into a header once the peer's SYN is known;
    [win] is a 16-bit field. *)
Definition stamp (r : TCPReceiver) (seg : TCPSegment) : TCPSegment :=
  match TCPReceiver.ackno r with
  | Some n => {| _header := set_ack (header seg) n (u16 (TCPReceiver.window_size r));
                 _payload := payload seg |}
  | None => seg
  end.

Definition send_segments (c : TCPConnection) : TCPConnection :=
  let out := map (stamp (_receiver c)) (TCPSender.segments_out (_sender c)) in
  let c := set_sender (set_segments_out c (_segments_out c ++ out))
             (clear_segments_out (_sender c)) in
  if ByteStream.input_ended (TCPReceiver.stream_out (_receiver c)) then
    if negb (ByteStream.eof (stream_in (_sender c))) then clear_linger c
    else if TCPSender.bytes_in_flight (_sender c) =? 0 then
      if negb (_linger_after_streams_finish c)
         || (10 * rt_timeout (_cfg c) <=? _time_since_last_segment_received c)
      then set_inactive c else c
    else c
  else c.

Definition reset_connection (c : TCPConnection) : TCPConnection :=
  let seg := {| _header := set_rst default_TCPHeader; _payload := empty_Buffer |} in
  let c := set_receiver c (on_stream_out ByteStream.set_error (_receiver c)) in
  let c := set_sender c (on_stream_in ByteStream.set_error (_sender c)) in
  let c := set_inactive c in
  set_segments_out c (_segments_out c ++ [seg]).

Definition connect (c : TCPConnection) : TCPConnection :=
  send_segments (set_sender c (fill_window (_sender c))).

(** The three calls that recur in [segment_received]. *)
Definition on_sender (f : TCPSender -> TCPSender) (c : TCPConnection) : TCPConnection :=
  set_sender c (f (_sender c)).
Definition sender_ack (seg : TCPSegment) : TCPConnection -> TCPConnection :=
  on_sender (fun s => ack_received s (TCPHeader.ackno (header seg)) (win (header seg))).
Definition receiver_segment (seg : TCPSegment) (c : TCPConnection) : result TCPConnection :=
  r ← TCPReceiver.segment_received (_receiver c) seg; Ok (set_receiver c r).

(** [ackno().has_value()]. *)
Definition has_ackno (r : TCPReceiver) : bool :=
  match TCPReceiver.ackno r with Some _ => true | None => false end.

Definition segment_received (c : TCPConnection) (seg : TCPSegment) : result TCPConnection :=
  let h := header seg in
  if negb (_active c) then Ok c
  else
  let c := set_time c 0 in
  let next := next_seqno_absolute (_sender c) in
  let flight := TCPSender.bytes_in_flight (_sender c) in
  let out := stream_in (_sender c) in
  let has_ackno := has_ackno (_receiver c) in
  let in_ended := ByteStream.input_ended (TCPReceiver.stream_out (_receiver c)) in
  let fin_sent := ByteStream.eof out && (next =? u64 (ByteStream.bytes_written out + 2)) in
  if rst h then
    Ok (set_inactive
          (set_receiver (on_sender (on_stream_in ByteStream.set_error) c)
             (on_stream_out ByteStream.set_error (_receiver c))))
  else if next =? 0 then
    if syn h then c ← receiver_segment seg c; Ok (connect c) else Ok c
  else if (next =? flight) && negb has_ackno then
    if syn h && ack h then
      c ← receiver_segment seg (sender_ack seg c);
      Ok (send_segments (on_sender send_empty_segment c))
    else if syn h && negb (ack h) then
      c ← receiver_segment seg c;
      Ok (send_segments (on_sender send_empty_segment c))
    else Ok c
  else if (next =? flight) && has_ackno && negb in_ended then
    receiver_segment seg (sender_ack seg c)
  else if (flight <? next) && negb (ByteStream.eof out) then
    c ← receiver_segment seg (sender_ack seg c);
    let c := if 0 <? length_in_sequence_space seg then on_sender send_empty_segment c else c in
    Ok (send_segments (on_sender fill_window c))
  else if fin_sent && (0 <? flight) && negb in_ended then
    if fin h then
      c ← receiver_segment seg (sender_ack seg c);
      Ok (send_segments (on_sender send_empty_segment c))
    else if ack h then
      c ← receiver_segment seg (sender_ack seg c);
      Ok (send_segments c)
    else Ok c
  else if fin_sent && (flight =? 0) && negb in_ended then
    c ← receiver_segment seg (sender_ack seg c);
    Ok (send_segments (on_sender send_empty_segment c))
  else if fin_sent && (flight =? 0) && in_ended then
    if fin h then
      c ← receiver_segment seg (sender_ack seg c);
      Ok (send_segments (on_sender send_empty_segment c))
    else Ok c
  else
    c ← receiver_segment seg (sender_ack seg c);
    Ok (send_segments (on_sender fill_window c)).

Definition write (c : TCPConnection) (data : list byte) : Z * TCPConnection :=
  match data with
  | [] => (0, c)
  | _ =>
      let '(writeByte, st) := ByteStream.write (stream_in (_sender c)) data in
      let c := on_sender (on_stream_in (fun _ => st)) c in
      (writeByte, send_segments (on_sender fill_window c))
  end.

Definition tick (c : TCPConnection) (ms_since_last_tick : Z) : TCPConnection :=
  if negb (_active c) then c
  else
    let c := set_time c (u64 (_time_since_last_segment_received c + ms_since_last_tick)) in
    let c := on_sender (fun s => TCPSender.tick s ms_since_last_tick) c in
    if MAX_RETX_ATTEMPTS <? consecutive_retransmissions (_sender c) then reset_connection c
    else send_segments c.

Definition end_input_stream (c : TCPConnection) : TCPConnection :=
  send_segments (on_sender fill_window (on_sender (on_stream_in ByteStream.end_input) c)).

(** ** Well-formedness *)

(** A segment as it comes off the wire: fields at their widths. *)
Definition wire_ok (seg : TCPSegment) : Prop :=
  seg_ok seg /\ 0 <= win (header seg) < 2 ^ 16.

Record wf (c : TCPConnection) : Prop := {
  wf_receiver : TCPReceiver.wf (_receiver c);
  wf_sender : TCPSender.wf (_sender c);
  wf_time : 0 <= _time_since_last_segment_received c < 2 ^ 64
}.

Definition cfg_ok (cfg : TCPConfig) : Prop :=
  0 <= rt_timeout cfg < 2 ^ 16 /\ 0 <= recv_capacity cfg < 2 ^ 31 /\
  0 <= send_capacity cfg < 2 ^ 64 /\ (forall i, fixed_isn cfg = Some i -> wi_wf i).

Lemma conn_wf_new cfg rnd : cfg_ok cfg -> wf (new_TCPConnection cfg rnd).
Proof.
  intros (H1 & H2 & H3 & H4). constructor; simpl; [by apply recv_wf_new|by apply snd_wf_new|lia].
Qed.

(** Setting the error flag of the inbound stream. *)
Lemma recv_error_wf r : TCPReceiver.wf r -> TCPReceiver.wf (on_stream_out ByteStream.set_error r).
Proof.
  intros [[] ? ? ?]. constructor; try done. constructor; try done. by apply ByteStream.wf_set_error.
Qed.

Lemma set_time_wf c t : wf c -> 0 <= t < 2 ^ 64 -> wf (set_time c t).
Proof. by intros [] ?; constructor. Qed.
Lemma set_inactive_wf c : wf c -> wf (set_inactive c).
Proof. by intros []; constructor. Qed.
Lemma on_sender_wf f c : wf c -> TCPSender.wf (f (_sender c)) -> wf (on_sender f c).
Proof. by intros [] ?; constructor. Qed.
Lemma set_receiver_wf c r : wf c -> TCPReceiver.wf r -> wf (set_receiver c r).
Proof. by intros [] ?; constructor. Qed.

Lemma send_segments_parts c :
  _receiver (send_segments c) = _receiver c /\
  _sender (send_segments c) = clear_segments_out (_sender c) /\
  _segments_out (send_segments c) =
    _segments_out c ++ map (stamp (_receiver c)) (TCPSender.segments_out (_sender c)) /\
  _time_since_last_segment_received (send_segments c) = _time_since_last_segment_received c /\
  _cfg (send_segments c) = _cfg c.
Proof.
  unfold send_segments. repeat match goal with |- context [if ?b then _ else _] => destruct b end; done.
Qed.

Lemma send_segments_wf c : wf c -> wf (send_segments c).
Proof.
  intros []. destruct (send_segments_parts c) as (E1 & E2 & _ & E4 & _).
  constructor; rewrite ?E1, ?E2, ?E4; auto with sponge.
Qed.
#[export] Hint Resolve set_time_wf set_inactive_wf on_sender_wf set_receiver_wf send_segments_wf
  recv_error_wf conn_wf_new wf_receiver wf_sender : sponge.

Lemma connect_wf c : wf c -> wf (connect c).
Proof. intros H. apply send_segments_wf, (on_sender_wf fill_window); auto with sponge. Qed.

Lemma sender_ack_wf seg c : wire_ok seg -> wf c -> wf (sender_ack seg c).
Proof. intros [_ Hw] H. apply on_sender_wf; auto with sponge. Qed.

Lemma receiver_segment_wf seg c :
  wire_ok seg -> wf c -> exists c', receiver_segment seg c = Ok c' /\ wf c'.
Proof.
  intros [Hs _] H. unfold receiver_segment.
  destruct (segment_received_wf (_receiver c) seg) as (r & -> & Hr & _); [apply H|done|].
  eexists. split; [done|]. by apply set_receiver_wf.
Qed.

(** Continuations after the receiver has taken the segment. *)
Lemma then_wf seg c k :
  wire_ok seg -> wf c -> (forall c, wf c -> wf (k c)) ->
  exists c', (c ← receiver_segment seg c; Ok (k c)) = Ok c' /\ wf c'.
Proof.
  intros Hs Hc Hk. destruct (receiver_segment_wf seg c Hs Hc) as (c1 & -> & H1). eexists. by split; [done|auto].
Qed.

Lemma segment_received_conn_wf c seg :
  wf c -> wire_ok seg -> exists c', segment_received c seg = Ok c' /\ wf c'.
Proof.
  intros Hwf Hs. unfold segment_received. destruct (_active c); [|by exists c]. cbn [negb].
  assert (Ht : wf (set_time c 0)) by (apply set_time_wf; [done|lia]).
  revert Ht. generalize (set_time c 0). clear Hwf. intros c1 Hwf. cbn zeta.
  assert (Ha := sender_ack_wf seg c1 Hs Hwf).
  assert (Hse : forall c, wf c -> wf (send_segments (on_sender send_empty_segment c)))
    by auto 6 with sponge.
  assert (Hfi : forall c, wf c -> wf (send_segments (on_sender fill_window c)))
    by auto 6 with sponge.
  repeat match goal with |- context [if ?b then _ else _] =>
    lazymatch b with 0 <? length_in_sequence_space _ => fail | _ => destruct b end end;
    try (eexists; split; [reflexivity|]; done);
    try (apply then_wf; auto using connect_wf with sponge; done).
  - eexists. split; [done|]. apply set_inactive_wf, set_receiver_wf; auto with sponge.
  - by apply receiver_segment_wf.
  - apply (then_wf seg _ (fun c0 => send_segments (on_sender fill_window
      (if 0 <? length_in_sequence_space seg then on_sender send_empty_segment c0 else c0))));
      [done|done|]. intros c0 H0. destruct (0 <? _); auto 6 with sponge.
Qed.

Lemma conn_tick_wf c ms : wf c -> wf (tick c ms).
Proof.
  intros H. unfold tick. destruct (negb (_active c)); [done|].
  set (c1 := on_sender _ _). assert (wf c1).
  { apply on_sender_wf; [apply set_time_wf; [done|apply u64_range]|]. simpl. auto with sponge. }
  destruct (_ <? _); [|auto with sponge]. unfold reset_connection. destruct H0.
  constructor; simpl; auto with sponge.
Qed.

Lemma end_input_stream_wf c : wf c -> wf (end_input_stream c).
Proof. intros H. unfold end_input_stream. auto 8 with sponge. Qed.

(** ** Closure

    What a predicate of connections must survive to be kept by
    [segment_received] on [seg]: the calls it is made of, one by one. *)
Record closed_under (seg : TCPSegment) (I : TCPConnection -> Prop) : Prop := {
  closed_time c : I c -> I (set_time c 0);
  closed_reset c :
    rst (header seg) = true -> I c ->
    I (set_inactive (set_receiver (on_sender (on_stream_in ByteStream.set_error) c)
         (on_stream_out ByteStream.set_error (_receiver c))));
  closed_ack c : rst (header seg) = false -> I c -> I (sender_ack seg c);
  closed_receive c c' :
    rst (header seg) = false -> I c -> receiver_segment seg c = Ok c' -> I c';
  closed_fill c : I c -> I (on_sender fill_window c);
  closed_empty c : I c -> I (on_sender send_empty_segment c);
  closed_send c : I c -> I (send_segments c)
}.

Lemma segment_received_closed I seg c c' :
  closed_under seg I -> segment_received c seg = Ok c' -> I c -> I c'.
Proof.
  intros [Ht Hr Ha Hv Hf He Hs] E Hc. revert E. unfold segment_received.
  destruct (negb (_active c)); [by intros [= <-]|]. apply Ht in Hc. revert Hc.
  generalize (set_time c 0). clear c Ht. intros c Hc. cbn zeta.
  destruct (rst (header seg)); [intros [= <-]; by apply Hr|].
  assert (Hthen : forall c k, I c -> (forall c, I c -> I (k c)) ->
    (c ← receiver_segment seg c; Ok (k c)) = Ok c' -> I c').
  { intros c0 k H0 Hk. destruct (receiver_segment seg c0) eqn:E; [|done]. intros [= <-]. eauto. }
  assert (Hc' : I (sender_ack seg c)) by auto.
  repeat match goal with |- context [if ?b then _ else _] =>
    lazymatch b with 0 <? length_in_sequence_space _ => fail | _ => destruct b end end;
    try (intros [= <-]; done); try (apply Hthen; [done|]; unfold connect; eauto; done).
  - by eauto.
  - apply (Hthen _ (fun c0 => send_segments (on_sender fill_window
      (if 0 <? length_in_sequence_space seg then on_sender send_empty_segment c0 else c0))));
      [done|]. intros c0 H0. destruct (0 <? _); auto.
Qed.

(** ** The opening of a connection *)

(** The sender after its SYN, and after the SYN has been acknowledged. *)
Definition syn_sent_sender (cap rt : Z) (isn : WrappingInt32) (out : list TCPSegment) : TCPSender :=
  {| TCPSender._isn := isn; TCPSender._segments_out := out;
     _initial_retransmission_timeout := rt; _stream := new_ByteStream cap; _next_seqno := 1;
     _retransmission_timeout := rt; _retransmission_timecount := 0;
     _consecutive_retransmissions := 0; _segments_outgoing := [(0, segment_of_syn isn)];
     _outgoing_bytes := 1; TCPSender._syn := true; TCPSender._fin := false; _win_size := 1 |}.

Definition syn_acked_sender (cap rt : Z) (isn : WrappingInt32) (w : Z) (out : list TCPSegment)
    : TCPSender :=
  {| TCPSender._isn := isn; TCPSender._segments_out := out;
     _initial_retransmission_timeout := rt; _stream := new_ByteStream cap; _next_seqno := 1;
     _retransmission_timeout := rt; _retransmission_timecount := 0;
     _consecutive_retransmissions := 0; _segments_outgoing := [];
     _outgoing_bytes := 0; TCPSender._syn := true; TCPSender._fin := false; _win_size := w |}.

Definition chosen_isn (cfg : TCPConfig) (rnd : Z) : WrappingInt32 :=
  default (wrapping_int32 rnd) (fixed_isn cfg).

Lemma chosen_isn_wf cfg rnd : cfg_ok cfg -> wi_wf (chosen_isn cfg rnd).
Proof.
  intros (_ & _ & _ & Hi). unfold chosen_isn. destruct (fixed_isn cfg); [by apply Hi|].
  apply wi_wf_wrapping_int32.
Qed.

Lemma fill_window_new cap rt isn rnd :
  fill_window (new_TCPSender cap rt isn rnd) =
  syn_sent_sender cap rt (default (wrapping_int32 rnd) isn)
    [segment_of_syn (default (wrapping_int32 rnd) isn)].
Proof. by destruct isn. Qed.

Lemma syn_acked_sender_wf cap rt isn w out :
  0 <= cap < 2 ^ 64 -> 0 <= rt < 2 ^ 16 -> wi_wf isn -> 0 <= w < 2 ^ 16 ->
  TCPSender.wf (syn_acked_sender cap rt isn w out).
Proof. intros. constructor; cbn; try done; try lia. by apply bs_wf_new. Qed.

(** The acknowledgment of the SYN. *)
Lemma ack_of_syn cap rt isn w out :
  0 <= cap < 2 ^ 64 -> 0 <= rt < 2 ^ 16 -> wi_wf isn -> 0 <= w < 2 ^ 16 ->
  ack_received (syn_sent_sender cap rt isn out) (wrap 1 isn) w = syn_acked_sender cap rt isn w out.
Proof.
  intros Hc Hr Hi Hw. unfold ack_received. cbn [TCPSender._isn _next_seqno syn_sent_sender].
  rewrite unwrap_wrap_lem by (done || lia).
  change (fill_window (syn_acked_sender cap rt isn w out) = syn_acked_sender cap rt isn w out).
  apply fill_window_filled; [by apply syn_acked_sender_wf|]. right. by split_and!.
Qed.

(** The receiver after a SYN without data. *)
Definition syn_received (cap : Z) (isn : WrappingInt32) : TCPReceiver :=
  {| _reassembler := new_StreamReassembler cap; TCPReceiver._capacity := cap;
     TCPReceiver._isn := raw_value isn; _checkpoint := 0; TCPReceiver._syn := true;
     TCPReceiver._fin := false |}.

Lemma receive_syn cap isn seg :
  wi_wf isn -> TCPHeader.seqno (header seg) = wrap 0 isn -> syn (header seg) = true ->
  fin (header seg) = false -> str (payload seg) = [] ->
  TCPReceiver.segment_received (new_TCPReceiver cap) seg = Ok (syn_received cap isn).
Proof.
  intros Hi Hn Hs Hf Hp. unfold TCPReceiver.segment_received, copy. rewrite Hs, Hf, Hp, Hn.
  cbn [negb andb TCPReceiver._syn new_TCPReceiver]. rewrite raw_wrap, Z.add_0_l, Z.mod_small by apply Hi.
  done.
Qed.

(** An empty segment without SYN or FIN changes a receiver that has not ended
    only if the end of the stream has been reached. *)
Lemma receive_empty r seg :
  TCPReceiver._syn r = true -> syn (header seg) = false -> fin (header seg) = false ->
  str (payload seg) = [] ->
  ByteStream.bytes_written (TCPReceiver.stream_out r) <> _posEOF (_reassembler r) ->
  TCPReceiver.segment_received r seg = Ok r.
Proof.
  intros Hs Hns Hf Hp Hne. unfold TCPReceiver.segment_received, copy, push_substring.
  rewrite Hs, Hns, Hf, Hp. cbn [negb andb]. rewrite (@zlen_nil byte). cbn [Z.eqb mbind result_bind].
  unfold check_end. cbn [_output _posEOF _reassembler].
  change (_output (_reassembler r)) with (TCPReceiver.stream_out r). rewrite (proj2 (Z.eqb_neq _ _) Hne).
  cbn [mbind result_bind]. unfold set_reassembler. simpl. rewrite <- Hs. by destruct r as [[] ? ? ? ? ?].
Qed.

Lemma syn_received_ackno cap isn :
  wi_wf isn -> TCPReceiver.ackno (syn_received cap isn) = Some (wrap 1 isn).
Proof.
  intros Hi. unfold TCPReceiver.ackno. simpl. do 2 f_equal. apply wrapping_eq. simpl. by apply u32_small.
Qed.

(** A connection during the handshake. *)
Definition opening (cfg : TCPConfig) (r : TCPReceiver) (s : TCPSender) (out : list TCPSegment)
    : TCPConnection :=
  {| _time_since_last_segment_received := 0; _active := true; _cfg := cfg; _receiver := r;
     _sender := s; _segments_out := out; _linger_after_streams_finish := true |}.

Lemma send_segments_opening cfg r s out :
  ByteStream.input_ended (TCPReceiver.stream_out r) = false ->
  send_segments (opening cfg r s out) =
  opening cfg r (clear_segments_out s) (out ++ map (stamp r) (TCPSender.segments_out s)).
Proof. intros H. unfold send_segments. simpl. by rewrite H. Qed.

Section handshake.
Context (cfg : TCPConfig) (rnd : Z) (Hcfg : cfg_ok cfg).
Context (peer : WrappingInt32) (Hpeer : wi_wf peer).

Abbreviation isn := (chosen_isn cfg rnd).
Abbreviation cap := (send_capacity cfg).
Abbreviation rt := (rt_timeout cfg).
Abbreviation rcap := (recv_capacity cfg).

Lemma connect_new :
  connect (new_TCPConnection cfg rnd) =
  opening cfg (new_TCPReceiver rcap) (syn_sent_sender cap rt isn []) [segment_of_syn isn].
Proof. unfold connect. cbn [_sender new_TCPConnection]. rewrite fill_window_new. done. Qed.

(** A listening endpoint answers a SYN with its own SYN and an acknowledgment. *)
Lemma server_syn :
  segment_received (new_TCPConnection cfg rnd) (segment_of_syn peer) =
  Ok (opening cfg (syn_received rcap peer) (syn_sent_sender cap rt isn [])
        [stamp (syn_received rcap peer) (segment_of_syn isn)]).
Proof.
  transitivity (c ← receiver_segment (segment_of_syn peer) (new_TCPConnection cfg rnd);
                Ok (connect c)); [done|].
  unfold receiver_segment. cbn [_receiver new_TCPConnection].
  rewrite (receive_syn rcap peer) by done. cbn [mbind result_bind]. unfold connect.
  cbn [_sender set_receiver new_TCPConnection]. rewrite fill_window_new. done.
Qed.

(** The client takes the answer and acknowledges it. *)
Lemma client_synack seg w :
  header seg = set_ack (set_seqno (set_syn default_TCPHeader) (wrap 0 peer)) (wrap 1 isn) w ->
  str (payload seg) = [] -> 0 <= w < 2 ^ 16 ->
  let r := syn_received rcap peer in
  let reply := {| _header := set_seqno default_TCPHeader (wrap 1 isn); _payload := empty_Buffer |} in
  segment_received (connect (new_TCPConnection cfg rnd)) seg =
  Ok (opening cfg r (syn_acked_sender cap rt isn w []) [segment_of_syn isn; stamp r reply]).
Proof.
  intros Hh Hp Hw r reply. pose proof Hcfg as (Hrt & _ & Hcap & _).
  rewrite connect_new. unfold segment_received, receiver_segment.
  rewrite !Hh. cbn -[TCPReceiver.segment_received send_segments ack_received wrap].
  unfold sender_ack, on_sender. cbn -[TCPReceiver.segment_received send_segments ack_received wrap].
  rewrite (receive_syn rcap peer) by (rewrite ?Hh; done). rewrite Hh. cbn [mbind result_bind].
  cbn -[send_segments ack_received wrap]. rewrite ack_of_syn by (done || by apply chosen_isn_wf).
  reflexivity.
Qed.

(** The server takes the acknowledgment of its SYN. *)
Lemma server_ack seg out w :
  header seg = set_ack (set_seqno default_TCPHeader (wrap 1 peer)) (wrap 1 isn) w ->
  str (payload seg) = [] -> 0 <= w < 2 ^ 16 ->
  let r := syn_received rcap peer in
  segment_received (opening cfg r (syn_sent_sender cap rt isn []) out) seg =
  Ok (opening cfg r (syn_acked_sender cap rt isn w []) out).
Proof.
  intros Hh Hp Hw r. pose proof Hcfg as (Hrt & _ & Hcap & _).
  transitivity (receiver_segment seg (sender_ack seg
    (opening cfg r (syn_sent_sender cap rt isn []) out))).
  { unfold segment_received. by rewrite !Hh. }
  unfold receiver_segment, sender_ack, on_sender. cbn [_receiver _sender opening set_sender].
  unfold r. rewrite (receive_empty (syn_received rcap peer)) by (rewrite ?Hh; done).
  rewrite Hh. cbn [mbind result_bind TCPHeader.ackno win set_ack].
  by rewrite ack_of_syn by (done || by apply chosen_isn_wf).
Qed.

End handshake.

(** ** The close of a connection *)

(** Once the input of the inbound stream has ended it stays ended, and a
    segment does not change the error flag. *)
Lemma push_keeps_flags a data index eof a' :
  push_substring a data index eof = Ok a' ->
  (ByteStream.input_ended (_output a) = true -> ByteStream.input_ended (_output a') = true) /\
  ByteStream.error (_output a') = ByteStream.error (_output a).
Proof.
  assert (Hce : forall x o, _output x = o -> (ByteStream.input_ended o = true ->
      ByteStream.input_ended (_output (check_end x)) = true) /\
      ByteStream.error (_output (check_end x)) = ByteStream.error o).
  { intros x o <-. unfold check_end. by destruct (_ =? _). }
  unfold push_substring. cbn zeta. destruct (_ =? 0); [intros [= <-]; by apply Hce|].
  destruct (_ || _); [by intros [= <-]|].
  destruct (substr _ _ _) as [ns|]; cbn [mbind result_bind]; [|done].
  destruct (push_unassembledString _ _ _) as [[n l1]|]; cbn [mbind result_bind]; [|done].
  destruct (pop_unassembledString _ _) as [t l2]. intros [= <-].
  by apply (Hce _ (snd (ByteStream.write (_output a) t))).
Qed.

Lemma receiver_keeps_flags r seg r' :
  TCPReceiver.segment_received r seg = Ok r' ->
  (ByteStream.input_ended (TCPReceiver.stream_out r) = true ->
   ByteStream.input_ended (TCPReceiver.stream_out r') = true) /\
  ByteStream.error (TCPReceiver.stream_out r') = ByteStream.error (TCPReceiver.stream_out r) /\
  (TCPReceiver._syn r = true -> TCPReceiver._syn r' = true).
Proof.
  unfold TCPReceiver.segment_received. destruct (negb _ && negb _); [by intros [= <-]|].
  destruct (_ && _); [by intros [= <-]|]. cbn zeta. cbn [_reassembler].
  destruct (push_substring _ _ _ _) as [a|] eqn:E; cbn [mbind result_bind]; [|done].
  intros [= <-]. apply push_keeps_flags in E as [H1 H2]. split_and!; try done.
  cbn. by destruct (syn (header seg)).
Qed.

(** Acknowledging everything empties the sender. *)
Lemma ack_everything s w :
  TCPSender.wf s -> TCPSender._fin s = true -> 0 <= w < 2 ^ 16 ->
  let s' := ack_received s (next_seqno s) w in
  TCPSender.wf s' /\ TCPSender.bytes_in_flight s' = 0 /\ TCPSender._fin s' = true /\
  TCPSender._syn s' = TCPSender._syn s /\ _next_seqno s' = _next_seqno s /\ _stream s' = _stream s /\
  filled (effective_window s') s'.
Proof.
  intros Hwf Hf Hw s'. pose proof (next_seqno_small s Hwf) as Hn.
  assert (Hsyn : TCPSender._syn s = true).
  { destruct (TCPSender._syn s) eqn:E; [done|]. destruct (wf_syn s Hwf E). congruence. }
  destruct (ack_received_eq s (next_seqno s) w Hwf Hw) as [H|H]; unfold next_seqno in H;
    rewrite unwrap_wrap_lem in H by (lia || apply Hwf); [lia|].
  destruct H as (_ & o & Heq & Hwf' & Ho & _). set (x := ack_state _ _ _ _) in *.
  assert (Hx : filled (effective_window x) x).
  { right. pose proof (wf_fin s Hwf Hf) as He. apply eof_iff in He as [_ He].
    by split_and!. }
  assert (s' = x) as ->.
  { subst s'. unfold next_seqno. rewrite Heq. by apply fill_window_filled. }
  assert (Hz : List.filter (unacked (_next_seqno s)) (_segments_outgoing s) = []).
  { apply (unacked_none _ (_next_seqno s - _outgoing_bytes s)), wf_chain, Hwf. }
  pose proof (wf_chain x Hwf') as Hch. cbn in Hch. rewrite Hz in Hch. simpl in Hch.
  split_and!; try done. cbn. lia.
Qed.

(** ** The official states

    What the code does with a segment (other than a RST) in each official TCP
    state: the branch that the counter tests of [segment_received] select. *)

Definition ack_and_receive (seg : TCPSegment) (k : TCPConnection -> TCPConnection)
    (c : TCPConnection) : result TCPConnection :=
  c ← receiver_segment seg (sender_ack seg c); Ok (send_segments (k c)).

Definition by_state (st : State) (seg : TCPSegment) (c : TCPConnection) : result TCPConnection :=
  let h := header seg in
  match st with
  | CLOSED | RESET => Ok c
  | LISTEN => if syn h then c ← receiver_segment seg c; Ok (connect c) else Ok c
  | SYN_SENT =>
      if syn h then
        if ack h then ack_and_receive seg (on_sender send_empty_segment) c
        else c ← receiver_segment seg c; Ok (send_segments (on_sender send_empty_segment c))
      else Ok c
  | SYN_RCVD => receiver_segment seg (sender_ack seg c)
  | ESTABLISHED | CLOSE_WAIT =>
      ack_and_receive seg (fun c' => on_sender fill_window
        (if negb (ByteStream.eof (stream_in (_sender c))) && (0 <? length_in_sequence_space seg)
         then on_sender send_empty_segment c' else c')) c
  | FIN_WAIT_1 =>
      if fin h then ack_and_receive seg (on_sender send_empty_segment) c
      else if ack h then ack_and_receive seg (fun c => c) c else Ok c
  | FIN_WAIT_2 => ack_and_receive seg (on_sender send_empty_segment) c
  | TIME_WAIT => if fin h then ack_and_receive seg (on_sender send_empty_segment) c else Ok c
  | CLOSING | LAST_ACK => ack_and_receive seg (on_sender fill_window) c
  end.

(** What the two summaries say of the counters. *)
Definition sender_in (s : TCPSender) (sum : string) : Prop :=
  let next := next_seqno_absolute s in
  let flight := TCPSender.bytes_in_flight s in
  let out := stream_in s in
  let fin_sent := ByteStream.eof out && (next =? u64 (ByteStream.bytes_written out + 2)) in
  (sum = S.CLOSED -> next = 0) /\
  (sum = S.SYN_SENT -> next <> 0 /\ next = flight) /\
  (sum = S.SYN_ACKED -> next <> 0 /\ next <> flight /\ flight < next /\ fin_sent = false) /\
  (sum = S.FIN_SENT -> next <> 0 /\ next <> flight /\ 0 < flight /\ ByteStream.eof out = true /\
     fin_sent = true /\ TCPSender._fin s = true /\ ByteStream.error out = false) /\
  (sum = S.FIN_ACKED -> next <> 0 /\ next <> flight /\ flight = 0 /\ ByteStream.eof out = true /\
     fin_sent = true).

Lemma fin_sent_eq s :
  TCPSender.wf s -> TCPSender._syn s = true ->
  ByteStream.eof (stream_in s) &&
    (next_seqno_absolute s =? u64 (ByteStream.bytes_written (stream_in s) + 2)) = TCPSender._fin s.
Proof.
  intros Hwf Hs. pose proof (wf_next s Hwf) as Hn. pose proof (wf_fin s Hwf) as Hf.
  pose proof (sender_written s Hwf) as (H0 & Hw & Hb).
  unfold next_seqno_absolute, stream_in, ByteStream.buffer_size in *. rewrite Hs in Hn.
  pose proof (zlen_nonneg (ByteStream._buff (_stream s))). rewrite u64_small by lia.
  destruct (TCPSender._fin s); cbn [b1] in Hn.
  - specialize (Hf eq_refl). rewrite Hf. apply eof_iff in Hf as [_ Hf]. rewrite Hf in Hw.
    autorewrite with zlen in Hw. apply Z.eqb_eq. lia.
  - apply andb_false_iff. right. apply Z.eqb_neq. lia.
Qed.

Lemma sender_summary_in s : TCPSender.wf s -> sender_in s (sender_summary s).
Proof.
  intros Hwf. pose proof (next_zero s Hwf) as Hz. pose proof (fin_sent_eq s Hwf) as Hfs.
  pose proof (wf_flight s Hwf) as Hfl. pose proof (wf_fin s Hwf) as Hf.
  rewrite sender_summary_eq by done. unfold sender_in. cbn zeta.
  unfold next_seqno_absolute, TCPSender.bytes_in_flight, stream_in in *.
  destruct (ByteStream.error _) eqn:Ee; [done|].
  destruct (TCPSender._syn s); cbn [negb] in *; [|apply Z.eqb_eq in Hz; by split_and!].
  apply Z.eqb_neq in Hz. rewrite Hfs by done.
  destruct (Z.eqb_spec (_next_seqno s) (_outgoing_bytes s)); [by split_and!|].
  destruct (TCPSender._fin s); cbn [negb]; [specialize (Hf eq_refl)|split_and!; (done || lia)].
  destruct (Z.eqb_spec (_outgoing_bytes s) 0); split_and!; try done; intros _; split_and!; (done || lia).
Qed.

Lemma receiver_summary_in r :
  let in_ended := ByteStream.input_ended (TCPReceiver.stream_out r) in
  (receiver_summary r = R.LISTEN -> has_ackno r = false) /\
  (receiver_summary r = R.SYN_RECV -> has_ackno r = true /\ in_ended = false) /\
  (receiver_summary r = R.FIN_RECV -> has_ackno r = true /\ in_ended = true /\
     ByteStream.error (TCPReceiver.stream_out r) = false).
Proof.
  cbn zeta. unfold receiver_summary, has_ackno. destruct (ByteStream.error _); [done|].
  destruct (TCPReceiver.ackno r); [|done]. by destruct (ByteStream.input_ended _).
Qed.

(** [counters] evaluates the tests of [segment_received] from facts about the
    counters and flags. *)
Ltac counters :=
  repeat match goal with
  | H : _ = true |- _ => rewrite H
  | H : _ = false |- _ => rewrite H
  | |- context [?a =? ?b] =>
      first [rewrite (proj2 (Z.eqb_eq a b)) by lia | rewrite (proj2 (Z.eqb_neq a b)) by lia]
  | |- context [?a <? ?b] =>
      first [rewrite (proj2 (Z.ltb_lt a b)) by lia | rewrite (proj2 (Z.ltb_ge a b)) by lia]
  end; cbn [andb orb negb]; rewrite ?andb_false_r; try done.

(** The tests select the case of the official state. *)
Lemma dispatch_by_state c seg st :
  wf c -> state c = of_State st -> rst (header seg) = false ->
  segment_received c seg = by_state st seg (if _active c then set_time c 0 else c).
Proof.
  intros Hwf Hst Hr. unfold segment_received.
  assert (Hact : _active c = TCPState._active (of_State st)) by by rewrite <- Hst.
  assert (Hss : sender_summary (_sender c) = TCPState._sender (of_State st)) by by rewrite <- Hst.
  assert (Hrs : receiver_summary (_receiver c) = TCPState._receiver (of_State st)) by by rewrite <- Hst.
  clear Hst. pose proof (sender_summary_in _ (wf_sender c Hwf)) as Hs.
  pose proof (receiver_summary_in (_receiver c)) as Hrv. rewrite Hss in Hs. rewrite Hrs in Hrv.
  cbn zeta in Hrv. unfold sender_in in Hs. cbn zeta in Hs. clear Hss Hrs.
  rewrite Hr, Hact. cbn [_sender _receiver set_time].
  set (fs := ByteStream.eof _ && (_ =? _)) in *. set (ie := ByteStream.input_ended _) in *.
  destruct Hs as (S1 & S2 & S3 & S4 & S5). destruct Hrv as (R1 & R2 & R3).
  destruct st; cbn [of_State TCPState._active TCPState._sender TCPState._receiver negb] in *;
    unfold by_state, ack_and_receive; cbn [_sender set_time]; try done;
    repeat match goal with
    | H : ?x = ?x -> _ |- _ => specialize (H eq_refl)
    | H : _ = _ -> _ |- _ => clear H
    end; destruct_and?; counters.
  - by destruct (syn (header seg)), (ack (header seg)).
  - destruct (ByteStream.eof _); counters.
  - destruct (ByteStream.eof _); counters.
Qed.

(** Waiting in TIME_WAIT. *)
Record lingering (c : TCPConnection) : Prop := {
  lg_active : _active c = true;
  lg_in : ByteStream.input_ended (TCPReceiver.stream_out (_receiver c)) = true;
  lg_out : ByteStream.eof (stream_in (_sender c)) = true;
  lg_none : _segments_outgoing (_sender c) = [];
  lg_flight : TCPSender.bytes_in_flight (_sender c) = 0;
  lg_count : consecutive_retransmissions (_sender c) <= MAX_RETX_ATTEMPTS;
  lg_linger : _linger_after_streams_finish c = true
}.

Lemma lingering_tick c ms :
  lingering c -> 0 <= ms -> 0 <= _time_since_last_segment_received c ->
  _time_since_last_segment_received c + ms < 2 ^ 64 ->
  let t := _time_since_last_segment_received c + ms in
  _time_since_last_segment_received (tick c ms) = t /\ _cfg (tick c ms) = _cfg c /\
  (if t <? 10 * rt_timeout (_cfg c) then lingering (tick c ms) else _active (tick c ms) = false).
Proof.
  intros [Ha Hi Ho Hn Hf Hc Hl] Hms Ht0 Ht t. unfold tick. rewrite Ha. cbn [negb].
  unfold on_sender, TCPSender.tick. cbn [_sender set_time]. rewrite Hn. set (s := Build_TCPSender _ _ _ _ _ _ _ _ _ _ _ _ _).
  cbn [_sender set_sender]. change (consecutive_retransmissions s) with (consecutive_retransmissions (_sender c)).
  rewrite (proj2 (Z.ltb_ge _ _) Hc), (u64_small (_ + ms)) by lia. fold t.
  unfold send_segments. cbn [_receiver _sender set_sender set_segments_out set_time
    _linger_after_streams_finish _cfg _time_since_last_segment_received].
  rewrite Hi, Hl. change (stream_in (clear_segments_out s)) with (stream_in (_sender c)).
  change (TCPSender.bytes_in_flight (clear_segments_out s)) with (TCPSender.bytes_in_flight (_sender c)).
  rewrite Ho, Hf. cbn [negb orb Z.eqb]. rewrite Z.leb_antisym.
  destruct (Z.ltb_spec t (10 * rt_timeout (_cfg c))); cbn [negb]; split_and!; try done.
Qed.

(** ** Unanswered SYNs *)

(** The clock runs until the sender's timer expires. *)
Definition conn_expire (c : TCPConnection) : TCPConnection :=
  tick c (_retransmission_timeout (_sender c) - _retransmission_timecount (_sender c)).

(** A client after its SYN has been sent [n] more times. *)
Record unanswered (cfg : TCPConfig) (isn : WrappingInt32) (n : nat) (c : TCPConnection) : Prop := {
  un_wf : wf c;
  un_active : _active c = true;
  un_receiver : _receiver c = new_TCPReceiver (recv_capacity cfg);
  un_outgoing : _segments_outgoing (_sender c) = [(0, segment_of_syn isn)];
  un_queue : TCPSender._segments_out (_sender c) = [];
  un_win : _win_size (_sender c) = 1;
  un_timeout : _retransmission_timeout (_sender c) = rt_timeout cfg * 2 ^ Z.of_nat n;
  un_count : _consecutive_retransmissions (_sender c) = Z.of_nat n;
  un_out : _segments_out c = repeat (segment_of_syn isn) (S n);
  un_state : state c = of_State SYN_SENT;
  un_linger : _linger_after_streams_finish c = true
}.

Lemma unanswered_connect_0 cfg rnd :
  cfg_ok cfg -> unanswered cfg (chosen_isn cfg rnd) 0 (connect (new_TCPConnection cfg rnd)).
Proof.
  intros H. constructor; try (rewrite connect_new; done).
  - by apply connect_wf, conn_wf_new.
  - rewrite connect_new. simpl. lia.
Qed.

Lemma unanswered_expire cfg isn n c :
  cfg_ok cfg -> unanswered cfg isn n c -> (n < 8)%nat -> unanswered cfg isn (S n) (conn_expire c).
Proof.
  intros Hcfg [Hwf Ha Hr Ho Hq Hw Ht Hc Hout Hst Hl] Hn. pose proof Hcfg as (Hrt & _).
  assert (H2 : rt_timeout cfg * 2 ^ Z.of_nat n * 2 < 2 ^ 32).
  { assert (2 ^ Z.of_nat n <= 2 ^ 7) by (apply Z.pow_le_mono_r; lia). nia. }
  destruct (expire_spec (_sender c) 0 (segment_of_syn isn) []) as (E1 & E2 & E3 & E4 & E5 & E6);
    [apply Hwf|done|lia|lia|lia|].
  assert (Hs : state (set_sender c (clear_segments_out (expire (_sender c)))) = of_State SYN_SENT).
  { rewrite <- Hst. unfold state, new_TCPState, sender_summary, expire, TCPSender.tick.
    cbn [_sender _receiver set_sender]. rewrite Ho. by destruct (_ <=? _). }
  assert (Hwf' : wf (conn_expire c)) by by apply conn_tick_wf.
  assert (conn_expire c = set_segments_out (set_sender (set_time c (u64 (_time_since_last_segment_received c
      + (_retransmission_timeout (_sender c) - _retransmission_timecount (_sender c)))))
    (clear_segments_out (expire (_sender c)))) (repeat (segment_of_syn isn) (S (S n)))) as E.
  { unfold conn_expire, tick. rewrite Ha. cbn [negb]. unfold on_sender. cbn [_sender set_time set_sender].
    fold (expire (_sender c)). unfold consecutive_retransmissions. rewrite E6, Hc.
    rewrite (proj2 (Z.ltb_ge _ _)) by (unfold MAX_RETX_ATTEMPTS; lia).
    unfold send_segments. cbn [_receiver set_sender set_segments_out set_time _segments_out _sender].
    unfold TCPSender.segments_out. rewrite Hr, Hout, E1, Hq. cbn [ByteStream.input_ended TCPReceiver.stream_out
      new_TCPReceiver _reassembler StreamReassembler.stream_out new_StreamReassembler _output new_ByteStream
      ByteStream._isInputEnd app map].
    unfold set_segments_out. cbn. by rewrite <- repeat_cons. }
  rewrite E in *. constructor; try done; cbn [_sender set_segments_out set_sender clear_segments_out
    _segments_outgoing _win_size _retransmission_timeout _consecutive_retransmissions];
    rewrite ?E2, ?E3, ?E4, ?E6, ?Ht, ?Hc, ?Nat2Z.inj_succ, ?Z.pow_succ_r by lia; try done; lia.
Qed.

Lemma unanswered_iter cfg rnd n :
  cfg_ok cfg -> (n <= 8)%nat ->
  unanswered cfg (chosen_isn cfg rnd) n (Nat.iter n conn_expire (connect (new_TCPConnection cfg rnd))).
Proof.
  intros Hcfg. induction n as [|n IH]; intros Hn; [by apply unanswered_connect_0|].
  apply unanswered_expire; [done|apply IH; lia|lia].
Qed.

(** ** Properties *)

(** An endpoint survives any segment. Whatever its state, a well-formed
    connection handles any segment that fits the wire format without an
    exception, and its sender and receiver keep their invariants. *)
Theorem connection_robust c seg :
  wf c -> wire_ok seg -> exists c', segment_received c seg = Ok c' /\ wf c'.
Proof. apply segment_received_conn_wf. Qed.

Lemma connection_robust_witness :
  exists c', segment_received (connect (new_TCPConnection default_TCPConfig 3))
    (segment_at true true (wrapping_int32 9) [Byte.x61]) = Ok c' /\ wf c'.
Proof.
  apply (connection_robust (connect (new_TCPConnection default_TCPConfig 3))).
  - apply connect_wf, conn_wf_new. split; [vm_compute; split; done|].
    split; [vm_compute; split; done|]. split; [vm_compute; split; done|done].
  - split; [|vm_compute; split; done]. split; [vm_compute; split; done|].
    split; [vm_compute; split; done|vm_compute; done].
Defined.

(** A RST ends an active connection in any state: both streams are in error,
    the connection is inactive, and its summary is the official RESET. *)
Theorem rst_resets c seg :
  _active c = true -> rst (header seg) = true ->
  exists c', segment_received c seg = Ok c' /\
    state c' = of_State RESET /\ segments_out c' = segments_out c.
Proof.
  intros Ha Hr. unfold segment_received. rewrite Ha, Hr. cbn [negb].
  eexists. split; [done|]. split; [|done]. unfold state, new_TCPState, sender_summary, receiver_summary. done.
Qed.

(** A segment that is just a RST. *)
Definition rst_segment : TCPSegment :=
  {| _header := set_rst default_TCPHeader; _payload := empty_Buffer |}.

Lemma rst_resets_witness :
  exists c', segment_received (new_TCPConnection default_TCPConfig 3) rst_segment = Ok c' /\
    state c' = of_State RESET.
Proof.
  destruct (rst_resets (new_TCPConnection default_TCPConfig 3) rst_segment) as (c' & H & Hs & _);
    [reflexivity|reflexivity|]. exists c'. split; [exact H|exact Hs].
Defined.

(** Giving up. When the timer expires after [MAX_RETX_ATTEMPTS] retransmissions
    in a row, [tick] resets the connection and queues a RST; until then it
    queues what the sender retransmits and stays up unless it has lingered. *)
Theorem retransmission_limit_resets c ms :
  _active c = true ->
  MAX_RETX_ATTEMPTS < consecutive_retransmissions (TCPSender.tick (_sender c) ms) ->
  state (tick c ms) = of_State RESET /\ active (tick c ms) = false /\
  segments_out (tick c ms) = segments_out c ++ [rst_segment].
Proof.
  intros Ha Hc. unfold tick. rewrite Ha. cbn [negb on_sender set_sender set_time _sender].
  rewrite (proj2 (Z.ltb_lt _ _) Hc). done.
Qed.

Lemma retransmission_limit_resets_witness :
  let c := Nat.iter 8 (fun c => on_sender expire c)
             (connect (new_TCPConnection default_TCPConfig 3)) in
  state (tick c 256000) = of_State RESET.
Proof. intros c. apply (retransmission_limit_resets c 256000); vm_compute; reflexivity. Defined.

(** A new connection listens, and [connect] sends a SYN with the chosen
    initial sequence number and waits in SYN_SENT. *)
Theorem connect_sends_syn cfg rnd :
  state (new_TCPConnection cfg rnd) = of_State LISTEN /\
  segments_out (connect (new_TCPConnection cfg rnd)) = [segment_of_syn (chosen_isn cfg rnd)] /\
  state (connect (new_TCPConnection cfg rnd)) = of_State SYN_SENT.
Proof. split; [done|]. unfold connect. cbn [_sender new_TCPConnection]. rewrite fill_window_new. done. Qed.

(** C16: The three-way handshake. For any two configurations and initial sequence
    numbers, when the client connects and the three segments are delivered,
    both ends are in ESTABLISHED with nothing in flight, and each expects
    exactly the number the other will send next. *)
Theorem three_way_handshake cfgA cfgB rndA rndB :
  cfg_ok cfgA -> cfg_ok cfgB ->
  let a1 := connect (new_TCPConnection cfgA rndA) in
  exists syn_a synack ack_a b1 a2 b2,
    segments_out a1 = [syn_a] /\
    segment_received (new_TCPConnection cfgB rndB) syn_a = Ok b1 /\
    state b1 = of_State SYN_RCVD /\ segments_out b1 = [synack] /\
    segment_received a1 synack = Ok a2 /\ segments_out a2 = [syn_a; ack_a] /\
    segment_received b1 ack_a = Ok b2 /\
    state a2 = of_State ESTABLISHED /\ state b2 = of_State ESTABLISHED /\
    bytes_in_flight a2 = 0 /\ bytes_in_flight b2 = 0 /\
    TCPReceiver.ackno (_receiver b2) = Some (next_seqno (_sender a2)) /\
    TCPReceiver.ackno (_receiver a2) = Some (next_seqno (_sender b2)).
Proof.
  intros HA HB a1. pose proof (chosen_isn_wf cfgA rndA HA) as Hia.
  pose proof (chosen_isn_wf cfgB rndB HB) as Hib.
  assert (Hw : forall r, 0 <= u16 (TCPReceiver.window_size r) < 2 ^ 16) by (intros; apply u16_range).
  set (ra := syn_received (recv_capacity cfgA) (chosen_isn cfgB rndB)).
  set (rb := syn_received (recv_capacity cfgB) (chosen_isn cfgA rndA)).
  assert (Ea : TCPReceiver.ackno ra = Some (wrap 1 (chosen_isn cfgB rndB))) by by apply syn_received_ackno.
  assert (Eb : TCPReceiver.ackno rb = Some (wrap 1 (chosen_isn cfgA rndA))) by by apply syn_received_ackno.
  eexists _, _, _, _, _, _. split_and!.
  - subst a1. by rewrite connect_new.
  - by apply server_syn.
  - unfold state, new_TCPState, receiver_summary. cbn -[TCPReceiver.ackno]. fold rb. rewrite Eb. done.
  - done.
  - apply (client_synack cfgA rndA HA _ Hib _ (u16 (TCPReceiver.window_size rb)));
      [unfold stamp; fold rb; by rewrite Eb|unfold stamp; fold rb; by rewrite Eb|done].
  - done.
  - apply (server_ack cfgB rndB HB _ _ _ (u16 (TCPReceiver.window_size ra)));
      [unfold stamp; fold ra; by rewrite Ea|unfold stamp; fold ra; by rewrite Ea|done].
  - unfold state, new_TCPState, receiver_summary. cbn -[TCPReceiver.ackno]. fold ra. rewrite Ea. done.
  - unfold state, new_TCPState, receiver_summary. cbn -[TCPReceiver.ackno]. fold rb. rewrite Eb. done.
  - done.
  - done.
  - done.
  - done.
Qed.

Lemma three_way_handshake_witness :
  exists syn_a b1, segments_out (connect (new_TCPConnection default_TCPConfig 3)) = [syn_a] /\
    segment_received (new_TCPConnection default_TCPConfig 4) syn_a = Ok b1.
Proof.
  assert (H : cfg_ok default_TCPConfig).
  { split; [vm_compute; split; done|]. split; [vm_compute; split; done|].
    split; [vm_compute; split; done|done]. }
  destruct (three_way_handshake default_TCPConfig default_TCPConfig 3 4 H H)
    as (syn_a & ? & ? & b1 & ? & ? & H1 & H2 & _).
  exists syn_a, b1. split; [exact H1|exact H2].
Defined.

(** The passive close. In LAST_ACK (the peer's stream ended first, our FIN is
    out and not yet acknowledged), the segment that acknowledges everything we
    sent closes the connection at once, without lingering. *)
Theorem last_ack_closes c seg :
  wf c -> wire_ok seg -> state c = of_State LAST_ACK -> rst (header seg) = false ->
  TCPHeader.ackno (header seg) = next_seqno (_sender c) ->
  exists c', segment_received c seg = Ok c' /\ active c' = false /\ state c' = of_State CLOSED.
Proof.
  intros Hwf [Hs Hw] Hst Hr Hack. rewrite (dispatch_by_state c seg LAST_ACK Hwf Hst Hr).
  assert (Ha : _active c = true) by by rewrite (f_equal TCPState._active Hst : _active c = true).
  assert (Hl : _linger_after_streams_finish c = false).
  { apply (f_equal TCPState._linger_after_streams_finish) in Hst. cbn in Hst. unfold active in Hst. by rewrite Ha in Hst. }
  pose proof (sender_summary_in _ (wf_sender c Hwf)) as (_ & _ & _ & HS & _).
  pose proof (receiver_summary_in (_receiver c)) as (_ & _ & HR).
  destruct (HS (f_equal TCPState._sender Hst)) as (_ & Hne & Hf0 & Heof & _ & Hfin & Herr).
  destruct (HR (f_equal TCPState._receiver Hst)) as (Hak & Hin & Her).
  rewrite Ha. unfold by_state, ack_and_receive, receiver_segment, sender_ack.
  cbn [_receiver _sender on_sender set_sender set_time]. rewrite Hack.
  destruct (segment_received_wf (_receiver c) seg (wf_receiver c Hwf) Hs) as (r & Hrs & Hwr & _).
  rewrite Hrs. cbn [mbind result_bind].
  destruct (receiver_keeps_flags _ _ _ Hrs) as (K1 & K2 & K3). specialize (K1 Hin).
  destruct (ack_everything _ _ (wf_sender c Hwf) Hfin Hw) as (A1 & A2 & A3 & A4 & A5 & A6 & A7).
  set (s := ack_received _ _ _) in *.
  unfold on_sender. cbn [_sender set_receiver set_sender set_time]. fold s. rewrite (fill_window_filled s A1 A7).
  assert (Hsyn : TCPReceiver._syn r = true).
  { apply K3. unfold has_ackno in Hak. rewrite ackno_eq in Hak by apply Hwf.
    by destruct (TCPReceiver._syn (_receiver c)). }
  eexists. split; [done|].
  unfold send_segments, on_sender. cbn [_receiver _sender set_sender set_segments_out set_receiver set_time
    _linger_after_streams_finish _cfg].
  change (stream_in (clear_segments_out s)) with (_stream s).
  change (TCPSender.bytes_in_flight (clear_segments_out s)) with (TCPSender.bytes_in_flight s).
  rewrite K1, A6, A2, Hl. change (_stream (_sender c)) with (stream_in (_sender c)). rewrite Heof. cbn [negb orb Z.eqb].
  split; [done|]. unfold state, new_TCPState. cbn. f_equal.
  - rewrite sender_summary_eq by by apply clear_segments_out_wf.
    unfold next_seqno_absolute, TCPSender.bytes_in_flight, stream_in in *. cbn. rewrite A6, Herr, A3, A5, A2, A4.
    assert (TCPSender._syn (_sender c) = true) as ->.
    { destruct (TCPSender._syn (_sender c)) eqn:E; [done|].
      destruct (wf_syn _ (wf_sender c Hwf) E). congruence. }
    cbn. rewrite (proj2 (Z.eqb_neq _ _)); [done|]. pose proof (wf_flight _ (wf_sender c Hwf)). lia.
  - unfold receiver_summary. rewrite K2, Her, ackno_eq, Hsyn, K1 by done. done.
Qed.

(** Scripts of segments, for examples: the segments a peer sends. *)
Fixpoint deliver (c : TCPConnection) (segs : list TCPSegment) : TCPConnection :=
  match segs with
  | [] => c
  | seg :: segs => match segment_received c seg with Ok c' => deliver c' segs | Throw _ => c end
  end.

Lemma deliver_wf segs c : wf c -> Forall wire_ok segs -> wf (deliver c segs).
Proof.
  intros Hwf H. revert c Hwf. induction H as [|seg segs Hs _ IH]; intros c Hwf; [done|]. simpl.
  destruct (segment_received_conn_wf c seg Hwf Hs) as (c' & -> & Hc). by apply IH.
Qed.

(** A segment of the peer with initial number 7 that acknowledges [a]. *)
Definition peer_segment (s f : bool) (q a w : Z) (d : list byte) : TCPSegment :=
  let seg := segment_at s f (wrap q (wrapping_int32 7)) d in
  {| _header := set_ack (header seg) (wrap a (wrapping_int32 3)) w; _payload := payload seg |}.

Definition test_config : TCPConfig :=
  {| rt_timeout := 1000; recv_capacity := 100; send_capacity := 100;
     fixed_isn := Some (wrapping_int32 3) |}.

Lemma test_config_ok : cfg_ok test_config.
Proof.
  split; [vm_compute; split; done|]. split; [vm_compute; split; done|].
  split; [vm_compute; split; done|]. intros i [= <-]. vm_compute. split; done.
Qed.

Lemma peer_segment_ok s f q a w d :
  0 <= w < 2 ^ 16 -> zlen d < 2 ^ 32 -> wire_ok (peer_segment s f q a w d).
Proof.
  intros Hw Hd. unfold wire_ok, seg_ok, peer_segment, segment_at.
  destruct s, f; cbn [header payload _header _payload set_ack set_fin set_syn set_seqno
    TCPHeader.seqno TCPHeader.ackno win]; rewrite str_new; split_and!; auto using wi_wf_wrap; try apply wi_wf_wrap; lia.
Qed.

(** The server side of a connection that the client opened and closed first. *)
Definition example_last_ack : TCPConnection :=
  end_input_stream (deliver (new_TCPConnection test_config 0)
    [segment_of_syn (wrapping_int32 7); peer_segment false false 1 1 50 [];
     peer_segment false true 1 1 50 [Byte.x61]]).

Lemma last_ack_closes_witness :
  exists c', segment_received example_last_ack (peer_segment false false 3 2 50 []) = Ok c' /\
    state c' = of_State CLOSED.
Proof.
  assert (Hw : wf example_last_ack).
  { apply end_input_stream_wf, deliver_wf; [apply conn_wf_new, test_config_ok|].
    apply Forall_cons_2; [|apply Forall_cons_2; [|apply Forall_cons_2; [|apply Forall_nil_2]]].
    - split; [|vm_compute; split; done]. split; [vm_compute; split; done|].
      split; [vm_compute; split; done|vm_compute; done].
    - apply peer_segment_ok; [lia|vm_compute; done].
    - apply peer_segment_ok; [lia|vm_compute; done]. }
  destruct (last_ack_closes example_last_ack (peer_segment false false 3 2 50 [])) as (c' & H & _ & Hs).
  - exact Hw.
  - apply peer_segment_ok; [lia|vm_compute; done].
  - vm_compute. reflexivity.
  - reflexivity.
  - vm_compute. reflexivity.
  - exists c'. split; [exact H|exact Hs].
Defined.

(** C28: TIME_WAIT lasts ten timeouts. An endpoint that closed first (both streams
    over, everything acknowledged, lingering) stays active through any
    sequence of clock ticks until ten times the initial retransmission timeout
    has passed since the last segment, and is inactive from then on. *)
Theorem time_wait_lasts c mss :
  lingering c -> 0 <= _time_since_last_segment_received c ->
  _time_since_last_segment_received c < 10 * rt_timeout (_cfg c) -> Forall (fun ms => 0 <= ms) mss ->
  _time_since_last_segment_received c + foldr Z.add 0 mss < 2 ^ 64 ->
  active (fold_left tick mss c) =
    (_time_since_last_segment_received c + foldr Z.add 0 mss <? 10 * rt_timeout (_cfg c)).
Proof.
  intros Hl H0 Ht Hmss. revert c Hl H0 Ht. induction Hmss as [|ms mss Hms Hmss IH]; intros c Hl H0 Ht Hb.
  - simpl. rewrite Z.add_0_r, (proj2 (Z.ltb_lt _ _) Ht). apply Hl.
  - assert (0 <= foldr Z.add 0 mss).
    { clear - Hmss. induction Hmss; simpl; lia. }
    simpl in Hb |- *. destruct (lingering_tick c ms Hl Hms H0) as (Et & Ec & Hs); [lia|].
    destruct (Z.ltb_spec (_time_since_last_segment_received c + ms) (10 * rt_timeout (_cfg c))).
    + rewrite IH; rewrite ?Et, ?Ec; try done; lia.
    + rewrite (proj2 (Z.ltb_ge _ _)) by lia. clear - Hs. revert Hs. generalize (tick c ms).
      intros c' Hs. induction mss as [|m mss IH]; [done|]. simpl.
      replace (tick c' m) with c'; [done|]. unfold tick. by rewrite Hs.
Qed.

(** The client side after both streams are over. *)
Definition example_time_wait : TCPConnection :=
  deliver (end_input_stream (deliver (connect (new_TCPConnection test_config 0))
      [peer_segment true false 0 1 50 []]))
    [peer_segment false true 1 2 50 []].

Lemma time_wait_lasts_witness :
  active (fold_left tick [4000; 5999] example_time_wait) = true /\
  active (fold_left tick [4000; 6000] example_time_wait) = false.
Proof.
  assert (Hl : lingering example_time_wait)
    by (split; vm_compute; first [reflexivity|intros [=]]).
  split.
  - rewrite (time_wait_lasts example_time_wait [4000; 5999]); try done.
    repeat apply Forall_cons_2; try apply Forall_nil_2; done.
  - rewrite (time_wait_lasts example_time_wait [4000; 6000]); try done.
    repeat apply Forall_cons_2; try apply Forall_nil_2; done.
Defined.

(** C27: A connection attempt that nobody answers. Each expiry of the timer sends
    the SYN again, up to eight times, in SYN_SENT; the ninth resets the
    connection and sends a RST. *)
Theorem unanswered_connect cfg rnd n :
  cfg_ok cfg -> (n <= 8)%nat ->
  let c := Nat.iter n conn_expire (connect (new_TCPConnection cfg rnd)) in
  state c = of_State SYN_SENT /\
  segments_out c = repeat (segment_of_syn (chosen_isn cfg rnd)) (S n) /\
  _retransmission_timeout (_sender c) = rt_timeout cfg * 2 ^ Z.of_nat n /\
  (n = 8%nat ->
   state (conn_expire c) = of_State RESET /\
   segments_out (conn_expire c) = segments_out c ++ [rst_segment]).
Proof.
  intros Hcfg Hn c. pose proof (unanswered_iter cfg rnd n Hcfg Hn) as [Hwf Ha Hr Ho Hq Hw Ht Hc Hout Hst Hl].
  fold c in Hwf, Ha, Hr, Ho, Hq, Hw, Ht, Hc, Hout, Hst, Hl. clearbody c. split_and!; try done.
  intros ->. pose proof Hcfg as (Hrt & _).
  destruct (expire_spec (_sender c) 0 (segment_of_syn (chosen_isn cfg rnd)) [])
    as (_ & _ & _ & _ & _ & E6); [apply Hwf|done|lia|rewrite Ht; simpl; lia|lia|].
  unfold conn_expire, tick. rewrite Ha. cbn [negb]. unfold on_sender. cbn [_sender set_time set_sender].
  fold (expire (_sender c)). unfold consecutive_retransmissions. rewrite E6, Hc.
  rewrite (proj2 (Z.ltb_lt _ _)) by (unfold MAX_RETX_ATTEMPTS; lia). done.
Qed.

Lemma unanswered_connect_witness :
  state (conn_expire (Nat.iter 8 conn_expire (connect (new_TCPConnection test_config 0)))) =
  of_State RESET.
Proof.
  destruct (unanswered_connect test_config 0 8) as (_ & _ & _ & H);
    [exact test_config_ok|lia|exact (proj1 (H eq_refl))].
Defined.

(** The header fields every segment carries once the peer's SYN is known. *)
Definition acknowledges (r : TCPReceiver) (seg : TCPSegment) : Prop :=
  ack (header seg) = true /\ TCPReceiver.ackno r = Some (TCPHeader.ackno (header seg)) /\
  win (header seg) = u16 (TCPReceiver.window_size r).

Lemma stamp_acknowledges r segs :
  is_Some (TCPReceiver.ackno r) -> Forall (acknowledges r) (map (stamp r) segs).
Proof.
  intros [n Hn]. induction segs as [|seg segs IH]; [apply Forall_nil_2|].
  apply Forall_cons_2; [|done]. unfold acknowledges, stamp. by rewrite Hn.
Qed.


(** The server side of an open connection. *)
Definition example_established : TCPConnection :=
  deliver (new_TCPConnection test_config 0)
    [segment_of_syn (wrapping_int32 7); peer_segment false false 1 1 50 []].


(** Large receive capacities are not advertised. The window is stored in a
    16-bit field without clamping, so an endpoint with an empty buffer of
    [k * 65536] bytes advertises a window of zero. *)
Theorem large_capacity_advertises_zero cfg rnd k isn :
  cfg_ok cfg -> wi_wf isn -> recv_capacity cfg = k * 65536 ->
  exists c seg, segment_received (new_TCPConnection cfg rnd) (segment_of_syn isn) = Ok c /\
    segments_out c = [seg] /\ TCPReceiver.window_size (_receiver c) = k * 65536 /\
    win (header seg) = 0.
Proof.
  intros Hcfg Hi Hcap. rewrite (server_syn cfg rnd isn Hi). pose proof Hcfg as (_ & Hc & _).
  assert (Hwin : TCPReceiver.window_size (syn_received (recv_capacity cfg) isn) = k * 65536).
  { transitivity (u64 (recv_capacity cfg - zlen (@nil byte))); [done|].
    autorewrite with zlen. rewrite Z.sub_0_r, Hcap, u64_small by lia. done. }
  eexists _, _. split; [done|]. split; [done|]. split; [done|].
  unfold stamp. rewrite syn_received_ackno, Hwin by done. cbn [win set_ack header _header].
  unfold u16. apply Z_mod_mult.
Qed.

Lemma large_capacity_advertises_zero_witness :
  let cfg := {| rt_timeout := 1000; recv_capacity := 65536; send_capacity := 100; fixed_isn := None |} in
  exists c seg, segment_received (new_TCPConnection cfg 0) (segment_of_syn (wrapping_int32 7)) = Ok c /\
    segments_out c = [seg] /\ win (header seg) = 0.
Proof.
  intros cfg. destruct (large_capacity_advertises_zero cfg 0 1 (wrapping_int32 7))
    as (c & seg & H1 & H2 & _ & H3).
  - split; [vm_compute; split; done|]. split; [vm_compute; split; done|].
    split; [vm_compute; split; done|done].
  - vm_compute. split; done.
  - reflexivity.
  - exists c, seg. split; [exact H1|]. split; [exact H2|exact H3].
Defined.
