(* ===== verification/Transport.v ===== *)
(** * Reliable delivery between two endpoints

    Two [TCPConnection]s and a network that may lose, reorder, delay and
    duplicate the segments they emit. Each application writes, ends its stream
    and reads when it likes, and time passes. The steps are the calls of the
    class, in any interleaving; the theorems say what each application gets. *)

From S2P Require Import Prelude WrappingIntegers ByteStream StreamReassembler ReassemblerProps Buffer TCPHeader TCPSegment TCPReceiver TCPSender TCPState TCPConnection.

(** ** The system *)

(** An endpoint with the bytes its application has written and read. *)
Record endpoint := {
  conn : TCPConnection;
  written : list byte;
  got : list byte
}.

Definition isn_of (e : endpoint) : WrappingInt32 := TCPSender._isn (_sender (conn e)).
Definition ended (e : endpoint) : bool :=
  ByteStream.input_ended (stream_in (_sender (conn e))).

Definition with_conn (e : endpoint) (c : TCPConnection) : endpoint :=
  {| conn := c; written := written e; got := got e |}.

(** [local_step inbox e e' sent]: a call on one endpoint; [inbox] are the
    segments the network can deliver to it, [sent] what it hands over. The
    application does not write after ending its stream, and a stream stays
    below the 4 GiB a receiver can index. *)
Inductive local_step (inbox : list TCPSegment) (e : endpoint)
    : endpoint -> list TCPSegment -> Prop :=
| local_connect : local_step inbox e (with_conn e (connect (conn e))) []
| local_write data n c :
    ended e = false -> zlen (written e) + zlen data + 2 < 2 ^ 32 ->
    write (conn e) data = (n, c) ->
    local_step inbox e
      {| conn := c; written := written e ++ take (Z.to_nat n) data; got := got e |} []
| local_end : local_step inbox e (with_conn e (end_input_stream (conn e))) []
| local_tick ms : local_step inbox e (with_conn e (tick (conn e) ms)) []
| local_read n bs :
    0 <= n -> bs = fst (ByteStream.read (inbound_stream (conn e)) n) ->
    local_step inbox e
      {| conn := on_inbound_stream (fun s => snd (ByteStream.read s n)) (conn e);
         written := written e; got := got e ++ bs |} []
| local_receive seg c :
    seg ∈ inbox -> segment_received (conn e) seg = Ok c ->
    local_step inbox e (with_conn e c) []
| local_transmit :
    local_step inbox e (with_conn e (set_segments_out (conn e) [])) (segments_out (conn e)).

(** Both endpoints and every segment either has handed to the network: a
    segment in the network may be delivered any number of times, or never. *)
Record system := {
  left : endpoint;
  right : endpoint;
  to_right : list TCPSegment;
  to_left : list TCPSegment
}.

Inductive system_step : system -> system -> Prop :=
| step_left s e' out :
    local_step (to_left s) (left s) e' out ->
    system_step s {| left := e'; right := right s; to_right := to_right s ++ out;
                     to_left := to_left s |}
| step_right s e' out :
    local_step (to_right s) (right s) e' out ->
    system_step s {| left := left s; right := e'; to_right := to_right s;
                     to_left := to_left s ++ out |}.

Definition new_endpoint (cfg : TCPConfig) (rnd : Z) : endpoint :=
  {| conn := new_TCPConnection cfg rnd; written := []; got := [] |}.

Definition start (cfgL cfgR : TCPConfig) (rndL rndR : Z) : system :=
  {| left := new_endpoint cfgL rndL; right := new_endpoint cfgR rndR;
     to_right := []; to_left := [] |}.

(** ** Growing streams *)

Lemma follows_grow W D r :
  zlen W < 2 ^ 63 -> _posEOF r = ULONG_LONG_MAX -> follows W r -> follows (W ++ D) r.
Proof.
  intros HW He [Hwf Hok Hw Hb Hs Heof Hend]. pose proof (zlen_nonneg D).
  assert (Hin : forall i b, zget W i = Some b -> zget (W ++ D) i = Some b).
  { intros i b Hi. pose proof (zget_Some _ _ _ Hi). rewrite zget_app by lia.
    by rewrite (proj2 (Z.ltb_lt _ _)) by lia. }
  constructor; try done; auto.
  - rewrite zlen_app. lia.
  - intros [_ H']%Hend. unfold ULONG_LONG_MAX in *. lia.
Qed.

Lemma receives_grow W D isn r :
  zlen W < 2 ^ 63 -> _posEOF (_reassembler r) = ULONG_LONG_MAX -> receives W isn r ->
  receives (W ++ D) isn r.
Proof. intros HW He [? ? ?]. constructor; try done. by apply follows_grow. Qed.

(** A segment without FIN leaves the end of the stream unknown. *)
Lemma receive_keeps_open W isn r seg r' :
  wi_wf isn -> zlen W < 2 ^ 63 -> receives W isn r -> seg_of W isn seg ->
  TCPReceiver.segment_received r seg = Ok r' -> fin (header seg) = false ->
  _posEOF (_reassembler r') = _posEOF (_reassembler r).
Proof.
  intros Hi HW [Hwf Hf Hisn] Hseg Hr Hfin.
  destruct (position_of W isn seg Hi Hseg) as (Hp & Hs & Hsyn).
  rewrite segment_received_eq in Hr by done. destruct (ignored r seg); [by injection Hr as <-|].
  cbn zeta in Hr. rewrite Hfin in *.
  destruct (push_substring _ _ _ _) as [a|] eqn:E; cbn [mbind result_bind] in Hr; [|done].
  injection Hr as <-. cbn [_reassembler]. revert E. unfold push_substring. cbn zeta.
  assert (Hce : forall x, _posEOF (check_end x) = _posEOF x).
  { intros x. unfold check_end. by destruct (_ =? _). }
  destruct (_ =? 0); [intros [= <-]; by rewrite Hce|]. destruct (_ || _); [by intros [= <-]|].
  destruct (substr _ _ _); cbn [mbind result_bind]; [|done].
  destruct (push_unassembledString _ _ _) as [[n l1]|]; cbn [mbind result_bind]; [|done].
  destruct (pop_unassembledString _ _). intros [= <-]. by rewrite Hce.
Qed.

Lemma receives_error W isn r : receives W isn r -> receives W isn (on_stream_out ByteStream.set_error r).
Proof.
  intros [Hwf Hf Hi]. constructor; [by apply recv_error_wf| |done]. destruct Hf.
  constructor; try done. cbn. by apply recv_error_wf.
Qed.

Lemma sends_error W s : sends W s -> sends W (on_stream_in ByteStream.set_error s).
Proof. intros []. constructor; try done. by apply stream_error_wf. Qed.

Lemma sent_seg_of W e isn seg : zlen W + 2 < 2 ^ 32 -> sent W e isn seg -> seg_of W isn seg.
Proof.
  intros HW (_ & _ & q & Hq & H). exists q. split; [lia|done].
Qed.

(** ** The invariant of an endpoint *)

(** What an endpoint hands to the network: resets, and segments of its stream. *)
Definition emitted (W : list byte) (e : bool) (isn : WrappingInt32) (seg : TCPSegment) : Prop :=
  rst (header seg) = true \/ sent W e isn seg.

Lemma emitted_grow W D e isn seg : emitted W false isn seg -> emitted (W ++ D) e isn seg.
Proof. intros [?|?]; [by left|right; by apply sent_grow]. Qed.

Lemma stamp_sent W e isn r seg : sent W e isn seg -> sent W e isn (stamp r seg).
Proof.
  intros Hs. unfold stamp. destruct (TCPReceiver.ackno r); [|done]. destruct Hs as (Hw & Hf & q & H).
  split; [apply u16_range|]. split; [done|]. by exists q.
Qed.

(** The operations of a connection on its sender keep its number and input. *)
Definition same_stream (s s' : TCPSender) : Prop :=
  TCPSender._isn s' = TCPSender._isn s /\
  ByteStream.input_ended (_stream s') = ByteStream.input_ended (_stream s).

Lemma same_fill s : TCPSender.wf s -> same_stream s (fill_window s).
Proof. intros H. by destruct (fill_window_more s H) as (segs & [] & _). Qed.

Lemma same_ack s n w : TCPSender.wf s -> 0 <= w < 2 ^ 16 -> same_stream s (ack_received s n w).
Proof.
  intros H Hw. destruct (ack_received_eq s n w H Hw) as [[_ ->]|(_ & o & -> & Hwf & _)]; [done|].
  by apply same_fill in Hwf.
Qed.

Lemma same_tick s ms : same_stream s (TCPSender.tick s ms).
Proof. unfold TCPSender.tick. destruct (_segments_outgoing s) as [|[k x] l]; [done|]. by destruct (_ <=? _). Qed.

Section invariant.
Context (W : list byte) (mend : bool) (misn : WrappingInt32).
Context (V : list byte) (vend : bool) (visn : WrappingInt32).
Context (HV : zlen V + 2 < 2 ^ 32) (Hvisn : wi_wf visn).

(** [W] is what this endpoint's application has written, [mend] whether it has
    ended the stream and [misn] the initial sequence number; [V], [vend] and
    [visn] are the same of the peer. *)
Record conn_inv (c : TCPConnection) : Prop := {
  ci_sends : sends W (_sender c);
  ci_receives : receives V visn (_receiver c);
  ci_open : vend = false -> _posEOF (_reassembler (_receiver c)) = ULONG_LONG_MAX;
  ci_out : Forall (emitted W mend misn) (_segments_out c);
  ci_ended : ByteStream.input_ended (stream_in (_sender c)) = mend;
  ci_isn : TCPSender._isn (_sender c) = misn
}.

Lemma on_sender_inv f c :
  conn_inv c -> sends W (f (_sender c)) -> same_stream (_sender c) (f (_sender c)) ->
  conn_inv (on_sender f c).
Proof.
  intros [H1 H2 H3 H4 H5 H6] Hs [Hi He]. constructor; try done; unfold stream_in in *;
    cbn [on_sender set_sender _sender]; congruence.
Qed.

Lemma send_segments_inv c : conn_inv c -> conn_inv (send_segments c).
Proof.
  intros [H1 H2 H3 H4 H5 H6]. destruct (send_segments_parts c) as (E1 & E2 & E3 & _).
  constructor; rewrite ?E1, ?E2, ?E3; try done; [by apply sends_clear|].
  apply Forall_app. split; [done|]. apply Forall_forall. intros seg Hin.
  apply list_elem_of_fmap in Hin as (x & -> & Hx). right. apply stamp_sent.
  pose proof (snd_out W _ H1) as Ho. unfold stream_in in H5. rewrite H5, H6, Forall_forall in Ho. by apply Ho.
Qed.

Lemma fill_inv c : conn_inv c -> conn_inv (on_sender fill_window c).
Proof.
  intros H. pose proof (ci_sends c H) as Hs. apply on_sender_inv; [done|by apply sends_fill|].
  by apply same_fill, (snd_wf W).
Qed.

Lemma empty_inv c : conn_inv c -> conn_inv (on_sender send_empty_segment c).
Proof. intros H. apply on_sender_inv; [done|by apply sends_empty, ci_sends|done]. Qed.

Lemma ack_inv seg c :
  0 <= win (header seg) < 2 ^ 16 -> conn_inv c -> conn_inv (sender_ack seg c).
Proof.
  intros Hw H. pose proof (ci_sends c H) as Hs. apply on_sender_inv; [done|by apply sends_ack|].
  apply same_ack; [by apply (snd_wf W)|done].
Qed.

Lemma receive_inv seg c :
  sent V vend visn seg -> conn_inv c ->
  exists c', receiver_segment seg c = Ok c' /\ conn_inv c' /\
    ByteStream.bytes_read (inbound_stream c') = ByteStream.bytes_read (inbound_stream c).
Proof.
  intros Hseg [H1 H2 H3 H4 H5 H6]. assert (Hof := sent_seg_of V vend visn seg HV Hseg).
  destruct (segment_received_receives V visn (_receiver c) seg) as (r & Hr & Hrc & _ & _ & Hrd & _);
    [done|lia|done..|].
  unfold receiver_segment. rewrite Hr. eexists. split; [done|]. split; [|done].
  constructor; try done. intros Hv. cbn [set_receiver _receiver].
  destruct Hseg as (_ & Hfin & _). rewrite Hv in Hfin.
  rewrite (receive_keeps_open V visn (_receiver c) seg r); [auto|done|lia|done..|].
  destruct (fin (header seg)); [by specialize (Hfin eq_refl)|done].
Qed.

(** Every way the connection can react to a segment of the peer. *)
Lemma then_inv seg c k :
  sent V vend visn seg -> conn_inv c -> (forall c, conn_inv c -> conn_inv (k c)) ->
  (forall c, _receiver (k c) = _receiver c) ->
  exists c', (c ← receiver_segment seg c; Ok (k c)) = Ok c' /\ conn_inv c' /\
    ByteStream.bytes_read (inbound_stream c') = ByteStream.bytes_read (inbound_stream c).
Proof.
  intros Hs Hc Hk Hr. destruct (receive_inv seg c Hs Hc) as (c1 & -> & H1 & Hrd).
  eexists. split; [done|]. split; [by apply Hk|]. unfold inbound_stream in *. by rewrite Hr.
Qed.

Lemma parts_receiver f c : _receiver (send_segments (on_sender f c)) = _receiver c.
Proof. by destruct (send_segments_parts (on_sender f c)) as (-> & _). Qed.

Lemma segment_received_inv seg c :
  emitted V vend visn seg -> conn_inv c ->
  exists c', segment_received c seg = Ok c' /\ conn_inv c' /\
    ByteStream.bytes_read (inbound_stream c') = ByteStream.bytes_read (inbound_stream c).
Proof.
  intros Hem Hinv. unfold segment_received. destruct (_active c); [|by exists c]. cbn [negb].
  assert (Ht : conn_inv (set_time c 0)) by by destruct Hinv.
  change (inbound_stream c) with (inbound_stream (set_time c 0)).
  revert Ht. generalize (set_time c 0). clear c Hinv. intros c Hc. cbn zeta.
  destruct (rst (header seg)) eqn:Er.
  { eexists. split; [done|]. split; [|done]. destruct Hc as [H1 H2 H3 H4 H5 H6]. constructor; try done.
    - by apply sends_error.
    - by apply receives_error. }
  destruct Hem as [?|Hs]; [congruence|].
  assert (Ha : conn_inv (sender_ack seg c)) by (apply ack_inv; [apply Hs|done]).
  change (inbound_stream c) with (inbound_stream (sender_ack seg c)).
  assert (Hse : forall c, conn_inv c -> conn_inv (send_segments (on_sender send_empty_segment c)))
    by (intros; by apply send_segments_inv, empty_inv).
  assert (Hfi : forall c, conn_inv c -> conn_inv (send_segments (on_sender fill_window c)))
    by (intros; by apply send_segments_inv, fill_inv).
  repeat match goal with |- context [if ?b then _ else _] =>
    lazymatch b with 0 <? length_in_sequence_space _ => fail | _ => destruct b end end;
    try (eexists; split; [reflexivity|]; done).
  - apply (then_inv seg c connect); [done|done|exact Hfi|intros; apply (parts_receiver fill_window)].
  - by apply then_inv; [..|apply parts_receiver].
  - by apply (then_inv seg c); [..|apply parts_receiver].
  - by apply receive_inv.
  - apply (then_inv seg _ (fun c0 => send_segments (on_sender fill_window
      (if 0 <? length_in_sequence_space seg then on_sender send_empty_segment c0 else c0)))); [done|done|..].
    + intros c0 H0. apply Hfi. destruct (0 <? _); [by apply empty_inv|done].
    + intros c0. rewrite parts_receiver. by destruct (0 <? _).
  - by apply then_inv; [..|apply parts_receiver].
  - apply then_inv; [done|done|by apply send_segments_inv|intros; by apply send_segments_parts].
  - by apply then_inv; [..|apply parts_receiver].
  - by apply then_inv; [..|apply parts_receiver].
  - by apply then_inv; [..|apply parts_receiver].
Qed.

Lemma sender_tick_inv c ms t :
  conn_inv c -> conn_inv (on_sender (fun s => TCPSender.tick s ms) (set_time c t)).
Proof.
  intros Hc. apply on_sender_inv; [by destruct Hc|by apply sends_tick; destruct Hc|apply same_tick].
Qed.

Lemma reset_inv c : conn_inv c -> conn_inv (reset_connection c).
Proof.
  intros [A1 A2 A3 A4 A5 A6]. constructor; try done.
  - by apply sends_error.
  - by apply receives_error.
  - apply Forall_app. split; [done|]. apply Forall_cons_2; [by left|apply Forall_nil_2].
Qed.

Lemma tick_inv c ms : conn_inv c -> conn_inv (tick c ms).
Proof.
  intros Hc. unfold tick. destruct (negb (_active c)); [done|]. cbn zeta.
  apply (sender_tick_inv c ms (u64 (_time_since_last_segment_received c + ms))) in Hc.
  destruct (_ <? _); [by apply reset_inv|by apply send_segments_inv].
Qed.

Lemma read_inv c n :
  conn_inv c -> 0 <= n ->
  conn_inv (on_inbound_stream (fun s => snd (ByteStream.read s n)) c).
Proof.
  intros [H1 H2 H3 H4 H5 H6] Hn. constructor; try done. apply read_receives; try done.
  pose proof (wf_capacity_small _ (rcv_wf _ _ _ H2)). lia.
Qed.

End invariant.

Lemma end_inv W mend misn V vend visn c :
  conn_inv W mend misn V vend visn c -> conn_inv W true misn V vend visn (end_input_stream c).
Proof.
  intros [H1 H2 H3 H4 H5 H6]. apply send_segments_inv, fill_inv.
  constructor; try done; [by apply sends_end|].
  eapply Forall_impl; [exact H4|]. intros seg [?|?]; [by left|right; by eapply sent_end].
Qed.

(** The stream takes a prefix of what is written. *)
Lemma stream_write_inv W misn V vend visn c d n st :
  conn_inv W false misn V vend visn c -> zlen W + zlen d + 2 < 2 ^ 32 ->
  ByteStream.write (stream_in (_sender c)) d = (n, st) ->
  conn_inv (W ++ take (Z.to_nat n) d) false misn V vend visn (on_sender (on_stream_in (fun _ => st)) c).
Proof.
  intros [H1 H2 H3 H4 He H6] Hb Ew. assert (Hs := sends_write W _ d H1 He ltac:(lia)). cbn zeta in Hs.
  unfold stream_in in Ew. rewrite Ew in Hs. cbn [fst] in Hs.
  assert (Hst : on_stream_in (fun b => snd (ByteStream.write b d)) (_sender c) =
                on_stream_in (fun _ => st) (_sender c)) by (unfold on_stream_in; by rewrite Ew).
  rewrite Hst in Hs. constructor; try done.
  - eapply Forall_impl; [exact H4|]. intros seg. apply emitted_grow.
  - change (ByteStream.input_ended (snd (n, st)) = false). by rewrite <- Ew.
Qed.

Lemma write_inv W misn V vend visn c data n c' :
  conn_inv W false misn V vend visn c -> zlen W + zlen data + 2 < 2 ^ 32 -> write c data = (n, c') ->
  conn_inv (W ++ take (Z.to_nat n) data) false misn V vend visn c' /\
  inbound_stream c' = inbound_stream c.
Proof.
  intros Hc Hb. unfold write. destruct data as [|x data]; [intros [= <- <-]|].
  { rewrite take_nil, app_nil_r. by split. }
  set (d := x :: data) in *. destruct (ByteStream.write (stream_in (_sender c)) d) as [m st] eqn:Ew.
  intros [= <- <-].
  match goal with |- context [send_segments ?x] => destruct (send_segments_parts x) as (P1 & _) end.
  split; [|unfold inbound_stream; by rewrite P1].
  by apply send_segments_inv, fill_inv, stream_write_inv.
Qed.

(** ** The invariant of the system *)

(** How an endpoint's own stream changes: more bytes while it is open. *)
Definition evolves (W : list byte) (e : bool) (W' : list byte) (e' : bool) : Prop :=
  exists D, W' = W ++ D /\ (e = true -> D = [] /\ e' = true).

Lemma evolves_refl W e : evolves W e W e.
Proof. exists []. by rewrite app_nil_r. Qed.

Lemma emitted_evolves W e W' e' isn seg :
  evolves W e W' e' -> emitted W e isn seg -> emitted W' e' isn seg.
Proof.
  intros (D & -> & He) H. destruct e; [|by apply emitted_grow].
  destruct (He eq_refl) as [-> ->]. by rewrite app_nil_r.
Qed.

Lemma conn_inv_evolves W mend misn V vend V' vend' visn c :
  zlen V + 2 < 2 ^ 32 -> evolves V vend V' vend' ->
  conn_inv W mend misn V vend visn c -> conn_inv W mend misn V' vend' visn c.
Proof.
  intros HV (D & -> & He) [H1 H2 H3 H4 H5 H6]. destruct vend.
  - destruct (He eq_refl) as [-> ->]. by rewrite app_nil_r.
  - constructor; try done; [|auto]. apply receives_grow; auto. lia.
Qed.

Lemma sub_grow {A} (W D : list A) n : n <= zlen W -> sub (W ++ D) 0 n = sub W 0 n.
Proof.
  intros Hn. unfold sub. rewrite !drop_0, zlen_app. pose proof (zlen_nonneg D).
  rewrite take_app_le by (unfold zlen in *; lia). f_equal. lia.
Qed.

(** One side: [x] with its peer [y] and the segments [x] has handed over. *)
Record side_inv (x y : endpoint) (net : list TCPSegment) : Prop := {
  si_conn : conn_inv (written x) (ended x) (isn_of x) (written y) (ended y) (isn_of y) (conn x);
  si_net : Forall (emitted (written x) (ended x) (isn_of x)) net;
  si_read : ByteStream.bytes_read (inbound_stream (conn x)) = zlen (got x);
  si_got : got x = sub (written y) 0 (zlen (got x));
  si_small : zlen (written x) + 2 < 2 ^ 32;
  si_isn : wi_wf (isn_of x)
}.

(** What a step of [x] does to the peer's side. *)
Lemma side_inv_peer x x' y net :
  side_inv y x net -> zlen (written x) + 2 < 2 ^ 32 -> isn_of x' = isn_of x ->
  evolves (written x) (ended x) (written x') (ended x') -> side_inv y x' net.
Proof.
  intros [H1 H2 H3 H4 H5 H6] Hx Hi Hev. constructor; try done.
  - rewrite Hi. by eapply conn_inv_evolves.
  - destruct Hev as (D & -> & _). rewrite sub_grow; [done|].
    pose proof (f_equal zlen H4) as Hl. pose proof (zlen_nonneg (written x)).
    pose proof (zlen_nonneg (got y)). rewrite zlen_sub in Hl by lia. lia.
Qed.

(** Time does not touch what is read. *)
Lemma tick_reads c ms :
  ByteStream.bytes_read (inbound_stream (tick c ms)) = ByteStream.bytes_read (inbound_stream c).
Proof.
  unfold tick. destruct (negb (_active c)); [done|]. destruct (_ <? _); [done|].
  unfold inbound_stream.
  match goal with |- context [send_segments ?z] => by destruct (send_segments_parts z) as (-> & _) end.
Qed.

(** A new state of [x] that keeps its streams. *)
Lemma side_same x y net out c :
  side_inv x y net -> Forall (emitted (written x) (ended x) (isn_of x)) out ->
  conn_inv (written x) (ended x) (isn_of x) (written y) (ended y) (isn_of y) c ->
  ByteStream.bytes_read (inbound_stream c) = ByteStream.bytes_read (inbound_stream (conn x)) ->
  side_inv (with_conn x c) y (net ++ out) /\ isn_of (with_conn x c) = isn_of x /\
  evolves (written x) (ended x) (written (with_conn x c)) (ended (with_conn x c)).
Proof.
  intros [H1 H2 H3 H4 H5 H6] Ho Hc Hrd. pose proof (ci_ended _ _ _ _ _ _ _ Hc) as He.
  pose proof (ci_isn _ _ _ _ _ _ _ Hc) as Hi.
  assert (Hi' : isn_of (with_conn x c) = isn_of x) by done.
  assert (He' : ended (with_conn x c) = ended x) by done.
  split; [|split; [done|rewrite He'; apply evolves_refl]].
  constructor; rewrite ?Hi', ?He'; try done; [by apply Forall_app|]. cbn. congruence.
Qed.

(** The application reads. *)
Lemma side_read x y net n :
  side_inv x y net -> zlen (written y) + 2 < 2 ^ 32 -> 0 <= n ->
  let x' := {| conn := on_inbound_stream (fun s => snd (ByteStream.read s n)) (conn x);
               written := written x;
               got := got x ++ fst (ByteStream.read (inbound_stream (conn x)) n) |} in
  side_inv x' y (net ++ []) /\ isn_of x' = isn_of x /\
  evolves (written x) (ended x) (written x') (ended x').
Proof.
  intros [H1 H2 H3 H4 H5 H6] Hy Hn x'.
  split; [|split; [done|apply evolves_refl]]. rewrite app_nil_r.
  pose proof (ci_receives _ _ _ _ _ _ _ H1) as Hr. pose proof (rcv_follows _ _ _ Hr) as Hf.
  pose proof (wf_capacity_small _ (rcv_wf _ _ _ Hr)) as Hc.
  rewrite <- (wf_same_capacity _ (rcv_wf _ _ _ Hr)) in Hc.
  destruct (read_out_follows _ _ n Hf ltac:(lia) Hn) as [Hrd Hsub].
  specialize (Hsub [] (eq_sym (sub_0 _ _))). rewrite app_nil_r in Hsub.
  change (_output (_reassembler (_receiver (conn x)))) with (inbound_stream (conn x)) in *.
  set (bs := fst _) in *. rewrite H3 in *.
  pose proof (f_equal zlen H4) as Hl. pose proof (zlen_nonneg (got x)).
  pose proof (zlen_nonneg (written y)). rewrite zlen_sub in Hl by lia. pose proof (zlen_nonneg bs).
  constructor; try done; cbn [x' conn got written].
  - apply read_inv; [lia|done|done].
  - rewrite zlen_app, <- Hrd. done.
  - rewrite zlen_app, sub_add by lia. by rewrite <- H4, Z.add_0_l, <- Hsub.
Qed.

Lemma local_step_inv x y inbox net x' out :
  local_step inbox x x' out -> side_inv x y net ->
  Forall (emitted (written y) (ended y) (isn_of y)) inbox ->
  zlen (written y) + 2 < 2 ^ 32 -> wi_wf (isn_of y) ->
  side_inv x' y (net ++ out) /\ isn_of x' = isn_of x /\
  evolves (written x) (ended x) (written x') (ended x').
Proof.
  intros Hst Hx Hin Hy Hyi. pose proof (si_conn x y net Hx) as Hc.
  destruct Hst as [|data n c He Hb Hwr| |ms|n bs Hn ->|seg c Hseg Hr|].
  - apply side_same; [done|apply Forall_nil_2|by apply send_segments_inv, fill_inv|].
    unfold inbound_stream, connect. by destruct (send_segments_parts (set_sender (conn x) (fill_window (_sender (conn x))))) as (-> & _).
  - rewrite He in Hc. destruct (write_inv _ _ _ _ _ _ _ _ _ Hc Hb Hwr) as [Hc' Hs].
    pose proof (ci_ended _ _ _ _ _ _ _ Hc') as Ee. pose proof (ci_isn _ _ _ _ _ _ _ Hc') as Ei.
    set (x' := Build_endpoint _ _ _).
    assert (He' : ended x' = false) by done. assert (Hi' : isn_of x' = isn_of x) by done.
    assert (Hev : evolves (written x) (ended x) (written x') (ended x')).
    { exists (take (Z.to_nat n) data). split; [done|]. by rewrite He. }
    split; [|done]. destruct Hx as [H1 H2 H3 H4 H5 H6].
    constructor; rewrite ?He', ?Hi'; try done.
    + apply Forall_app. split; [|apply Forall_nil_2]. eapply Forall_impl; [exact H2|].
      intros seg. rewrite <- He'. by apply emitted_evolves.
    + cbn. by rewrite Hs.
    + cbn. rewrite zlen_app, zlen_take. pose proof (zlen_nonneg data). lia.
  - pose proof (end_inv _ _ _ _ _ _ _ Hc) as Hc'.
    pose proof (ci_ended _ _ _ _ _ _ _ Hc') as Ee. pose proof (ci_isn _ _ _ _ _ _ _ Hc') as Ei.
    set (x' := with_conn _ _).
    assert (He' : ended x' = true) by done. assert (Hi' : isn_of x' = isn_of x) by done.
    assert (Hev : evolves (written x) (ended x) (written x') (ended x')).
    { exists []. by rewrite app_nil_r. }
    split; [|done]. destruct Hx as [H1 H2 H3 H4 H5 H6].
    constructor; rewrite ?He', ?Hi'; try done.
    + apply Forall_app. split; [|apply Forall_nil_2]. eapply Forall_impl; [exact H2|].
      intros seg. rewrite <- He'. by apply emitted_evolves.
    + change (got x') with (got x). rewrite <- H3. unfold x', inbound_stream, end_input_stream. cbn [with_conn conn].
      match goal with |- context [send_segments ?z] => by destruct (send_segments_parts z) as (-> & _) end.
  - apply side_same; [done|apply Forall_nil_2|by apply tick_inv|]. apply tick_reads.
  - by apply side_read.
  - rewrite Forall_forall in Hin. destruct (segment_received_inv _ _ _ _ _ _ Hy Hyi seg (conn x) (Hin _ Hseg) Hc)
      as (c' & Hr' & Hc' & Hrd). rewrite Hr in Hr'. injection Hr' as <-.
    apply side_same; [done|apply Forall_nil_2|done|done].
  - apply side_same; [done| | |done].
    + apply (ci_out _ _ _ _ _ _ _ Hc).
    + by destruct Hc; constructor.
Qed.

Definition system_inv (s : system) : Prop :=
  side_inv (left s) (right s) (to_right s) /\ side_inv (right s) (left s) (to_left s).

Lemma system_step_inv s s' : system_step s s' -> system_inv s -> system_inv s'.
Proof.
  intros Hst [HL HR]. destruct Hst as [s e' out Hl|s e' out Hl].
  - destruct (local_step_inv _ _ _ _ _ _ Hl HL (si_net _ _ _ HR) (si_small _ _ _ HR) (si_isn _ _ _ HR))
      as (H1 & H2 & H3). split; [done|]. by apply (side_inv_peer (left s)); [|apply HL|..].
  - destruct (local_step_inv _ _ _ _ _ _ Hl HR (si_net _ _ _ HL) (si_small _ _ _ HL) (si_isn _ _ _ HL))
      as (H1 & H2 & H3). split; [|done]. by apply (side_inv_peer (right s)); [|apply HR|..].
Qed.

Lemma new_side cfg rnd cfg' rnd' :
  cfg_ok cfg -> cfg_ok cfg' -> side_inv (new_endpoint cfg rnd) (new_endpoint cfg' rnd') [].
Proof.
  intros Hc Hc'. pose proof Hc as (H1 & H2 & H3 & H4).
  constructor; try done; [|apply (chosen_isn_wf cfg rnd Hc)].
  constructor; try done; [by apply sends_new|by apply receives_new].
Qed.

Lemma reachable_inv cfgL cfgR rndL rndR s :
  cfg_ok cfgL -> cfg_ok cfgR -> rtc system_step (start cfgL cfgR rndL rndR) s -> system_inv s.
Proof.
  intros HL HR Hs. assert (H0 : system_inv (start cfgL cfgR rndL rndR)) by (split; by apply new_side).
  revert H0. induction Hs as [|x y z Hxy _ IH]; [done|]. intros Hx. apply IH. by eapply system_step_inv.
Qed.

(** What one side's invariant says of the bytes it has. *)
Lemma side_delivers x y net :
  side_inv x y net ->
  got x ++ ByteStream._buff (inbound_stream (conn x)) =
    take (Z.to_nat (ByteStream.bytes_written (inbound_stream (conn x)))) (written y) /\
  (ByteStream.input_ended (inbound_stream (conn x)) = true ->
   got x ++ ByteStream._buff (inbound_stream (conn x)) = written y /\ ended y = true).
Proof.
  intros [H1 H2 H3 H4 H5 H6]. destruct H1 as [A1 A2 A3 A4 A5 A6].
  pose proof (rcv_follows _ _ _ A2) as Hf.
  destruct (follows_taken (written y) (_reassembler (_receiver (conn x))) (got x) Hf) as [Ht He];
    [done|done|]. split; [done|]. intros Hend. split; [by apply He|].
  destruct (fol_ended _ _ Hf Hend) as [Hw Hp]. destruct (ended y); [done|].
  rewrite A3 in Hp by done. pose proof (wf_room _ (fol_wf _ _ Hf)).
  pose proof (wf_written _ (fol_wf _ _ Hf)) as (_ & _ & Hx).
  pose proof (wf_capacity_nonneg _ (fol_wf _ _ Hf)). unfold ULONG_LONG_MAX in Hp. lia.
Qed.

(** ** Running the system *)

(** The steps as commands; [Receive i] delivers the [i]-th segment ever handed
    to the network in that direction. A command that is not allowed does
    nothing. *)
Inductive command :=
| Connect | Write (data : list byte) | End | Tick (ms : Z) | Read (n : Z) | Receive (i : nat) | Transmit.

Definition exec_local (inbox : list TCPSegment) (e : endpoint) (cmd : command)
    : endpoint * list TCPSegment :=
  match cmd with
  | Connect => (with_conn e (connect (conn e)), [])
  | Write data =>
      if negb (ended e) && (zlen (written e) + zlen data + 2 <? 2 ^ 32) then
        let '(n, c) := write (conn e) data in
        ({| conn := c; written := written e ++ take (Z.to_nat n) data; got := got e |}, [])
      else (e, [])
  | End => (with_conn e (end_input_stream (conn e)), [])
  | Tick ms => (with_conn e (tick (conn e) ms), [])
  | Read n =>
      if 0 <=? n then
        ({| conn := on_inbound_stream (fun s => snd (ByteStream.read s n)) (conn e);
            written := written e;
            got := got e ++ fst (ByteStream.read (inbound_stream (conn e)) n) |}, [])
      else (e, [])
  | Receive i =>
      match inbox !! i with
      | Some seg => match segment_received (conn e) seg with
                    | Ok c => (with_conn e c, [])
                    | Throw _ => (e, [])
                    end
      | None => (e, [])
      end
  | Transmit => (with_conn e (set_segments_out (conn e) []), segments_out (conn e))
  end.

Lemma exec_local_step inbox e cmd :
  local_step inbox e (exec_local inbox e cmd).1 (exec_local inbox e cmd).2 \/
  exec_local inbox e cmd = (e, []).
Proof.
  destruct cmd as [|data| |ms|n|i|]; simpl; try (left; constructor; done).
  - destruct (ended e) eqn:He; [by right|]. simpl.
    destruct (Z.ltb_spec (zlen (written e) + zlen data + 2) (2 ^ 32)); [|by right].
    destruct (write (conn e) data) as [n c] eqn:E. left. by eapply local_write.
  - destruct (Z.leb_spec 0 n); [|by right]. left. by apply local_read.
  - destruct (inbox !! i) as [seg|] eqn:E; [|by right].
    destruct (segment_received (conn e) seg) as [c|] eqn:Er; [|by right].
    left. eapply local_receive; [|done]. by eapply list_elem_of_lookup_2.
Qed.

(** [true] is the left side. *)
Definition exec (s : system) (cmd : bool * command) : system :=
  if cmd.1 then
    let '(e, out) := exec_local (to_left s) (left s) cmd.2 in
    {| left := e; right := right s; to_right := to_right s ++ out; to_left := to_left s |}
  else
    let '(e, out) := exec_local (to_right s) (right s) cmd.2 in
    {| left := left s; right := e; to_right := to_right s; to_left := to_left s ++ out |}.

Lemma exec_reach cmds s : rtc system_step s (fold_left exec cmds s).
Proof.
  revert s. induction cmds as [|[b cmd] cmds IH]; intros s; [constructor|]. simpl.
  assert (H : rtc system_step s (exec s (b, cmd))); [|by etrans].
  unfold exec. destruct b; cbn [fst snd].
  - destruct (exec_local_step (to_left s) (left s) cmd) as [H|H].
    + destruct (exec_local _ _ _) as [e out]. eapply rtc_l; [by apply step_left|constructor].
    + rewrite H, app_nil_r. by destruct s.
  - destruct (exec_local_step (to_right s) (right s) cmd) as [H|H].
    + destruct (exec_local _ _ _) as [e out]. eapply rtc_l; [by apply step_right|constructor].
    + rewrite H, app_nil_r. by destruct s.
Qed.

(** A transfer of two bytes in which the first data segment is lost and the
    retransmission arrives twice. *)
Definition example_transfer : system :=
  fold_left exec
    [(true, Connect); (true, Transmit); (false, Receive 0); (false, Transmit); (true, Receive 0);
     (true, Write [Byte.x61; Byte.x62]); (true, End); (true, Transmit); (false, Receive 1);
     (true, Tick 1000); (true, Transmit); (false, Receive 4); (false, Receive 4);
     (false, Receive 3); (false, Read 1)]
    (start test_config test_config 0 0).

Example example_transfer_delivers :
  got (right example_transfer) = [Byte.x61] /\
  ByteStream._buff (inbound_stream (conn (right example_transfer))) = [Byte.x62] /\
  ByteStream.input_ended (inbound_stream (conn (right example_transfer))) = true.
Proof. vm_compute. split_and!; reflexivity. Qed.

(** ** Properties *)

(** C1: Reliable delivery. Two endpoints talk over a network that loses, repeats
    and reorders segments at will, with any interleaving of writes, reads,
    ticks and deliveries. At every moment, what the application on one side
    has read followed by what is buffered for it is a prefix of what the
    application on the other side has written; and when the inbound stream
    reports its end, it is all of it and the writer has indeed ended. *)
Theorem transport_safe cfgL cfgR rndL rndR s :
  cfg_ok cfgL -> cfg_ok cfgR -> rtc system_step (start cfgL cfgR rndL rndR) s ->
  let delivered x := got x ++ ByteStream._buff (inbound_stream (conn x)) in
  let finished x := ByteStream.input_ended (inbound_stream (conn x)) in
  (delivered (right s) `prefix_of` written (left s) /\
   (finished (right s) = true -> delivered (right s) = written (left s) /\ ended (left s) = true)) /\
  (delivered (left s) `prefix_of` written (right s) /\
   (finished (left s) = true -> delivered (left s) = written (right s) /\ ended (right s) = true)).
Proof.
  intros HL HR Hs. destruct (reachable_inv _ _ _ _ _ HL HR Hs) as [Hl Hr].
  apply side_delivers in Hl as [Hl1 Hl2]. apply side_delivers in Hr as [Hr1 Hr2].
  cbn zeta. split; (split; [|done]).
  - rewrite Hr1. apply prefix_take.
  - rewrite Hl1. apply prefix_take.
Qed.

Lemma transport_safe_witness :
  got (right example_transfer) ++ ByteStream._buff (inbound_stream (conn (right example_transfer)))
  = written (left example_transfer) /\ ended (left example_transfer) = true.
Proof.
  destruct (transport_safe test_config test_config 0 0 example_transfer) as [[_ H] _].
  - exact test_config_ok.
  - exact test_config_ok.
  - apply exec_reach.
  - apply H. vm_compute. reflexivity.
Defined.

(** No exceptions. In every reachable state of the system, every segment
    either side may be handed by the network is processed without throwing. *)
Theorem transport_no_exception cfgL cfgR rndL rndR s seg :
  cfg_ok cfgL -> cfg_ok cfgR -> rtc system_step (start cfgL cfgR rndL rndR) s ->
  (seg ∈ to_right s -> exists c, segment_received (conn (right s)) seg = Ok c) /\
  (seg ∈ to_left s -> exists c, segment_received (conn (left s)) seg = Ok c).
Proof.
  intros HL HR Hs. destruct (reachable_inv _ _ _ _ _ HL HR Hs) as [Hl Hr]. split; intros Hin.
  - pose proof (si_net _ _ _ Hl) as Hn. rewrite Forall_forall in Hn.
    destruct (segment_received_inv _ _ _ _ _ _ (si_small _ _ _ Hl) (si_isn _ _ _ Hl) seg _
      (Hn _ Hin) (si_conn _ _ _ Hr)) as (c & Hc & _). by exists c.
  - pose proof (si_net _ _ _ Hr) as Hn. rewrite Forall_forall in Hn.
    destruct (segment_received_inv _ _ _ _ _ _ (si_small _ _ _ Hr) (si_isn _ _ _ Hr) seg _
      (Hn _ Hin) (si_conn _ _ _ Hl)) as (c & Hc & _). by exists c.
Qed.

Lemma transport_no_exception_witness :
  exists c, segment_received (conn (right example_transfer)) (segment_of_syn (wrapping_int32 3)) = Ok c.
Proof.
  destruct (transport_no_exception test_config test_config 0 0 example_transfer
    (segment_of_syn (wrapping_int32 3))) as [H _].
  - exact test_config_ok.
  - exact test_config_ok.
  - apply exec_reach.
  - apply H. apply (list_elem_of_lookup_2 _ 0). vm_compute. reflexivity.
Defined.
