(* ===== verification/IPv4Header.v ===== *)
(** * IPv4 headers

    Models [IPv4Header] of [src/libsponge/tcp_helpers/ipv4_header.hh] and
    [.cc]: the fields, [parse], [serialize], the payload length and the
    pseudo-header sum. *)

From S2P Require Import Prelude Buffer Parser InternetChecksum TCPHeader.

(** ** Data and operations *)

Definition LENGTH : Z := 20.
Definition DEFAULT_TTL : Z := 128.
Definition PROTO_TCP : Z := 6.

Record IPv4Header := {
  ver : Z;
  hlen : Z;
  tos : Z;
  len : Z;
  id : Z;
  df : bool;
  mf : bool;
  offset : Z;
  ttl : Z;
  proto : Z;
  cksum : Z;
  src : Z;
  dst : Z
}.

(** The default member initializers. *)
Definition default_IPv4Header : IPv4Header :=
  {| ver := 4; hlen := LENGTH / 4; tos := 0; len := 0; id := 0; df := true; mf := false;
     offset := 0; ttl := DEFAULT_TTL; proto := PROTO_TCP; cksum := 0; src := 0; dst := 0 |}.

(** Returns the result, the header after the call and the parser. *)
Definition parse (h : IPv4Header) (p : NetParser) : result (ParseResult * IPv4Header * NetParser) :=
  let original_serialized_version := buffer p in
  let data_size := zlen (str (buffer p)) in
  if data_size <? LENGTH then Ok (PacketTooShort, h, p)
  else
    '(first_byte, p) ← parse_u8 p;
    '(tos, p) ← parse_u8 p;
    '(len, p) ← parse_u16 p;
    '(id, p) ← parse_u16 p;
    '(fo_val, p) ← parse_u16 p;
    '(ttl, p) ← parse_u8 p;
    '(proto, p) ← parse_u8 p;
    '(cksum, p) ← parse_u16 p;
    '(src, p) ← parse_u32 p;
    '(dst, p) ← parse_u32 p;
    let ver := Z.shiftr first_byte 4 in
    let hlen := Z.land first_byte 15 in
    let h := {| ver := ver; hlen := hlen; tos := tos; len := len; id := id;
                df := bit_set fo_val 16384; mf := bit_set fo_val 8192;
                offset := Z.land fo_val 8191; ttl := ttl; proto := proto; cksum := cksum;
                src := src; dst := dst |} in
    if data_size <? 4 * hlen then Ok (PacketTooShort, h, p)
    else if negb (ver =? 4) then Ok (WrongIPVersion, h, p)
    else if hlen <? 5 then Ok (HeaderTooShort, h, p)
    else if negb (data_size =? len) then Ok (TruncatedPacket, h, p)
    else
      p ← skip_prefix (u64 (hlen * 4 - LENGTH)) p;
      if Parser.error p then Ok (get_error p, h, p)
      else
        let check := add (new_InternetChecksum 0)
                       (sub (str original_serialized_version) 0 (4 * hlen)) in
        if negb (value check =? 0) then Ok (BadChecksum, h, p) else Ok (NoError, h, p).

Definition first_byte (h : IPv4Header) : Z := u8 (Z.lor (Z.shiftl (ver h) 4) (Z.land (hlen h) 15)).
Definition fo_val (h : IPv4Header) : Z :=
  u16 (Z.lor (Z.lor (flag (df h) 16384) (flag (mf h) 8192)) (Z.land (offset h) 8191)).

Definition serialize (h : IPv4Header) : result (list byte) :=
  if negb (ver h =? 4) then Throw (runtime_error "wrong IP version")
  else if 4 * hlen h <? LENGTH then Throw (runtime_error "IP header too short")
  else
    let ret := unparse_u8 [] (first_byte h) in
    let ret := unparse_u8 ret (tos h) in
    let ret := unparse_u16 ret (len h) in
    let ret := unparse_u16 ret (id h) in
    let ret := unparse_u16 ret (fo_val h) in
    let ret := unparse_u8 ret (ttl h) in
    let ret := unparse_u8 ret (proto h) in
    let ret := unparse_u16 ret (cksum h) in
    let ret := unparse_u32 ret (src h) in
    let ret := unparse_u32 ret (dst h) in
    Ok (resize ret (4 * hlen h)).

Definition payload_length (h : IPv4Header) : Z := u16 (len h - 4 * hlen h).

Definition pseudo_cksum (h : IPv4Header) : Z :=
  let pcksum := u32 (Z.shiftr (src h) 16 + Z.land (src h) 65535) in
  let pcksum := u32 (pcksum + (Z.shiftr (dst h) 16 + Z.land (dst h) 65535)) in
  let pcksum := u32 (pcksum + proto h) in
  u32 (pcksum + payload_length h).

Definition set_cksum (h : IPv4Header) (c : Z) : IPv4Header :=
  {| ver := ver h; hlen := hlen h; tos := tos h; len := len h; id := id h; df := df h;
     mf := mf h; offset := offset h; ttl := ttl h; proto := proto h; cksum := c;
     src := src h; dst := dst h |}.

(** ** Lemmas *)

(** Every field fits its type; the version is 4 and the header has 20 to 60
    bytes. *)
Record wf_IPv4Header (h : IPv4Header) : Prop := {
  wf_ver : ver h = 4;
  wf_hlen : 5 <= hlen h < 16;
  wf_tos : 0 <= tos h < 2 ^ 8;
  wf_len : 0 <= len h < 2 ^ 16;
  wf_id : 0 <= id h < 2 ^ 16;
  wf_offset : 0 <= offset h < 2 ^ 13;
  wf_ttl : 0 <= ttl h < 2 ^ 8;
  wf_proto : 0 <= proto h < 2 ^ 8;
  wf_ip_cksum : 0 <= cksum h < 2 ^ 16;
  wf_src : 0 <= src h < 2 ^ 32;
  wf_dst : 0 <= dst h < 2 ^ 32
}.

Definition before_cksum (h : IPv4Header) : list byte :=
  be_bytes 1 (first_byte h) ++ be_bytes 1 (tos h) ++ be_bytes 2 (len h) ++ be_bytes 2 (id h) ++
  be_bytes 2 (fo_val h) ++ be_bytes 1 (ttl h) ++ be_bytes 1 (proto h).
Definition after_cksum (h : IPv4Header) : list byte :=
  be_bytes 4 (src h) ++ be_bytes 4 (dst h) ++ replicate (Z.to_nat (4 * hlen h) - 20) Byte.x00.

Lemma ip_zlen_before h : zlen (before_cksum h) = 10.
Proof. unfold before_cksum. rewrite !zlen_app, !zlen_be_bytes. lia. Qed.

Lemma ip_zlen_after h : 5 <= hlen h -> zlen (after_cksum h) = 4 * hlen h - 12.
Proof.
  intros. unfold after_cksum. rewrite !zlen_app, !zlen_be_bytes. unfold zlen.
  rewrite length_replicate. lia.
Qed.

Lemma ip_serialize_layout h :
  ver h = 4 -> 5 <= hlen h ->
  serialize h = Ok (before_cksum h ++ be_bytes 2 (cksum h) ++ after_cksum h).
Proof.
  intros Hv Hl. unfold serialize, LENGTH. rewrite Hv. cbn [Z.eqb Pos.eqb negb].
  destruct (Z.ltb_spec (4 * hlen h) 20); [lia|].
  unfold unparse_u8, unparse_u16, unparse_u32. rewrite !unparse_int_loop_spec, app_nil_l.
  f_equal. unfold resize. rewrite take_ge.
  - rewrite !length_app, !length_be_bytes. unfold before_cksum, after_cksum.
    rewrite <- !app_assoc. reflexivity.
  - rewrite !length_app, !length_be_bytes. lia.
Qed.

(** The packed bytes keep their fields apart. *)
Lemma first_byte_fields h :
  ver h = 4 -> 0 <= hlen h < 16 ->
  Z.shiftr (first_byte h) 4 = 4 /\ Z.land (first_byte h) 15 = hlen h.
Proof.
  intros Hv Hl. unfold first_byte. rewrite Hv.
  assert (H : forall n, (n < 16)%nat -> let x := u8 (Z.lor (Z.shiftl 4 4) (Z.land (Z.of_nat n) 15)) in
    Z.shiftr x 4 = 4 /\ Z.land x 15 = Z.of_nat n).
  { intros n Hn. do 16 (destruct n as [|n]; [by vm_compute|]). lia. }
  specialize (H (Z.to_nat (hlen h)) ltac:(lia)). by rewrite Z2Nat.id in H by lia.
Qed.

Lemma fo_val_land h m :
  Z.land (fo_val h) m =
  Z.lor (Z.lor (Z.land (flag (df h) 16384) (Z.land 65535 m)) (Z.land (flag (mf h) 8192) (Z.land 65535 m)))
    (Z.land (offset h) (Z.land 8191 (Z.land 65535 m))).
Proof.
  unfold fo_val, u16. rewrite <- Z.land_ones by lia. change (Z.ones 16) with 65535.
  rewrite <- Z.land_assoc, !Z.land_lor_distr_l. by rewrite <- !Z.land_assoc.
Qed.

Lemma fo_val_fields h :
  0 <= offset h < 2 ^ 13 ->
  bit_set (fo_val h) 16384 = df h /\ bit_set (fo_val h) 8192 = mf h /\
  Z.land (fo_val h) 8191 = offset h.
Proof.
  intros Ho. unfold bit_set. rewrite !fo_val_land.
  change (Z.land 8191 (Z.land 65535 16384)) with 0. change (Z.land 8191 (Z.land 65535 8192)) with 0.
  change (Z.land 8191 (Z.land 65535 8191)) with (Z.ones 13). rewrite !Z.land_0_r, !Z.lor_0_r.
  rewrite Z.land_ones, (Z.mod_small (offset h)) by lia.
  split_and!; [by destruct (df h), (mf h)..|]. destruct (df h), (mf h); apply Z.lor_0_l.
Qed.

Lemma sub_app_exact {A} (s t : list A) : sub (s ++ t) 0 (zlen s) = s.
Proof.
  unfold sub. rewrite drop_0, zlen_app. pose proof (zlen_nonneg t).
  replace (Z.to_nat _) with (length s) by (unfold zlen in *; lia). by rewrite take_app_length.
Qed.

(** Parsing what [serialize] wrote, in front of the payload its length field
    announces, when the checksum is right. *)
Lemma ip_parse_layout h h0 p s rest :
  wf_IPv4Header h -> s = before_cksum h ++ be_bytes 2 (cksum h) ++ after_cksum h ->
  at_rest p (s ++ rest) -> len h = zlen (s ++ rest) ->
  value (add (new_InternetChecksum 0) s) = 0 ->
  exists p', parse h0 p = Ok (NoError, h, p') /\ at_rest p' rest.
Proof.
  intros Hwf -> Hp Hlen Hck.
  assert (Hl4 : zlen (before_cksum h ++ be_bytes 2 (cksum h) ++ after_cksum h) = 4 * hlen h).
  { rewrite !zlen_app, ip_zlen_before, zlen_be_bytes, ip_zlen_after by apply Hwf. lia. }
  destruct Hwf as [W1 W2 W3 W4 W5 W6 W7 W8 W9 W10 W11].
  destruct (first_byte_fields h W1 ltac:(lia)) as [F1 F2]. destruct (fo_val_fields h W6) as (O1 & O2 & O3).
  pose proof (zlen_nonneg rest). set (s := _ ++ be_bytes 2 _ ++ _) in *.
  unfold parse. assert (Hstr : str (buffer p) = s ++ rest) by apply Hp. rewrite Hstr.
  rewrite zlen_app in Hlen |- *. destruct (Z.ltb_spec (zlen s + zlen rest) LENGTH); [unfold LENGTH in *; lia|].
  assert (Hf : 0 <= first_byte h < 2 ^ 8) by apply u8_range.
  assert (Hv : 0 <= fo_val h < 2 ^ 16) by apply u16_range.
  unfold s, before_cksum, after_cksum in Hp. rewrite <- !app_assoc in Hp.
  unfold parse_u8, parse_u16, parse_u32. do 10 parse_field. rewrite F1, F2, O1, O2, O3.
  destruct (Z.ltb_spec (zlen s + zlen rest) (4 * hlen h)); [lia|]. cbn [Z.eqb Pos.eqb negb].
  destruct (Z.ltb_spec (hlen h) 5); [lia|]. rewrite (proj2 (Z.eqb_eq _ _)) by lia. cbn [negb].
  assert (u64 (hlen h * 4 - LENGTH) =
    zlen (replicate (Z.to_nat (4 * hlen h) - 20) Byte.x00)) as ->.
  { unfold LENGTH, zlen. rewrite u64_small, length_replicate by lia. lia. }
  match goal with H : at_rest ?q (replicate _ _ ++ rest) |- _ =>
    destruct (skip_prefix_spec q _ rest H) as (p' & -> & Hp') end.
  cbn [mbind result_bind]. destruct (check_size_ok p' 0 rest Hp' (zlen_nonneg rest)) as [_ ->].
  rewrite <- Hl4, sub_app_exact, Hck. cbn [Z.eqb negb]. exists p'. split; [|done].
  destruct h. simpl in *. by rewrite W1.
Qed.

(** The pseudo-header sum is the sum of the six 16-bit words of the pseudo
    header, without overflow. *)
Lemma pseudo_cksum_eq h :
  wf_IPv4Header h ->
  pseudo_cksum h = src h / 2 ^ 16 + src h mod 2 ^ 16 + dst h / 2 ^ 16 + dst h mod 2 ^ 16 + proto h
                   + payload_length h /\ 0 <= pseudo_cksum h < 2 ^ 20.
Proof.
  intros [W1 W2 W3 W4 W5 W6 W7 W8 W9 W10 W11]. unfold pseudo_cksum.
  pose proof (u16_range (len h - 4 * hlen h)). fold (payload_length h) in H.
  rewrite !Z.shiftr_div_pow2 by lia. change 65535 with (Z.ones 16). rewrite !Z.land_ones by lia. word.
Qed.
(** Any bytes are parsed without an exception. *)
Lemma ip_parse_total h p :
  wf_Buffer (_buffer p) -> exists r h' p', parse h p = Ok (r, h', p') /\ shrinks p p'.
Proof.
  intros Hw. unfold parse. destruct (_ <? LENGTH).
  { do 3 eexists. split; [done|]. by split; [|lia]. }
  unfold parse_u8, parse_u16, parse_u32, shrinks. do 10 parse_any.
  repeat match goal with |- context [if ?b then Ok (?r, _, _) else _] =>
    lazymatch b with Parser.error _ => fail | _ =>
      destruct b; [do 3 eexists; split; [done|]; split; [done|lia]|] end end.
  match goal with |- context [skip_prefix ?n ?q] =>
    destruct (skip_prefix_total n q) as (q' & -> & [? ?]); [done|apply u64_range|] end.
  cbn [mbind result_bind]. cbn zeta.
  repeat match goal with |- context [if ?b then _ else _] => destruct b end;
    (do 3 eexists; split; [done|]; split; [done|lia]).
Qed.

