(* ===== verification/IPv4Datagram.v ===== *)
(** * IPv4 datagrams

    Models [IPv4Datagram] of [src/libsponge/tcp_helpers/ipv4_datagram.hh] and
    [.cc]: header and payload, [parse] and [serialize] with the header
    checksum. *)

From S2P Require Import Prelude Buffer Parser InternetChecksum TCPHeader IPv4Header.

(** ** Data and operations *)

Record IPv4Datagram := {
  _header : IPv4Header;
  _payload : BufferList
}.

Definition default_IPv4Datagram : IPv4Datagram :=
  {| _header := default_IPv4Header; _payload := [] |}.

Definition header (d : IPv4Datagram) : IPv4Header := _header d.
Definition payload (d : IPv4Datagram) : BufferList := _payload d.

(** The return value of [IPv4Header::parse] is not looked at. *)
Definition parse (d : IPv4Datagram) (buf : Buffer) : result (ParseResult * IPv4Datagram) :=
  '(_, h, p) ← IPv4Header.parse (_header d) (new_NetParser buf);
  let d := {| _header := h; _payload := [Parser.buffer p] |} in
  if negb (bl_size (_payload d) =? payload_length (_header d)) then Ok (PacketTooShort, d)
  else Ok (get_error p, d).

Definition serialize (d : IPv4Datagram) : result BufferList :=
  if negb (bl_size (_payload d) =? payload_length (_header d)) then
    Throw (runtime_error "IPv4Datagram::serialize: payload is wrong size")
  else
    let header_out := set_cksum (_header d) 0 in
    header_zero_checksum ← IPv4Header.serialize header_out;
    let check := add (new_InternetChecksum 0) header_zero_checksum in
    let header_out := set_cksum header_out (value check) in
    hdr ← IPv4Header.serialize header_out;
    Ok (bl_append (bl_append [] [new_Buffer hdr]) (_payload d)).

(** ** Lemmas *)

Lemma wf_set_ip_cksum h c : wf_IPv4Header h -> 0 <= c < 2 ^ 16 -> wf_IPv4Header (set_cksum h c).
Proof. by intros [] ?; constructor. Qed.

(** The checksum [serialize] computes, and that it checks out. *)
Definition header_cksum (h : IPv4Header) : Z :=
  value (add (new_InternetChecksum 0) (before_cksum h ++ be_bytes 2 0 ++ after_cksum h)).

Lemma header_cksum_ok h :
  wf_IPv4Header h ->
  0 <= header_cksum h < 2 ^ 16 /\
  value (add (new_InternetChecksum 0)
    (before_cksum h ++ be_bytes 2 (header_cksum h) ++ after_cksum h)) = 0.
Proof.
  intros Hwf. pose proof (wf_hlen h Hwf) as Hl. pose proof (ip_zlen_before h) as L1.
  pose proof (ip_zlen_after h ltac:(lia)) as L2. split.
  - pose proof (sum_of 0 (before_cksum h ++ be_bytes 2 0 ++ after_cksum h)) as Hsum.
    pose proof (word_sum_bound false (before_cksum h ++ be_bytes 2 0 ++ after_cksum h)) as Hwb.
    rewrite !zlen_app, L1, L2, zlen_be_bytes in *.
    destruct (value_spec (add (new_InternetChecksum 0)
      (before_cksum h ++ be_bytes 2 0 ++ after_cksum h))) as (Hv & _); [rewrite Hsum; lia|].
    unfold header_cksum. lia.
  - apply checksum_verifies_lem; [lia|by rewrite L1|rewrite L1, L2; lia].
Qed.

Lemma datagram_serialize_layout d :
  wf_IPv4Header (_header d) -> bl_size (_payload d) = payload_length (_header d) ->
  let h := _header d in
  serialize d = Ok ([new_Buffer (before_cksum h ++ be_bytes 2 (header_cksum h) ++ after_cksum h)]
                    ++ _payload d).
Proof.
  intros Hwf Hs h. unfold serialize. rewrite Hs, Z.eqb_refl. cbn [negb].
  pose proof (wf_hlen _ Hwf). pose proof (wf_ver _ Hwf).
  rewrite ip_serialize_layout by (cbn [ver hlen set_cksum]; (done || lia)).
  cbn [mbind result_bind]. rewrite ip_serialize_layout by (cbn [ver hlen set_cksum]; (done || lia)). done.
Qed.

(** [parse] after [serialize]. *)
Lemma datagram_roundtrip_lem d d0 :
  wf_IPv4Header (_header d) ->
  len (_header d) = 4 * hlen (_header d) + zlen (bl_concatenate (_payload d)) ->
  exists bl c p, serialize d = Ok bl /\
    parse d0 (new_Buffer (bl_concatenate bl)) =
      Ok (NoError, {| _header := set_cksum (_header d) c; _payload := [p] |}) /\
    str p = bl_concatenate (_payload d) /\ wf_Buffer p.
Proof.
  intros Hwf Hlen. set (h := _header d) in *. set (pl := bl_concatenate (_payload d)) in *.
  pose proof (wf_len h Hwf) as Hl16. pose proof (wf_hlen h Hwf) as Hhl. pose proof (zlen_nonneg pl) as Hp0.
  assert (Hpl : payload_length h = zlen pl) by (unfold payload_length; rewrite Hlen, u16_small; lia).
  assert (Hsz : bl_size (_payload d) = zlen pl) by (apply (bl_size_spec _ 0); fold pl; lia).
  rewrite datagram_serialize_layout by (done || by rewrite Hsz). fold h.
  destruct (header_cksum_ok h Hwf) as [Hc Hv]. set (c := header_cksum h) in *.
  set (s := before_cksum h ++ be_bytes 2 c ++ after_cksum h) in *.
  assert (Hls : zlen s = 4 * hlen h).
  { unfold s. rewrite !zlen_app, ip_zlen_before, zlen_be_bytes, ip_zlen_after; lia. }
  destruct (ip_parse_layout (set_cksum h c) (_header d0) (new_NetParser (new_Buffer (s ++ pl))) s pl)
    as (p & Hp & He & Hr & Hwb).
  { by apply wf_set_ip_cksum. }
  { done. }
  { apply at_rest_new. rewrite zlen_app. lia. }
  { rewrite zlen_app. cbn [len set_cksum]. lia. }
  { done. }
  eexists _, c, (_buffer p). split; [done|]. split; [|by split].
  cbn [app]. rewrite bl_concatenate_cons, str_new. fold pl. unfold parse. rewrite Hp.
  cbn [mbind result_bind _header _payload]. change (Parser.buffer p) with (_buffer p).
  assert (Hbs : bl_size [_buffer p] = zlen pl).
  { unfold bl_size. cbn [fold_left]. unfold buf_length. rewrite Hr, Z.add_0_l, u64_small by lia. done. }
  rewrite Hbs. change (payload_length (set_cksum h c)) with (payload_length h). rewrite Hpl, Z.eqb_refl.
  cbn [negb]. unfold get_error. by rewrite He.
Qed.

(** Any bytes are parsed without an exception; the payload is one buffer. *)
Lemma datagram_parse_total d buf :
  wf_Buffer buf ->
  exists r h b, parse d buf = Ok (r, {| _header := h; _payload := [b] |}) /\ wf_Buffer b /\
    zlen (str b) <= zlen (str buf).
Proof.
  intros Hw. unfold parse.
  destruct (ip_parse_total (_header d) (new_NetParser buf) Hw) as (r & h & p & -> & [? ?]).
  cbn [mbind result_bind _payload]. destruct (negb _); by eexists _, _, _.
Qed.

(** ** Properties *)

(** Datagram round trip. A datagram whose length field announces its payload
    is written with a correct header checksum, and parsing the bytes gives the
    header (with that checksum) and the payload back. *)
Theorem ipv4_datagram_roundtrip d d0 :
  wf_IPv4Header (_header d) ->
  len (_header d) = 4 * hlen (_header d) + zlen (bl_concatenate (_payload d)) ->
  exists bl c p, serialize d = Ok bl /\
    parse d0 (new_Buffer (bl_concatenate bl)) =
      Ok (NoError, {| _header := set_cksum (_header d) c; _payload := [p] |}) /\
    str p = bl_concatenate (_payload d).
Proof.
  intros Hwf Hlen. destruct (datagram_roundtrip_lem d d0 Hwf Hlen) as (bl & c & p & H1 & H2 & H3 & _).
  by exists bl, c, p.
Qed.

Lemma ipv4_datagram_roundtrip_witness :
  let h := default_IPv4Header in
  let h := {| ver := ver h; hlen := hlen h; tos := 0; len := 22; id := 7; df := true; mf := false;
              offset := 3; ttl := 64; proto := 6; cksum := 0; src := 16909060; dst := 84281096 |} in
  exists bl c p, serialize {| _header := h; _payload := [new_Buffer [Byte.x61; Byte.x62]] |} = Ok bl /\
    parse default_IPv4Datagram (new_Buffer (bl_concatenate bl)) =
      Ok (NoError, {| _header := set_cksum h c; _payload := [p] |}).
Proof.
  intros h0 h. destruct (ipv4_datagram_roundtrip
    {| _header := h; _payload := [new_Buffer [Byte.x61; Byte.x62]] |} default_IPv4Datagram)
    as (bl & c & p & H1 & H2 & _).
  - constructor; vm_compute; done.
  - reflexivity.
  - exists bl, c, p. split; [exact H1|exact H2].
Defined.

(** The bytes of a datagram whose header checksum field is wrong. *)
Definition bad_datagram : list byte :=
  [Byte.x45; Byte.x00; Byte.x00; Byte.x15; Byte.x00; Byte.x00; Byte.x40; Byte.x00; Byte.x80; Byte.x06;
   Byte.xff; Byte.xff; Byte.x00; Byte.x00; Byte.x00; Byte.x00; Byte.x00; Byte.x00; Byte.x00; Byte.x00;
   Byte.x61].

(** Header errors are lost. [IPv4Datagram::parse] does not look at what
    [IPv4Header::parse] returns, and that function leaves no error in the
    parser when the checksum, the version or the length field is wrong: if
    the payload has the announced size and the parser has no error of its own,
    the datagram is accepted whatever the header's parse result was. *)
Theorem ipv4_header_error_lost d buf r h p :
  IPv4Header.parse (_header d) (new_NetParser buf) = Ok (r, h, p) ->
  get_error p = NoError -> bl_size [Parser.buffer p] = payload_length h ->
  parse d buf = Ok (NoError, {| _header := h; _payload := [Parser.buffer p] |}).
Proof.
  intros Hp He Hs. unfold parse. rewrite Hp. cbn [mbind result_bind _header _payload].
  by rewrite Hs, Z.eqb_refl, He.
Qed.

Lemma ipv4_header_error_lost_witness :
  exists h p, IPv4Header.parse default_IPv4Header (new_NetParser (new_Buffer bad_datagram))
      = Ok (BadChecksum, h, p) /\
    parse default_IPv4Datagram (new_Buffer bad_datagram)
      = Ok (NoError, {| _header := h; _payload := [Parser.buffer p] |}).
Proof.
  eexists _, _. split; [vm_compute; reflexivity|].
  apply (ipv4_header_error_lost default_IPv4Datagram (new_Buffer bad_datagram) BadChecksum);
    vm_compute; reflexivity.
Defined.
