(* ===== verification/FdAdapter.v ===== *)
(** * Adapters between TCP segments and datagrams

    Models [FdAdapterBase], [TCPOverUDPSocketAdapter] and [LossyFdAdapter] of
    [src/libsponge/tcp_helpers/fd_adapter.hh], [.cc] and [lossy_fd_adapter.hh].
    A socket is outside the model: [read] is given the datagram that [recv]
    returned, and [write] returns the datagram handed to [sendto]. *)

From S2P Require Import Prelude WrappingIntegers Buffer Parser InternetChecksum TCPHeader TCPSegment.

(** ** Addresses

    [Address] wraps the resolver of the C library. [make] stands for the
    constructor from a dotted quad made by [inet_ntoa] from a number, and a
    port; the laws are the documented behaviour of that conversion. *)
Class AddressLib (Address : Type) := {
  port : Address -> Z;
  ipv4_numeric : Address -> Z;
  make : Z -> Z -> Address;
  address_eqb : Address -> Address -> bool
}.

Class AddressLaws (Address : Type) `{AddressLib Address} := {
  port_make : forall ip p, 0 <= ip < 2 ^ 32 -> 0 <= p < 2 ^ 16 -> port (make ip p) = p;
  ipv4_make : forall ip p, 0 <= ip < 2 ^ 32 -> 0 <= p < 2 ^ 16 -> ipv4_numeric (make ip p) = ip;
  port_range : forall a, 0 <= port a < 2 ^ 16;
  ipv4_range : forall a, 0 <= ipv4_numeric a < 2 ^ 32;
  address_eqb_eq : forall a b, address_eqb a b = true <-> a = b
}.

(** ** The common base *)

Section base.
Context {Address : Type} `{AddressLib Address}.

Record FdAdapterConfig := {
  source : Address;
  destination : Address;
  loss_rate_dn : Z;
  loss_rate_up : Z
}.

Record FdAdapterBase := {
  _cfg : FdAdapterConfig;
  _listen : bool
}.

(** The default configuration: address "0" and port 0, no loss, not listening. *)
Definition new_FdAdapterBase : FdAdapterBase :=
  {| _cfg := {| source := make 0 0; destination := make 0 0; loss_rate_dn := 0;
                loss_rate_up := 0 |};
     _listen := false |}.

Definition set_listening (a : FdAdapterBase) (l : bool) : FdAdapterBase :=
  {| _cfg := _cfg a; _listen := l |}.
Definition listening (a : FdAdapterBase) : bool := _listen a.
Definition config (a : FdAdapterBase) : FdAdapterConfig := _cfg a.
(** Assignment through [config_mutable()] or [config_mut()]. *)
Definition set_config (a : FdAdapterBase) (c : FdAdapterConfig) : FdAdapterBase :=
  {| _cfg := c; _listen := _listen a |}.
Definition set_destination (a : FdAdapterBase) (d : Address) : FdAdapterBase :=
  set_config a {| source := source (_cfg a); destination := d;
                  loss_rate_dn := loss_rate_dn (_cfg a); loss_rate_up := loss_rate_up (_cfg a) |}.
Definition set_source (a : FdAdapterBase) (s : Address) : FdAdapterBase :=
  set_config a {| source := s; destination := destination (_cfg a);
                  loss_rate_dn := loss_rate_dn (_cfg a); loss_rate_up := loss_rate_up (_cfg a) |}.
(** [tick] has an empty body. *)
Definition base_tick (a : FdAdapterBase) (ms_since_last_tick : Z) : FdAdapterBase := a.

(** Setting the ports of a segment before it is written. *)
Definition set_ports (h : TCPHeader) (s d : Z) : TCPHeader :=
  {| sport := s; dport := d; seqno := seqno h; ackno := ackno h; doff := doff h;
     urg := urg h; ack := ack h; psh := psh h; rst := rst h; syn := syn h; fin := fin h;
     win := win h; TCPHeader.cksum := TCPHeader.cksum h; uptr := uptr h |}.

Definition address_segment (a : FdAdapterBase) (seg : TCPSegment) : TCPSegment :=
  {| _header := set_ports (_header seg) (port (source (config a))) (port (destination (config a)));
     _payload := _payload seg |}.

(** ** TCP in UDP *)

(** What [UDPSocket::recv] returns. *)
Record received_datagram := {
  source_address : Address;
  datagram_payload : list byte
}.

Definition udp_read (a : FdAdapterBase) (datagram : received_datagram)
    : result (option TCPSegment * FdAdapterBase) :=
  if negb (listening a) && negb (address_eqb (source_address datagram) (destination (config a)))
  then Ok (None, a)
  else
    '(r, seg) ← TCPSegment.parse default_TCPSegment (new_Buffer (datagram_payload datagram)) 0;
    if negb (bool_decide (r = NoError)) then Ok (None, a)
    else if listening a then
      if syn (header seg) && negb (rst (header seg)) then
        Ok (Some seg, set_listening (set_destination a (source_address datagram)) false)
      else Ok (None, a)
    else Ok (Some seg, a).

(** Returns the destination and the bytes given to [sendto]. *)
Definition udp_write (a : FdAdapterBase) (seg : TCPSegment)
    : result (Address * BufferList) :=
  bl ← TCPSegment.serialize (address_segment a seg) 0;
  Ok (destination (config a), bl).

End base.

Arguments FdAdapterConfig : clear implicits.
Arguments FdAdapterBase : clear implicits.
Arguments received_datagram : clear implicits.

(** ** The adapter interface

    What [TCPSpongeSocket] and [LossyFdAdapter] use of an adapter: [In] is what
    the underlying descriptor yields, [Out] what is written to it. *)
Class FdAdapter (A Address In Out : Type) := {
  adapter_config : A -> FdAdapterConfig Address;
  adapter_set_config : A -> FdAdapterConfig Address -> A;
  adapter_read : A -> In -> result (option TCPSegment * A);
  adapter_write : A -> TCPSegment -> result Out;
  adapter_set_listening : A -> bool -> A;
  adapter_tick : A -> Z -> A
}.

#[export] Instance udp_adapter {Address} `{AddressLib Address} :
  FdAdapter (FdAdapterBase Address) Address (received_datagram Address) (Address * BufferList) := {
  adapter_config := config;
  adapter_set_config := set_config;
  adapter_read := udp_read;
  adapter_write := udp_write;
  adapter_set_listening := set_listening;
  adapter_tick := base_tick
}.

(** ** Random loss *)

Section lossy.
Context {A Address In Out : Type} `{FdAdapter A Address In Out}.
(** The generator [mt19937] is a parameter: a state and the next number. *)
Context {R : Type} (rand : R -> Z * R).

Record LossyFdAdapter := {
  _rand : R;
  _adapter : A
}.

Definition _should_drop (l : LossyFdAdapter) (uplink : bool) : bool * LossyFdAdapter :=
  let cfg := adapter_config (_adapter l) in
  let loss := if uplink then loss_rate_up cfg else loss_rate_dn cfg in
  if loss =? 0 then (false, l)
  else
    let '(x, r) := rand (_rand l) in
    (u16 x <? loss, {| _rand := r; _adapter := _adapter l |}).

Definition lossy_read (l : LossyFdAdapter) (i : In) : result (option TCPSegment * LossyFdAdapter) :=
  '(ret, a) ← adapter_read (_adapter l) i;
  let '(drop, l) := _should_drop {| _rand := _rand l; _adapter := a |} false in
  Ok (if drop then None else ret, l).

(** [None] when nothing reaches the descriptor. *)
Definition lossy_write (l : LossyFdAdapter) (seg : TCPSegment)
    : result (option Out * LossyFdAdapter) :=
  let '(drop, l) := _should_drop l true in
  if drop then Ok (None, l)
  else out ← adapter_write (_adapter l) seg; Ok (Some out, l).

Definition lossy_set_listening (l : LossyFdAdapter) (b : bool) : LossyFdAdapter :=
  {| _rand := _rand l; _adapter := adapter_set_listening (_adapter l) b |}.
Definition lossy_config (l : LossyFdAdapter) : FdAdapterConfig Address := adapter_config (_adapter l).
Definition lossy_set_config (l : LossyFdAdapter) (c : FdAdapterConfig Address) : LossyFdAdapter :=
  {| _rand := _rand l; _adapter := adapter_set_config (_adapter l) c |}.
Definition lossy_tick (l : LossyFdAdapter) (ms_since_last_tick : Z) : LossyFdAdapter :=
  {| _rand := _rand l; _adapter := adapter_tick (_adapter l) ms_since_last_tick |}.

Lemma should_drop_spec l uplink :
  _adapter (_should_drop l uplink).2 = _adapter l /\
  ((if uplink then loss_rate_up (lossy_config l) else loss_rate_dn (lossy_config l)) = 0 ->
   _should_drop l uplink = (false, l)).
Proof.
  unfold _should_drop, lossy_config. destruct (_ =? 0) eqn:E; [done|]. destruct (rand (_rand l)) as [x r].
  split; [done|]. intros Hz. rewrite Hz in E. done.
Qed.

(** Loss only removes. A lossy adapter does to the adapter inside exactly
    what that adapter does, and returns either its segment or nothing; what it
    writes is what the adapter inside writes, or nothing; with a loss rate of
    zero nothing is lost. *)
Theorem lossy_only_removes l i seg :
  (forall o l', lossy_read l i = Ok (o, l') ->
    exists o', adapter_read (_adapter l) i = Ok (o', _adapter l') /\ (o = o' \/ o = None) /\
      (loss_rate_dn (lossy_config l') = 0 -> o = o')) /\
  (forall o l', lossy_write l seg = Ok (o, l') ->
    _adapter l' = _adapter l /\
    (o = None \/ exists out, adapter_write (_adapter l) seg = Ok out /\ o = Some out) /\
    (loss_rate_up (lossy_config l) = 0 -> o <> None)).
Proof.
  split.
  - intros o l'. unfold lossy_read. destruct (adapter_read (_adapter l) i) as [[ret a]|]; [|done].
    cbn [mbind result_bind]. set (l1 := Build_LossyFdAdapter _ _).
    destruct (should_drop_spec l1 false) as [Ha Hz]. destruct (_should_drop l1 false) as [d l2].
    cbn [snd] in Ha. intros [= <- <-]. exists ret. rewrite Ha. split; [done|].
    split; [destruct d; auto|]. unfold lossy_config in *. rewrite Ha. intros H0.
    specialize (Hz H0). by injection Hz as -> _.
  - intros o l'. unfold lossy_write. destruct (should_drop_spec l true) as [Ha Hz].
    destruct (_should_drop l true) as [d l2]. cbn [snd] in Ha. destruct d.
    + intros [= <- <-]. split_and!; [done|by left|]. intros H0. specialize (Hz H0). done.
    + rewrite Ha. destruct (adapter_write (_adapter l) seg) as [out|]; [|done]. cbn [mbind result_bind].
      intros [= <- <-]. split_and!; [done|right; eauto|done].
Qed.

End lossy.

(** ** Properties of the UDP adapter *)

Section udp.
Context {Address : Type} `{AddressLaws Address}.

Lemma wf_address_segment a seg :
  wf_TCPHeader (_header seg) -> wf_TCPHeader (_header (address_segment a seg)).
Proof. intros []. constructor; try done; apply port_range. Qed.

(** TCP over UDP. What one adapter writes for a segment, the peer's adapter
    reads back as that segment with the ports and the checksum filled in. A
    connected reader accepts it from its destination; a listening reader
    accepts a SYN from anyone, and is then connected to the sender. *)
Theorem udp_roundtrip a b from seg :
  wf_TCPHeader (_header seg) -> zlen (str (_payload seg)) <= 65495 ->
  (if listening b then syn (header seg) && negb (rst (header seg)) = true
   else destination (config b) = from) ->
  exists dest bl seg' b', udp_write a seg = Ok (dest, bl) /\ dest = destination (config a) /\
    udp_read b {| source_address := from; datagram_payload := bl_concatenate bl |} = Ok (Some seg', b') /\
    (exists c, header seg' = TCPHeader.set_cksum (header (address_segment a seg)) c) /\
    str (payload seg') = str (payload seg) /\
    listening b' = false /\ destination (config b') = from.
Proof.
  intros Hwf Hpay Hb.
  destruct (segment_roundtrip_lem (address_segment a seg) default_TCPSegment 0)
    as (bl & c & Hs & Hl & Hparse); [by apply wf_address_segment|lia|done|].
  pose proof (wf_doff _ (wf_address_segment a seg Hwf)).
  destruct (Hparse (new_Buffer (bl_concatenate bl))) as (p & Hp & Hstr);
    [apply wf_new_Buffer; cbn [_payload address_segment] in Hl; lia|apply str_new|].
  set (seg' := {| _header := TCPHeader.set_cksum (_header (address_segment a seg)) c; _payload := p |}) in *.
  assert (Hr : udp_read b {| source_address := from; datagram_payload := bl_concatenate bl |} =
    Ok (Some seg', if listening b then set_listening (set_destination b from) false else b)).
  { unfold udp_read. cbn [source_address datagram_payload].
    assert (negb (listening b) && negb (address_eqb from (destination (config b))) = false) as ->.
    { destruct (listening b); [done|]. subst from. by rewrite (proj2 (address_eqb_eq _ _) eq_refl). }
    rewrite Hp. cbn [mbind result_bind]. rewrite bool_decide_eq_true_2 by done. cbn [negb].
    change (syn (header seg')) with (syn (header seg)). change (rst (header seg')) with (rst (header seg)).
    destruct (listening b); [by rewrite Hb|done]. }
  unfold udp_write. rewrite Hs. eexists _, _, _, _. split; [done|]. split; [done|]. split; [exact Hr|].
  split; [by exists c|]. split; [done|]. by destruct (listening b) eqn:El.
Qed.

End udp.

(** An address as a pair of numbers, for examples. *)
#[export] Instance pair_address : AddressLib (Z * Z) := {
  port := fun a => u16 a.2;
  ipv4_numeric := fun a => u32 a.1;
  make := fun ip p => (ip, p);
  address_eqb := fun a b => bool_decide (a = b)
}.

#[export] Instance pair_laws : AddressLaws (Z * Z).
Proof.
  constructor; cbn; intros.
  - by apply u16_small.
  - by apply u32_small.
  - apply u16_range.
  - apply u32_range.
  - apply bool_decide_eq_true.
Qed.

Lemma udp_roundtrip_witness :
  let a : FdAdapterBase (Z * Z) := set_destination new_FdAdapterBase (7, 80) in
  let b : FdAdapterBase (Z * Z) := set_listening new_FdAdapterBase true in
  let seg := {| _header := set_syn default_TCPHeader; _payload := new_Buffer [] |} in
  exists dest bl seg' b', udp_write a seg = Ok (dest, bl) /\
    udp_read b {| source_address := (5, 1234); datagram_payload := bl_concatenate bl |} = Ok (Some seg', b') /\
    destination (config b') = (5, 1234).
Proof.
  intros a b seg. destruct (udp_roundtrip a b (5, 1234) seg)
    as (dest & bl & seg' & b' & H1 & _ & H2 & _ & _ & _ & H3).
  - constructor; vm_compute; done.
  - vm_compute. done.
  - reflexivity.
  - exists dest, bl, seg', b'. split; [exact H1|]. split; [exact H2|exact H3].
Defined.

(** A lossy UDP adapter whose generator always yields 0 drops every write when
    the uplink loses anything at all. *)
Definition example_lossy : @LossyFdAdapter (FdAdapterBase (Z * Z)) unit :=
  {| _rand := tt;
     _adapter := set_config new_FdAdapterBase
       {| source := (1, 2); destination := (3, 4); loss_rate_dn := 0; loss_rate_up := 1 |} |}.

Lemma lossy_only_removes_witness :
  lossy_write (fun r => (0, r)) example_lossy default_TCPSegment = Ok (None, example_lossy) /\
  _adapter example_lossy = _adapter example_lossy.
Proof.
  assert (H : lossy_write (fun r => (0, r)) example_lossy default_TCPSegment = Ok (None, example_lossy))
    by (vm_compute; reflexivity).
  split; [exact H|].
  destruct (lossy_only_removes (fun r : unit => (0, r)) example_lossy
    {| source_address := (3, 4); datagram_payload := [] |} default_TCPSegment) as [_ Hw].
  exact (proj1 (Hw _ _ H)).
Defined.
