(* ===== verification/TCPOverIP.v ===== *)
(** * TCP segments in IPv4 datagrams

    Models [TCPOverIPv4Adapter] of [src/libsponge/tcp_helpers/tcp_over_ip.hh] and
    [.cc] and [TCPOverIPv4OverTunFdAdapter] of [tuntap_adapter.hh]. The TUN
    device is outside the model: [tun_read] is given the bytes read from it and
    [tun_write] returns the bytes written. *)

From S2P Require Import Prelude WrappingIntegers Buffer Parser InternetChecksum TCPHeader TCPSegment IPv4Header IPv4Datagram FdAdapter.

Section tcp_over_ip.
Context {Address : Type} `{AddressLib Address}.

Abbreviation adapter := (FdAdapterBase Address).

(** ** Operations *)

Definition unwrap_tcp_in_ip (a : adapter) (ip_dgram : IPv4Datagram)
    : result (option TCPSegment * adapter) :=
  let h := IPv4Datagram.header ip_dgram in
  if negb (listening a) && negb (dst h =? ipv4_numeric (source (config a))) then Ok (None, a)
  else if negb (listening a) && negb (src h =? ipv4_numeric (destination (config a)))
  then Ok (None, a)
  else if negb (proto h =? PROTO_TCP) then Ok (None, a)
  else
    buf ← bl_to_Buffer (IPv4Datagram.payload ip_dgram);
    '(r, tcp_seg) ← TCPSegment.parse default_TCPSegment buf (pseudo_cksum h);
    let th := TCPSegment.header tcp_seg in
    if negb (bool_decide (r = NoError)) then Ok (None, a)
    else if negb (dport th =? port (source (config a))) then Ok (None, a)
    else if listening a && negb (syn th && negb (rst th)) then Ok (None, a)
    else
      let a :=
        if listening a then
          set_listening
            (set_destination (set_source a (make (dst h) (port (source (config a)))))
               (make (src h) (sport th))) false
        else a in
      if negb (sport th =? port (destination (config a))) then Ok (None, a)
      else Ok (Some tcp_seg, a).

(** The header of the datagram that carries [seg]. *)
Definition wrap_header (a : adapter) (seg : TCPSegment) : IPv4Header :=
  let h := default_IPv4Header in
  {| ver := ver h; hlen := hlen h; tos := tos h;
     len := u16 (hlen h * 4 + doff (TCPSegment.header seg) * 4 + zlen (str (TCPSegment.payload seg)));
     id := id h; df := df h; mf := mf h; offset := offset h; ttl := ttl h; proto := proto h;
     cksum := cksum h; src := ipv4_numeric (source (config a));
     dst := ipv4_numeric (destination (config a)) |}.

Definition wrap_tcp_in_ip (a : adapter) (seg : TCPSegment) : result IPv4Datagram :=
  let seg := address_segment a seg in
  let h := wrap_header a seg in
  pl ← TCPSegment.serialize seg (pseudo_cksum h);
  Ok {| IPv4Datagram._header := h; IPv4Datagram._payload := pl |}.

Definition tun_read (a : adapter) (bytes : list byte) : result (option TCPSegment * adapter) :=
  '(r, ip_dgram) ← IPv4Datagram.parse default_IPv4Datagram (new_Buffer bytes);
  if negb (bool_decide (r = NoError)) then Ok (None, a) else unwrap_tcp_in_ip a ip_dgram.

Definition tun_write (a : adapter) (seg : TCPSegment) : result BufferList :=
  d ← wrap_tcp_in_ip a seg; IPv4Datagram.serialize d.

#[export] Instance tun_adapter : FdAdapter adapter Address (list byte) BufferList := {
  adapter_config := config;
  adapter_set_config := set_config;
  adapter_read := tun_read;
  adapter_write := tun_write;
  adapter_set_listening := set_listening;
  adapter_tick := base_tick
}.

End tcp_over_ip.

(** ** Properties *)

Section properties.
Context {Address : Type} `{AddressLaws Address}.

(** The datagram carries the whole segment. *)
Definition fits (seg : TCPSegment) : Prop :=
  20 + 4 * doff (TCPSegment.header seg) + zlen (str (TCPSegment.payload seg)) < 2 ^ 16.

Lemma wf_wrap_header (a : FdAdapterBase Address) seg : wf_IPv4Header (wrap_header a seg).
Proof.
  constructor; try apply ipv4_range; try apply u16_range; vm_compute; split; done || reflexivity.
Qed.

(** The receiving end: [b] is connected to [a], or listening on the port that
    [a] sends to. *)
Definition accepts (b a : FdAdapterBase Address) (seg : TCPSegment) : Prop :=
  port (source (config b)) = port (destination (config a)) /\
  (if listening b then syn (TCPSegment.header seg) && negb (rst (TCPSegment.header seg)) = true
   else ipv4_numeric (source (config b)) = ipv4_numeric (destination (config a)) /\
        ipv4_numeric (destination (config b)) = ipv4_numeric (source (config a)) /\
        port (destination (config b)) = port (source (config a))).

(** What the accepting end is connected to afterwards. *)
Definition connected (b a : FdAdapterBase Address) : Prop :=
  listening b = false /\
  ipv4_numeric (source (config b)) = ipv4_numeric (destination (config a)) /\
  ipv4_numeric (destination (config b)) = ipv4_numeric (source (config a)) /\
  port (source (config b)) = port (destination (config a)) /\
  port (destination (config b)) = port (source (config a)).

(** A datagram with these addresses and this segment is accepted. *)
Lemma unwrap_accepts a b h buf seg tseg :
  accepts b a seg -> src h = ipv4_numeric (source (config a)) ->
  dst h = ipv4_numeric (destination (config a)) -> proto h = PROTO_TCP ->
  TCPSegment.parse default_TCPSegment buf (pseudo_cksum h) = Ok (NoError, tseg) ->
  sport (TCPSegment.header tseg) = port (source (config a)) ->
  dport (TCPSegment.header tseg) = port (destination (config a)) ->
  syn (TCPSegment.header tseg) = syn (TCPSegment.header seg) ->
  rst (TCPSegment.header tseg) = rst (TCPSegment.header seg) ->
  exists b', unwrap_tcp_in_ip b {| IPv4Datagram._header := h; IPv4Datagram._payload := [buf] |}
    = Ok (Some tseg, b') /\ connected b' a.
Proof.
  intros [Hpo Hb] Hsrc Hdst Hpr Hp Hsp Hdp Hsyn Hrst.
  unfold unwrap_tcp_in_ip. cbn [IPv4Datagram.header IPv4Datagram.payload IPv4Datagram._header
    IPv4Datagram._payload bl_to_Buffer mbind result_bind].
  rewrite Hp. cbn [mbind result_bind]. rewrite Hpr, Hsrc, Hdst, Hsyn, Hrst, Hsp, Hdp, Hpo, !Z.eqb_refl.
  cbn [negb].
  rewrite bool_decide_eq_true_2 by done. cbn [negb].
  pose proof (port_range (source (config a))). pose proof (port_range (destination (config a))).
  pose proof (ipv4_range (source (config a))). pose proof (ipv4_range (destination (config a))).
  destruct (listening b) eqn:El; cbn [negb andb].
  - rewrite Hb. cbn [negb]. cbn [config set_listening set_destination set_source set_config destination source _cfg].
    rewrite port_make, Z.eqb_refl by lia. cbn [negb]. eexists. split; [done|].
    unfold connected. cbn. by rewrite !port_make, !ipv4_make by lia.
  - destruct Hb as (B1 & B2 & B3). rewrite B1, B2, B3, !Z.eqb_refl. cbn [negb].
    eexists. split; [done|]. by split_and!.
Qed.

(** Both layers of what [tun_write] writes can be parsed. *)
Lemma tun_write_parses a seg :
  wf_TCPHeader (TCPSegment.header seg) -> fits seg ->
  let s := address_segment a seg in
  let h := wrap_header a s in
  exists bl ci buf c p, tun_write a seg = Ok bl /\
    zlen (bl_concatenate bl) = 4 * hlen h + 4 * doff (TCPSegment.header seg) + zlen (str (TCPSegment.payload seg)) /\
    IPv4Datagram.parse default_IPv4Datagram (new_Buffer (bl_concatenate bl)) =
      Ok (NoError, {| IPv4Datagram._header := set_cksum h ci; IPv4Datagram._payload := [buf] |}) /\
    TCPSegment.parse default_TCPSegment buf (pseudo_cksum h) =
      Ok (NoError, {| TCPSegment._header := TCPHeader.set_cksum (TCPSegment.header s) c; TCPSegment._payload := p |}) /\
    str p = str (TCPSegment.payload seg).
Proof.
  intros Hwf Hfit s h.
  unfold fits in Hfit. pose proof (wf_doff _ Hwf) as Hd. pose proof (zlen_nonneg (str (TCPSegment.payload seg))).
  assert (Hws : wf_TCPHeader (TCPSegment._header s)) by by apply wf_address_segment.
  pose proof (wf_wrap_header a s) as Hwh. fold h in Hwh.
  destruct (pseudo_cksum_eq h Hwh) as [_ Hck].
  destruct (segment_roundtrip_lem s default_TCPSegment (pseudo_cksum h) Hws Hck)
    as (pl & c & Hser & Hlen & Hparse).
  { change (TCPSegment._payload s) with (TCPSegment.payload seg). lia. }
  change (doff (TCPSegment._header s)) with (doff (TCPSegment.header seg)) in Hlen.
  change (TCPSegment._payload s) with (TCPSegment.payload seg) in Hlen, Hparse.
  set (d := {| IPv4Datagram._header := h; IPv4Datagram._payload := pl |}).
  assert (Hl : len h = 4 * hlen h + zlen (bl_concatenate pl)).
  { rewrite Hlen. unfold h. cbn [len hlen wrap_header].
    change (doff (TCPSegment.header s)) with (doff (TCPSegment.header seg)).
    change (TCPSegment.payload s) with (TCPSegment.payload seg).
    change (hlen default_IPv4Header) with 5. rewrite u16_small; lia. }
  destruct (datagram_roundtrip_lem d default_IPv4Datagram Hwh Hl) as (bl & ci & buf & Hds & Hdp & Hstr & Hwb).
  destruct (Hparse buf Hwb Hstr) as (p & Hp & Hsp). exists bl, ci, buf, c, p.
  split; [unfold tun_write, wrap_tcp_in_ip; fold s; fold h; by rewrite Hser|]. split; [|done].
  assert (Hds' := Hds). rewrite datagram_serialize_layout in Hds'; [|done|].
  - match type of Hds' with Ok ?x = _ => assert (bl = x) as -> by congruence end. cbn [app]. rewrite bl_concatenate_cons, str_new, zlen_app. cbn [IPv4Datagram._payload d].
    rewrite !zlen_app, ip_zlen_before, zlen_be_bytes, ip_zlen_after, Hlen by apply Hwh. cbn [IPv4Datagram._header d]. lia.
  - revert Hds. unfold IPv4Datagram.serialize. destruct (Z.eqb_spec (bl_size (IPv4Datagram._payload d)) (payload_length (IPv4Datagram._header d))); [done|discriminate].
Qed.

(** C20: TCP over IP over a TUN device. The bytes one adapter writes for a segment
    are read by the adapter at the other end as that segment, with the ports
    and the checksum filled in, through both layers of headers and checksums;
    and an end that was listening is afterwards connected to the sender. *)
Theorem tun_roundtrip a b seg :
  wf_TCPHeader (TCPSegment.header seg) -> fits seg -> accepts b a seg ->
  exists bl seg' b', tun_write a seg = Ok bl /\
    tun_read b (bl_concatenate bl) = Ok (Some seg', b') /\
    (exists c, TCPSegment.header seg' =
       TCPHeader.set_cksum (TCPSegment.header (address_segment a seg)) c) /\
    str (TCPSegment.payload seg') = str (TCPSegment.payload seg) /\ connected b' a.
Proof.
  intros Hwf Hfit Hacc.
  destruct (tun_write_parses a seg Hwf Hfit) as (bl & ci & buf & c & p & Hw & _ & Hdp & Hp & Hsp).
  destruct (unwrap_accepts a b (set_cksum (wrap_header a (address_segment a seg)) ci) buf seg _ Hacc eq_refl eq_refl eq_refl Hp
    eq_refl eq_refl eq_refl eq_refl) as (b' & Hu & Hcon).
  eexists bl, _, b'. split; [done|]. split; [unfold tun_read; rewrite Hdp; exact Hu|]. split; [by exists c|]. by split.
Qed.

End properties.

Lemma tun_roundtrip_witness :
  let a : FdAdapterBase (Z * Z) := set_source (set_destination new_FdAdapterBase (7, 80)) (5, 1234) in
  let b : FdAdapterBase (Z * Z) := set_listening (set_source new_FdAdapterBase (0, 80)) true in
  let seg := {| TCPSegment._header := set_syn default_TCPHeader; TCPSegment._payload := new_Buffer [] |} in
  exists bl seg' b', tun_write a seg = Ok bl /\ tun_read b (bl_concatenate bl) = Ok (Some seg', b') /\
    connected b' a.
Proof.
  intros a b seg. destruct (tun_roundtrip a b seg) as (bl & seg' & b' & H1 & H2 & _ & _ & H3).
  - constructor; vm_compute; done.
  - vm_compute. done.
  - split; reflexivity.
  - exists bl, seg', b'. split; [exact H1|]. split; [exact H2|exact H3].
Defined.
