(* ===== verification/Address.v ===== *)
(** * Socket addresses

    Models [Address] of [src/libsponge/util/address.hh] and [.cc]. The object is
    the size of the wrapped address and the 128 bytes of its
    [sockaddr_storage]; the two functions of the resolver, [getaddrinfo] and
    [getnameinfo], are a parameter. Byte order and structure layout are those
    of the x86-64 machines the program is built for: [sa_family] is stored with
    its low byte first, port and address of a [sockaddr_in] in network order. *)

From S2P Require Import Prelude Text FdAdapter.

Definition AF_INET : Z := 2.
Definition AI_NUMERICHOST : Z := 4.
Definition AI_ALL : Z := 16.
Definition AI_NUMERICSERV : Z := 1024.
Definition NI_NUMERICHOST : Z := 1.
Definition NI_NUMERICSERV : Z := 2.

(** [sizeof(sockaddr_storage)] and [sizeof(sockaddr_in)]. *)
Definition sizeof_storage : Z := 128.
Definition sizeof_sockaddr_in : Z := 16.

(** The fields of [addrinfo] that hints fill in. *)
Record addrinfo := { ai_flags : Z; ai_family : Z }.

(** [getaddrinfo] yields its return value and the address of the first entry of
    the list it stores, [getnameinfo] its return value and the two texts. *)
Class Resolver := {
  getaddrinfo : list byte -> list byte -> addrinfo -> Z * option (list byte);
  getnameinfo : list byte -> Z -> Z -> Z * list byte * list byte
}.

(** [Raw]: the bytes of the storage. *)
Definition Raw : Type := list byte.
Definition new_Raw : Raw := replicate (Z.to_nat sizeof_storage) Byte.x00.

Record Address := { _size : Z; _address : Raw }.

#[export] Instance Address_eq_dec : EqDecision Address.
Proof. solve_decision. Defined.

Definition of_sockaddr (addr : list byte) (size : Z) : result Address :=
  if sizeof_storage <? size then Throw (runtime_error "invalid sockaddr size")
  else if zlen addr <? size then Throw (undefined "memcpy")
  else Ok {| _size := u32 size; _address := take (Z.to_nat size) addr ++ drop (Z.to_nat size) new_Raw |}.

Definition make_hints (flags family : Z) : addrinfo := {| ai_flags := flags; ai_family := family |}.

(** The two bytes of [ss_family], the low byte first. *)
Definition ss_family (storage : Raw) : Z :=
  match storage with
  | b0 :: b1 :: _ => b2z b0 + 2 ^ 8 * b2z b1
  | _ => 0
  end.

(** [be32toh(sin_addr.s_addr)] *)
Definition sin_addr (storage : Raw) : Z :=
  match drop 4 storage with
  | b0 :: b1 :: b2 :: b3 :: _ => 2 ^ 24 * b2z b0 + 2 ^ 16 * b2z b1 + 2 ^ 8 * b2z b2 + b2z b3
  | _ => 0
  end.

(** The bytes of a [sockaddr_in] for an address and a port in host order. *)
Definition sockaddr_in (ip p : Z) : list byte :=
  [z2b AF_INET; Byte.x00; z2b (p / 2 ^ 8); z2b p;
   z2b (ip / 2 ^ 24); z2b (ip / 2 ^ 16); z2b (ip / 2 ^ 8); z2b ip] ++ replicate 8 Byte.x00.

Definition size (a : Address) : Z := _size a.

Definition ipv4_numeric (a : Address) : result Z :=
  if negb (ss_family (_address a) =? AF_INET) || negb (_size a =? sizeof_sockaddr_in)
  then Throw (runtime_error "ipv4_numeric called on non-IPV4 address")
  else Ok (sin_addr (take (Z.to_nat (_size a)) (_address a))).

Definition from_ipv4_numeric (ip_address : Z) : result Address :=
  of_sockaddr (sockaddr_in ip_address 0) sizeof_sockaddr_in.

(** [memcmp] of the first [_size] bytes of the storage. *)
Definition eqb (a b : Address) : bool :=
  if negb (_size a =? _size b) then false
  else bool_decide (take (Z.to_nat (_size a)) (_address a) = take (Z.to_nat (_size a)) (_address b)).
Definition neqb (a b : Address) : bool := negb (eqb a b).

Section resolver.
Context `{Resolver}.

Definition resolve (node service : list byte) (hints : addrinfo) : result Address :=
  let '(gai_ret, resolved_address) := getaddrinfo (c_str node) (c_str service) hints in
  if negb (gai_ret =? 0)
  then Throw (tagged_error "gai_error_category"
                (String.string_of_list_byte
                   (txt "getaddrinfo(" ++ node ++ txt ", " ++ service ++ txt ")")) gai_ret)
  else match resolved_address with
       | None => Throw (runtime_error "getaddrinfo returned successfully but with no results")
       | Some ai_addr => of_sockaddr ai_addr (zlen ai_addr)
       end.

Definition of_host (hostname service : list byte) : result Address :=
  resolve hostname service (make_hints AI_ALL AF_INET).

Definition of_ip (ip : list byte) (p : Z) : result Address :=
  resolve ip (decimal p) (make_hints (Z.lor AI_NUMERICHOST AI_NUMERICSERV) AF_INET).

Definition ip_port (a : Address) : result (list byte * Z) :=
  let '(gni_ret, ip, p) :=
    getnameinfo (_address a) (_size a) (Z.lor NI_NUMERICHOST NI_NUMERICSERV) in
  if negb (gni_ret =? 0) then Throw (tagged_error "gai_error_category" "getnameinfo" gni_ret)
  else n ← stoi p; Ok (ip, u16 n).

Definition ip (a : Address) : result (list byte) := p ← ip_port a; Ok p.1.
Definition port (a : Address) : result Z := p ← ip_port a; Ok p.2.

Definition to_string (a : Address) : result (list byte) :=
  ip_and_port ← ip_port a; Ok (ip_and_port.1 ++ txt ":" ++ decimal ip_and_port.2).

End resolver.

(** What [getaddrinfo(3)] and [getnameinfo(3)] document for numeric IPv4
    addresses: a dotted quad, or a single number as [inet_aton(3)] reads it,
    and a decimal port become the [sockaddr_in] with that address and port and
    zeros in its padding; and such a structure is printed as the dotted quad
    and the decimal port. *)
Class ResolverLaws `{Resolver} := {
  getaddrinfo_numeric : forall a p node, 0 <= a < 2 ^ 32 -> 0 <= p < 2 ^ 16 ->
    node = dotted a \/ node = decimal a ->
    getaddrinfo node (decimal p) {| ai_flags := Z.lor AI_NUMERICHOST AI_NUMERICSERV; ai_family := AF_INET |} =
      (0, Some (sockaddr_in a p));
  getnameinfo_numeric : forall a p rest, 0 <= a < 2 ^ 32 -> 0 <= p < 2 ^ 16 ->
    getnameinfo (sockaddr_in a p ++ rest) sizeof_sockaddr_in (Z.lor NI_NUMERICHOST NI_NUMERICSERV) =
      (0, dotted a, decimal p)
}.

(** ** Well-formed addresses

    Every constructor leaves zeros behind the wrapped address, so that the
    comparison of the first bytes is an equality. *)

Record wf (a : Address) : Prop := {
  wf_size : 0 <= _size a <= sizeof_storage;
  wf_storage : exists addr, zlen addr = _size a /\ _address a = addr ++ drop (Z.to_nat (_size a)) new_Raw
}.

Lemma of_sockaddr_wf addr n a : 0 <= n -> of_sockaddr addr n = Ok a -> wf a.
Proof.
  intros Hn. unfold of_sockaddr, sizeof_storage. destruct (Z.ltb_spec 128 n); [done|].
  destruct (Z.ltb_spec (zlen addr) n); [done|]. intros [= <-]. constructor; cbn [_size _address]; rewrite u32_small by lia.
  - unfold sizeof_storage. lia.
  - eexists. split; [|done]. rewrite zlen_take. lia.
Qed.

Lemma resolve_wf `{Resolver} node service hints a : resolve node service hints = Ok a -> wf a.
Proof.
  unfold resolve. destruct (getaddrinfo _ _ _) as [r [addr|]]; destruct (negb _); try done.
  by apply of_sockaddr_wf, zlen_nonneg.
Qed.

Lemma eqb_spec a b : wf a -> wf b -> eqb a b = true <-> a = b.
Proof.
  intros [Ha (x & Hx & Ex)] [Hb (y & Hy & Ey)]. destruct a as [na sa], b as [nb sb].
  unfold eqb. cbn [_size _address] in *. subst sa sb. destruct (Z.eqb_spec na nb) as [<-|Hn]; cbn [negb].
  - rewrite bool_decide_eq_true.
    assert (Ht : forall z : list byte, zlen z = na -> take (Z.to_nat na) (z ++ drop (Z.to_nat na) new_Raw) = z).
    { intros z Hz. rewrite take_app_length'; [done|unfold zlen in Hz; lia]. }
    rewrite !Ht by done. split; [by intros ->|]. by intros [= ->%app_inv_tail].
  - split; [done|]. by intros [= ->].
Qed.

Lemma zlen_sockaddr_in a p : zlen (sockaddr_in a p) = sizeof_sockaddr_in.
Proof. done. Qed.

(** The address of a number and a port. *)
Definition ipv4 (a p : Z) : Address :=
  {| _size := sizeof_sockaddr_in; _address := sockaddr_in a p ++ drop (Z.to_nat sizeof_sockaddr_in) new_Raw |}.

Lemma of_sockaddr_in a p : of_sockaddr (sockaddr_in a p) sizeof_sockaddr_in = Ok (ipv4 a p).
Proof. done. Qed.

Lemma sin_addr_ipv4 a p : 0 <= a < 2 ^ 32 -> sin_addr (_address (ipv4 a p)) = a.
Proof.
  intros Ha. cbn [ipv4 _address sockaddr_in app sin_addr drop]. rewrite !b2z_z2b. clear p. word.
Qed.

Lemma ipv4_numeric_ipv4 a p : 0 <= a < 2 ^ 32 -> ipv4_numeric (ipv4 a p) = Ok a.
Proof.
  intros Ha. unfold ipv4_numeric. change (sin_addr (take _ _)) with (sin_addr (_address (ipv4 a p))).
  rewrite sin_addr_ipv4 by done. done.
Qed.

Lemma ipv4_wf a p : wf (ipv4 a p).
Proof. by apply (of_sockaddr_wf (sockaddr_in a p) sizeof_sockaddr_in). Qed.

Section laws.
Context `{ResolverLaws}.

Lemma of_ip_numeric a p node :
  0 <= a < 2 ^ 32 -> 0 <= p < 2 ^ 16 -> node = dotted a \/ node = decimal a -> of_ip node p = Ok (ipv4 a p).
Proof.
  intros Ha Hp Hn. unfold of_ip, resolve, make_hints.
  assert (Hc : Forall (fun c => b2z c <> 0) node) by (destruct Hn as [-> | ->]; [apply dotted_clean|apply decimal_clean; lia]).
  rewrite (c_str_clean _ Hc), c_str_clean by (apply decimal_clean; lia).
  by rewrite (getaddrinfo_numeric a p node).
Qed.

Lemma ip_port_ipv4 a p : 0 <= a < 2 ^ 32 -> 0 <= p < 2 ^ 16 -> ip_port (ipv4 a p) = Ok (dotted a, p).
Proof.
  intros Ha Hp. unfold ip_port, ipv4. cbn [_address _size]. rewrite getnameinfo_numeric by done.
  cbn [negb Z.eqb]. rewrite stoi_decimal by lia. cbn [mbind result_bind]. by rewrite u16_small.
Qed.

End laws.

(** ** IPv4 addresses implement the interface of the adapters *)

(** [be16toh(sin_port)] *)
Definition sin_port (storage : Raw) : Z :=
  match drop 2 storage with
  | b0 :: b1 :: _ => 2 ^ 8 * b2z b0 + b2z b1
  | _ => 0
  end.

Lemma sin_port_ipv4 a p : 0 <= p < 2 ^ 16 -> sin_port (_address (ipv4 a p)) = p.
Proof.
  intros Hp. cbn [ipv4 _address sockaddr_in app sin_port drop]. rewrite !b2z_z2b. clear a. word.
Qed.

(** The addresses that the constructors make from IPv4 addresses. *)
Definition is_ipv4 (a : Address) : bool := bool_decide (a = ipv4 (sin_addr (_address a)) (sin_port (_address a))).

Lemma sin_addr_range st : 0 <= sin_addr st < 2 ^ 32.
Proof.
  unfold sin_addr. destruct (drop 4 st) as [|b0 [|b1 [|b2 [|b3 l]]]]; try lia.
  pose proof (b2z_range b0). pose proof (b2z_range b1). pose proof (b2z_range b2). pose proof (b2z_range b3). lia.
Qed.

Lemma sin_port_range st : 0 <= sin_port st < 2 ^ 16.
Proof.
  unfold sin_port. destruct (drop 2 st) as [|b0 [|b1 l]]; try lia.
  pose proof (b2z_range b0). pose proof (b2z_range b1). lia.
Qed.

Lemma is_ipv4_ipv4 a p : 0 <= a < 2 ^ 32 -> 0 <= p < 2 ^ 16 -> is_ipv4 (ipv4 a p) = true.
Proof. intros. apply bool_decide_eq_true. by rewrite sin_addr_ipv4, sin_port_ipv4. Qed.

Definition IPv4Address : Type := {a : Address | is_ipv4 a = true}.

Lemma is_ipv4_inv (a : IPv4Address) :
  exists n p, 0 <= n < 2 ^ 32 /\ 0 <= p < 2 ^ 16 /\ `a = ipv4 n p.
Proof.
  destruct a as [a Ha]. cbn. eexists _, _. split; [|split; [|exact (bool_decide_eq_true_1 _ Ha)]].
  - apply sin_addr_range.
  - apply sin_port_range.
Qed.

Section interface.
Context `{ResolverLaws}.

#[export] Instance ipv4_lib : AddressLib IPv4Address := {
  FdAdapter.port a := match port (`a) with Ok p => p | Throw _ => 0 end;
  FdAdapter.ipv4_numeric a := match ipv4_numeric (`a) with Ok n => n | Throw _ => 0 end;
  make n p := exist _ (ipv4 (u32 n) (u16 p)) (is_ipv4_ipv4 _ _ (u32_range n) (u16_range p));
  address_eqb a b := eqb (`a) (`b)
}.

Lemma port_ipv4 (a : IPv4Address) : port (`a) = Ok (FdAdapter.port a) /\ 0 <= FdAdapter.port a < 2 ^ 16.
Proof.
  destruct (is_ipv4_inv a) as (n & p & Hn & Hp & E). cbn [FdAdapter.port ipv4_lib].
  unfold port. rewrite E, ip_port_ipv4 by done. done.
Qed.

Lemma numeric_ipv4 (a : IPv4Address) :
  ipv4_numeric (`a) = Ok (FdAdapter.ipv4_numeric a) /\ 0 <= FdAdapter.ipv4_numeric a < 2 ^ 32.
Proof.
  destruct (is_ipv4_inv a) as (n & p & Hn & Hp & E). cbn [FdAdapter.ipv4_numeric ipv4_lib].
  rewrite E, ipv4_numeric_ipv4 by done. done.
Qed.

Lemma of_ip_make n p :
  0 <= n < 2 ^ 32 -> 0 <= p < 2 ^ 16 -> of_ip (dotted n) p = Ok (proj1_sig (make n p : IPv4Address)).
Proof.
  intros. rewrite (of_ip_numeric n p) by auto. cbn. by rewrite u32_small, u16_small.
Qed.

#[export] Instance ipv4_laws : AddressLaws IPv4Address.
Proof.
  constructor.
  - intros n p Hn Hp. cbn [FdAdapter.port make ipv4_lib proj1_sig].
    unfold port. by rewrite u32_small, u16_small, ip_port_ipv4 by done.
  - intros n p Hn Hp. cbn [FdAdapter.ipv4_numeric make ipv4_lib proj1_sig].
    by rewrite u32_small, ipv4_numeric_ipv4 by done.
  - intros a. apply port_ipv4.
  - intros a. apply numeric_ipv4.
  - intros a b. cbn [address_eqb ipv4_lib].
    destruct (is_ipv4_inv a) as (n & p & _ & _ & Ea), (is_ipv4_inv b) as (n' & p' & _ & _ & Eb).
    rewrite eqb_spec by (rewrite ?Ea, ?Eb; apply ipv4_wf). destruct a as [a Ha], b as [b Hb]. cbn. split; [|by intros [= <-]].
    intros ->. f_equal. apply eq_pi, _.
Qed.

End interface.

(** ** Properties *)

(** The text of an address. For every IPv4 address, written as a dotted
    quad or as one number, and every port, the constructor gives an address
    whose [ip_port] is the dotted quad and the port, whose [ipv4_numeric] is
    the number, and whose text is the quad, a colon and the port. *)
Theorem address_text_roundtrip `{ResolverLaws} n p node :
  0 <= n < 2 ^ 32 -> 0 <= p < 2 ^ 16 -> node = dotted n \/ node = decimal n ->
  exists a, of_ip node p = Ok a /\ ip_port a = Ok (dotted n, p) /\ ipv4_numeric a = Ok n /\
    to_string a = Ok (dotted n ++ txt ":" ++ decimal p) /\
    (forall n', 0 <= n' < 2 ^ 32 -> dotted n' = dotted n -> n' = n).
Proof.
  intros Hn Hp Hd. exists (ipv4 n p). split; [by apply of_ip_numeric|].
  unfold to_string. rewrite ip_port_ipv4, ipv4_numeric_ipv4 by done. do 3 (split; [done|]).
  intros n' Hn' E. by apply dotted_inj.
Qed.

(** C31: Addresses are what the adapters expect of them. On the addresses made
    from IPv4 addresses and ports the accessors do not throw and, with the
    comparison of their bytes as equality, they satisfy the laws that the
    adapters are verified against; the constructor from text agrees with
    [make]; and [from_ipv4_numeric] is inverted by [ipv4_numeric]. *)
Theorem addresses_implement_interface `{ResolverLaws} :
  AddressLaws IPv4Address /\
  (forall a : IPv4Address, port (`a) = Ok (FdAdapter.port a) /\ ipv4_numeric (`a) = Ok (FdAdapter.ipv4_numeric a)) /\
  (forall n p, 0 <= n < 2 ^ 32 -> 0 <= p < 2 ^ 16 -> of_ip (dotted n) p = Ok (proj1_sig (make n p : IPv4Address))) /\
  (forall n, 0 <= n < 2 ^ 32 -> exists a, from_ipv4_numeric n = Ok a /\ ipv4_numeric a = Ok n).
Proof.
  split; [apply _|]. split; [|split].
  - intros a. split; [apply port_ipv4|apply numeric_ipv4].
  - apply of_ip_make.
  - intros n Hn. exists (ipv4 n 0). split; [apply of_sockaddr_in|by apply ipv4_numeric_ipv4].
Qed.

(** Equality compares addresses. Two addresses that any of the constructors
    has made (from raw bytes or through the resolver) are equal in the sense
    of [operator==] exactly when they are the same. *)
Theorem address_equality `{Resolver} a b :
  let made a := (exists addr n, 0 <= n /\ of_sockaddr addr n = Ok a) \/ (exists node service hints, resolve node service hints = Ok a) in
  made a -> made b -> (eqb a b = true <-> a = b) /\ (neqb a b = true <-> a <> b).
Proof.
  intros made Ha Hb.
  assert (Hw : forall a, made a -> wf a).
  { intros x [(addr & n & Hn & Hx)|(node & service & hints & Hx)]; [by apply (of_sockaddr_wf addr n)|by apply (resolve_wf _ _ _ _ Hx)]. }
  pose proof (eqb_spec a b (Hw a Ha) (Hw b Hb)) as He. split; [done|].
  unfold neqb. rewrite negb_true_iff, <- not_true_iff_false, He. done.
Qed.

(** ** A resolver for numeric addresses *)

Definition scan_part (s : list byte) : option (Z * list byte) :=
  match scan 10 s None with (Some v, rest) => Some (v, rest) | _ => None end.

Definition after_dot (s : list byte) : option (list byte) :=
  match s with c :: rest => if b2z c =? 46 then Some rest else None | [] => None end.

Definition parse_ip (s : list byte) : option Z :=
  '(a, s) ← scan_part s;
  if bool_decide (s = []) then (if a <? 2 ^ 32 then Some a else None)
  else
    s ← after_dot s; '(b, s) ← scan_part s; s ← after_dot s; '(c, s) ← scan_part s;
    s ← after_dot s; '(d, s) ← scan_part s;
    if bool_decide (s = []) && (a <? 256) && (b <? 256) && (c <? 256) && (d <? 256)
    then Some (2 ^ 24 * a + 2 ^ 16 * b + 2 ^ 8 * c + d) else None.

#[local] Instance numeric_resolver : Resolver := {
  getaddrinfo node service hints :=
    match parse_ip node, scan_part service with
    | Some a, Some (p, []) => if p <? 2 ^ 16 then (0, Some (sockaddr_in a p)) else (-8, None)
    | _, _ => (-2, None)
    end;
  getnameinfo st n flags :=
    if (n =? sizeof_sockaddr_in) && (ss_family st =? AF_INET)
    then (0, dotted (sin_addr st), decimal (sin_port st)) else (-6, [], [])
}.

Lemma scan_part_decimal v rest :
  0 <= v < 2 ^ 64 -> no_digit 10 rest -> scan_part (decimal v ++ rest) = Some (v, rest).
Proof. intros. unfold scan_part, decimal. rewrite scan_number, scan_no_digit by (done || lia). done. Qed.

Lemma after_dot_dot s : after_dot (txt "." ++ s) = Some s.
Proof. done. Qed.

Lemma parse_ip_decimal n : 0 <= n < 2 ^ 32 -> parse_ip (decimal n) = Some n.
Proof.
  intros. unfold parse_ip. rewrite <- (app_nil_r (decimal n)), scan_part_decimal by (done || lia). cbn.
  by rewrite (proj2 (Z.ltb_lt _ _)) by lia.
Qed.

Lemma parse_ip_dotted n : 0 <= n < 2 ^ 32 -> parse_ip (dotted n) = Some n.
Proof.
  intros Hn. unfold parse_ip, dotted. pose proof (fun z => Z.mod_pos_bound z (2 ^ 8) eq_refl) as Hm.
  pose proof (Hm (n / 2 ^ 24)). pose proof (Hm (n / 2 ^ 16)). pose proof (Hm (n / 2 ^ 8)). pose proof (Hm n).
  rewrite scan_part_decimal by (done || lia). cbn [mbind option_bind].
  rewrite bool_decide_eq_false_2 by done. rewrite after_dot_dot. cbn [mbind option_bind].
  do 2 (rewrite scan_part_decimal by (done || lia); cbn [mbind option_bind]; rewrite after_dot_dot; cbn [mbind option_bind]).
  rewrite <- (app_nil_r (decimal (n mod _))), scan_part_decimal by (done || lia). cbn [mbind option_bind].
  rewrite bool_decide_eq_true_2, !(proj2 (Z.ltb_lt _ 256)) by (done || lia). cbn [andb]. f_equal.
  clear -Hn. Z.div_mod_to_equations. lia.
Qed.

#[local] Instance numeric_resolver_laws : ResolverLaws.
Proof.
  constructor.
  - intros a p node Ha Hp Hn. cbn [getaddrinfo numeric_resolver].
    rewrite <- (app_nil_r (decimal p)), scan_part_decimal by (done || lia).
    assert (parse_ip node = Some a) as -> by (destruct Hn as [-> | ->]; [by apply parse_ip_dotted|by apply parse_ip_decimal]).
    by rewrite (proj2 (Z.ltb_lt _ _)) by lia.
  - intros a p rest Ha Hp. cbn [getnameinfo numeric_resolver].
    change (sin_addr (sockaddr_in a p ++ rest)) with (sin_addr (_address (ipv4 a p))).
    change (sin_port (sockaddr_in a p ++ rest)) with (sin_port (_address (ipv4 a p))).
    by rewrite sin_addr_ipv4, sin_port_ipv4.
Qed.

Lemma address_text_roundtrip_witness :
  exists a, of_ip (txt "10.0.0.1") 8080 = Ok a /\ ip_port a = Ok (txt "10.0.0.1", 8080) /\
    ipv4_numeric a = Ok 167772161 /\ to_string a = Ok (txt "10.0.0.1:8080") /\
    (forall n', 0 <= n' < 2 ^ 32 -> dotted n' = txt "10.0.0.1" -> n' = 167772161).
Proof. apply (address_text_roundtrip 167772161 8080 (txt "10.0.0.1")); [lia..|left; reflexivity]. Defined.

Lemma addresses_implement_interface_witness :
  AddressLaws IPv4Address /\ of_ip (txt "169.254.144.1") 1440 = Ok (proj1_sig (make 2852032513 1440 : IPv4Address)).
Proof.
  destruct addresses_implement_interface as (Hl & _ & Hm & _). split; [exact Hl|].
  apply (Hm 2852032513 1440); lia.
Defined.

Lemma address_equality_witness :
  let a := ipv4 1 80 in let b := ipv4 1 443 in
  (eqb a b = true <-> a = b) /\ (neqb a b = true <-> a <> b).
Proof.
  intros a b. apply (address_equality a b); left; [exists (sockaddr_in 1 80), 16|exists (sockaddr_in 1 443), 16];
    split; [lia|reflexivity|lia|reflexivity].
Defined.
