(* ===== verification/Float.v ===== *)
(** * Single-precision numbers

    What the command lines use of floating point: [strtof], the product of two
    [float]s and the conversion to [uint16_t]. Numbers are those of the
    standard library's [SpecFloat] with the parameters of binary32; the
    result of [strtof] is correctly rounded, as the C library documents it. *)

From Stdlib Require Import SpecFloat.
From S2P Require Import Prelude Text.

Definition float_prec : Z := 24.
Definition float_emax : Z := 128.

(** The float nearest to [num / den]. *)
Definition nearest (negative : bool) (num den : Z) : spec_float :=
  if num =? 0 then S754_zero negative
  else
    let '(q, e, l) := SFdiv_core_binary float_prec float_emax num 0 den 0 in
    binary_round_aux float_prec float_emax negative q e l.

(** The value [m * base^e]. *)
Definition scaled (negative : bool) (m base e : Z) : spec_float :=
  if 0 <=? e then nearest negative (m * base ^ e) 1 else nearest negative m (base ^ (- e)).

Definition lower (c : byte) : byte :=
  if (65 <=? b2z c) && (b2z c <=? 90) then z2b (b2z c + 32) else c.

(** The digits at the front: their value after [v], their number, the rest. *)
Fixpoint scan_count (base : Z) (s : list byte) (v n : Z) : Z * Z * list byte :=
  match s with
  | c :: rest =>
      match digit_value c with
      | Some d => if d <? base then scan_count base rest (v * base + d) (n + 1) else (v, n, s)
      | None => (v, n, s)
      end
  | [] => (v, n, s)
  end.

(** An exponent introduced by [mark], zero when there is none. *)
Definition scan_exponent (mark : byte) (s : list byte) : Z :=
  match s with
  | c :: rest =>
      if bool_decide (lower c = mark) then
        let '(negative, rest) :=
          match rest with
          | d :: rest' => if b2z d =? 45 then (true, rest') else if b2z d =? 43 then (false, rest') else (false, rest)
          | [] => (false, rest)
          end in
        let '(e, n, _) := scan_count 10 rest 0 0 in
        if n =? 0 then 0 else if negative then - e else e
      else 0
  | [] => 0
  end.

(** Digits with a point and an exponent: mantissa, digits behind the point,
    exponent; [None] without digits. *)
Definition scan_mantissa (base : Z) (mark : byte) (s : list byte) : option (Z * Z * Z) :=
  let '(v, n, s) := scan_count base s 0 0 in
  let '(v, n', s) :=
    match s with
    | c :: rest => if b2z c =? 46 then scan_count base rest v 0 else (v, 0, s)
    | [] => (v, 0, s)
    end in
  if n + n' =? 0 then None else Some (v, n', scan_exponent mark s).

Definition strtof (s : list byte) : spec_float :=
  let s := skip_spaces s in
  let '(negative, s) :=
    match s with
    | c :: rest => if b2z c =? 45 then (true, rest) else if b2z c =? 43 then (false, rest) else (false, s)
    | [] => (false, s)
    end in
  let start := map lower (take 3 s) in
  if bool_decide (start = txt "inf") then S754_infinity negative
  else if bool_decide (start = txt "nan") then S754_nan
  else
    let hex := if bool_decide (map lower (take 2 s) = txt "0x") then scan_mantissa 16 Byte.x70 (drop 2 s) else None in
    match hex with
    | Some (m, behind, e) => scaled negative m 2 (e - 4 * behind)
    | None =>
        match scan_mantissa 10 Byte.x65 s with
        | Some (m, behind, e) => scaled negative m 10 (e - behind)
        | None => S754_zero false
        end
    end.

(** [float] product. *)
Definition fmul (a b : spec_float) : spec_float := SFmul float_prec float_emax a b.

(** [static_cast<float>(65535)] *)
Definition float_65535 : spec_float := nearest false 65535 1.

(** Conversion to [uint16_t]: the integral part, undefined when it does not
    fit. *)
Definition float_to_u16 (f : spec_float) : result Z :=
  match f with
  | S754_zero _ => Ok 0
  | S754_finite negative m e =>
      let t := if 0 <=? e then Z.pos m * 2 ^ e else Z.pos m / 2 ^ (- e) in
      let v := if negative then - t else t in
      if (0 <=? v) && (v <? 2 ^ 16) then Ok v else Throw (undefined "float to uint16_t")
  | _ => Throw (undefined "float to uint16_t")
  end.

Example floats :
  strtof (txt "0.5") = S754_finite false 8388608 (-24) /\
  strtof (txt " -0x1.8p1x") = S754_finite true 12582912 (-22) /\
  strtof (txt "16777217") = S754_finite false 8388608 1 /\
  strtof (txt "1e-50") = S754_zero false /\ strtof (txt "1e39") = S754_infinity false.
Proof. vm_compute. done. Qed.

Example loss_rates :
  float_to_u16 (fmul float_65535 (strtof (txt "0.1"))) = Ok 6553 /\
  float_to_u16 (fmul float_65535 (strtof (txt "1"))) = Ok 65535 /\
  float_to_u16 (fmul float_65535 (strtof (txt "1.5"))) = Throw (undefined "float to uint16_t").
Proof. vm_compute. done. Qed.
