(* ===== verification/HexDump.v ===== *)
(** * The hex dump

    Models [hexdump] of [src/libsponge/util/util.cc]: the text that it sends to
    the standard output, produced byte by byte as the loop does, with the
    characters of a line collected in a [stringstream]. The reference is a list
    of lines of sixteen bytes. *)

From S2P Require Import Prelude Text.

(** ** The program *)

(** A [stringstream]: its contents and the position of the next write. One that
    is made from a text, or is given one with [str], writes from its start. *)
Record stringstream := { contents : list byte; put : nat }.

Definition sstr (s : list byte) : stringstream := {| contents := s; put := 0 |}.

Definition sputc (s : stringstream) (c : byte) : stringstream :=
  {| contents := take (put s) (contents s) ++ c :: drop (S (put s)) (contents s); put := S (put s) |}.

(** [isprint] in the C locale. *)
Definition isprint (c : byte) : bool := (32 <=? b2z c) && (b2z c <=? 126).

(** The loop, with [hex] and [setfill('0')] in effect; [printed] is an [int]. *)
Fixpoint hexdump_loop (indent_string data : list byte) (printed : Z) (pchars : stringstream)
    (out : list byte) : result (Z * stringstream * list byte) :=
  match data with
  | [] => Ok (printed, pchars, out)
  | b :: rest =>
      let '(pchars, out) :=
        if Z.land printed 15 =? 0 then
          let '(pchars, out) :=
            if negb (printed =? 0) then (sstr (txt " "), out ++ txt "    " ++ contents pchars ++ nl)
            else (pchars, out) in
          (pchars, out ++ indent_string ++ setw 8 Byte.x30 (hexadecimal printed) ++ txt ":    ")
        else if Z.land printed 1 =? 0 then (pchars, out ++ txt " ")
        else (pchars, out) in
      let out := out ++ setw 2 Byte.x30 (hexadecimal (b2z b)) in
      let pchars := sputc pchars (if isprint b then b else Byte.x2e) in
      if printed =? 2 ^ 31 - 1 then Throw (undefined "signed overflow")
      else hexdump_loop indent_string rest (printed + 1) pchars out
  end.

Definition hexdump (data : list byte) (indent : Z) : result (list byte) :=
  let indent_string := spaces indent in
  '(printed, pchars, out) ← hexdump_loop indent_string data 0 (sstr (txt " ")) [];
  let print_rem := (16 - Z.land printed 15) mod 16 in
  Ok (out ++ spaces (2 * print_rem + print_rem / 2 + 4) ++ contents pchars ++ nl ++ nl).

(** ** The reference *)

Definition hex_byte (b : byte) : list byte := setw 2 Byte.x30 (hexadecimal (b2z b)).
Definition shown (b : byte) : byte := if isprint b then b else Byte.x2e.

(** Pairs of bytes with a space between the pairs. *)
Definition groups (l : list byte) : list byte :=
  concat (imap (fun i b => (if Nat.even i && negb (Nat.eqb i 0) then txt " " else []) ++ hex_byte b) l).

(** A text in a column of [n] characters. *)
Definition column (n : nat) (s : list byte) : list byte := s ++ replicate (n - length s) Byte.x20.

(** Line [k] of the dump: the offset, up to sixteen bytes in a column of 39
    characters, and the bytes as characters. *)
Definition dump_line (indent k : Z) (l : list byte) : list byte :=
  spaces indent ++ setw 8 Byte.x30 (hexadecimal (16 * k)) ++ txt ":    " ++ column 39 (groups l) ++
  txt "    " ++ map shown l.

Fixpoint dump_lines (fuel : nat) (indent k : Z) (data : list byte) : list byte :=
  match fuel, data with
  | S fuel, _ :: _ => dump_line indent k (take 16 data) ++ nl ++ dump_lines fuel indent (k + 1) (drop 16 data)
  | _, _ => []
  end.

(** ** Lemmas *)

Lemma hexdump_loop_app ind l1 l2 p s out :
  hexdump_loop ind (l1 ++ l2) p s out =
  '(p, s, out) ← hexdump_loop ind l1 p s out; hexdump_loop ind l2 p s out.
Proof.
  revert p s out. induction l1 as [|b l1 IH]; intros p s out; cbn [app hexdump_loop]; [done|].
  destruct (if Z.land p 15 =? 0 then _ else _) as [s1 out1]. destruct (p =? _); [done|apply IH].
Qed.

Lemma groups_snoc l b :
  groups (l ++ [b]) =
  groups l ++ (if Nat.even (length l) && negb (Nat.eqb (length l) 0) then txt " " else []) ++ hex_byte b.
Proof.
  unfold groups. rewrite imap_app, concat_app. cbn [imap concat]. rewrite app_nil_r.
  by replace (length l + 0)%nat with (length l) by lia.
Qed.

Lemma hex_byte_length b : length (hex_byte b) = 2%nat.
Proof. by destruct b. Qed.

Lemma groups_length l : length (groups l) = (2 * length l + (length l - 1) / 2)%nat.
Proof.
  induction l as [|b l IH] using rev_ind; [done|].
  rewrite groups_snoc, !length_app, hex_byte_length, IH. cbn [length].
  replace (length l + 1 - 1)%nat with (length l) by lia.
  destruct (Nat.even (length l)) eqn:E; [|rewrite <- Nat.negb_odd in E; apply negb_false_iff, Nat.odd_spec in E as [m ->]].
  - apply Nat.even_spec in E as [m E]. rewrite E. destruct m as [|m]; [done|].
    replace (2 * S m - 1)%nat with (1 + m * 2)%nat by lia. replace (2 * S m)%nat with (0 + S m * 2)%nat by lia.
    rewrite !Nat.div_add by lia. cbn. lia.
  - replace (2 * m + 1 - 1)%nat with (0 + m * 2)%nat by lia. replace (2 * m + 1)%nat with (1 + m * 2)%nat by lia.
    rewrite !Nat.div_add by lia. cbn. lia.
Qed.

(** Writing at the end of a stream, or over the blank it starts with. *)
Lemma sputc_end s c : put s = length (contents s) ->
  sputc s c = {| contents := contents s ++ [c]; put := S (put s) |}.
Proof. intros E. unfold sputc. rewrite E, take_ge, drop_ge by lia. done. Qed.

Lemma land_15 z : Z.land z 15 = z mod 16.
Proof. apply (Z.land_ones z 4). lia. Qed.
Lemma land_1 z : Z.land z 1 = z mod 2.
Proof. apply (Z.land_ones z 1). lia. Qed.

Lemma parity z q n : z = Z.of_nat n + q * 2 -> (z mod 2 =? 0) = Nat.even n.
Proof.
  intros ->. rewrite Z.mod_add by lia. destruct (Nat.even n) eqn:E.
  - apply Nat.even_spec in E as [m ->]. apply Z.eqb_eq. rewrite Nat2Z.inj_mul, Z.mul_comm. by apply Z.mod_mul.
  - rewrite <- Nat.negb_odd in E. apply negb_false_iff, Nat.odd_spec in E as [m ->]. apply Z.eqb_neq.
    replace (Z.of_nat (2 * m + 1)) with (1 + Z.of_nat m * 2) by lia. rewrite Z.mod_add by lia. done.
Qed.

(** The space behind the last bytes fills their column. *)
Lemma tail_column k l :
  0 <= k -> (1 <= length l <= 16)%nat ->
  let rem := (16 - Z.land (16 * k + zlen l) 15) mod 16 in
  groups l ++ spaces (2 * rem + rem / 2 + 4) = column 39 (groups l) ++ txt "    ".
Proof.
  intros Hk Hl rem. unfold column. rewrite <- !app_assoc. f_equal.
  change (txt "    ") with (replicate 4 Byte.x20). rewrite <- replicate_add, groups_length.
  unfold spaces. f_equal. subst rem. rewrite land_15. replace (16 * k + zlen l) with (zlen l + k * 16) by lia.
  rewrite Z.mod_add by lia. unfold zlen. revert Hl. generalize (length l). clear. intros n Hn.
  do 17 (destruct n as [|n]; [first [lia|reflexivity]|]). lia.
Qed.

(** The text before the first byte of line [k], after the characters [chars]
    of the line before. *)
Definition line_start (indent_string : list byte) (k : Z) (chars : list byte) : list byte :=
  (if k =? 0 then [] else txt "    " ++ chars ++ nl) ++ indent_string ++
  setw 8 Byte.x30 (hexadecimal (16 * k)) ++ txt ":    ".

(** One line of at most sixteen bytes. *)
Lemma hexdump_line ind k s out l :
  0 <= k -> (1 <= length l <= 16)%nat -> 16 * k + zlen l < 2 ^ 31 -> (k = 0 -> s = sstr (txt " ")) ->
  hexdump_loop ind l (16 * k) s out =
  Ok (16 * k + zlen l, {| contents := map shown l; put := length l |},
      out ++ line_start ind k (contents s) ++ groups l).
Proof.
  intros Hk Hl Hb Hs. induction l as [|b l IH] using rev_ind; [cbn in Hl; lia|].
  rewrite length_app in Hl. cbn [length] in Hl. rewrite zlen_app in Hb. cbn [zlen length] in Hb.
  rewrite hexdump_loop_app, groups_snoc, map_app, length_app. change (zlen [b]) with 1 in Hb.
  destruct (decide (l = [])) as [->|Hne].
  - cbn [hexdump_loop mbind result_bind app length]. rewrite land_15, Z.mul_comm, Z.mod_mul, Z.eqb_refl by lia.
    rewrite (proj2 (Z.eqb_neq (k * 16) (2 ^ 31 - 1))) by lia.
    change (zlen [b]) with 1. unfold line_start. rewrite (Z.mul_comm 16 k).
    destruct (Z.eqb_spec k 0) as [->|Hk0].
    + rewrite Hs by done. change (0 * 16) with 0. cbn [Z.eqb negb]. by rewrite <- !app_assoc.
    + rewrite (proj2 (Z.eqb_neq (k * 16) 0)) by lia. cbn [negb]. rewrite <- !app_assoc. done.
  - assert (Hl1 : (1 <= length l)%nat) by (destruct l; [done|cbn; lia]).
    rewrite IH by lia. cbn [mbind result_bind hexdump_loop]. rewrite land_15, land_1.
    assert (Hz : zlen l < 16) by (unfold zlen; lia). assert (0 < zlen l) by (unfold zlen; lia).
    rewrite (proj2 (Z.eqb_neq ((16 * k + zlen l) mod 16) 0)) by (rewrite Z.mul_comm, Z.add_comm, Z.mod_add, Z.mod_small; lia).
    rewrite (proj2 (Z.eqb_neq (16 * k + zlen l) (2 ^ 31 - 1))) by lia.
    rewrite (parity (16 * k + zlen l) (8 * k) (length l)) by (unfold zlen; lia).
    rewrite (proj2 (Nat.eqb_neq (length l) 0)), andb_true_r by lia.
    rewrite zlen_app. change (zlen [b]) with 1. rewrite Z.add_assoc, (Nat.add_comm (length l)). cbn [length Nat.add map].
    destruct (Nat.even (length l)); rewrite sputc_end by (cbn; by rewrite length_map); cbn [contents put app];
      by rewrite <- ?app_assoc.
Qed.

(** The rest of the text from line [k] on. *)
Lemma hexdump_lines fuel ind indent k s out data :
  ind = spaces indent -> 0 <= k -> data <> [] -> (length data <= 16 * fuel)%nat -> 16 * k + zlen data < 2 ^ 31 ->
  (k = 0 -> s = sstr (txt " ")) ->
  exists p s' out', hexdump_loop ind data (16 * k) s out = Ok (p, s', out') /\
    let rem := (16 - Z.land p 15) mod 16 in
    out' ++ spaces (2 * rem + rem / 2 + 4) ++ contents s' ++ nl =
    out ++ (if k =? 0 then [] else txt "    " ++ contents s ++ nl) ++ dump_lines fuel indent k data.
Proof.
  intros ->. revert k s out data. induction fuel as [|fuel IH]; intros k s out data Hk Hne Hf Hb Hs.
  { destruct data; [done|cbn in Hf; lia]. }
  assert (Hl : (1 <= length (take 16 data) <= 16)%nat) by (rewrite length_take; destruct data; [done|cbn [length]; lia]).
  pose proof (hexdump_loop_app (spaces indent) (take 16 data) (drop 16 data) (16 * k) s out) as Hd.
  rewrite take_drop, (hexdump_line _ _ _ _ (take 16 data)) in Hd by (rewrite ?zlen_take; done || lia). cbn [mbind result_bind] in Hd. unfold dump_lines; fold dump_lines. destruct data as [|b data]; [done|].
  destruct (drop 16 (b :: data)) as [|b' rest] eqn:Ed; rewrite Hd; clear Hd.
  - cbn [hexdump_loop]. do 3 eexists. split; [done|]. cbn zeta. rewrite <- !app_assoc, (app_assoc (groups _) (spaces _)), tail_column by lia.
    assert (dump_lines fuel indent (k + 1) [] = []) as -> by by destruct fuel.
    unfold dump_line, line_start. cbn [contents]. rewrite app_nil_r. by rewrite <- !app_assoc.
  - assert (Ht : length (take 16 (b :: data)) = 16%nat).
    { apply (f_equal length) in Ed. rewrite length_drop in Ed. rewrite length_take. cbn [length] in *. lia. }
    assert (Hz : zlen (take 16 (b :: data)) = 16) by (unfold zlen; lia). rewrite Hz.
    replace (16 * k + 16) with (16 * (k + 1)) by lia.
    edestruct (fun s out => IH (k + 1) s out (b' :: rest)) as (p & s' & out' & E & Ho); [lia|done| | |lia|].
    { rewrite <- Ed, length_drop. lia. }
    { rewrite <- Ed, zlen_drop. apply (f_equal length) in Ed. rewrite length_drop in Ed. unfold zlen in *. cbn [length] in *. lia. }
    rewrite E. do 3 eexists. split; [done|]. rewrite Ho. rewrite (proj2 (Z.eqb_neq (k + 1) 0)) by lia.
    unfold dump_line, line_start, column. cbn [contents]. rewrite groups_length, Ht. cbn [replicate Nat.sub Nat.mul Nat.add Nat.div Nat.divmod fst].
    by rewrite ?app_nil_r, <- !app_assoc.
Qed.

Lemma hexdump_text data indent :
  data <> [] -> zlen data < 2 ^ 31 -> hexdump data indent = Ok (dump_lines (length data) indent 0 data ++ nl).
Proof.
  intros Hne Hb. unfold hexdump.
  destruct (hexdump_lines (length data) (spaces indent) indent 0 (sstr (txt " ")) [] data)
    as (p & s & out & E & Ho); [done|lia|done|lia|lia|done|].
  change (16 * 0) with 0 in E. rewrite E. cbn [mbind result_bind]. f_equal. cbn [Z.eqb app] in Ho. rewrite <- Ho.
  by rewrite <- !app_assoc.
Qed.

Lemma hexdump_total data indent : zlen data < 2 ^ 31 -> exists out, hexdump data indent = Ok out.
Proof.
  intros Hb. destruct data as [|b data]; [eexists; reflexivity|]. rewrite hexdump_text by done. eauto.
Qed.

(** ** Property *)

(** The dump shows every byte in its place. For data that is not empty the
    text is one line for every sixteen bytes, each with its offset, its bytes
    in a column of the same width on every line, the last one included, and
    the bytes as characters; an empty line follows. *)
Theorem hexdump_shows data indent :
  data <> [] -> zlen data < 2 ^ 31 ->
  hexdump data indent = Ok (dump_lines (length data) indent 0 data ++ nl).
Proof. apply hexdump_text. Qed.

Lemma hexdump_shows_witness :
  hexdump (txt "The quick brown fox") 2 = Ok (dump_lines 19 2 0 (txt "The quick brown fox") ++ nl) /\
  dump_lines 19 2 0 (txt "The quick brown fox") =
    txt "  00000000:    5468 6520 7175 6963 6b20 6272 6f77 6e20    The quick brown " ++ nl ++
    txt "  00000010:    666f 78                                    fox" ++ nl.
Proof. split; [apply (hexdump_shows (txt "The quick brown fox") 2); [discriminate|vm_compute; reflexivity]|vm_compute; reflexivity]. Defined.
