(* ===== verification/HeaderText.v ===== *)
(** * Headers as text

    Models [to_string] and [summary] of [TCPHeader] and [IPv4Header]
    ([src/libsponge/tcp_helpers/tcp_header.cc] and [ipv4_header.cc]) and the
    stream output of [WrappingInt32] they use. *)

From S2P Require Import Prelude Text WrappingIntegers TCPHeader IPv4Header.

(** [operator<<] of [WrappingInt32], in the base that the stream is set to. *)
Definition print_wrapping (base : Z) (a : WrappingInt32) : list byte := number base (raw_value a).

Definition tcp_to_string (h : TCPHeader) : list byte :=
  txt "TCP source port: " ++ hexadecimal (sport h) ++ nl ++
  txt "TCP dest port: " ++ hexadecimal (dport h) ++ nl ++
  txt "TCP seqno: " ++ print_wrapping 16 (seqno h) ++ nl ++
  txt "TCP ackno: " ++ print_wrapping 16 (ackno h) ++ nl ++
  txt "TCP doff: " ++ hexadecimal (doff h) ++ nl ++
  txt "Flags: urg: " ++ boolalpha (urg h) ++ txt " ack: " ++ boolalpha (ack h) ++
  txt " psh: " ++ boolalpha (psh h) ++ txt " rst: " ++ boolalpha (rst h) ++
  txt " syn: " ++ boolalpha (syn h) ++ txt " fin: " ++ boolalpha (fin h) ++ nl ++
  txt "TCP winsize: " ++ hexadecimal (win h) ++ nl ++
  txt "TCP cksum: " ++ hexadecimal (TCPHeader.cksum h) ++ nl ++
  txt "TCP uptr: " ++ hexadecimal (uptr h) ++ nl.

Definition tcp_summary (h : TCPHeader) : list byte :=
  txt "Header(flags=" ++ txt (if syn h then "S" else "") ++ txt (if ack h then "A" else "") ++
  txt (if rst h then "R" else "") ++ txt (if fin h then "F" else "") ++
  txt ",seqno=" ++ print_wrapping 10 (seqno h) ++ txt ",ack=" ++ print_wrapping 10 (ackno h) ++
  txt ",win=" ++ decimal (win h) ++ txt ")".

Definition ip_to_string (h : IPv4Header) : list byte :=
  txt "IP version: " ++ hexadecimal (ver h) ++ nl ++
  txt "IP hdr len: " ++ hexadecimal (hlen h) ++ nl ++
  txt "IP tos: " ++ hexadecimal (tos h) ++ nl ++
  txt "IP dgram len: " ++ hexadecimal (len h) ++ nl ++
  txt "IP id: " ++ hexadecimal (id h) ++ nl ++
  txt "Flags: df: " ++ boolalpha (df h) ++ txt " mf: " ++ boolalpha (mf h) ++ nl ++
  txt "Offset: " ++ hexadecimal (offset h) ++ nl ++
  txt "TTL: " ++ hexadecimal (ttl h) ++ nl ++
  txt "Protocol: " ++ hexadecimal (proto h) ++ nl ++
  txt "Checksum: " ++ hexadecimal (IPv4Header.cksum h) ++ nl ++
  txt "Src addr: " ++ hexadecimal (src h) ++ nl ++
  txt "Dst addr: " ++ hexadecimal (dst h) ++ nl.

(** [to_string] of a number is decimal whatever the stream is set to. *)
Definition ip_summary (h : IPv4Header) : list byte :=
  txt "IPv" ++ hexadecimal (ver h) ++ txt ", " ++
  txt "len=" ++ hexadecimal (len h) ++ txt ", " ++
  txt "protocol=" ++ hexadecimal (proto h) ++ txt ", " ++
  (if 10 <=? ttl h then [] else txt "ttl=" ++ decimal (ttl h) ++ txt ", ") ++
  txt "src=" ++ dotted (src h) ++ txt ", " ++ txt "dst=" ++ dotted (dst h).

(** ** Reading the text back *)

Lemma boolalpha_inj b b' r r' : boolalpha b ++ r = boolalpha b' ++ r' -> b = b' /\ r = r'.
Proof. destruct b, b'; cbn; intros E; simplify_eq; done. Qed.

(** [peel E] takes the common literal at the front of two texts, or the number
    or flag there, off the equation [E]. *)
Ltac peel E :=
  lazymatch type of E with
  | txt _ ++ _ = txt _ ++ _ => apply app_inv_head in E
  | nl ++ _ = nl ++ _ => apply app_inv_head in E
  | boolalpha _ ++ _ = boolalpha _ ++ _ => apply boolalpha_inj in E as [? E]
  | number ?b _ ++ _ = number _ _ ++ _ =>
      apply (number_inj b) in E as [? E]; [|lia|lia|lia|done|done]
  end.

Lemma tcp_to_string_inj h h' :
  wf_TCPHeader h -> wf_TCPHeader h' -> tcp_to_string h = tcp_to_string h' -> h = h'.
Proof.
  intros [? ? Hs Ha ? ? ? ?] [? ? Hs' Ha' ? ? ? ?] E. unfold wi_wf in *.
  unfold tcp_to_string, hexadecimal, print_wrapping in E. repeat peel E.
  destruct h as [? ? [] [] ? ? ? ? ? ? ? ? ? ?], h' as [? ? [] [] ? ? ? ? ? ? ? ? ? ?]. cbn in *. congruence.
Qed.

Lemma ip_to_string_inj h h' :
  wf_IPv4Header h -> wf_IPv4Header h' -> ip_to_string h = ip_to_string h' -> h = h'.
Proof.
  intros [] [] E. unfold ip_to_string, hexadecimal in E. repeat peel E. destruct h, h'. cbn in *. congruence.
Qed.

(** The short form shows the flags, the numbers and the window. *)
Lemma tcp_summary_shows h h' :
  wf_TCPHeader h -> wf_TCPHeader h' -> tcp_summary h = tcp_summary h' ->
  (syn h, ack h, rst h, fin h) = (syn h', ack h', rst h', fin h') /\
  seqno h = seqno h' /\ ackno h = ackno h' /\ win h = win h'.
Proof.
  intros [_ _ Hs Ha _ Hw _ _] [_ _ Hs' Ha' _ Hw' _ _] E. unfold wi_wf in *. unfold tcp_summary, print_wrapping, decimal in E.
  assert (Hf : (syn h, ack h, rst h, fin h) = (syn h', ack h', rst h', fin h')).
  { apply app_inv_head in E. clear -E.
    by destruct (syn h), (ack h), (rst h), (fin h), (syn h'), (ack h'), (rst h'), (fin h'). }
  split; [done|]. injection Hf as E1 E2 E3 E4. rewrite E1, E2, E3, E4 in E.
  repeat peel E. by destruct (seqno h), (seqno h'), (ackno h), (ackno h'); cbn in *; subst.
Qed.

(** ** Property *)

(** The text of a header tells the header. Two TCP headers with the same
    [to_string] are the same header, and so are two IPv4 headers; two TCP
    headers with the same [summary] agree on SYN, ACK, RST and FIN, on both
    sequence numbers and on the window. *)
Theorem header_text_faithful :
  (forall h h', wf_TCPHeader h -> wf_TCPHeader h' -> tcp_to_string h = tcp_to_string h' -> h = h') /\
  (forall h h', wf_IPv4Header h -> wf_IPv4Header h' -> ip_to_string h = ip_to_string h' -> h = h') /\
  (forall h h', wf_TCPHeader h -> wf_TCPHeader h' -> tcp_summary h = tcp_summary h' ->
    (syn h, ack h, rst h, fin h) = (syn h', ack h', rst h', fin h') /\
    seqno h = seqno h' /\ ackno h = ackno h' /\ win h = win h').
Proof. split; [apply tcp_to_string_inj|split; [apply ip_to_string_inj|apply tcp_summary_shows]]. Qed.

Example summary_text :
  tcp_summary default_TCPHeader = txt "Header(flags=,seqno=0,ack=0,win=0)" /\
  ip_summary default_IPv4Header = txt "IPv4, len=0, protocol=6, src=0.0.0.0, dst=0.0.0.0".
Proof. done. Qed.
