(* ===== verification/CommandLine.v ===== *)
(** * Command lines

    Models the parsing of options in [src/apps/tcp_udp.cc] and
    [src/apps/tcp_ipv4.cc]: [show_usage], [check_argc], [get_config] and the test
    at the start of [main]. The programs walk through [argv] with an index, which
    comes to reading a list of options from its front ([interpret]). *)

From S2P Require Import Prelude Text Float FdAdapter Address TCPSender.

(** ** Programs that may exit *)

(** A call returns, ends the program with a status after printing a text, or
    throws. *)
Inductive prog (A : Type) :=
| Return (a : A)
| Exit (status : Z) (printed : list byte)
| Raise (e : exn).
Arguments Return {A} a.
Arguments Exit {A} status printed.
Arguments Raise {A} e.

#[export] Instance prog_ret : MRet prog := fun A => @Return A.
#[export] Instance prog_bind : MBind prog := fun A B f m =>
  match m with Return a => f a | Exit s o => Exit s o | Raise e => Raise e end.

Definition lift {A} (r : result A) : prog A :=
  match r with Ok a => Return a | Throw e => Raise e end.

Definition EXIT_SUCCESS : Z := 0.
Definition EXIT_FAILURE : Z := 1.

(** [argv[i]]; [argc] is the length of the list. *)
Definition arg (argv : list (list byte)) (i : Z) : prog (list byte) :=
  match zget argv i with Some a => Return a | None => Raise (undefined "argv") end.

(** ** Options at the front of a list, two arguments at its end *)

Inductive action (C : Type) :=
| Flag (f : C -> C)
| Valued (err : list byte) (f : C -> list byte -> prog C)
| Help
| Unknown.
Arguments Flag {C} f.
Arguments Valued {C} err f.
Arguments Help {C}.
Arguments Unknown {C}.

Definition unrecognized (a : list byte) : list byte := txt "ERROR: unrecognized option " ++ a.

Fixpoint interpret {C} (usage : option (list byte) -> list byte) (table : list byte -> action C)
    (args : list (list byte)) (c : C) : prog (C * list (list byte)) :=
  match args with
  | a :: rest =>
      if (length args <=? 2)%nat then Return (c, args)
      else match table a with
           | Flag f => interpret usage table rest (f c)
           | Valued err f =>
               match rest with
               | v :: rest' =>
                   if (length rest' <=? 1)%nat then Exit 1 (usage (Some err))
                   else c ← f c v; interpret usage table rest' c
               | [] => Return (c, args)
               end
           | Help => Exit 0 (usage None)
           | Unknown => Exit 1 (usage (Some (unrecognized a)))
           end
  | [] => Return (c, args)
  end.

(** ** tcp_udp *)

(** A line of a usage text with its default. *)
Definition usage_line (s : string) : list byte := txt s ++ nl.

Definition udp_show_usage (argv0 : list byte) (msg : option (list byte)) : list byte :=
  txt "Usage: " ++ argv0 ++ txt " [options] <host> <port>" ++ nl ++ nl ++
  usage_line "   Option                                                          Default" ++
  usage_line "   --                                                              --" ++ nl ++
  usage_line "   -l              Server (listen) mode.                           (client mode)" ++
  usage_line "                   In server mode, <host>:<port> is the address to bind." ++ nl ++
  txt "   -w <winsz>      Use a window of <winsz> bytes                   " ++ decimal MAX_PAYLOAD_SIZE ++ nl ++ nl ++
  txt "   -t <tmout>      Set rt_timeout to tmout                         " ++ decimal TIMEOUT_DFLT ++ nl ++ nl ++
  usage_line "   -Lu <loss>      Set uplink loss to <rate> (float in 0..1)       (no loss)" ++
  usage_line "   -Ld <loss>      Set downlink loss to <rate> (float in 0..1)     (no loss)" ++ nl ++
  usage_line "   -h              Show this message and quit." ++ nl ++
  default [] msg ++ nl.

(** [check_argc] of either program, given its usage text. *)
Definition check_argc (show_usage : list byte -> option (list byte) -> list byte)
    (argv : list (list byte)) (curr : Z) (err : list byte) : prog () :=
  if zlen argv <=? curr + 3 then
    argv0 ← arg argv 0; Exit 1 (show_usage argv0 (Some err))
  else Return ().

Record udp_options := {
  c_fsm : TCPConfig;
  c_filt : FdAdapterConfig Address;
  listen : bool
}.

Definition set_recv_capacity (c : TCPConfig) (n : Z) : TCPConfig :=
  {| rt_timeout := rt_timeout c; recv_capacity := u64 n; send_capacity := send_capacity c; fixed_isn := fixed_isn c |}.
Definition set_rt_timeout (c : TCPConfig) (n : Z) : TCPConfig :=
  {| rt_timeout := u16 n; recv_capacity := recv_capacity c; send_capacity := send_capacity c; fixed_isn := fixed_isn c |}.
Definition set_loss_up (c : FdAdapterConfig Address) (n : Z) : FdAdapterConfig Address :=
  {| source := source c; destination := destination c; loss_rate_dn := loss_rate_dn c; loss_rate_up := n |}.
Definition set_loss_dn (c : FdAdapterConfig Address) (n : Z) : FdAdapterConfig Address :=
  {| source := source c; destination := destination c; loss_rate_dn := n; loss_rate_up := loss_rate_up c |}.
Definition config_source (c : FdAdapterConfig Address) (a : Address) : FdAdapterConfig Address :=
  {| source := a; destination := destination c; loss_rate_dn := loss_rate_dn c; loss_rate_up := loss_rate_up c |}.
Definition config_destination (c : FdAdapterConfig Address) (a : Address) : FdAdapterConfig Address :=
  {| source := source c; destination := a; loss_rate_dn := loss_rate_dn c; loss_rate_up := loss_rate_up c |}.

(** The number a loss rate is stored as. *)
Definition loss_rate (s : list byte) : prog Z := lift (float_to_u16 (fmul float_65535 (strtof s))).

Definition udp_fsm (c : udp_options) (f : TCPConfig) : udp_options :=
  {| c_fsm := f; c_filt := c_filt c; listen := listen c |}.
Definition udp_filt (c : udp_options) (f : FdAdapterConfig Address) : udp_options :=
  {| c_fsm := c_fsm c; c_filt := f; listen := listen c |}.
Definition udp_listen (c : udp_options) : udp_options :=
  {| c_fsm := c_fsm c; c_filt := c_filt c; listen := true |}.

(** The loop of [get_config]. *)
Fixpoint udp_loop (fuel : nat) (argv : list (list byte)) (curr : Z) (c : udp_options)
    : prog (Z * udp_options) :=
  match fuel with
  | O => Raise (undefined "get_config: out of fuel")
  | S fuel =>
      if 2 <? zlen argv - curr then
        a ← arg argv curr;
        if strncmp_eq (txt "-l") a 3 then udp_loop fuel argv (curr + 1) (udp_listen c)
        else if strncmp_eq (txt "-w") a 3 then
          _ ← check_argc udp_show_usage argv curr (txt "ERROR: -w requires one argument.");
          v ← arg argv (curr + 1);
          udp_loop fuel argv (curr + 2) (udp_fsm c (set_recv_capacity (c_fsm c) (strtol v 0)))
        else if strncmp_eq (txt "-t") a 3 then
          _ ← check_argc udp_show_usage argv curr (txt "ERROR: -t requires one argument.");
          v ← arg argv (curr + 1);
          udp_loop fuel argv (curr + 2) (udp_fsm c (set_rt_timeout (c_fsm c) (strtol v 0)))
        else if strncmp_eq (txt "-Lu") a 3 then
          _ ← check_argc udp_show_usage argv curr (txt "ERROR: -Lu requires one argument.");
          v ← arg argv (curr + 1);
          n ← loss_rate v;
          udp_loop fuel argv (curr + 2) (udp_filt c (set_loss_up (c_filt c) n))
        else if strncmp_eq (txt "-Ld") a 3 then
          _ ← check_argc udp_show_usage argv curr (txt "ERROR: -Lu requires one argument.");
          v ← arg argv (curr + 1);
          n ← loss_rate v;
          udp_loop fuel argv (curr + 2) (udp_filt c (set_loss_dn (c_filt c) n))
        else if strncmp_eq (txt "-h") a 3 then
          argv0 ← arg argv 0; Exit 0 (udp_show_usage argv0 None)
        else
          argv0 ← arg argv 0; Exit 1 (udp_show_usage argv0 (Some (unrecognized a)))
      else Return (curr, c)
  end.

(** What each option means. *)
Definition udp_action (a : list byte) : action udp_options :=
  if strncmp_eq (txt "-l") a 3 then Flag udp_listen
  else if strncmp_eq (txt "-w") a 3 then
    Valued (txt "ERROR: -w requires one argument.")
      (fun c v => Return (udp_fsm c (set_recv_capacity (c_fsm c) (strtol v 0))))
  else if strncmp_eq (txt "-t") a 3 then
    Valued (txt "ERROR: -t requires one argument.")
      (fun c v => Return (udp_fsm c (set_rt_timeout (c_fsm c) (strtol v 0))))
  else if strncmp_eq (txt "-Lu") a 3 then
    Valued (txt "ERROR: -Lu requires one argument.")
      (fun c v => n ← loss_rate v; Return (udp_filt c (set_loss_up (c_filt c) n)))
  else if strncmp_eq (txt "-Ld") a 3 then
    Valued (txt "ERROR: -Lu requires one argument.")
      (fun c v => n ← loss_rate v; Return (udp_filt c (set_loss_dn (c_filt c) n)))
  else if strncmp_eq (txt "-h") a 3 then Help
  else Unknown.

Section udp.
Context `{Resolver}.

(** The default configuration of an adapter. *)
Definition default_FdAdapterConfig : result (FdAdapterConfig Address) :=
  source ← of_ip (txt "0") 0;
  destination ← of_ip (txt "0") 0;
  Ok {| source := source; destination := destination; loss_rate_dn := 0; loss_rate_up := 0 |}.

Definition udp_get_config (argv : list (list byte)) : prog udp_options :=
  filt ← lift default_FdAdapterConfig;
  '(_, c) ← udp_loop (length argv) argv 1
              {| c_fsm := default_TCPConfig; c_filt := filt; listen := false |};
  if listen c then
    p ← arg argv (zlen argv - 1);
    a ← lift (of_host (txt "0") p);
    Return (udp_filt c (config_source (c_filt c) a))
  else
    host ← arg argv (zlen argv - 2);
    p ← arg argv (zlen argv - 1);
    a ← lift (of_host host p);
    Return (udp_filt c (config_destination (c_filt c) a)).

(** The start of [main]. *)
Definition udp_main_config (argv : list (list byte)) : prog udp_options :=
  if zlen argv <? 3 then
    argv0 ← arg argv 0; Exit 1 (udp_show_usage argv0 (Some (txt "ERROR: required arguments are missing.")))
  else udp_get_config argv.

End udp.

(** ** tcp_ipv4 *)

Definition TUN_DFLT : list byte := txt "tun144".
Definition LOCAL_ADDRESS_DFLT : list byte := txt "169.254.144.9".

Definition ip_show_usage (argv0 : list byte) (msg : option (list byte)) : list byte :=
  txt "Usage: " ++ argv0 ++ txt " [options] <host> <port>" ++ nl ++ nl ++
  usage_line "   Option                                                          Default" ++
  usage_line "   --                                                              --" ++ nl ++
  usage_line "   -l              Server (listen) mode.                           (client mode)" ++
  usage_line "                   In server mode, <host>:<port> is the address to bind." ++ nl ++
  txt "   -a <addr>       Set source address (client mode only)           " ++ LOCAL_ADDRESS_DFLT ++ nl ++
  usage_line "   -s <port>       Set source port (client mode only)              (random)" ++ nl ++
  txt "   -w <winsz>      Use a window of <winsz> bytes                   " ++ decimal MAX_PAYLOAD_SIZE ++ nl ++ nl ++
  txt "   -t <tmout>      Set rt_timeout to tmout                         " ++ decimal TIMEOUT_DFLT ++ nl ++ nl ++
  txt "   -d <tundev>     Connect to tun <tundev>                         " ++ TUN_DFLT ++ nl ++ nl ++
  usage_line "   -Lu <loss>      Set uplink loss to <rate> (float in 0..1)       (no loss)" ++
  usage_line "   -Ld <loss>      Set downlink loss to <rate> (float in 0..1)     (no loss)" ++ nl ++
  usage_line "   -h              Show this message." ++ nl ++
  default [] msg ++ nl.

Record ip_options := {
  base_options : udp_options;
  tundev : option (list byte);
  source_address : list byte;
  source_port : list byte
}.

Definition ip_base (c : ip_options) (b : udp_options) : ip_options :=
  {| base_options := b; tundev := tundev c; source_address := source_address c; source_port := source_port c |}.
Definition ip_tundev (c : ip_options) (d : list byte) : ip_options :=
  {| base_options := base_options c; tundev := Some d; source_address := source_address c; source_port := source_port c |}.
Definition ip_source_address (c : ip_options) (a : list byte) : ip_options :=
  {| base_options := base_options c; tundev := tundev c; source_address := a; source_port := source_port c |}.
Definition ip_source_port (c : ip_options) (p : list byte) : ip_options :=
  {| base_options := base_options c; tundev := tundev c; source_address := source_address c; source_port := p |}.

(** The loop of [get_config]. *)
Fixpoint ip_loop (fuel : nat) (argv : list (list byte)) (curr : Z) (c : ip_options)
    : prog (Z * ip_options) :=
  match fuel with
  | O => Raise (undefined "get_config: out of fuel")
  | S fuel =>
      let b := base_options c in
      if 2 <? zlen argv - curr then
        a ← arg argv curr;
        if strncmp_eq (txt "-l") a 3 then ip_loop fuel argv (curr + 1) (ip_base c (udp_listen b))
        else if strncmp_eq (txt "-a") a 3 then
          _ ← check_argc ip_show_usage argv curr (txt "ERROR: -a requires one argument.");
          v ← arg argv (curr + 1);
          ip_loop fuel argv (curr + 2) (ip_source_address c v)
        else if strncmp_eq (txt "-s") a 3 then
          _ ← check_argc ip_show_usage argv curr (txt "ERROR: -s requires one argument.");
          v ← arg argv (curr + 1);
          ip_loop fuel argv (curr + 2) (ip_source_port c v)
        else if strncmp_eq (txt "-w") a 3 then
          _ ← check_argc ip_show_usage argv curr (txt "ERROR: -w requires one argument.");
          v ← arg argv (curr + 1);
          ip_loop fuel argv (curr + 2) (ip_base c (udp_fsm b (set_recv_capacity (c_fsm b) (strtol v 0))))
        else if strncmp_eq (txt "-t") a 3 then
          _ ← check_argc ip_show_usage argv curr (txt "ERROR: -t requires one argument.");
          v ← arg argv (curr + 1);
          ip_loop fuel argv (curr + 2) (ip_base c (udp_fsm b (set_rt_timeout (c_fsm b) (strtol v 0))))
        else if strncmp_eq (txt "-d") a 3 then
          _ ← check_argc ip_show_usage argv curr (txt "ERROR: -t requires one argument.");
          v ← arg argv (curr + 1);
          ip_loop fuel argv (curr + 2) (ip_tundev c v)
        else if strncmp_eq (txt "-Lu") a 3 then
          _ ← check_argc ip_show_usage argv curr (txt "ERROR: -Lu requires one argument.");
          v ← arg argv (curr + 1);
          n ← loss_rate v;
          ip_loop fuel argv (curr + 2) (ip_base c (udp_filt b (set_loss_up (c_filt b) n)))
        else if strncmp_eq (txt "-Ld") a 3 then
          _ ← check_argc ip_show_usage argv curr (txt "ERROR: -Lu requires one argument.");
          v ← arg argv (curr + 1);
          n ← loss_rate v;
          ip_loop fuel argv (curr + 2) (ip_base c (udp_filt b (set_loss_dn (c_filt b) n)))
        else if strncmp_eq (txt "-h") a 3 then
          argv0 ← arg argv 0; Exit 0 (ip_show_usage argv0 None)
        else
          argv0 ← arg argv 0; Exit 1 (ip_show_usage argv0 (Some (unrecognized a)))
      else Return (curr, c)
  end.

(** What each option means. *)
Definition ip_action (a : list byte) : action ip_options :=
  if strncmp_eq (txt "-l") a 3 then Flag (fun c => ip_base c (udp_listen (base_options c)))
  else if strncmp_eq (txt "-a") a 3 then
    Valued (txt "ERROR: -a requires one argument.") (fun c v => Return (ip_source_address c v))
  else if strncmp_eq (txt "-s") a 3 then
    Valued (txt "ERROR: -s requires one argument.") (fun c v => Return (ip_source_port c v))
  else if strncmp_eq (txt "-w") a 3 then
    Valued (txt "ERROR: -w requires one argument.") (fun c v =>
      let b := base_options c in Return (ip_base c (udp_fsm b (set_recv_capacity (c_fsm b) (strtol v 0)))))
  else if strncmp_eq (txt "-t") a 3 then
    Valued (txt "ERROR: -t requires one argument.") (fun c v =>
      let b := base_options c in Return (ip_base c (udp_fsm b (set_rt_timeout (c_fsm b) (strtol v 0)))))
  else if strncmp_eq (txt "-d") a 3 then
    Valued (txt "ERROR: -t requires one argument.") (fun c v => Return (ip_tundev c v))
  else if strncmp_eq (txt "-Lu") a 3 then
    Valued (txt "ERROR: -Lu requires one argument.") (fun c v =>
      let b := base_options c in n ← loss_rate v; Return (ip_base c (udp_filt b (set_loss_up (c_filt b) n))))
  else if strncmp_eq (txt "-Ld") a 3 then
    Valued (txt "ERROR: -Lu requires one argument.") (fun c v =>
      let b := base_options c in n ← loss_rate v; Return (ip_base c (udp_filt b (set_loss_dn (c_filt b) n))))
  else if strncmp_eq (txt "-h") a 3 then Help
  else Unknown.

Section ip.
Context `{Resolver}.

(** [rnd] is what [random_device] gives for the source port. *)
Definition ip_get_config (rnd : Z) (argv : list (list byte)) : prog ip_options :=
  filt ← lift default_FdAdapterConfig;
  '(curr, c) ← ip_loop (length argv) argv 1
    {| base_options := {| c_fsm := default_TCPConfig; c_filt := filt; listen := false |};
       tundev := None; source_address := LOCAL_ADDRESS_DFLT; source_port := decimal (u16 rnd) |};
  let b := base_options c in
  if listen b then
    p ← arg argv (curr + 1);
    a ← lift (of_host (txt "0") p);
    n ← lift (port a);
    if n =? 0 then
      argv0 ← arg argv 0;
      Exit 1 (ip_show_usage argv0 (Some (txt "ERROR: listen port cannot be zero in server mode.")))
    else Return (ip_base c (udp_filt b (config_source (c_filt b) a)))
  else
    host ← arg argv curr;
    p ← arg argv (curr + 1);
    d ← lift (of_host host p);
    s ← lift (of_host (source_address c) (source_port c));
    Return (ip_base c (udp_filt b (config_source (config_destination (c_filt b) d) s))).

(** The start of [main]. *)
Definition ip_main_config (rnd : Z) (argv : list (list byte)) : prog ip_options :=
  if zlen argv <? 3 then
    argv0 ← arg argv 0; Exit EXIT_FAILURE (ip_show_usage argv0 (Some (txt "ERROR: required arguments are missing.")))
  else ip_get_config rnd argv.

End ip.

(** ** The walk and the list *)

Lemma prog_bind_assoc {A B C} (m : prog A) (f : A -> prog B) (g : B -> prog C) :
  ((m ≫= f) ≫= g) = (m ≫= (fun a => f a ≫= g)).
Proof. by destruct m. Qed.

(** The walk with an index, for any table. *)
Fixpoint walk {C} (show_usage : list byte -> option (list byte) -> list byte) (table : list byte -> action C)
    (fuel : nat) (argv : list (list byte)) (curr : Z) (c : C) : prog (Z * C) :=
  match fuel with
  | O => Raise (undefined "get_config: out of fuel")
  | S fuel =>
      if 2 <? zlen argv - curr then
        a ← arg argv curr;
        match table a with
        | Flag f => walk show_usage table fuel argv (curr + 1) (f c)
        | Valued err f =>
            _ ← check_argc show_usage argv curr err;
            v ← arg argv (curr + 1);
            c ← f c v;
            walk show_usage table fuel argv (curr + 2) c
        | Help => argv0 ← arg argv 0; Exit 0 (show_usage argv0 None)
        | Unknown => argv0 ← arg argv 0; Exit 1 (show_usage argv0 (Some (unrecognized a)))
        end
      else Return (curr, c)
  end.

Ltac same_options :=
  repeat match goal with |- context [strncmp_eq ?x ?a 3] => destruct (strncmp_eq x a 3) end;
  repeat (match goal with |- (?m ≫= _) = (?m ≫= _) => destruct m; cbn [mbind prog_bind]; [|done|done] end);
  rewrite ?prog_bind_assoc;
  try (match goal with |- (?m ≫= _) = (?m ≫= _) => destruct m; cbn [mbind prog_bind]; [|done|done] end);
  cbn [mbind prog_bind]; eauto.

Lemma udp_loop_walk fuel argv curr c :
  udp_loop fuel argv curr c = walk udp_show_usage udp_action fuel argv curr c.
Proof.
  revert curr c. induction fuel as [|fuel IH]; intros curr c; cbn [udp_loop walk]; [done|].
  destruct (2 <? _); [|done]. destruct (arg argv curr) as [a| |]; cbn [mbind prog_bind]; [|done|done].
  unfold udp_action. same_options.
Qed.

Lemma ip_loop_walk fuel argv curr c :
  ip_loop fuel argv curr c = walk ip_show_usage ip_action fuel argv curr c.
Proof.
  revert curr c. induction fuel as [|fuel IH]; intros curr c; cbn [ip_loop walk]; [done|].
  destruct (2 <? _); [|done]. destruct (arg argv curr) as [a| |]; cbn [mbind prog_bind]; [|done|done].
  unfold ip_action. same_options.
Qed.

Lemma arg_drop argv (n : nat) a rest : drop n argv = a :: rest -> arg argv (Z.of_nat n) = Return a.
Proof.
  intros E. unfold arg, zget. rewrite (proj2 (Z.ltb_ge _ _)), Nat2Z.id by lia.
  apply (f_equal head) in E. rewrite <- (Nat.add_0_r n), <- lookup_drop.
  destruct (drop n argv); [done|]. cbn in *. by simplify_eq.
Qed.

Lemma drop_tail {A} (l : list A) n a rest : drop n l = a :: rest -> drop (S n) l = rest.
Proof. intros E. by rewrite <- Nat.add_1_r, <- drop_drop, E. Qed.

(** The walk from argument [n] on. *)
Lemma walk_interpret {C} show_usage (table : list byte -> action C) argv0 args fuel (n : nat) (c : C) :
  let argv := argv0 :: args in
  (1 <= n <= length argv)%nat -> (length argv - n < fuel)%nat ->
  walk show_usage table fuel argv (Z.of_nat n) c =
  '(c, rest) ← interpret (show_usage argv0) table (drop n argv) c; Return (zlen argv - zlen rest, c).
Proof.
  intros argv Hn Hf. revert n c Hn Hf. induction fuel as [|fuel IH]; intros n c Hn Hf; [lia|]. cbn [walk].
  assert (Hlen : zlen argv - Z.of_nat n = Z.of_nat (length (drop n argv))) by (rewrite length_drop; unfold zlen; lia).
  assert (H0 : arg argv 0 = Return argv0) by done.
  destruct (drop n argv) as [|a rest] eqn:E.
  { rewrite Hlen. cbn [length interpret mbind prog_bind]. change (zlen []) with 0.
    destruct (Z.ltb_spec 2 (Z.of_nat 0)); [lia|]. cbn in Hlen. do 2 f_equal. lia. }
  pose proof (f_equal length E) as El. rewrite length_drop in El. rewrite Hlen.
  unfold interpret; fold @interpret. cbn [length] in El |- *.
  destruct (Z.ltb_spec 2 (Z.of_nat (S (length rest)))) as [Hl|Hl].
  2: { rewrite (proj2 (Nat.leb_le _ 2)) by lia. cbn [mbind prog_bind]. do 2 f_equal.
       rewrite zlen_cons. unfold zlen in *. lia. }
  rewrite (proj2 (Nat.leb_gt _ 2)), (arg_drop _ _ _ _ E) by lia. cbn [mbind prog_bind].
  pose proof (drop_tail _ _ _ _ E) as E1. destruct (table a) as [f|err f| |].
  - replace (Z.of_nat n + 1) with (Z.of_nat (S n)) by lia. rewrite IH by lia. by rewrite E1.
  - destruct rest as [|v rest']; [cbn in Hl; lia|]. unfold check_argc. rewrite H0. cbn [mbind prog_bind length] in *.
    replace (Z.of_nat n + 1) with (Z.of_nat (S n)) by lia. replace (Z.of_nat n + 2) with (Z.of_nat (S (S n))) by lia.
    pose proof (drop_tail _ _ _ _ E1) as E2.
    destruct (Nat.leb_spec (length rest') 1).
    + rewrite (proj2 (Z.leb_le (zlen argv) _)) by lia. done.
    + rewrite (proj2 (Z.leb_gt (zlen argv) _)), (arg_drop _ _ _ _ E1) by lia. cbn [mbind prog_bind].
      destruct (f c v) as [c1| |]; [|done|done]. cbn [mbind prog_bind]. rewrite IH by lia. by rewrite E2.
  - by rewrite H0.
  - by rewrite H0.
Qed.

(** The last two arguments are left. *)
Lemma interpret_rest {C} usage (table : list byte -> action C) args c c' rest :
  (2 <= length args)%nat -> interpret usage table args c = Return (c', rest) ->
  exists before host p, args = before ++ [host; p] /\ rest = [host; p].
Proof.
  remember (length args) as n eqn:Hn. revert args c Hn.
  induction n as [n IH] using lt_wf_ind. intros args c -> H2. destruct args as [|a rest0]; [cbn in H2; lia|].
  unfold interpret; fold @interpret. destruct (Nat.leb_spec (length (a :: rest0)) 2) as [Hl|Hl].
  { intros [= <- <-]. destruct rest0 as [|p [|]]; cbn in *; [lia| |lia]. by exists [], a, p. }
  assert (Hrec : forall pre l c0, a :: rest0 = pre ++ l -> pre <> [] -> (2 <= length l)%nat -> interpret usage table l c0 = Return (c', rest) ->
    exists before host p, a :: rest0 = before ++ [host; p] /\ rest = [host; p]).
  { intros pre l c0 E Hp Hl2 Hi. assert (length l < length (a :: rest0))%nat.
    { rewrite E, length_app. destruct pre; [done|cbn; lia]. }
    destruct (IH (length l) ltac:(lia) l c0 eq_refl Hl2 Hi) as (b & h & p & -> & ->).
    exists (pre ++ b), h, p. by rewrite <- app_assoc. }
  cbn [length] in Hl. destruct (table a) as [f|err f| |]; [|destruct rest0 as [|v rest']; [cbn in Hl; lia|]|done|done].
  - apply (Hrec [a] rest0); [done..|lia].
  - destruct (Nat.leb_spec (length rest') 1); [done|]. destruct (f c v) as [c1| |]; [|done|done].
    apply (Hrec [a; v] rest'); [done..|lia].
Qed.

Section from_list.
Context `{Resolver}.

(** What [get_config] computes, taken from the list: the options, then a host
    and a port. *)
Definition udp_finish (c : udp_options) (rest : list (list byte)) : prog udp_options :=
  match rest with
  | [host; p] =>
      a ← lift (of_host (if listen c then txt "0" else host) p);
      Return (udp_filt c ((if listen c then config_source else config_destination) (c_filt c) a))
  | _ => Raise (undefined "two arguments")
  end.

Definition udp_from_list (argv0 : list byte) (args : list (list byte)) : prog udp_options :=
  filt ← lift default_FdAdapterConfig;
  '(c, rest) ← interpret (udp_show_usage argv0) udp_action args
                 {| c_fsm := default_TCPConfig; c_filt := filt; listen := false |};
  udp_finish c rest.

Definition ip_finish (argv0 : list byte) (c : ip_options) (rest : list (list byte)) : prog ip_options :=
  let b := base_options c in
  match rest with
  | [host; p] =>
      if listen b then
        a ← lift (of_host (txt "0") p);
        n ← lift (port a);
        if n =? 0 then Exit 1 (ip_show_usage argv0 (Some (txt "ERROR: listen port cannot be zero in server mode.")))
        else Return (ip_base c (udp_filt b (config_source (c_filt b) a)))
      else
        d ← lift (of_host host p);
        s ← lift (of_host (source_address c) (source_port c));
        Return (ip_base c (udp_filt b (config_source (config_destination (c_filt b) d) s)))
  | _ => Raise (undefined "two arguments")
  end.

Definition ip_from_list (rnd : Z) (argv0 : list byte) (args : list (list byte)) : prog ip_options :=
  filt ← lift default_FdAdapterConfig;
  '(c, rest) ← interpret (ip_show_usage argv0) ip_action args
    {| base_options := {| c_fsm := default_TCPConfig; c_filt := filt; listen := false |};
       tundev := None; source_address := LOCAL_ADDRESS_DFLT; source_port := decimal (u16 rnd) |};
  ip_finish argv0 c rest.

Lemma last_args argv0 (before : list (list byte)) host p :
  let argv := argv0 :: before ++ [host; p] in
  arg argv (zlen argv - 2) = Return host /\ arg argv (zlen argv - 1) = Return p.
Proof.
  intros argv. assert (Hz : zlen argv = Z.of_nat (S (length before)) + 2).
  { unfold argv. rewrite zlen_cons, zlen_app. change (zlen [host; p]) with 2. unfold zlen. lia. }
  rewrite Hz. split.
  - replace (_ - 2) with (Z.of_nat (S (length before))) by lia. apply (arg_drop _ _ _ [p]). cbn [argv drop].
    by rewrite drop_app_length.
  - replace (_ + 2 - 1) with (Z.of_nat (S (S (length before)))) by lia. apply (arg_drop _ _ _ []). subst argv. cbn [drop].
    rewrite drop_app, drop_ge by lia. by replace (S (length before) - length before)%nat with 1%nat by lia.
Qed.

(** The walk through [argv] follows the list: the loops end, and no index leaves
    [argv]. *)
Lemma get_config_from_list argv0 args rnd :
  (2 <= length args)%nat ->
  udp_get_config (argv0 :: args) = udp_from_list argv0 args /\
  ip_get_config rnd (argv0 :: args) = ip_from_list rnd argv0 args.
Proof.
  intros H2. unfold udp_get_config, udp_from_list, ip_get_config, ip_from_list.
  assert (Hw : forall C show_usage (table : list byte -> action C) c,
    walk show_usage table (length (argv0 :: args)) (argv0 :: args) 1 c =
    '(c, rest) ← interpret (show_usage argv0) table args c; Return (zlen (argv0 :: args) - zlen rest, c)).
  { intros. apply (walk_interpret show_usage table argv0 args _ 1); cbn [length]; lia. }
  split.
  - destruct (lift default_FdAdapterConfig) as [f| |]; cbn [mbind prog_bind]; [|done|done].
    rewrite udp_loop_walk, Hw. destruct (interpret _ _ _ _) as [[c rest]| |] eqn:E; cbn [mbind prog_bind]; [|done|done].
    destruct (interpret_rest _ _ _ _ _ _ H2 E) as (before & host & p & -> & ->).
    destruct (last_args argv0 before host p) as [-> ->]. cbn [mbind prog_bind]. unfold udp_finish. by destruct (listen c).
  - destruct (lift default_FdAdapterConfig) as [f| |]; cbn [mbind prog_bind]; [|done|done].
    rewrite ip_loop_walk, Hw. destruct (interpret _ _ _ _) as [[c rest]| |] eqn:E; cbn [mbind prog_bind]; [|done|done].
    destruct (interpret_rest _ _ _ _ _ _ H2 E) as (before & host & p & -> & ->).
    change (zlen [host; p]) with 2. rewrite (Z.add_comm (_ - 2)). replace (1 + (zlen (argv0 :: before ++ [host; p]) - 2)) with (zlen (argv0 :: before ++ [host; p]) - 1) by lia.
    destruct (last_args argv0 before host p) as [-> ->]. cbn [mbind prog_bind]. done.
Qed.

End from_list.

(** ** Examples *)

Definition udp_example : list (list byte) :=
  map txt ["-l"; "-w"; "1500"; "-t"; "0x64"; "-Ld"; "0.5"; "localhost"; "9090"].
Definition ip_example : list (list byte) :=
  map txt ["-d"; "tun145"; "-a"; "10.0.0.9"; "-s"; "2000"; "10.0.0.1"; "80"].

(** A server with a window, a timeout and losses, and a client with a device
    and a source address. *)
Example configurations :
  let _ := Address.numeric_resolver in
  udp_get_config (txt "tcp_udp" :: udp_example) =
    Return {| c_fsm := {| rt_timeout := 100; recv_capacity := 1500; send_capacity := 64000; fixed_isn := None |};
              c_filt := {| source := ipv4 0 9090; destination := ipv4 0 0; loss_rate_dn := 32767; loss_rate_up := 0 |};
              listen := true |} /\
  ip_get_config 7 (txt "tcp_ipv4" :: ip_example) =
    Return {| base_options :=
                {| c_fsm := default_TCPConfig;
                   c_filt := {| source := ipv4 167772169 2000; destination := ipv4 167772161 80;
                                loss_rate_dn := 0; loss_rate_up := 0 |};
                   listen := false |};
              tundev := Some (txt "tun145"); source_address := txt "10.0.0.9"; source_port := txt "2000" |}.
Proof. vm_compute. done. Qed.

(** Three characters are compared, which is all of [-Lu] but not what may
    follow it; a negative window becomes a huge one; a rate above one has no
    defined value. *)
Example loose_options :
  udp_action (txt "-Luminous") = udp_action (txt "-Lu") /\
  recv_capacity (set_recv_capacity default_TCPConfig (strtol (txt "-1") 0)) = 2 ^ 64 - 1 /\
  loss_rate (txt "2") = Raise (undefined "float to uint16_t").
Proof. split; [reflexivity|]. vm_compute. done. Qed.
