(* ===== verification/Options.v ===== *)
(** * The documented options

    The usage texts of [tcp_udp] and [tcp_ipv4] ([src/apps/tcp_udp.cc],
    [src/apps/tcp_ipv4.cc]) promise what each option sets. The options are
    written on a command line here, and read back by [get_config]. *)

From S2P Require Import Prelude Text Float FdAdapter Address TCPSender CommandLine.

(** ** Options *)

(** The options of the usage texts; the last three are of [tcp_ipv4] only. *)
Inductive choice :=
| Listen
| Window (winsz : Z)
| Timeout (tmout : Z)
| LossUp (rate : list byte)
| LossDown (rate : list byte)
| SourceAddress (addr : list byte)
| SourcePort (p : list byte)
| Tundev (dev : list byte).

(** How they are written on a command line. *)
Definition written (o : choice) : list (list byte) :=
  match o with
  | Listen => [txt "-l"]
  | Window n => [txt "-w"; decimal n]
  | Timeout n => [txt "-t"; decimal n]
  | LossUp r => [txt "-Lu"; r]
  | LossDown r => [txt "-Ld"; r]
  | SourceAddress a => [txt "-a"; a]
  | SourcePort p => [txt "-s"; p]
  | Tundev d => [txt "-d"; d]
  end.

(** Values within their types; a rate is one that has a 16-bit number. *)
Definition valid (o : choice) : Prop :=
  match o with
  | Window n => 0 <= n < 2 ^ 63
  | Timeout n => 0 <= n < 2 ^ 16
  | LossUp r | LossDown r => exists n, loss_rate r = Return n
  | _ => True
  end.

Definition udp_choice (o : choice) : Prop :=
  match o with SourceAddress _ | SourcePort _ | Tundev _ => False | _ => True end.

(** What an option says about one setting. *)
Definition is_listen (o : choice) : option bool := match o with Listen => Some true | _ => None end.
Definition window (o : choice) : option Z := match o with Window n => Some n | _ => None end.
Definition timeout (o : choice) : option Z := match o with Timeout n => Some n | _ => None end.
Definition rate_number (r : list byte) : option Z := match loss_rate r with Return n => Some n | _ => None end.
Definition loss_up (o : choice) : option Z := match o with LossUp r => rate_number r | _ => None end.
Definition loss_down (o : choice) : option Z := match o with LossDown r => rate_number r | _ => None end.
Definition src_address (o : choice) : option (list byte) := match o with SourceAddress a => Some a | _ => None end.
Definition src_port (o : choice) : option (list byte) := match o with SourcePort p => Some p | _ => None end.
Definition tun_device (o : choice) : option (list byte) := match o with Tundev d => Some d | _ => None end.

(** The last option that speaks of a setting decides it. *)
Definition given {A} (says : choice -> option A) (os : list choice) : option A := last (omap says os).

(** ** Reading them back *)

(** What an option does to the configurations. *)
Definition udp_apply (c : udp_options) (o : choice) : udp_options :=
  match o with
  | Listen => udp_listen c
  | Window n => udp_fsm c (set_recv_capacity (c_fsm c) n)
  | Timeout n => udp_fsm c (set_rt_timeout (c_fsm c) n)
  | LossUp r => udp_filt c (set_loss_up (c_filt c) (default (loss_rate_up (c_filt c)) (rate_number r)))
  | LossDown r => udp_filt c (set_loss_dn (c_filt c) (default (loss_rate_dn (c_filt c)) (rate_number r)))
  | _ => c
  end.

Definition ip_apply (c : ip_options) (o : choice) : ip_options :=
  match o with
  | SourceAddress a => ip_source_address c a
  | SourcePort p => ip_source_port c p
  | Tundev d => ip_tundev c d
  | _ => ip_base c (udp_apply (base_options c) o)
  end.

(** The table of a program has an option with its meaning. *)
Definition understands {C} (table : list byte -> action C) (apply : C -> choice -> C) (o : choice) : Prop :=
  forall c, match written o with
  | [a] => exists f, table a = Flag f /\ f c = apply c o
  | [a; v] => exists err f, table a = Valued err f /\ f c v = Return (apply c o)
  | _ => False
  end.

Lemma udp_understands o : valid o -> udp_choice o -> understands udp_action udp_apply o.
Proof.
  intros Hv Hu c. destruct o as [|n|n|r|r| | |]; cbn [written valid] in *; try done.
  - by eexists.
  - eexists _, _. split; [done|]. cbn. by rewrite strtol_any.
  - eexists _, _. split; [done|]. cbn. rewrite strtol_any; [done|lia].
  - eexists _, _. split; [done|]. cbn. unfold rate_number. destruct Hv as [n ->]. done.
  - eexists _, _. split; [done|]. cbn. unfold rate_number. destruct Hv as [n ->]. done.
Qed.

Lemma ip_understands o : valid o -> understands ip_action ip_apply o.
Proof.
  intros Hv c. destruct o as [|n|n|r|r|a|p|d]; cbn [written valid] in *.
  - by eexists.
  - eexists _, _. split; [done|]. cbn. by rewrite strtol_any.
  - eexists _, _. split; [done|]. cbn. rewrite strtol_any; [done|lia].
  - eexists _, _. split; [done|]. cbn. unfold rate_number. destruct Hv as [n ->]. done.
  - eexists _, _. split; [done|]. cbn. unfold rate_number. destruct Hv as [n ->]. done.
  - by eexists _, _.
  - by eexists _, _.
  - by eexists _, _.
Qed.

Lemma interpret_written {C} usage table (apply : C -> choice -> C) os rest c :
  Forall (understands table apply) os -> (2 <= length rest)%nat ->
  interpret usage table (concat (map written os) ++ rest) c = interpret usage table rest (foldl apply c os).
Proof.
  intros Ho Hr. revert c. induction Ho as [|o os Hu _ IH]; intros c; [done|]. cbn [map concat foldl].
  specialize (Hu c). rewrite <- app_assoc. set (l := concat (map written os) ++ rest) in *.
  assert (Hl : (2 <= length l)%nat) by (unfold l; rewrite length_app; lia).
  destruct (written o) as [|a [|v [|]]]; [done| |destruct Hu as (err & f & Ht & Hf)|done].
  - destruct Hu as (f & Ht & Hf). cbn [app]. unfold interpret; fold @interpret.
    rewrite (proj2 (Nat.leb_gt _ 2)), Ht, Hf by (cbn; lia). apply IH.
  - cbn [app]. unfold interpret; fold @interpret. rewrite (proj2 (Nat.leb_gt _ 2)), Ht by (cbn; lia).
    rewrite (proj2 (Nat.leb_gt _ 1)), Hf by lia. apply IH.
Qed.

(** A setting after a list of options. *)
Lemma given_fold {C A} (apply : C -> choice -> C) (get : C -> A) (says : choice -> option A) os c :
  Forall (fun o => forall c, get (apply c o) = default (get c) (says o)) os ->
  get (foldl apply c os) = default (get c) (given says os).
Proof.
  unfold given. induction os as [|o os IH] using rev_ind; [done|].
  intros [Ho Hl]%Forall_app. apply Forall_cons in Hl as [Hl _]. rewrite foldl_app. cbn [foldl]. rewrite Hl, IH by done.
  rewrite omap_app. cbn [omap list_omap]. destruct (says o); cbn; [by rewrite last_snoc|by rewrite app_nil_r].
Qed.

(** What [get_config] has to have read. *)
Record read_back (os : list choice) (c : udp_options) : Prop := {
  rb_listen : listen c = default false (given is_listen os);
  rb_timeout : rt_timeout (c_fsm c) = default TIMEOUT_DFLT (given timeout os);
  rb_window : forall n, given window os = Some n -> recv_capacity (c_fsm c) = n;
  rb_send : send_capacity (c_fsm c) = send_capacity default_TCPConfig;
  rb_isn : fixed_isn (c_fsm c) = None;
  rb_up : loss_rate_up (c_filt c) = default 0 (given loss_up os);
  rb_down : loss_rate_dn (c_filt c) = default 0 (given loss_down os)
}.

Lemma udp_apply_valid o c :
  valid o -> listen (udp_apply c o) = default (listen c) (is_listen o) /\
  rt_timeout (c_fsm (udp_apply c o)) = default (rt_timeout (c_fsm c)) (timeout o) /\
  recv_capacity (c_fsm (udp_apply c o)) = default (recv_capacity (c_fsm c)) (window o) /\
  send_capacity (c_fsm (udp_apply c o)) = send_capacity (c_fsm c) /\
  fixed_isn (c_fsm (udp_apply c o)) = fixed_isn (c_fsm c) /\
  loss_rate_up (c_filt (udp_apply c o)) = default (loss_rate_up (c_filt c)) (loss_up o) /\
  loss_rate_dn (c_filt (udp_apply c o)) = default (loss_rate_dn (c_filt c)) (loss_down o) /\
  source (c_filt (udp_apply c o)) = source (c_filt c) /\
  destination (c_filt (udp_apply c o)) = destination (c_filt c).
Proof.
  destruct o; cbn [valid]; intros Hv; split_and!; try done; cbn; [apply u64_small; lia|apply u16_small; lia].
Qed.

Lemma udp_fold_read os c filt :
  Forall valid os -> c = {| c_fsm := default_TCPConfig; c_filt := filt; listen := false |} ->
  loss_rate_up filt = 0 -> loss_rate_dn filt = 0 ->
  let c' := foldl udp_apply c os in
  read_back os c' /\ source (c_filt c') = source filt /\ destination (c_filt c') = destination filt.
Proof.
  intros Hv -> Hu Hd c'.
  assert (forall P : choice -> Prop, (forall o, valid o -> P o) -> Forall P os) as Hall
    by (intros P HP; eapply Forall_impl; [exact Hv|exact HP]).
  assert (forall A (get : udp_options -> A), (forall o c, valid o -> get (udp_apply c o) = get c) ->
    get c' = get {| c_fsm := default_TCPConfig; c_filt := filt; listen := false |}) as Hsame.
  { intros A get Hg. unfold c'. rewrite (given_fold udp_apply get (fun _ => None)).
    - unfold given. by replace (omap _ os) with (@nil A) by (clear; induction os; done).
    - apply Hall. intros o Ho c. by apply Hg. }
  split; [constructor|split].
  - apply (given_fold udp_apply listen is_listen), Hall. intros o Ho c. by apply udp_apply_valid.
  - apply (given_fold udp_apply (fun c => rt_timeout (c_fsm c)) timeout), Hall. intros o Ho c. by apply udp_apply_valid.
  - intros n Hn. unfold c'. rewrite (given_fold udp_apply (fun c => recv_capacity (c_fsm c)) window); [by rewrite Hn|].
    apply Hall. intros o Ho c. by apply udp_apply_valid.
  - apply (Hsame _ (fun c => send_capacity (c_fsm c))). intros o c Ho. by apply udp_apply_valid.
  - apply (Hsame _ (fun c => fixed_isn (c_fsm c))). intros o c Ho. by apply udp_apply_valid.
  - rewrite <- Hu. apply (given_fold udp_apply (fun c => loss_rate_up (c_filt c)) loss_up), Hall.
    intros o Ho c. by apply udp_apply_valid.
  - rewrite <- Hd. apply (given_fold udp_apply (fun c => loss_rate_dn (c_filt c)) loss_down), Hall.
    intros o Ho c. by apply udp_apply_valid.
  - apply (Hsame _ (fun c => source (c_filt c))). intros o c Ho. by apply udp_apply_valid.
  - apply (Hsame _ (fun c => destination (c_filt c))). intros o c Ho. by apply udp_apply_valid.
Qed.

(** [tcp_ipv4] has the same options, and three more. *)
Lemma ip_fold_base os c : base_options (foldl ip_apply c os) = foldl udp_apply (base_options c) os.
Proof.
  revert c. induction os as [|o os IH]; intros c; [done|]. cbn [foldl]. rewrite IH. by destruct o.
Qed.

Lemma ip_fold_read os c :
  let c' := foldl ip_apply c os in
  source_address c' = default (source_address c) (given src_address os) /\
  source_port c' = default (source_port c) (given src_port os) /\
  tundev c' = match given tun_device os with Some d => Some d | None => tundev c end.
Proof.
  split_and!; [apply given_fold|apply given_fold|]; try (apply Forall_true; by intros []).
  transitivity (default (tundev c) (given (fun o => option_map Some (tun_device o)) os)).
  - apply given_fold. apply Forall_true. by intros [].
  - unfold given. replace (omap _ os) with (map Some (omap tun_device os)).
    + rewrite fmap_last. by destruct (last _).
    + induction os as [|o os IH]; [done|]. cbn. by destruct (tun_device o); cbn; rewrite <- IH.
Qed.

(** ** Property *)

(** The default addresses are read, and nothing is lost by default. *)
Lemma default_losses `{Resolver} filt :
  default_FdAdapterConfig = Ok filt -> loss_rate_up filt = 0 /\ loss_rate_dn filt = 0.
Proof.
  unfold default_FdAdapterConfig. destruct (of_ip _ _); [|done]. cbn [mbind result_bind].
  by intros [= <-].
Qed.

Section programs.
Context `{Resolver} (argv0 : list byte) (os : list choice) (filt : FdAdapterConfig Address).
Context (Hv : Forall valid os) (Hfilt : default_FdAdapterConfig = Ok filt).

(** The configurations after the options. *)
Definition udp_read : udp_options :=
  foldl udp_apply {| c_fsm := default_TCPConfig; c_filt := filt; listen := false |} os.
Definition ip_read (rnd : Z) : ip_options :=
  foldl ip_apply {| base_options := {| c_fsm := default_TCPConfig; c_filt := filt; listen := false |};
    tundev := None; source_address := LOCAL_ADDRESS_DFLT; source_port := decimal (u16 rnd) |} os.

Lemma udp_read_back : read_back os udp_read.
Proof. destruct (default_losses filt Hfilt). by eapply udp_fold_read. Qed.

Lemma ip_read_base rnd : base_options (ip_read rnd) = udp_read.
Proof. unfold ip_read. by rewrite ip_fold_base. Qed.

Lemma enough_arguments (l : list (list byte)) :
  (2 <= length l)%nat ->
  (zlen (argv0 :: concat (map written os) ++ l) <? 3) = false /\ (2 <= length (concat (map written os) ++ l))%nat.
Proof.
  intros Hl. rewrite length_app. split; [|lia]. apply Z.ltb_ge. unfold zlen. cbn [length]. rewrite length_app. lia.
Qed.

(** Both programs read the options and go on with what is behind them. *)
Lemma udp_main_written l :
  (2 <= length l)%nat -> Forall udp_choice os ->
  udp_main_config (argv0 :: concat (map written os) ++ l) =
  '(c, rest) ← interpret (udp_show_usage argv0) udp_action l udp_read; udp_finish c rest.
Proof.
  intros Hl Hc. destruct (enough_arguments l Hl) as [E1 E2]. unfold udp_main_config. rewrite E1.
  rewrite (proj1 (get_config_from_list argv0 _ 0 E2)). unfold udp_from_list. rewrite Hfilt. cbn [lift mbind prog_bind].
  rewrite (interpret_written _ _ udp_apply); [done| |done].
  apply Forall_forall. intros o Ho. rewrite Forall_forall in Hv, Hc. apply udp_understands; auto.
Qed.

Lemma ip_main_written rnd l :
  (2 <= length l)%nat ->
  ip_main_config rnd (argv0 :: concat (map written os) ++ l) =
  '(c, rest) ← interpret (ip_show_usage argv0) ip_action l (ip_read rnd); ip_finish argv0 c rest.
Proof.
  intros Hl. destruct (enough_arguments l Hl) as [E1 E2]. unfold ip_main_config. rewrite E1.
  rewrite (proj2 (get_config_from_list argv0 _ rnd E2)). unfold ip_from_list. rewrite Hfilt. cbn [lift mbind prog_bind].
  rewrite (interpret_written _ _ ip_apply); [done| |done]. eapply Forall_impl; [exact Hv|exact ip_understands].
Qed.

(** What is no option. *)
Lemma other_arguments rnd o more :
  (2 <= length more)%nat ->
  Forall (fun x => strncmp_eq (txt x) o 3 = false) ["-l"; "-a"; "-s"; "-w"; "-t"; "-d"; "-Lu"; "-Ld"] ->
  let argv := argv0 :: concat (map written os) ++ o :: more in
  let ends := fun usage => if strncmp_eq (txt "-h") o 3 then (0, usage None) else (1, usage (Some (unrecognized o))) in
  (Forall udp_choice os -> udp_main_config argv = Exit (ends (udp_show_usage argv0)).1 (ends (udp_show_usage argv0)).2) /\
  ip_main_config rnd argv = Exit (ends (ip_show_usage argv0)).1 (ends (ip_show_usage argv0)).2.
Proof.
  intros Hm Hn. repeat (apply Forall_cons in Hn as [? Hn]). cbn zeta.
  assert (Hl : (2 <= length (o :: more))%nat) by (cbn; lia).
  split; [intros Hc; rewrite (udp_main_written _ Hl Hc)|rewrite (ip_main_written rnd _ Hl)];
    unfold interpret; fold @interpret; rewrite (proj2 (Nat.leb_gt _ 2)) by (cbn; lia);
    unfold udp_action, ip_action; repeat match goal with H : strncmp_eq _ _ _ = false |- _ => rewrite H end;
    by destruct (strncmp_eq (txt "-h") o 3).
Qed.

(** The address that is named. *)
Lemma udp_named host p :
  (given is_listen os = Some true -> host = txt "0") -> Forall udp_choice os ->
  match of_host host p with
  | Throw e => udp_main_config (argv0 :: concat (map written os) ++ [host; p]) = Raise e
  | Ok a => exists c, udp_main_config (argv0 :: concat (map written os) ++ [host; p]) = Return c /\ read_back os c /\
      (if listen c then source (c_filt c) = a else destination (c_filt c) = a)
  end.
Proof.
  intros Hhost Hc. rewrite (udp_main_written [host; p] ltac:(cbn; lia) Hc). cbn [interpret length Nat.leb mbind prog_bind].
  unfold udp_finish. pose proof udp_read_back as Hrb. pose proof (rb_listen _ _ Hrb) as Hl.
  assert ((if listen udp_read then txt "0" else host) = host) as ->.
  { rewrite Hl. destruct (given is_listen os) as [[]|]; [by rewrite Hhost|done..]. }
  destruct (of_host host p) as [a|]; cbn [lift mbind prog_bind]; [|done].
  eexists. split; [done|]. split; [|cbn [udp_filt listen c_filt]; by destruct (listen udp_read)].
  destruct Hrb. constructor; cbn [udp_filt listen c_filt c_fsm]; try done; by destruct (listen udp_read).
Qed.

Lemma ip_named rnd host p :
  (given is_listen os = Some true -> host = txt "0") ->
  match of_host host p with
  | Throw e => ip_main_config rnd (argv0 :: concat (map written os) ++ [host; p]) = Raise e
  | Ok a =>
      if default false (given is_listen os) then
        match port a with
        | Throw e => ip_main_config rnd (argv0 :: concat (map written os) ++ [host; p]) = Raise e
        | Ok 0 => exists text, ip_main_config rnd (argv0 :: concat (map written os) ++ [host; p]) = Exit 1 text
        | Ok _ => exists c, ip_main_config rnd (argv0 :: concat (map written os) ++ [host; p]) = Return c /\
            read_back os (base_options c) /\ source (c_filt (base_options c)) = a /\ tundev c = given tun_device os
        end
      else
        match of_host (default LOCAL_ADDRESS_DFLT (given src_address os))
                (default (decimal (u16 rnd)) (given src_port os)) with
        | Throw e => ip_main_config rnd (argv0 :: concat (map written os) ++ [host; p]) = Raise e
        | Ok s => exists c, ip_main_config rnd (argv0 :: concat (map written os) ++ [host; p]) = Return c /\
            read_back os (base_options c) /\ destination (c_filt (base_options c)) = a /\
            source (c_filt (base_options c)) = s /\ tundev c = given tun_device os
        end
  end.
Proof.
  intros Hhost. rewrite (ip_main_written rnd [host; p] ltac:(cbn; lia)). cbn [interpret length Nat.leb mbind prog_bind].
  unfold ip_finish. pose proof udp_read_back as Hrb. pose proof (rb_listen _ _ Hrb) as Hl.
  destruct (ip_fold_read os {| base_options := {| c_fsm := default_TCPConfig; c_filt := filt; listen := false |};
    tundev := None; source_address := LOCAL_ADDRESS_DFLT; source_port := decimal (u16 rnd) |}) as (Ha & Hp & Ht).
  fold (ip_read rnd) in Ha, Hp, Ht. cbn [source_address source_port tundev] in Ha, Hp, Ht.
  assert (tundev (ip_read rnd) = given tun_device os) as Ht' by (rewrite Ht; by destruct (given tun_device os)).
  rewrite ip_read_base, Hl, <- Ha, <- Hp. destruct (default false (given is_listen os)) eqn:Em.
  - rewrite <- Hhost by (destruct (given is_listen os) as [[]|]; done).
    destruct (of_host host p) as [a|]; cbn [lift mbind prog_bind]; [|done].
    destruct (port a) as [n|]; cbn [lift mbind prog_bind]; [|done].
    destruct n; cbn [Z.eqb]; [by eexists| |]; (eexists; split; [done|]; split; [destruct Hrb; by constructor|done]).
  - destruct (of_host host p) as [a|]; cbn [lift mbind prog_bind]; [|done].
    destruct (of_host (source_address _) _) as [s|]; cbn [lift mbind prog_bind]; [|done].
    eexists. split; [done|]. split; [destruct Hrb; by constructor|done].
Qed.
End programs.


(** ** An example: the window is given twice, and the port is resolved by its
    number. *)
Definition example_choices : list choice := [Window 1500; Timeout 100; LossDown (txt "0.5"); Window 3000].

