(* ===== verification/Tcpdump.v ===== *)
(** * udp_tcpdump

    Models [src/apps/udp_tcpdump.cc]: the arguments, the search for the UDP
    payload in a captured packet and the text that is printed for a packet. The
    capture library is not in the sources: a captured packet is the list of its
    [caplen] bytes, and the link type is a number. Messages on the error stream
    are left out. *)

From S2P Require Import Prelude Text WrappingIntegers Buffer Parser InternetChecksum TCPHeader TCPSegment IPv4Header HexDump HeaderText CommandLine.

(** ** Arguments *)

Definition dump_show_usage (arg0 : list byte) (errmsg : option (list byte)) : list byte :=
  txt "Usage: " ++ arg0 ++ txt " [-i <intf>] [-F <file>] [-h|--help] <expression>" ++ nl ++ nl ++
  txt "  -i <intf>    only capture packets from <intf> (default: all)" ++ nl ++ nl ++
  txt "  -F <file>    reads in a filter expression from <file>" ++ nl ++
  txt "               <expression> is ignored if -F is supplied." ++ nl ++ nl ++
  txt "  -h, --help   show this message" ++ nl ++ nl ++
  txt "  <expression> a filter expression in pcap-filter(7) syntax" ++ nl ++
  match errmsg with Some m => nl ++ m | None => [] end ++ nl.

Definition check_arg (arg0 : list byte) (argc curr : Z) (errmsg : list byte) : prog () :=
  if argc <=? curr + 1 then Exit 1 (dump_show_usage arg0 (Some errmsg)) else Return ().

(** The loop of [parse_arguments]; the device is what [*dev_ptr] is set to. *)
Fixpoint parse_loop (fuel : nat) (argv : list (list byte)) (curr : Z) (dev : option (list byte))
    : prog (Z * option (list byte)) :=
  match fuel with
  | O => Raise (undefined "parse_arguments: out of fuel")
  | S fuel =>
      if curr <? zlen argv then
        a ← arg argv curr;
        if strncmp_eq (txt "-i") a 3 then
          argv0 ← arg argv 0;
          _ ← check_arg argv0 (zlen argv) curr (txt "ERROR: -i requires an argument");
          d ← arg argv (curr + 1);
          parse_loop fuel argv (curr + 2) (Some d)
        else if strncmp_eq (txt "-h") a 3 || strncmp_eq (txt "--help") a 7 then
          argv0 ← arg argv 0; Exit 0 (dump_show_usage argv0 None)
        else Return (curr, dev)
      else Return (curr, dev)
  end.

Definition parse_arguments (argv : list (list byte)) : prog (Z * option (list byte)) :=
  parse_loop (length argv) argv 1 None.

(** The filter: the remaining arguments, a space behind each. *)
Definition filter_expression (argv : list (list byte)) (exp_start : Z) : list byte :=
  concat (map (fun a => a ++ txt " ") (drop (Z.to_nat exp_start) argv)).

(** ** Addresses as text *)

(** [data[i]], undefined outside of the captured bytes. *)
Definition byte_at (data : list byte) (i : Z) : result Z :=
  match zget data i with Some b => Ok (b2z b) | None => Throw (undefined "packet") end.

(** [n] bytes from [i] on. *)
Definition bytes_at (data : list byte) (i n : Z) : result (list byte) :=
  if (i <? 0) || (zlen data <? i + n) then Throw (undefined "packet") else Ok (sub data i n).

(** [inet_ntop] with room for the text. *)
Definition inet4_addr (data : list byte) (off : Z) : result (list byte) :=
  addr ← bytes_at data off 4; Ok (dotted (be_value addr)).

(** The eight 16-bit groups of an IPv6 address. *)
Fixpoint words (l : list byte) : list Z :=
  match l with
  | a :: b :: rest => (b2z a * 2 ^ 8 + b2z b) :: words rest
  | _ => []
  end.

(** The longest run of zero groups, the first of several: start and length.
    [cur] is the run that ends before group [i]. *)
Fixpoint longest_run (ws : list Z) (i : Z) (cur best : Z * Z) : Z * Z :=
  let better := if best.2 <? cur.2 then cur else best in
  match ws with
  | [] => better
  | w :: ws =>
      if w =? 0 then longest_run ws (i + 1) (if cur.2 =? 0 then (i, 1) else (cur.1, cur.2 + 1)) best
      else longest_run ws (i + 1) (-1, 0) better
  end.

Fixpoint groups6 (ws all : list Z) (v4 : list byte) (i : Z) (best : Z * Z) : list byte :=
  match ws with
  | [] => if best.1 + best.2 =? 8 then txt ":" else []
  | w :: ws =>
      if (best.1 <=? i) && (i <? best.1 + best.2) then
        (if i =? best.1 then txt ":" else []) ++ groups6 ws all v4 (i + 1) best
      else
        (if i =? 0 then [] else txt ":") ++
        if (i =? 6) && (best.1 =? 0) && ((best.2 =? 6) || ((best.2 =? 5) && (nth 5 all 0 =? 65535)))
        then dotted (be_value v4)
        else hexadecimal w ++ groups6 ws all v4 (i + 1) best
  end.

Definition inet_ntop6 (addr : list byte) : list byte :=
  let ws := words addr in
  let best := longest_run ws 0 (-1, 0) (-1, 0) in
  let best := if best.2 <? 2 then (-1, 0) else best in
  groups6 ws ws (drop 12 addr) 0 best.

Definition inet6_addr (data : list byte) (off : Z) : result (list byte) :=
  addr ← bytes_at data off 16; Ok (inet_ntop6 addr).

Example ipv6_texts :
  inet_ntop6 (replicate 15 Byte.x00 ++ [Byte.x01]) = txt "::1" /\
  inet_ntop6 (replicate 16 Byte.x00) = txt "::" /\
  inet_ntop6 ([Byte.xfe; Byte.x80] ++ replicate 6 Byte.x00 ++ [Byte.x12; Byte.x34; Byte.x00; Byte.x00; Byte.x00; Byte.x00; Byte.x00; Byte.x0a]) =
    txt "fe80::1234:0:0:a" /\
  inet_ntop6 (replicate 10 Byte.x00 ++ [Byte.xff; Byte.xff; Byte.x0a; Byte.x00; Byte.x00; Byte.x01]) = txt "::ffff:10.0.0.1" /\
  inet_ntop6 ([Byte.x20; Byte.x01; Byte.x0d; Byte.xb8] ++ replicate 12 Byte.x00) = txt "2001:db8::".
Proof. vm_compute. done. Qed.

(** ** The UDP payload of a packet *)

(** The loop over the extension headers of IPv6: the offset of the UDP header,
    [None] for -1. *)
Fixpoint extension_loop (fuel : nat) (len : Z) (data : list byte) (nxt data_offset : Z)
    : result (option Z) :=
  match fuel with
  | O => Throw (undefined "extension headers: out of fuel")
  | S fuel =>
      if nxt =? 17 then Ok (Some data_offset)
      else if negb (nxt =? 0) && negb (nxt =? 43) && negb (nxt =? 60) then Ok None
      else
        nxt ← byte_at data data_offset;
        ext ← byte_at data (data_offset + 1);
        let data_offset := data_offset + 8 * (1 + ext) in
        if len <? data_offset + 2 then Ok None
        else extension_loop fuel len data nxt data_offset
  end.

(** The offset of the UDP payload and the addresses; [None] for -1. *)
Definition process_ipv4_ipv6 (len : Z) (data : list byte)
    : result (option (Z * list byte * list byte)) :=
  if len <? 1 then Ok None
  else
    b0 ← byte_at data 0;
    let pt := Z.land b0 240 in
    if pt =? 64 then
      let data_offset := Z.land b0 15 * 4 in
      if len <? data_offset then Ok None
      else
        proto ← byte_at data 9;
        if negb (proto =? 17) then Ok None
        else
          src_addr ← inet4_addr data 12;
          dst_addr ← inet4_addr data 16;
          Ok (Some (data_offset + 8, src_addr, dst_addr))
    else if pt =? 96 then
      if len <? 42 then Ok None
      else
        nxt ← byte_at data 6;
        r ← extension_loop (S (Z.to_nat len)) len data nxt 40;
        match r with
        | None => Ok None
        | Some data_offset =>
            src_addr ← inet6_addr data 8;
            dst_addr ← inet6_addr data 24;
            Ok (Some (data_offset + 8, src_addr, dst_addr))
        end
    else Ok None.

(** ** Showing a packet *)

Definition DLT_NULL : Z := 0.
Definition DLT_EN10MB : Z := 1.
Definition DLT_RAW : Z := 12.
Definition DLT_LINUX_SLL : Z := 113.
Definition DLT_LINUX_SLL2 : Z := 276.

(** What an iteration of the loop does: it goes on without output, prints a
    text, or ends the program with [EXIT_FAILURE]. *)
Inductive step :=
| Skip
| Show (out : list byte)
| GiveUp.

Definition ethertype_ip (pt : Z) : bool := (pt =? 2048) || (pt =? 34525).

(** The size of the link header; [inl] when the iteration ends here. *)
Definition link_header (dl_type : Z) (pkt_data : list byte) : result (step + Z) :=
  let caplen := zlen pkt_data in
  if dl_type =? DLT_NULL then
    if caplen <? 4 then Ok (inl Skip)
    else
      pt ← byte_at pkt_data 3;
      if negb (pt =? 2) && negb (pt =? 24) && negb (pt =? 28) && negb (pt =? 30)
      then Ok (inl Skip) else Ok (inr 4)
  else if dl_type =? DLT_EN10MB then
    if caplen <? 14 then Ok (inl Skip)
    else
      hi ← byte_at pkt_data 12; lo ← byte_at pkt_data 13;
      if negb (ethertype_ip (u16 (Z.lor (Z.shiftl hi 8) lo))) then Ok (inl Skip) else Ok (inr 14)
  else if dl_type =? DLT_LINUX_SLL then
    if caplen <? 16 then Ok (inl Skip)
    else
      hi ← byte_at pkt_data 14; lo ← byte_at pkt_data 15;
      if negb (ethertype_ip (u16 (Z.lor (Z.shiftl hi 8) lo))) then Ok (inl Skip) else Ok (inr 16)
  else if dl_type =? DLT_LINUX_SLL2 then
    if caplen <? 20 then Ok (inl Skip)
    else
      hi ← byte_at pkt_data 0; lo ← byte_at pkt_data 1;
      if negb (ethertype_ip (u16 (Z.lor (Z.shiftl hi 8) lo))) then Ok (inl Skip) else Ok (inr 20)
  else if negb (dl_type =? DLT_RAW) then Ok (inl GiveUp)
  else Ok (inr 0).

(** [std::string::max_size] *)
Definition max_size : Z := 2 ^ 63 - 1.

(** The numbers of the enumerators of [ParseResult]. *)
Definition result_number (r : ParseResult) : Z :=
  match r with
  | NoError => 0 | BadChecksum => 1 | PacketTooShort => 2 | WrongIPVersion => 3
  | HeaderTooShort => 4 | TruncatedPacket => 5 | Unsupported => 6
  end.

(** The two lines for a segment. *)
Definition segment_text (src dst : list byte) (seg : TCPSegment) (correct : bool) (payload_len : Z) : list byte :=
  let tcp_hdr := header seg in
  let seqlen := u32 (length_in_sequence_space seg) in
  src ++ txt ":" ++ decimal (sport tcp_hdr) ++ txt " > " ++ dst ++ txt ":" ++ decimal (dport tcp_hdr) ++
  nl ++ txt "    Flags [" ++
  txt (if urg tcp_hdr then "U" else "") ++ txt (if psh tcp_hdr then "P" else "") ++
  txt (if rst tcp_hdr then "R" else "") ++ txt (if syn tcp_hdr then "S" else "") ++
  txt (if fin tcp_hdr then "F" else "") ++ txt (if ack tcp_hdr then "." else "") ++
  txt "] cksum 0x" ++ setw 4 Byte.x30 (hexadecimal (TCPHeader.cksum tcp_hdr)) ++
  txt (if correct then " (correct)" else " (incorrect!)") ++
  txt " seq " ++ print_wrapping 10 (seqno tcp_hdr) ++
  (if 0 <? seqlen then txt ":" ++ print_wrapping 10 (add_u32 (seqno tcp_hdr) seqlen) else []) ++
  txt " ack " ++ print_wrapping 10 (ackno tcp_hdr) ++ txt " win " ++ decimal (win tcp_hdr) ++
  txt " length " ++ decimal payload_len ++ nl.

(** One iteration of the loop of [main]. *)
Definition show_packet (dl_type : Z) (pkt_data : list byte) : result step :=
  h ← link_header dl_type pkt_data;
  match h with
  | inl s => Ok s
  | inr hdr_off =>
      let caplen := zlen pkt_data in
      r ← process_ipv4_ipv6 (s32 (u64 (caplen - hdr_off))) (drop (Z.to_nat hdr_off) pkt_data);
      match r with
      | None => Ok Skip
      | Some (start_off, src, dst) =>
          let payload_off := u64 (hdr_off + start_off) in
          let payload_len := u64 (caplen - payload_off) in
          if max_size <? payload_len then Throw (length_error "basic_string::_M_create")
          else
            payload ← bytes_at pkt_data payload_off payload_len;
            '(res, seg) ← TCPSegment.parse default_TCPSegment (new_Buffer payload) 0;
            let text :=
              if 1 <? result_number res
              then txt "(did not recognize TCP header) src: " ++ src ++ txt " dst: " ++ dst ++ nl
              else segment_text src dst seg (bool_decide (res = NoError)) payload_len in
            dump ← hexdump payload 8;
            Ok (Show (text ++ dump))
      end
  end.

(** What [pcap_next_ex] returns: nothing within the timeout, a packet, or the
    end of the capture with a negative number. *)
Inductive capture :=
| NoPacket
| Packet (data : list byte)
| Ended (next_ret : Z).

(** The capture library, as far as [main] uses it: the link type of the handle
    or a failure, the results of compiling and setting the filter, the texts
    of errors and link types, and what is captured. *)
Record pcap := {
  open_live : option (list byte) -> option Z;
  errbuf : list byte;
  datalink_description : Z -> list byte;
  compile : list byte -> Z;
  setfilter : list byte -> Z;
  geterr : list byte;
  captured : list capture
}.

(** The loop of [main]; it goes on for as long as there are captures. *)
Fixpoint capture_loop (geterr : list byte) (dl_type : Z) (l : list capture) (out : list byte) : prog (list byte) :=
  match l with
  | [] => Return out
  | NoPacket :: l => capture_loop geterr dl_type l out
  | Ended next_ret :: _ =>
      if next_ret =? -1 then Exit EXIT_FAILURE (out ++ txt "Error listening for packet: " ++ geterr ++ nl)
      else Exit EXIT_SUCCESS out
  | Packet pkt :: l =>
      match show_packet dl_type pkt with
      | Ok Skip => capture_loop geterr dl_type l out
      | Ok (Show text) => capture_loop geterr dl_type l (out ++ text)
      | Ok GiveUp => Exit EXIT_FAILURE out
      | Throw e => Raise e
      end
  end.

Definition supported (dlt : Z) : bool :=
  (dlt =? DLT_RAW) || (dlt =? DLT_NULL) || (dlt =? DLT_EN10MB) || (dlt =? DLT_LINUX_SLL) || (dlt =? DLT_LINUX_SLL2).

Definition dump_main (p : pcap) (argv : list (list byte)) : prog (list byte) :=
  '(exp_start, dev) ← parse_arguments argv;
  let out := match dev with
             | Some d => txt "Capturing on interface " ++ d
             | None => txt "Capturing on all interfaces"
             end in
  match open_live p dev with
  | None => Exit 1 (out ++ nl ++ txt "Error initiating capture: " ++ errbuf p ++ nl)
  | Some dlt =>
      if negb (supported dlt)
      then Exit 1 (out ++ nl ++ txt "Error: unsupported datalink type " ++ datalink_description p dlt ++ nl)
      else
        let out := out ++ txt " (type: " ++ datalink_description p dlt ++ txt ")" ++ nl in
        let expression := filter_expression argv exp_start in
        let out := out ++ txt "Using filter expression: " ++ expression ++ nl in
        if negb (compile p expression =? 0)
        then Exit EXIT_FAILURE (out ++ txt "Error compiling filter expression: " ++ geterr p ++ nl)
        else if negb (setfilter p expression =? 0)
        then Exit EXIT_FAILURE (out ++ txt "Error configuring packet filter: " ++ geterr p ++ nl)
        else capture_loop (geterr p) dlt (captured p) out
  end.

(** ** Lemmas *)

Lemma byte_at_ok data i : 0 <= i < zlen data -> exists b, byte_at data i = Ok b /\ 0 <= b < 256.
Proof.
  intros Hi. unfold byte_at. destruct (zget_is_Some data i Hi) as [b ->]. eexists. split; [done|]. apply b2z_range.
Qed.

Lemma byte_at_app pre b post i : i = zlen pre -> byte_at (pre ++ b :: post) i = Ok (b2z b).
Proof.
  intros ->. unfold byte_at, zget. pose proof (zlen_nonneg pre). rewrite (proj2 (Z.ltb_ge _ _)) by lia.
  unfold zlen. rewrite Nat2Z.id, lookup_app_r, Nat.sub_diag by lia. done.
Qed.

Lemma bytes_at_ok data i n : 0 <= i -> 0 <= n -> i + n <= zlen data -> bytes_at data i n = Ok (sub data i n).
Proof.
  intros. unfold bytes_at. rewrite (proj2 (Z.ltb_ge i 0)), (proj2 (Z.ltb_ge _ (i + n))) by lia. done.
Qed.

Lemma bytes_at_app pre l post i n : i = zlen pre -> n = zlen l -> bytes_at (pre ++ l ++ post) i n = Ok l.
Proof.
  intros -> ->. pose proof (zlen_nonneg pre). pose proof (zlen_nonneg l). pose proof (zlen_nonneg post).
  rewrite bytes_at_ok by (rewrite ?zlen_app; lia). f_equal. unfold sub. rewrite !zlen_app.
  unfold zlen. rewrite Nat2Z.id, drop_app_length, Z.min_l, Nat2Z.id by lia. by rewrite take_app_length.
Qed.

Lemma bytes_at_sub data i n l : bytes_at data i n = Ok l -> sub data i n = l.
Proof. unfold bytes_at. destruct (_ || _); [done|]. by intros [= <-]. Qed.

(** The loop over extension headers ends and stays within the packet. *)
Lemma extension_loop_ok data fuel nxt off :
  40 <= off -> off + 2 <= zlen data -> zlen data - off < Z.of_nat fuel ->
  exists r, extension_loop fuel (zlen data) data nxt off = Ok r /\
    forall o, r = Some o -> 40 <= o /\ o + 2 <= zlen data.
Proof.
  revert nxt off. induction fuel as [|fuel IH]; intros nxt off H1 H2 H3; [lia|]. cbn [extension_loop].
  destruct (nxt =? 17); [eexists; split; [done|]; intros o [= <-]; lia|].
  destruct (_ && _); [by exists None|].
  destruct (byte_at_ok data off) as (b1 & -> & _); [lia|]. destruct (byte_at_ok data (off + 1)) as (b2 & -> & Hb); [lia|].
  cbn [mbind result_bind]. destruct (Z.ltb_spec (zlen data) (off + 8 * (1 + b2) + 2)); [by exists None|].
  apply IH; lia.
Qed.

Lemma inet4_addr_ok data off : 0 <= off -> off + 4 <= zlen data -> exists s, inet4_addr data off = Ok s.
Proof. intros. unfold inet4_addr. rewrite bytes_at_ok by lia. cbn [mbind result_bind]. eauto. Qed.
Lemma inet6_addr_ok data off : 0 <= off -> off + 16 <= zlen data -> exists s, inet6_addr data off = Ok s.
Proof. intros. unfold inet6_addr. rewrite bytes_at_ok by lia. cbn [mbind result_bind]. eauto. Qed.

Lemma process_ok data :
  zlen data = 0 \/ 20 <= zlen data ->
  exists r, process_ipv4_ipv6 (zlen data) data = Ok r /\
    forall off s d, r = Some (off, s, d) -> 8 <= off <= zlen data + 8.
Proof.
  intros Hl. unfold process_ipv4_ipv6. destruct (Z.ltb_spec (zlen data) 1); [by exists None|].
  destruct (byte_at_ok data 0) as (b0 & -> & Hb0); [lia|]. cbn [mbind result_bind].
  assert (0 <= Z.land b0 15) by (apply Z.land_nonneg; lia).
  destruct (_ =? 64); [|destruct (_ =? 96); [|by exists None]].
  - destruct (Z.ltb_spec (zlen data) (Z.land b0 15 * 4)); [by exists None|].
    destruct (byte_at_ok data 9) as (b9 & -> & _); [lia|]. cbn [mbind result_bind]. destruct (negb _); [by exists None|].
    destruct (inet4_addr_ok data 12) as [s ->]; [lia..|]. destruct (inet4_addr_ok data 16) as [d ->]; [lia..|].
    cbn [mbind result_bind]. eexists. split; [done|]. intros ? ? ? [= <- <- <-]. lia.
  - destruct (Z.ltb_spec (zlen data) 42); [by exists None|].
    destruct (byte_at_ok data 6) as (b6 & -> & _); [lia|]. cbn [mbind result_bind].
    destruct (extension_loop_ok data (S (Z.to_nat (zlen data))) b6 40) as ([o|] & -> & Ho); [lia..| |by exists None].
    cbn [mbind result_bind]. specialize (Ho o eq_refl).
    destruct (inet6_addr_ok data 8) as [s ->]; [lia..|]. destruct (inet6_addr_ok data 24) as [d ->]; [lia..|].
    cbn [mbind result_bind]. eexists. split; [done|]. intros ? ? ? [= <- <- <-]. lia.
Qed.

Lemma link_header_ok dl_type pkt :
  exists h, link_header dl_type pkt = Ok h /\ forall off, h = inr off -> 0 <= off <= zlen pkt.
Proof.
  pose proof (zlen_nonneg pkt). unfold link_header.
  assert (Hb : forall i, 0 <= i < zlen pkt -> exists b, byte_at pkt i = Ok b).
  { intros i Hi. destruct (byte_at_ok pkt i Hi) as (b & Hb & _). eauto. }
  repeat match goal with
  | |- context [if zlen pkt <? ?n then _ else _] => destruct (Z.ltb_spec (zlen pkt) n); [by eexists|]
  | |- context [byte_at pkt ?i] => destruct (Hb i) as [? ->]; [lia|]; cbn [mbind result_bind]
  | |- context [if ?x then _ else _] => destruct x
  end; eexists; (split; [done|]); intros ? [=]; lia.
Qed.

(** The text for a payload that was found. *)
Definition payload_text (src dst payload : list byte) : result (list byte) :=
  '(res, seg) ← TCPSegment.parse default_TCPSegment (new_Buffer payload) 0;
  let text :=
    if 1 <? result_number res
    then txt "(did not recognize TCP header) src: " ++ src ++ txt " dst: " ++ dst ++ nl
    else segment_text src dst seg (bool_decide (res = NoError)) (zlen payload) in
  dump ← hexdump payload 8;
  Ok (text ++ dump).

Lemma payload_text_ok src dst payload : zlen payload < 2 ^ 31 -> exists text, payload_text src dst payload = Ok text.
Proof.
  intros Hl. unfold payload_text.
  destruct (segment_parse_total default_TCPSegment (new_Buffer payload) 0) as (r & seg & -> & _); [apply wf_new_Buffer; lia|].
  cbn [mbind result_bind]. destruct (hexdump_total payload 8 Hl) as [dump ->]. cbn. eauto.
Qed.

(** A packet in which the payload was found: it is shown when the headers are
    complete, otherwise its length wraps around. *)
Lemma show_packet_found dl_type pkt hdr_off off src dst :
  zlen pkt < 2 ^ 31 -> link_header dl_type pkt = Ok (inr hdr_off) -> 0 <= hdr_off <= zlen pkt ->
  process_ipv4_ipv6 (zlen pkt - hdr_off) (drop (Z.to_nat hdr_off) pkt) = Ok (Some (off, src, dst)) ->
  8 <= off <= zlen pkt - hdr_off + 8 ->
  show_packet dl_type pkt =
  if hdr_off + off <=? zlen pkt then
    text ← payload_text src dst (drop (Z.to_nat (hdr_off + off)) pkt); Ok (Show text)
  else Throw (length_error "basic_string::_M_create").
Proof.
  intros Hl Hh Hoff Hp Ho. unfold show_packet. rewrite Hh. cbn [mbind result_bind].
  rewrite (u64_small (zlen pkt - hdr_off)) by lia. rewrite s32_small by lia. rewrite Hp. cbn [mbind result_bind].
  rewrite (u64_small (hdr_off + off)) by lia. unfold max_size.
  destruct (Z.leb_spec (hdr_off + off) (zlen pkt)) as [Hc|Hc].
  - rewrite u64_small, (proj2 (Z.ltb_ge _ _)) by lia.
    assert (Hd : sub pkt (hdr_off + off) (zlen pkt - (hdr_off + off)) = drop (Z.to_nat (hdr_off + off)) pkt).
    { unfold sub. apply take_ge. rewrite length_drop. unfold zlen. lia. }
    assert (Hz : zlen (drop (Z.to_nat (hdr_off + off)) pkt) = zlen pkt - (hdr_off + off)) by (rewrite zlen_drop; lia).
    rewrite bytes_at_ok by lia. cbn [mbind result_bind]. rewrite Hd. unfold payload_text. rewrite Hz.
    destruct (TCPSegment.parse _ _ _) as [[res seg]|]; [|done]. cbn [mbind result_bind].
    by destruct (hexdump _ _).
  - rewrite (proj2 (Z.ltb_lt _ _)); [done|]. word.
Qed.

(** A complete IPv4 header that announces UDP. *)
Lemma be_bytes_1 v : 0 <= v < 2 ^ 8 -> be_bytes 1 v = [z2b v].
Proof.
  intros Hv. cbn [be_bytes Z.of_nat Z.mul]. rewrite Z.shiftr_0_r. change 255 with (Z.ones 8).
  rewrite Z.land_ones, Z.mod_small by lia. done.
Qed.

Lemma first_byte_pt h : ver h = 4 -> 0 <= hlen h < 16 -> Z.land (first_byte h) 240 = 64.
Proof.
  intros Hv Hl. unfold first_byte. rewrite Hv.
  assert (H : forall n, (n < 16)%nat -> Z.land (u8 (Z.lor (Z.shiftl 4 4) (Z.land (Z.of_nat n) 15))) 240 = 64).
  { intros n Hn. do 16 (destruct n as [|n]; [by vm_compute|]). lia. }
  specialize (H (Z.to_nat (hlen h)) ltac:(lia)). by rewrite Z2Nat.id in H by lia.
Qed.

Lemma inet4_addr_field pre a post data i :
  data = pre ++ be_bytes 4 a ++ post -> i = zlen pre -> 0 <= a < 2 ^ 32 -> inet4_addr data i = Ok (dotted a).
Proof.
  intros -> Hi Ha. unfold inet4_addr. rewrite bytes_at_app by (done || by rewrite zlen_be_bytes).
  cbn [mbind result_bind]. by rewrite be_value_bytes, Z.mod_small.
Qed.

(** The bytes behind the first one, up to the protocol. *)
Definition header_middle (h : IPv4Header) : list byte :=
  be_bytes 1 (tos h) ++ be_bytes 2 (len h) ++ be_bytes 2 (id h) ++ be_bytes 2 (fo_val h) ++ be_bytes 1 (ttl h).

Lemma header_fields h :
  wf_IPv4Header h ->
  IPv4Header.before_cksum h ++ be_bytes 2 (IPv4Header.cksum h) ++ IPv4Header.after_cksum h =
  z2b (first_byte h) :: header_middle h ++ z2b (proto h) :: be_bytes 2 (IPv4Header.cksum h) ++
    be_bytes 4 (src h) ++ be_bytes 4 (dst h) ++ replicate (Z.to_nat (4 * hlen h) - 20) Byte.x00.
Proof.
  intros Hw. unfold IPv4Header.before_cksum, IPv4Header.after_cksum, header_middle.
  rewrite (be_bytes_1 (first_byte h)) by apply u8_range. rewrite (be_bytes_1 (proto h)) by apply Hw.
  by rewrite <- !app_assoc.
Qed.

Lemma process_udp4 h hdr rest :
  wf_IPv4Header h -> proto h = 17 -> IPv4Header.serialize h = Ok hdr ->
  zlen hdr = 4 * hlen h /\
  process_ipv4_ipv6 (zlen (hdr ++ rest)) (hdr ++ rest) = Ok (Some (4 * hlen h + 8, dotted (src h), dotted (dst h))).
Proof.
  intros Hw Hp Hs. pose proof (wf_hlen _ Hw) as Hl. pose proof (wf_ver _ Hw) as Hv.
  rewrite ip_serialize_layout in Hs by lia.
  match type of Hs with Ok ?x = _ => assert (hdr = x) as -> by congruence end.
  assert (Hz : zlen (IPv4Header.before_cksum h ++ be_bytes 2 (IPv4Header.cksum h) ++ IPv4Header.after_cksum h) = 4 * hlen h).
  { rewrite !zlen_app, ip_zlen_before, zlen_be_bytes, ip_zlen_after by lia. lia. }
  split; [done|]. pose proof (zlen_nonneg rest) as Hr. pose proof (first_byte_fields h Hv ltac:(lia)) as [_ Hf].
  unfold process_ipv4_ipv6. rewrite (zlen_app _ rest), Hz, (proj2 (Z.ltb_ge _ 1)) by lia.
  rewrite header_fields by done. set (mid := header_middle h). set (pad := replicate _ _).
  assert (Hm : zlen mid = 8) by (unfold mid, header_middle; rewrite !zlen_app, !zlen_be_bytes; lia).
  rewrite <- app_comm_cons, <- app_assoc, <- app_comm_cons, <- !app_assoc.
  set (data := z2b (first_byte h) :: _).
  assert (byte_at data 0 = Ok (first_byte h)) as ->.
  { rewrite <- (u8_small (first_byte h)), <- b2z_z2b by apply u8_range. by apply (byte_at_app []). }
  assert (byte_at data 9 = Ok 17) as ->.
  { unfold data. rewrite app_comm_cons, byte_at_app by (rewrite zlen_cons; lia). by rewrite Hp, b2z_z2b. }
  assert (H12 : inet4_addr data 12 = Ok (dotted (src h))).
  { apply (inet4_addr_field (z2b (first_byte h) :: mid ++ z2b (proto h) :: be_bytes 2 (IPv4Header.cksum h)) _ (be_bytes 4 (dst h) ++ pad ++ rest)); [|..|apply Hw].
    - unfold data. rewrite <- app_comm_cons, <- app_assoc. done.
    - rewrite zlen_cons, zlen_app, zlen_cons, Hm, zlen_be_bytes. lia. }
  assert (H16 : inet4_addr data 16 = Ok (dotted (dst h))).
  { apply (inet4_addr_field (z2b (first_byte h) :: mid ++ z2b (proto h) :: be_bytes 2 (IPv4Header.cksum h) ++ be_bytes 4 (src h)) _ (pad ++ rest)); [|..|apply Hw].
    - unfold data. rewrite <- app_comm_cons, <- app_assoc, <- app_comm_cons, <- app_assoc. done.
    - rewrite zlen_cons, zlen_app, zlen_cons, Hm, zlen_app, !zlen_be_bytes. lia. }
  cbn [mbind result_bind]. rewrite first_byte_pt, Hf by lia. cbn [Z.eqb Pos.eqb].
  rewrite (proj2 (Z.ltb_ge _ _)) by lia. cbn [negb]. rewrite H12, H16. cbn [mbind result_bind].
  by rewrite (Z.mul_comm (hlen h) 4).
Qed.

(** ** Reading what is shown

    A reader for the two lines of a segment, written from the text alone: it
    takes what it knows from the front and leaves the rest. *)

Definition reader (A : Type) : Type := list byte -> option (A * list byte).

#[export] Instance reader_ret : MRet reader := fun A a s => Some (a, s).
#[export] Instance reader_bind : MBind reader := fun A B f m s =>
  match m s with Some (a, s) => f a s | None => None end.

(** A fixed text, a number, and a character that may be missing. *)
Definition literal (l : list byte) : reader () := fun s =>
  if bool_decide (take (length l) s = l) then Some ((), drop (length l) s) else None.
Definition numeral (base : Z) : reader Z := fun s =>
  match scan base s None with (Some n, rest) => Some (n, rest) | (None, _) => None end.
Definition optionally (c : byte) : reader bool := fun s =>
  match s with
  | b :: rest => if bool_decide (b = c) then Some (true, rest) else Some (false, s)
  | [] => Some (false, s)
  end.

Definition read_address : reader Z :=
  a ← numeral 10; _ ← literal (txt "."); b ← numeral 10; _ ← literal (txt ".");
  c ← numeral 10; _ ← literal (txt "."); d ← numeral 10;
  mret (a * 2 ^ 24 + b * 2 ^ 16 + c * 2 ^ 8 + d).

Record flag_letters := { has_U : bool; has_P : bool; has_R : bool; has_S : bool; has_F : bool; has_dot : bool }.

Definition read_flags : reader flag_letters :=
  u ← optionally Byte.x55; p ← optionally Byte.x50; r ← optionally Byte.x52;
  y ← optionally Byte.x53; f ← optionally Byte.x46; d ← optionally Byte.x2e;
  mret {| has_U := u; has_P := p; has_R := r; has_S := y; has_F := f; has_dot := d |}.

(** What the lines say. *)
Record shown_segment := {
  from_address : Z; from_port : Z; to_address : Z; to_port : Z;
  letters : flag_letters; checksum_shown : Z; called_correct : bool;
  first_seqno : Z; end_seqno : option Z; ack_shown : Z; win_shown : Z; length_shown : Z
}.

Definition read_verdict : reader bool := fun s =>
  match literal (txt " (correct)") s with
  | Some (_, s) => Some (true, s)
  | None => (_ ← literal (txt " (incorrect!)"); mret false) s
  end.

(** The number behind a colon, if there is one. *)
Definition read_end : reader (option Z) :=
  more ← optionally Byte.x3a;
  if more : bool then (numeral 10 ≫= fun n => mret (Some n)) else mret None.

Definition read_shown : reader shown_segment :=
  fa ← read_address; _ ← literal (txt ":"); fp ← numeral 10; _ ← literal (txt " > ");
  ta ← read_address; _ ← literal (txt ":"); tp ← numeral 10; _ ← literal nl;
  _ ← literal (txt "    Flags ["); fl ← read_flags; _ ← literal (txt "] cksum 0x");
  ck ← numeral 16; ok ← read_verdict; _ ← literal (txt " seq "); sq ← numeral 10;
  e ← read_end; _ ← literal (txt " ack "); ak ← numeral 10; _ ← literal (txt " win "); wn ← numeral 10;
  _ ← literal (txt " length "); ln ← numeral 10; _ ← literal nl;
  mret {| from_address := fa; from_port := fp; to_address := ta; to_port := tp; letters := fl;
          checksum_shown := ck; called_correct := ok; first_seqno := sq; end_seqno := e;
          ack_shown := ak; win_shown := wn; length_shown := ln |}.

Lemma literal_then {B} l (f : () -> reader B) rest : (literal l ≫= f) (l ++ rest) = f () rest.
Proof.
  unfold mbind, reader_bind, literal. rewrite take_app_length, bool_decide_eq_true_2 by done. by rewrite drop_app_length.
Qed.

Lemma numeral_then {B} base n (f : Z -> reader B) rest :
  2 <= base <= 36 -> 0 <= n < 2 ^ 64 -> no_digit base rest -> (numeral base ≫= f) (number base n ++ rest) = f n rest.
Proof.
  intros Hb Hn Hr. unfold mbind, reader_bind, numeral. by rewrite scan_number, scan_no_digit by done.
Qed.

Lemma decimal_then {B} n (f : Z -> reader B) rest :
  0 <= n < 2 ^ 64 -> no_digit 10 rest -> (numeral 10 ≫= f) (decimal n ++ rest) = f n rest.
Proof. intros. apply numeral_then; [lia|done..]. Qed.

(** Zeros in front do not matter. *)
Lemma scan_zeros k n rest :
  0 <= n < 2 ^ 64 -> no_digit 16 rest ->
  scan 16 (replicate k Byte.x30 ++ hexadecimal n ++ rest) None = (Some n, rest).
Proof.
  intros Hn Hr. assert (Hs : scan 16 (hexadecimal n ++ rest) None = (Some n, rest)).
  { unfold hexadecimal. rewrite scan_number by lia. by apply scan_no_digit. }
  assert (H0 : scan 16 (hexadecimal n ++ rest) (Some 0) = (Some n, rest)).
  { rewrite <- Hs. unfold hexadecimal in *. destruct (number_cons 16 n) as (c & l & Hc); [lia|].
    pose proof (number_digits 16 ltac:(lia) n ltac:(lia)) as Hd. rewrite Hc in *. apply Forall_cons in Hd as [Hd _].
    apply Is_true_true in Hd. unfold is_digit in Hd. cbn [app scan]. destruct (digit_value c); [|done]. by rewrite Hd. }
  destruct k as [|k]; [done|]. change (scan 16 (replicate k Byte.x30 ++ hexadecimal n ++ rest) (Some 0) = (Some n, rest)).
  induction k as [|k IH]; [done|exact IH].
Qed.

Lemma checksum_then {B} n (f : Z -> reader B) rest :
  0 <= n < 2 ^ 64 -> no_digit 16 rest ->
  (numeral 16 ≫= f) (setw 4 Byte.x30 (hexadecimal n) ++ rest) = f n rest.
Proof. intros Hn Hr. unfold mbind, reader_bind, numeral, setw. by rewrite <- app_assoc, scan_zeros. Qed.

Lemma address_then {B} ip (f : Z -> reader B) rest :
  0 <= ip < 2 ^ 32 -> no_digit 10 rest -> (read_address ≫= f) (dotted ip ++ rest) = f ip rest.
Proof.
  intros Hi Hr. pose proof (fun z => Z.mod_pos_bound z (2 ^ 8) eq_refl) as Hm.
  assert (E : read_address (dotted ip ++ rest) = Some (ip, rest)).
  { unfold read_address, dotted. rewrite <- !app_assoc.
    rewrite decimal_then by (done || (pose proof (Hm (ip / 2 ^ 24)); lia)). rewrite literal_then.
    rewrite decimal_then by (done || (pose proof (Hm (ip / 2 ^ 16)); lia)). rewrite literal_then.
    rewrite decimal_then by (done || (pose proof (Hm (ip / 2 ^ 8)); lia)). rewrite literal_then.
    rewrite decimal_then by (done || (pose proof (Hm ip); lia)).
    unfold mret, reader_ret. do 2 f_equal. clear -Hi.
    rewrite (Z.mod_small (ip / 2 ^ 24)) by (split; [apply Z.div_pos; lia|apply Z.div_lt_upper_bound; lia]).
    pose proof (Z.div_mod ip (2 ^ 8)). pose proof (Z.div_mod (ip / 2 ^ 8) (2 ^ 8)). pose proof (Z.div_mod (ip / 2 ^ 16) (2 ^ 8)).
    rewrite (Z.div_div ip (2 ^ 8) (2 ^ 8)) in * by lia. rewrite (Z.div_div ip (2 ^ 16) (2 ^ 8)) in * by lia.
    change (2 ^ 8 * 2 ^ 8) with (2 ^ 16) in *. change (2 ^ 16 * 2 ^ 8) with (2 ^ 24) in *. lia. }
  unfold mbind, reader_bind. by rewrite E.
Qed.

(** The letters for the flags of a header. *)
Definition letters_of (h : TCPHeader) : flag_letters :=
  {| has_U := urg h; has_P := psh h; has_R := rst h; has_S := syn h; has_F := fin h; has_dot := ack h |}.

Lemma flags_then {B} h (f : flag_letters -> reader B) rest :
  (read_flags ≫= f) (txt (if urg h then "U" else "") ++ txt (if psh h then "P" else "") ++
    txt (if rst h then "R" else "") ++ txt (if syn h then "S" else "") ++
    txt (if fin h then "F" else "") ++ txt (if ack h then "." else "") ++ txt "] cksum 0x" ++ rest) =
  f (letters_of h) (txt "] cksum 0x" ++ rest).
Proof.
  unfold letters_of. destruct (urg h), (psh h), (rst h), (syn h), (fin h), (ack h); reflexivity.
Qed.

Lemma verdict_then {B} (correct : bool) (f : bool -> reader B) rest :
  (read_verdict ≫= f) (txt (if correct then " (correct)" else " (incorrect!)") ++ rest) = f correct rest.
Proof. by destruct correct. Qed.

Lemma end_then {B} n v (f : option Z -> reader B) rest :
  0 <= raw_value v < 2 ^ 64 ->
  (read_end ≫= f) ((if 0 <? n then txt ":" ++ print_wrapping 10 v else []) ++ txt " ack " ++ rest) =
  f (if 0 <? n then Some (raw_value v) else None) (txt " ack " ++ rest).
Proof.
  intros Hv. destruct (0 <? n); [|done]. rewrite <- app_assoc. unfold read_end, print_wrapping.
  transitivity (((numeral 10 ≫= (fun n => mret (Some n))) ≫= f) (number 10 (raw_value v) ++ txt " ack " ++ rest)); [done|].
  unfold mbind at 1, reader_bind at 1. by rewrite numeral_then by (done || lia).
Qed.

(** Reading back the lines of a segment. *)
Lemma segment_text_read src dst seg correct len rest :
  0 <= src < 2 ^ 32 -> 0 <= dst < 2 ^ 32 -> wf_TCPHeader (header seg) -> 0 <= len < 2 ^ 64 ->
  let h := header seg in
  read_shown (segment_text (dotted src) (dotted dst) seg correct len ++ rest) =
  Some ({| from_address := src; from_port := sport h; to_address := dst; to_port := dport h;
           letters := letters_of h; checksum_shown := TCPHeader.cksum h; called_correct := correct;
           first_seqno := raw_value (seqno h);
           end_seqno := (let seqlen := u32 (length_in_sequence_space seg) in
                         if 0 <? seqlen then Some (raw_value (add_u32 (seqno h) seqlen)) else None);
           ack_shown := raw_value (ackno h); win_shown := win h; length_shown := len |}, rest).
Proof.
  intros Hs Hd Hw Hl h. unfold segment_text. fold h. cbn zeta. pose proof (wf_sport _ Hw). pose proof (wf_dport _ Hw).
  pose proof (wf_seqno _ Hw) as Hsq. pose proof (wf_ackno _ Hw) as Hak. pose proof (wf_win _ Hw). pose proof (wf_cksum _ Hw).
  fold h in Hsq, Hak, H, H0, H1, H2. unfold wi_wf in Hsq, Hak.
  unfold read_shown. rewrite <- !app_assoc. rewrite address_then by done. rewrite literal_then.
  rewrite decimal_then by (done || lia). rewrite literal_then. rewrite address_then by done. rewrite literal_then.
  rewrite decimal_then by (done || lia). rewrite !literal_then, flags_then, literal_then.
  rewrite checksum_then by (lia || by destruct correct). rewrite verdict_then, literal_then.
  unfold print_wrapping at 1. rewrite numeral_then by (lia || by destruct (0 <? _)).
  rewrite end_then.
  - rewrite literal_then. unfold print_wrapping. rewrite numeral_then by (lia || done). rewrite literal_then.
    rewrite decimal_then by (done || lia). rewrite literal_then. rewrite decimal_then by (done || lia). rewrite literal_then. done.
  - cbn. pose proof (u32_range (raw_value (seqno h) + u32 (length_in_sequence_space seg))). lia.
Qed.

(** ** Properties *)

(** C34: A captured packet cannot derail the search. For any link type and any
    captured bytes, at least twenty of them behind the link header if there
    are any, the iteration ends, with all accesses inside of the packet; it
    throws only when the capture ends inside of the UDP header, and then the
    length of the payload wraps around and no string can be made. *)
Theorem packet_search_safe dl_type pkt :
  zlen pkt < 2 ^ 31 ->
  (forall off, link_header dl_type pkt = Ok (inr off) -> zlen pkt = off \/ off + 20 <= zlen pkt) ->
  (exists st, show_packet dl_type pkt = Ok st) \/
  (show_packet dl_type pkt = Throw (length_error "basic_string::_M_create") /\
   exists hdr_off off src dst, link_header dl_type pkt = Ok (inr hdr_off) /\
     process_ipv4_ipv6 (zlen pkt - hdr_off) (drop (Z.to_nat hdr_off) pkt) = Ok (Some (off, src, dst)) /\
     zlen pkt < hdr_off + off).
Proof.
  intros Hl Hh. destruct (link_header_ok dl_type pkt) as (h & E & Hr). destruct h as [st|hdr_off].
  { left. exists st. unfold show_packet. by rewrite E. }
  specialize (Hr _ eq_refl). specialize (Hh _ E).
  assert (Hz : zlen (drop (Z.to_nat hdr_off) pkt) = zlen pkt - hdr_off) by (rewrite zlen_drop; lia).
  destruct (process_ok (drop (Z.to_nat hdr_off) pkt)) as (r & Hp & Ho); [lia|]. rewrite Hz in Hp, Ho.
  destruct r as [[[off src] dst]|].
  - specialize (Ho _ _ _ eq_refl). pose proof (show_packet_found _ _ _ _ _ _ Hl E Hr Hp ltac:(lia)) as Hs.
    destruct (Z.leb_spec (hdr_off + off) (zlen pkt)).
    + left. destruct (payload_text_ok src dst (drop (Z.to_nat (hdr_off + off)) pkt)) as [text Ht]; [rewrite zlen_drop; lia|].
      rewrite Ht in Hs. eauto.
    + right. split; [done|]. eauto 10.
  - left. exists Skip. unfold show_packet. rewrite E. cbn [mbind result_bind].
    by rewrite (u64_small (zlen pkt - hdr_off)), s32_small, Hp by lia.
Qed.

(** A frame of the UDP adapter's traffic: a link header that is recognized, an
    IPv4 header that announces UDP, a UDP header and the datagram. *)
Lemma show_frame dl_type link h hdr udp datagram :
  wf_IPv4Header h -> proto h = 17 -> IPv4Header.serialize h = Ok hdr -> zlen udp = 8 ->
  let pkt := link ++ hdr ++ udp ++ datagram in
  link_header dl_type pkt = Ok (inr (zlen link)) -> zlen pkt < 2 ^ 31 ->
  show_packet dl_type pkt =
    text ← payload_text (dotted (src h)) (dotted (dst h)) datagram; Ok (Show text).
Proof.
  intros Hw Hp Hs Hu pkt Hh Hl. destruct (process_udp4 h hdr (udp ++ datagram) Hw Hp Hs) as [Hz Hf].
  pose proof (wf_hlen _ Hw). pose proof (zlen_nonneg link). pose proof (zlen_nonneg datagram).
  assert (Hlen : zlen pkt = zlen link + 4 * hlen h + 8 + zlen datagram) by (unfold pkt; rewrite !zlen_app; lia).
  rewrite (show_packet_found dl_type pkt (zlen link) (4 * hlen h + 8) (dotted (src h)) (dotted (dst h))); [|done|done|lia| |lia].
  - rewrite (proj2 (Z.leb_le _ _)) by lia. do 2 f_equal. unfold pkt.
    replace (Z.to_nat (zlen link + (4 * hlen h + 8))) with (length link + (length hdr + length udp))%nat by (unfold zlen in *; lia).
    by rewrite drop_app_add, app_assoc, <- length_app, drop_app_length.
  - unfold pkt at 2. unfold zlen at 3. rewrite Nat2Z.id, drop_app_length. rewrite <- Hf. f_equal. rewrite !zlen_app in *. lia.
Qed.

(** C33: Captured segments are shown as they are. Put the bytes that
    [TCPSegment::serialize] gives for a segment behind a UDP and an IPv4
    header, with any link header that is recognized. The program prints a text
    from which a reader that knows nothing of the packet gets the addresses of
    the IPv4 header, the ports, flags, sequence, acknowledgment and window
    numbers of the segment, the number behind it if it occupies any, the
    checksum in its bytes, that it is correct, and the length; and behind that
    come the lines of the dump of all of its bytes. *)
Theorem capture_shows_segment dl_type link h hdr udp seg :
  wf_IPv4Header h -> proto h = 17 -> IPv4Header.serialize h = Ok hdr -> zlen udp = 8 ->
  wf_TCPHeader (_header seg) -> zlen (str (_payload seg)) <= 65495 ->
  exists bl, TCPSegment.serialize seg 0 = Ok bl /\
    let datagram := bl_concatenate bl in
    let pkt := link ++ hdr ++ udp ++ datagram in
    link_header dl_type pkt = Ok (inr (zlen link)) -> zlen pkt < 2 ^ 31 ->
    exists text, show_packet dl_type pkt = Ok (Show text) /\
      let t := _header seg in
      let seqlen := length_in_sequence_space seg in
      read_shown text =
        Some ({| from_address := src h; from_port := sport t; to_address := dst h; to_port := dport t;
                 letters := {| has_U := urg t; has_P := psh t; has_R := rst t; has_S := syn t; has_F := fin t; has_dot := ack t |};
                 checksum_shown := be_value (sub datagram 16 2); called_correct := true;
                 first_seqno := raw_value (seqno t);
                 end_seqno := if 0 <? seqlen then Some (u32 (raw_value (seqno t) + seqlen)) else None;
                 ack_shown := raw_value (ackno t); win_shown := win t; length_shown := zlen datagram |},
              dump_lines (length datagram) 8 0 datagram ++ nl).
Proof.
  intros Hw Hp Hs Hu Ht Hl.
  destruct (segment_roundtrip_layout seg default_TCPSegment 0 Ht ltac:(lia) Hl) as (bl & c & Hb & Hc & Hlay & Hz & Hr).
  pose proof (wf_doff _ Ht). pose proof (zlen_nonneg (str (_payload seg))).
  destruct (Hr (new_Buffer (bl_concatenate bl))) as (p & Hparse & Hpay); [apply wf_new_Buffer; lia|apply str_new|].
  exists bl. split; [done|]. intros datagram pkt Hh Hlen. eexists. split.
  { unfold pkt. rewrite (show_frame dl_type link h hdr udp datagram) by done. unfold payload_text, datagram.
    rewrite Hparse. cbn [mbind result_bind result_number Z.ltb Z.compare].
    rewrite hexdump_text; [done|intros E; rewrite E in Hz; change (@zlen byte []) with 0 in Hz; lia|].
    unfold pkt in Hlen. rewrite !zlen_app in Hlen. pose proof (zlen_nonneg link). pose proof (zlen_nonneg hdr). unfold datagram in *. lia. }
  cbn zeta. rewrite bool_decide_eq_true_2 by done. pose proof (zlen_nonneg datagram).
  rewrite segment_text_read; [|apply Hw|apply Hw|by apply wf_set_cksum|].
  2: { unfold pkt in Hlen. rewrite !zlen_app in Hlen. pose proof (zlen_nonneg link). pose proof (zlen_nonneg hdr). lia. }
  assert (Hsub : be_value (sub datagram 16 2) = c).
  { unfold datagram. rewrite Hlay. pose proof (zlen_before_cksum (_header seg)) as H16.
    rewrite (bytes_at_sub _ 16 2 (be_bytes 2 c)), be_value_bytes; [by apply Z.mod_small|].
    apply bytes_at_app; [done|by rewrite zlen_be_bytes]. }
  assert (Hseq : length_in_sequence_space {| _header := TCPHeader.set_cksum (_header seg) c; _payload := p |} =
    length_in_sequence_space seg) by (unfold length_in_sequence_space; cbn; by rewrite Hpay).
  assert (0 <= length_in_sequence_space seg < 2 ^ 32).
  { unfold length_in_sequence_space, payload. rewrite u64_small; destruct (TCPHeader.syn _), (TCPHeader.fin _); lia. }
  by rewrite Hsub, Hseq, (u32_small (length_in_sequence_space seg)) by done.
Qed.

(** A wrong checksum hides the segment. When the checksum of the datagram
    does not match, what is shown is not its header but the header of an empty
    segment: ports, flags and numbers are zero whatever was captured. *)
Theorem bad_checksum_shows_nothing dl_type link h hdr udp datagram :
  wf_IPv4Header h -> proto h = 17 -> IPv4Header.serialize h = Ok hdr -> zlen udp = 8 ->
  let pkt := link ++ hdr ++ udp ++ datagram in
  link_header dl_type pkt = Ok (inr (zlen link)) -> zlen pkt < 2 ^ 31 ->
  InternetChecksum.value (InternetChecksum.add (InternetChecksum.new_InternetChecksum 0) datagram) <> 0 ->
  exists dump, show_packet dl_type pkt =
    Ok (Show (segment_text (dotted (src h)) (dotted (dst h)) default_TCPSegment false (zlen datagram) ++ dump)).
Proof.
  intros Hw Hp Hs Hu pkt Hh Hlen Hck. unfold pkt. rewrite (show_frame dl_type link h hdr udp datagram) by done.
  unfold payload_text, TCPSegment.parse. rewrite str_new, (proj2 (Z.eqb_neq _ _)) by done. cbn [negb mbind result_bind].
  destruct (hexdump_total datagram 8) as [dump ->].
  - unfold pkt in Hlen. rewrite !zlen_app in Hlen. pose proof (zlen_nonneg link). pose proof (zlen_nonneg hdr). lia.
  - exists dump. cbn [mbind result_bind result_number Z.ltb Z.compare]. rewrite bool_decide_eq_false_2 by done. done.
Qed.

(** A cut UDP header ends the program. When a capture stops between the
    end of the IPv4 header and the end of the UDP header, the length of the
    payload wraps around, making a string of it throws, and nothing catches
    the exception. *)
Theorem truncated_capture_throws geterr dl_type link h hdr part rest out :
  wf_IPv4Header h -> proto h = 17 -> IPv4Header.serialize h = Ok hdr -> zlen part < 8 ->
  let pkt := link ++ hdr ++ part in
  link_header dl_type pkt = Ok (inr (zlen link)) -> zlen pkt < 2 ^ 31 ->
  capture_loop geterr dl_type (Packet pkt :: rest) out = Raise (length_error "basic_string::_M_create").
Proof.
  intros Hw Hp Hs Hc pkt Hh Hl. destruct (process_udp4 h hdr part Hw Hp Hs) as [Hz Hf].
  pose proof (wf_hlen _ Hw). pose proof (zlen_nonneg link). pose proof (zlen_nonneg part).
  assert (Hlen : zlen pkt = zlen link + 4 * hlen h + zlen part) by (unfold pkt; rewrite !zlen_app; lia).
  cbn [capture_loop]. rewrite (show_packet_found dl_type pkt (zlen link) (4 * hlen h + 8) (dotted (src h)) (dotted (dst h)));
    [|done|done|lia| |lia].
  - by rewrite (proj2 (Z.leb_gt _ _)) by lia.
  - unfold pkt at 2. unfold zlen at 3. rewrite Nat2Z.id, drop_app_length. rewrite <- Hf. f_equal. rewrite !zlen_app in *. lia.
Qed.

(** ** Examples *)

Definition udp_header_of (n : Z) : IPv4Header :=
  {| ver := 4; hlen := 5; tos := 0; len := n; id := 7; df := true; mf := false; offset := 0; ttl := 64;
     proto := 17; IPv4Header.cksum := 0; src := 167772161; dst := 167772162 |}.

Lemma udp_header_wf : wf_IPv4Header (udp_header_of 48).
Proof. constructor; cbn; lia. Qed.

Definition example_header : list byte :=
  Eval vm_compute in match IPv4Header.serialize (udp_header_of 48) with Ok b => b | Throw _ => [] end.

Definition ethernet : list byte := replicate 12 Byte.x02 ++ [Byte.x08; Byte.x00].

Lemma packet_search_safe_witness :
  let pkt := ethernet ++ example_header ++ [Byte.x00; Byte.x35] in
  (exists st, show_packet DLT_EN10MB pkt = Ok st) \/
  (show_packet DLT_EN10MB pkt = Throw (length_error "basic_string::_M_create") /\
   exists hdr_off off src dst, link_header DLT_EN10MB pkt = Ok (inr hdr_off) /\
     process_ipv4_ipv6 (zlen pkt - hdr_off) (drop (Z.to_nat hdr_off) pkt) = Ok (Some (off, src, dst)) /\
     zlen pkt < hdr_off + off).
Proof.
  intros pkt. apply (packet_search_safe DLT_EN10MB pkt); [reflexivity|].
  intros off Hoff. vm_compute in Hoff. injection Hoff as <-. right. vm_compute. discriminate.
Defined.

Definition example_segment : TCPSegment :=
  {| _header := set_ack (set_seqno default_TCPHeader (wrapping_int32 1000)) (wrapping_int32 77) 4096;
     _payload := new_Buffer (txt "hello") |}.

Lemma capture_shows_segment_witness :
  exists text, show_packet DLT_EN10MB (ethernet ++ example_header ++ replicate 8 Byte.x00 ++
      match TCPSegment.serialize example_segment 0 with Ok bl => bl_concatenate bl | Throw _ => [] end) = Ok (Show text) /\
    match read_shown text with
    | Some (sh, _) => from_address sh = 167772161 /\ to_address sh = 167772162 /\ first_seqno sh = 1000 /\
        end_seqno sh = Some 1005 /\ ack_shown sh = 77 /\ win_shown sh = 4096 /\ has_dot (letters sh) = true
    | None => False
    end.
Proof.
  destruct (capture_shows_segment DLT_EN10MB ethernet (udp_header_of 48) example_header (replicate 8 Byte.x00) example_segment)
    as (bl & Hb & Hshow).
  - exact udp_header_wf.
  - reflexivity.
  - reflexivity.
  - reflexivity.
  - constructor; vm_compute; intuition discriminate.
  - vm_compute. discriminate.
  - rewrite Hb. vm_compute in Hb. injection Hb as <-.
    destruct Hshow as (text & H1 & H2); [reflexivity|reflexivity|].
    exists text. split; [exact H1|]. cbn zeta in H2. rewrite H2. vm_compute. split_and!; reflexivity.
Defined.

Lemma bad_checksum_shows_nothing_witness :
  exists dump, show_packet DLT_RAW (example_header ++ replicate 8 Byte.x00 ++ txt "not a TCP segment") =
    Ok (Show (segment_text (txt "10.0.0.1") (txt "10.0.0.2") default_TCPSegment false 17 ++ dump)).
Proof.
  apply (bad_checksum_shows_nothing DLT_RAW [] (udp_header_of 48) example_header (replicate 8 Byte.x00) (txt "not a TCP segment")).
  - exact udp_header_wf.
  - reflexivity.
  - reflexivity.
  - reflexivity.
  - reflexivity.
  - reflexivity.
  - vm_compute. discriminate.
Defined.

Lemma truncated_capture_throws_witness :
  capture_loop [] DLT_RAW [Packet (example_header ++ [Byte.x00; Byte.x35])] [] = Raise (length_error "basic_string::_M_create").
Proof.
  apply (truncated_capture_throws [] DLT_RAW [] (udp_header_of 48) example_header [Byte.x00; Byte.x35] [] []);
    [exact udp_header_wf|reflexivity|reflexivity|reflexivity|reflexivity|reflexivity].
Defined.

(** A capture of one byte is read at its tenth. *)
Example short_packet : show_packet DLT_RAW [Byte.x40] = Throw (undefined "packet").
Proof. done. Qed.

(** The text for a segment of one byte. *)
Example shown_syn :
  let seg := {| _header := set_seqno default_TCPHeader (wrapping_int32 5); _payload := new_Buffer [Byte.x21] |} in
  segment_text (txt "10.0.0.1") (txt "10.0.0.2") seg true 21 =
    txt "10.0.0.1:0 > 10.0.0.2:0" ++ nl ++ txt "    Flags [] cksum 0x0000 (correct) seq 5:6 ack 0 win 0 length 21" ++ nl.
Proof. done. Qed.
