(* ===== verification/FileDescriptor.v ===== *)
(** * File descriptors

    Models [SystemCall] of [src/libsponge/util/util.cc] and class
    [FileDescriptor] of [util/file_descriptor.hh] and [.cc]. The object that the
    copies of a [FileDescriptor] share, [FDWrapper], is a record; the counted
    handles to it are in [FileHandle]. System calls are a parameter: functions on a state
    of the kernel that return the value of the call, [errno] and the new state. *)

From S2P Require Import Prelude Buffer.

(** ** System calls *)

(** The second argument is an [int]; a [ssize_t] is converted on the way in. *)
Definition SystemCall (attempt : string) (return_value errno errno_mask : Z) : result Z :=
  if (0 <=? s32 return_value) || (errno =? errno_mask) then Ok (s32 return_value)
  else Throw (unix_error attempt errno).

(** The calls that a [FileDescriptor] makes. [sys_read] also yields the bytes it
    stored; [sys_writev] gets base and length of each piece. *)
Class Kernel (K : Type) := {
  sys_read : K -> Z -> Z -> Z * Z * list byte * K;
  sys_writev : K -> Z -> list (list byte * Z) -> Z * Z * K;
  sys_close : K -> Z -> Z * Z * K;
  sys_getfl : K -> Z -> Z * Z * K;
  sys_setfl : K -> Z -> Z -> Z * Z * K
}.

(** The bytes still to come from a descriptor and the bytes written to it. *)
Class Streams (K : Type) := {
  input : K -> Z -> list byte;
  written : K -> Z -> list byte
}.

(** Nothing has happened to a descriptor. *)
Definition untouched {K} `{Streams K} (fd : Z) (k k' : K) : Prop :=
  input k' fd = input k fd /\ written k' fd = written k fd.

(** What [read(2)] and [writev(2)] document: the value is negative, with a
    non-zero [errno], or a number of bytes no larger than what was asked for (and
    than an [int]); [read] takes that many bytes from the front of what is to
    come; [writev] appends that many, from the front of the pieces, to what was
    written; other descriptors are left alone. [close(2)] and [fcntl(2)] touch no
    stream. *)
Class KernelLaws (K : Type) `{Kernel K} `{Streams K} := {
  read_law : forall k fd size r e data k', 0 <= size ->
    sys_read k fd size = (r, e, data, k') ->
    -2 ^ 31 <= r < 2 ^ 31 /\ (r < 0 -> e <> 0) /\
    (0 <= r -> r <= size /\ zlen data = r /\ input k fd = data ++ input k' fd /\
      written k' fd = written k fd);
  writev_law : forall k fd iov r e k',
    sys_writev k fd iov = (r, e, k') ->
    -2 ^ 31 <= r < 2 ^ 31 /\ (r < 0 -> e <> 0) /\
    (0 <= r -> r <= zlen (concat (map fst iov)) /\ input k' fd = input k fd /\
      written k' fd = written k fd ++ take (Z.to_nat r) (concat (map fst iov)));
  read_others : forall k fd size r e data k' fd',
    sys_read k fd size = (r, e, data, k') -> fd' <> fd -> untouched fd' k k';
  writev_others : forall k fd iov r e k' fd',
    sys_writev k fd iov = (r, e, k') -> fd' <> fd -> untouched fd' k k';
  close_law : forall k fd r e k' f, sys_close k fd = (r, e, k') ->
    -2 ^ 31 <= r < 2 ^ 31 /\ (r < 0 -> e <> 0) /\ untouched f k k';
  getfl_law : forall k fd r e k' f, sys_getfl k fd = (r, e, k') ->
    -2 ^ 31 <= r < 2 ^ 31 /\ (r < 0 -> e <> 0) /\ untouched f k k';
  setfl_law : forall k fd flags r e k' f, sys_setfl k fd flags = (r, e, k') ->
    -2 ^ 31 <= r < 2 ^ 31 /\ (r < 0 -> e <> 0) /\ untouched f k k'
}.

(** ** The shared object *)

Record FDWrapper := {
  _fd : Z;
  _eof : bool;
  _closed : bool;
  _read_count : Z;
  _write_count : Z
}.

Definition new_FDWrapper (fd : Z) : result FDWrapper :=
  if fd <? 0 then Throw (runtime_error "invalid fd number:")
  else Ok {| _fd := fd; _eof := false; _closed := false; _read_count := 0; _write_count := 0 |}.

Definition register_read (w : FDWrapper) : FDWrapper :=
  {| _fd := _fd w; _eof := _eof w; _closed := _closed w;
     _read_count := u32 (_read_count w + 1); _write_count := _write_count w |}.
Definition register_write (w : FDWrapper) : FDWrapper :=
  {| _fd := _fd w; _eof := _eof w; _closed := _closed w;
     _read_count := _read_count w; _write_count := u32 (_write_count w + 1) |}.
Definition set_eof (w : FDWrapper) : FDWrapper :=
  {| _fd := _fd w; _eof := true; _closed := _closed w;
     _read_count := _read_count w; _write_count := _write_count w |}.

(** Bytes stored at the front of a buffer. *)
Definition overwrite (s data : list byte) : list byte := data ++ drop (length data) s.

Definition BUFFER_SIZE : Z := 1024 * 1024.

Definition O_NONBLOCK : Z := 2 ^ 11.

Section operations.
Context {K : Type} `{Kernel K}.

Definition close (w : FDWrapper) (k : K) : result (FDWrapper * K) :=
  let '(ret, errno, k) := sys_close k (_fd w) in
  _ ← SystemCall "close" ret errno 0;
  Ok ({| _fd := _fd w; _eof := true; _closed := true; _read_count := _read_count w;
         _write_count := _write_count w |}, k).

(** The destructor of the shared object; it reports an exception on the error
    stream and returns. *)
Definition destroy (w : FDWrapper) (k : K) : K :=
  if _closed w then k else (sys_close k (_fd w)).2.

Definition read (w : FDWrapper) (k : K) (limit : Z) : result (list byte * FDWrapper * K) :=
  let size_to_read := Z.min BUFFER_SIZE limit in
  let str := resize [] size_to_read in
  let '(ret, errno, data, k) := sys_read k (_fd w) size_to_read in
  bytes_read ← SystemCall "read" ret errno 0;
  let w := if (0 <? limit) && (bytes_read =? 0) then set_eof w else w in
  if s64 size_to_read <? bytes_read then Throw (runtime_error "read() read more than requested")
  else Ok (resize (overwrite str data) (u64 bytes_read), register_read w, k).

(** The loop of [write]. *)
Fixpoint write_loop (fuel : nat) (w : FDWrapper) (k : K) (buffer : BufferViewList)
    (write_all : bool) (total_bytes_written : Z) : result (Z * FDWrapper * K) :=
  match fuel with
  | O => Throw (undefined "write: out of fuel")
  | S fuel =>
      let '(ret, errno, k) := sys_writev k (_fd w) (as_iovecs buffer) in
      bytes_written ← SystemCall "writev" ret errno 0;
      if (bytes_written =? 0) && negb (bvl_size buffer =? 0)
      then Throw (runtime_error "write returned 0 given non-empty input buffer")
      else if s64 (bvl_size buffer) <? bytes_written
      then Throw (runtime_error "write wrote more than length of input buffer")
      else
        let w := register_write w in
        buffer ← bvl_remove_prefix buffer (u64 bytes_written);
        let total := u64 (total_bytes_written + bytes_written) in
        if write_all && negb (bvl_size buffer =? 0)
        then write_loop fuel w k buffer write_all total
        else Ok (total, w, k)
  end.

Definition write (w : FDWrapper) (k : K) (buffer : BufferViewList) (write_all : bool)
    : result (Z * FDWrapper * K) :=
  write_loop (S (Z.to_nat (bvl_size buffer))) w k buffer write_all 0.

Definition set_blocking (w : FDWrapper) (k : K) (blocking_state : bool) : result K :=
  let '(ret, errno, k) := sys_getfl k (_fd w) in
  flags ← SystemCall "fcntl" ret errno 0;
  let flags := if blocking_state then Z.lxor flags (Z.land flags O_NONBLOCK)
               else Z.lor flags O_NONBLOCK in
  let '(ret, errno, k) := sys_setfl k (_fd w) flags in
  _ ← SystemCall "fcntl" ret errno 0;
  Ok k.

End operations.

(** ** Lemmas *)

Lemma bvl_size_acc (l : BufferViewList) acc :
  0 <= acc -> acc + zlen (concat l) < 2 ^ 64 ->
  fold_left (fun ret v => u64 (ret + zlen v)) l acc = acc + zlen (concat l).
Proof.
  revert acc. induction l as [|v l IH]; intros acc Ha Hb; simpl in *.
  - rewrite (@zlen_nil byte). lia.
  - rewrite zlen_app in *. pose proof (zlen_nonneg v). pose proof (zlen_nonneg (concat l)).
    rewrite u64_small by lia. rewrite IH; lia.
Qed.

Lemma bvl_size_concat (l : BufferViewList) : zlen (concat l) < 2 ^ 64 -> bvl_size l = zlen (concat l).
Proof. intros. unfold bvl_size. rewrite bvl_size_acc; lia. Qed.

Lemma as_iovecs_concat (l : BufferViewList) : concat (map fst (as_iovecs l)) = concat l.
Proof. unfold as_iovecs. by rewrite map_map, map_id. Qed.

(** A call succeeds with a non-negative value or throws with its [errno]. *)
Lemma SystemCall_spec attempt r e :
  -2 ^ 31 <= r < 2 ^ 31 -> (r < 0 -> e <> 0) ->
  (0 <= r /\ SystemCall attempt r e 0 = Ok r) \/
  (r < 0 /\ SystemCall attempt r e 0 = Throw (unix_error attempt e)).
Proof.
  intros Hr He. unfold SystemCall. rewrite s32_small by done.
  destruct (Z.leb_spec 0 r) as [|Hn]; [by left|]. right. split; [done|].
  specialize (He Hn). by destruct (Z.eqb_spec e 0).
Qed.

(** The counters wrap, but one step always changes them. *)
Lemma read_count_changes w : _read_count (register_read w) <> _read_count w.
Proof. cbn. word. Qed.

(** A counter that has moved once or twice has changed. *)
Lemma count_next x y : y = u32 (x + 1) \/ y = u32 (u32 (x + 1) + 1) -> y <> x.
Proof. intros [->| ->]; word. Qed.

(** What a call of [write] may throw. *)
Definition write_error (e : exn) : Prop :=
  (exists c, e = unix_error "writev" c) \/
  e = runtime_error "write returned 0 given non-empty input buffer".

(** What changes in the shared object: the counters, and the end of file flag. *)
Definition same_fd (w w' : FDWrapper) : Prop := _fd w' = _fd w /\ _closed w' = _closed w.

Section properties.
Context {K : Type} `{KernelLaws K}.

Lemma untouched_trans fd (k1 k2 k3 : K) :
  untouched fd k1 k2 -> untouched fd k2 k3 -> untouched fd k1 k3.
Proof. unfold untouched. intuition congruence. Qed.

(** One round of the loop. *)
Lemma write_round fuel w k buffer write_all total :
  zlen (concat buffer) < 2 ^ 63 ->
  (exists e, write_loop (S fuel) w k buffer write_all total = Throw e /\ write_error e) \/
  exists n k' buffer', 0 <= n <= zlen (concat buffer) /\ (n = 0 -> concat buffer = []) /\
    written k' (_fd w) = written k (_fd w) ++ take (Z.to_nat n) (concat buffer) /\
    input k' (_fd w) = input k (_fd w) /\ (forall f, f <> _fd w -> untouched f k k') /\
    concat buffer' = drop (Z.to_nat n) (concat buffer) /\
    write_loop (S fuel) w k buffer write_all total =
      if write_all && negb (zlen (concat buffer') =? 0)
      then write_loop fuel (register_write w) k' buffer' write_all (u64 (total + n))
      else Ok (u64 (total + n), register_write w, k').
Proof.
  intros Hlen. cbn [write_loop]. destruct (sys_writev _ _ _) as [[r e] k'] eqn:Ew.
  destruct (writev_law _ _ _ _ _ _ Ew) as (Hr & He & Hok). rewrite as_iovecs_concat in Hok.
  pose proof (zlen_nonneg (concat buffer)).
  destruct (SystemCall_spec "writev" r e Hr He) as [[Hn ->]|[_ ->]]; [|left; eexists; split; [done|left; eauto]].
  destruct (Hok Hn) as (Hle & Hi & Hw). cbn [mbind result_bind]. rewrite bvl_size_concat by lia. rewrite s64_small by lia.
  destruct ((r =? 0) && negb (zlen (concat buffer) =? 0)) eqn:Ez;
    [left; eexists; split; [done|by right]|].
  destruct (Z.ltb_spec (zlen (concat buffer)) r); [lia|]. rewrite (u64_small r) by lia.
  pose proof (bvl_remove_prefix_lem buffer r ltac:(lia)) as Hrem.
  destruct (Z.leb_spec r (zlen (concat buffer))); [|lia]. destruct Hrem as (buffer' & -> & Hc). cbn [mbind result_bind].
  right. exists r, k', buffer'. rewrite bvl_size_concat by (rewrite Hc, zlen_drop; lia).
  split; [done|]. split.
  2: { split_and!; try done. intros f Hf. by apply (writev_others _ _ _ _ _ _ _ Ew). }
  intros ->. apply zlen_zero.
  destruct (Z.eqb_spec (zlen (concat buffer)) 0); [done|]. done.
Qed.

Lemma write_loop_spec fuel w k buffer write_all total :
  (Z.to_nat (zlen (concat buffer)) < fuel)%nat -> 0 <= total ->
  total + zlen (concat buffer) < 2 ^ 63 ->
  (exists e, write_loop fuel w k buffer write_all total = Throw e /\ write_error e) \/
  exists n w' k', write_loop fuel w k buffer write_all total = Ok (total + n, w', k') /\
    0 <= n <= zlen (concat buffer) /\ (write_all = true -> n = zlen (concat buffer)) /\
    written k' (_fd w) = written k (_fd w) ++ take (Z.to_nat n) (concat buffer) /\
    input k' (_fd w) = input k (_fd w) /\ (forall f, f <> _fd w -> untouched f k k') /\
    same_fd w w' /\ _eof w' = _eof w /\ _read_count w' = _read_count w /\
    (write_all = false -> w' = register_write w).
Proof.
  revert w k buffer total. induction fuel as [|fuel IH]; intros w k buffer total Hf Ht Hlen; [lia|].
  destruct (write_round fuel w k buffer write_all total) as [?|(n & k1 & b1 & Hn & Hz & Hw & Hi & Hu & Hc & ->)];
    [lia|by left|]. rewrite u64_small by lia. pose proof (zlen_drop (Z.to_nat n) (concat buffer)) as Hd.
  rewrite <- Hc in Hd. destruct (write_all && negb (zlen (concat b1) =? 0)) eqn:Ec.
  - apply andb_prop in Ec as [-> Hne]. destruct (Z.eqb_spec (zlen (concat b1)) 0); [done|].
    assert (n <> 0) by (intros ->; rewrite (Hz eq_refl) in Hn, Hd; rewrite (@zlen_nil byte) in *; lia).
    destruct (IH (register_write w) k1 b1 (total + n)) as [?|(m & w' & k' & -> & Hm & Hall & Hw' & Hi' & Hu' & Hs & He & Hr & _)];
      [lia|lia|lia|by left|]. right. exists (n + m), w', k'. specialize (Hall eq_refl).
    split; [do 3 f_equal; lia|]. split; [lia|]. split; [lia|].
    cbn [_fd register_write] in Hw', Hi', Hu'. split_and!; try done; [|congruence|by eauto using untouched_trans]. rewrite Hw', Hw, <- app_assoc, Hc. f_equal.
    rewrite (take_ge (drop _ _)) by (rewrite <- Hc; unfold zlen in *; lia).
    rewrite take_drop. symmetry. apply take_ge. unfold zlen in *. lia.
  - right. exists n, (register_write w), k1. split_and!; try done; try lia.
    intros ->. cbn in Ec. destruct (Z.eqb_spec (zlen (concat b1)) 0); [lia|done].
Qed.

(** C26: Writing to a descriptor. The loop of [write] ends, whatever the kernel
    accepts in each call: with [write_all] every byte has then reached the
    descriptor, in order and once; without it, the number returned says how
    many. The only exceptions are a failing system call and one that accepts
    nothing. *)
Theorem write_complete w k buffer write_all :
  zlen (concat buffer) < 2 ^ 63 ->
  (exists e, write w k buffer write_all = Throw e /\ write_error e) \/
  exists n w' k', write w k buffer write_all = Ok (n, w', k') /\
    0 <= n <= zlen (concat buffer) /\ (write_all = true -> n = zlen (concat buffer)) /\
    written k' (_fd w) = written k (_fd w) ++ take (Z.to_nat n) (concat buffer).
Proof.
  intros Hlen. unfold write. pose proof (zlen_nonneg (concat buffer)). rewrite bvl_size_concat by lia.
  destruct (write_loop_spec (S (Z.to_nat (zlen (concat buffer)))) w k buffer write_all 0)
    as [?|(n & w' & k' & -> & Hn & Ha & Hw & _)]; [lia|lia|lia|by left|right; eauto 10].
Qed.

(** A single system call is made without [write_all]. *)
Lemma write_once w k buffer :
  zlen (concat buffer) < 2 ^ 63 ->
  (exists e, write w k buffer false = Throw e /\ write_error e) \/
  exists n k', write w k buffer false = Ok (n, register_write w, k') /\
    0 <= n <= zlen (concat buffer) /\
    written k' (_fd w) = written k (_fd w) ++ take (Z.to_nat n) (concat buffer) /\
    input k' (_fd w) = input k (_fd w) /\ (forall f, f <> _fd w -> untouched f k k').
Proof.
  intros Hlen. unfold write. pose proof (zlen_nonneg (concat buffer)). rewrite bvl_size_concat by lia.
  destruct (write_loop_spec (S (Z.to_nat (zlen (concat buffer)))) w k buffer false 0)
    as [?|(n & w' & k' & -> & Hn & Ha & Hw & Hi & Hu & _ & _ & _ & ->)]; [lia|lia|lia|by left| |done].
  right. eauto 10.
Qed.

Lemma resize_overwrite s data :
  resize (overwrite s data) (zlen data) = data.
Proof.
  unfold resize, overwrite, zlen. rewrite Nat2Z.id, take_app_length.
  replace (length data - _)%nat with 0%nat by (rewrite length_app; lia). apply app_nil_r.
Qed.

(** [read] yields the bytes of the call, at most a mebibyte of them, counts it,
    and sets the end of file flag when something was asked for and nothing
    came; the only exception is a failing system call. *)
Lemma fd_read_spec w k limit :
  0 <= limit < 2 ^ 64 ->
  (exists c, read w k limit = Throw (unix_error "read" c)) \/
  exists data w' k', read w k limit = Ok (data, register_read w', k') /\
    zlen data <= Z.min BUFFER_SIZE limit /\
    input k (_fd w) = data ++ input k' (_fd w) /\ written k' (_fd w) = written k (_fd w) /\
    (forall f, f <> _fd w -> untouched f k k') /\
    w' = if (0 <? limit) && (zlen data =? 0) then set_eof w else w.
Proof.
  intros Hl. unfold read. set (size := Z.min BUFFER_SIZE limit).
  assert (Hsz : 0 <= size <= 2 ^ 20) by (subst size; unfold BUFFER_SIZE; lia).
  destruct (sys_read k (_fd w) size) as [[[r e] data] k'] eqn:Er.
  destruct (read_law _ _ _ _ _ _ _ (proj1 Hsz) Er) as (Hr & He & Hok).
  destruct (SystemCall_spec "read" r e Hr He) as [[Hn ->]|[_ ->]]; [|left; by eexists].
  destruct (Hok Hn) as (Hle & Hd & Hi & Hw). cbn [mbind result_bind]. rewrite s64_small by lia.
  destruct (Z.ltb_spec size r); [lia|]. right. exists data. eexists _, k'.
  rewrite u64_small by lia. rewrite <- Hd, resize_overwrite. split; [reflexivity|]. split; [lia|].
  split_and!; try done. intros f Hf. by apply (read_others _ _ _ _ _ _ _ _ Er).
Qed.

Lemma close_spec w (k : K) :
  (exists c, close w k = Throw (unix_error "close" c)) \/
  exists w' k', close w k = Ok (w', k') /\ _fd w' = _fd w /\ _write_count w' = _write_count w /\
    (forall f, untouched f k k').
Proof.
  unfold close. destruct (sys_close k (_fd w)) as [[r e] k'] eqn:Ec.
  destruct (close_law _ _ _ _ _ 0 Ec) as (Hr & He & _).
  destruct (SystemCall_spec "close" r e Hr He) as [[Hn ->]|[_ ->]]; [right|left; by eexists].
  eexists _, k'. cbn. split_and!; try done. intros f. by apply (close_law _ _ _ _ _ f Ec).
Qed.

Lemma set_blocking_spec w (k : K) b :
  (exists c, set_blocking w k b = Throw (unix_error "fcntl" c)) \/
  exists k', set_blocking w k b = Ok k' /\ (forall f, untouched f k k').
Proof.
  unfold set_blocking. destruct (sys_getfl k (_fd w)) as [[r e] k1] eqn:Eg.
  destruct (getfl_law _ _ _ _ _ 0 Eg) as (Hr & He & _).
  destruct (SystemCall_spec "fcntl" r e Hr He) as [[Hn ->]|[_ ->]]; [|left; by eexists]. cbn [mbind result_bind].
  destruct (sys_setfl k1 _ _) as [[r2 e2] k2] eqn:Es. destruct (setfl_law _ _ _ _ _ _ 0 Es) as (Hr2 & He2 & _).
  destruct (SystemCall_spec "fcntl" r2 e2 Hr2 He2) as [[Hn2 ->]|[_ ->]]; [|left; by eexists].
  right. eexists. split; [done|]. intros f. eapply untouched_trans; [by apply (getfl_law _ _ _ _ _ f Eg)|].
  by apply (setfl_law _ _ _ _ _ _ f Es).
Qed.
End properties.

(** ** An example kernel

    Of each descriptor, what is still to come and what was written. A call
    moves at most two bytes. *)
Abbreviation example_files := (gmap Z (list byte * list byte)).

Definition file (k : example_files) (fd : Z) : list byte * list byte := default ([], []) (k !! fd).

#[export] Instance example_kernel : Kernel example_files := {
  sys_read := fun k fd size =>
    let data := take (Z.to_nat (Z.min 2 size)) (file k fd).1 in
    (zlen data, 0, data, <[fd := (drop (length data) (file k fd).1, (file k fd).2)]> k);
  sys_writev := fun k fd iov =>
    let data := take 2 (concat (map fst iov)) in
    (zlen data, 0, <[fd := ((file k fd).1, (file k fd).2 ++ data)]> k);
  sys_close := fun k _ => (0, 0, k);
  sys_getfl := fun k _ => (0, 0, k);
  sys_setfl := fun k _ _ => (0, 0, k)
}.

#[export] Instance example_streams : Streams example_files := {
  input := fun k fd => (file k fd).1;
  written := fun k fd => (file k fd).2
}.

Lemma file_insert k fd x : file (<[fd := x]> k) fd = x.
Proof. unfold file. by rewrite lookup_insert_eq. Qed.
Lemma file_insert_ne k fd fd' x : fd' <> fd -> file (<[fd := x]> k) fd' = file k fd'.
Proof. intros. unfold file. by rewrite lookup_insert_ne. Qed.

#[export] Instance example_kernel_laws : KernelLaws example_files.
Proof.
  split; unfold untouched; cbn;
    [intros k fd size r e data k' Hs|intros k fd iov r e k'|intros k fd size r e data k' fd'
    |intros k fd iov r e k' fd'|intros k fd r e k' f [= <- <- <-]; by split_and!; lia || done
    |intros k fd r e k' f [= <- <- <-]; by split_and!; lia || done
    |intros k fd flags r e k' f [= <- <- <-]; by split_and!; lia || done].
  - intros [= <- <- <- <-]. rewrite file_insert. cbn [fst snd].
    pose proof (zlen_nonneg (file k fd).1). rewrite zlen_take.
    split; [lia|]. split; [lia|]. intros _. split; [lia|]. split; [done|]. split; [|done].
    rewrite length_take, <- (take_drop (Z.to_nat (Z.min 2 size)) (file k fd).1) at 1. f_equal.
    destruct (decide (Z.to_nat (Z.min 2 size) <= length (file k fd).1)%nat); [f_equal; lia|].
    rewrite !drop_ge by lia. done.
  - intros [= <- <- <-]. rewrite file_insert. cbn [fst snd].
    pose proof (zlen_nonneg (concat (map fst iov))). rewrite zlen_take.
    split; [lia|]. split; [lia|]. intros _. split; [lia|]. split; [done|]. f_equal.
    destruct (decide (2 <= zlen (concat (map fst iov)))); [by replace (Z.to_nat _) with 2%nat by lia|].
    rewrite !take_ge; [done|unfold zlen in *; lia..].
  - intros [= _ _ _ <-] Hne. by rewrite !file_insert_ne.
  - intros [= _ _ <-] Hne. by rewrite !file_insert_ne.
Qed.

(** Five bytes in two pieces need three calls. *)
Lemma write_complete_witness :
  let w := {| _fd := 1; _eof := false; _closed := false; _read_count := 0; _write_count := 0 |} in
  let buffer := [[Byte.x61; Byte.x62; Byte.x63]; [Byte.x64; Byte.x65]] in
  exists w' k', write w (∅ : example_files) buffer true = Ok (5, w', k') /\
    written k' 1 = concat buffer /\ _write_count w' = 3.
Proof.
  intros w buffer. destruct (write_complete w (∅ : example_files) buffer true)
    as [(e & He & _)|(n & w' & k' & He & Hn & Ha & Hw)].
  - vm_compute. reflexivity.
  - exfalso. revert He. vm_compute. discriminate.
  - assert (E : n = 5) by (apply Ha; reflexivity). subst n.
    exists w', k'. split; [exact He|]. split; [exact Hw|].
    revert He. vm_compute. intros [= <- _]. reflexivity.
Defined.
