(* ===== verification/FileHandle.v ===== *)
(** * Handles to descriptors

    A [FileDescriptor] ([src/libsponge/util/file_descriptor.hh] and [.cc]) is a
    counted reference to an [FDWrapper]: [duplicate] makes another one, a
    handle that goes out of scope drops one, and the last one destroys the
    wrapper, which closes the descriptor unless it was closed before. *)

From S2P Require Import Prelude Buffer FileDescriptor.

(** ** Handles *)

(** The shared objects with their reference counts. A handle is the place of
    its object; one that was moved from refers to nothing. *)
Abbreviation heap := (gmap positive (FDWrapper * nat)).

Definition handle : Type := option positive.

Section handles.
Context {K : Type} `{Kernel K}.

(** [make_shared<FDWrapper>(fd)] *)
Definition new_FileDescriptor (h : heap) (fd : Z) : result (handle * heap) :=
  w ← new_FDWrapper fd;
  let l := fresh (dom h) in
  Ok (Some l, <[l := (w, 1%nat)]> h).

(** The object of a handle; using an empty handle is undefined. *)
Definition deref (h : heap) (x : handle) : result (positive * FDWrapper * nat) :=
  match x with
  | Some l => match h !! l with Some (w, n) => Ok (l, w, n) | None => Throw (undefined "_internal_fd") end
  | None => Throw (undefined "_internal_fd")
  end.

Definition duplicate (h : heap) (x : handle) : result (handle * heap) :=
  '(l, w, n) ← deref h x; Ok (x, <[l := (w, S n)]> h).

(** The destructor of a handle. *)
Definition release (h : heap) (k : K) (x : handle) : heap * K :=
  match x with
  | Some l =>
      match h !! l with
      | Some (w, S (S n)) => (<[l := (w, S n)]> h, k)
      | Some (w, _) => (delete l h, destroy w k)
      | None => (h, k)
      end
  | None => (h, k)
  end.

(** [close()]: the shared object is closed for every handle. *)
Definition handle_close (h : heap) (k : K) (x : handle) : result (heap * K) :=
  '(l, w, n) ← deref h x;
  '(w, k) ← close w k;
  Ok (<[l := (w, n)]> h, k).

(** [read(limit)] and [write(buffer, write_all)] on the shared object. *)
Definition handle_read (h : heap) (k : K) (x : handle) (limit : Z) : result (list byte * heap * K) :=
  '(l, w, n) ← deref h x;
  '(data, w, k) ← read w k limit;
  Ok (data, <[l := (w, n)]> h, k).

Definition handle_write (h : heap) (k : K) (x : handle) (buffer : BufferViewList) (write_all : bool)
    : result (Z * heap * K) :=
  '(l, w, n) ← deref h x;
  '(m, w, k) ← write w k buffer write_all;
  Ok (m, <[l := (w, n)]> h, k).

(** The accessors. *)
Definition fd_num (h : heap) (x : handle) : result Z := '(_, w, _) ← deref h x; Ok (_fd w).
Definition handle_eof (h : heap) (x : handle) : result bool := '(_, w, _) ← deref h x; Ok (_eof w).
Definition handle_closed (h : heap) (x : handle) : result bool := '(_, w, _) ← deref h x; Ok (_closed w).
Definition read_count (h : heap) (x : handle) : result Z := '(_, w, _) ← deref h x; Ok (_read_count w).
Definition write_count (h : heap) (x : handle) : result Z := '(_, w, _) ← deref h x; Ok (_write_count w).

(** ** Using one descriptor

    What the owners of the handles to one object do: they duplicate and drop
    handles, close the object, and read and write through it; each call may
    return or throw. A [close()] or [read] that throws has called the kernel and
    left the object alone; a [write] that throws has called [writev] any number
    of times, and the object has counted some of these calls. The counters say
    how often [close()] has returned, and how often it has thrown. *)
Record usage := { handles : list handle; uheap : heap; ukernel : K; closes : nat; failed : nat }.

Inductive writev_call : FDWrapper * K -> FDWrapper * K -> Prop :=
| writev_uncounted w k iov r e k' : sys_writev k (_fd w) iov = (r, e, k') -> writev_call (w, k) (w, k')
| writev_counted w k iov r e k' : sys_writev k (_fd w) iov = (r, e, k') -> writev_call (w, k) (register_write w, k').

Inductive use : usage -> usage -> Prop :=
| use_duplicate u x y h : x ∈ handles u -> duplicate (uheap u) x = Ok (y, h) ->
    use u {| handles := y :: handles u; uheap := h; ukernel := ukernel u; closes := closes u; failed := failed u |}
| use_release u x l1 l2 h k : handles u = l1 ++ x :: l2 -> release (uheap u) (ukernel u) x = (h, k) ->
    use u {| handles := l1 ++ l2; uheap := h; ukernel := k; closes := closes u; failed := failed u |}
| use_close u x h k : x ∈ handles u -> handle_close (uheap u) (ukernel u) x = Ok (h, k) ->
    use u {| handles := handles u; uheap := h; ukernel := k; closes := S (closes u); failed := failed u |}
| use_close_throws u x l w n ex r e k : x ∈ handles u -> handle_close (uheap u) (ukernel u) x = Throw ex ->
    deref (uheap u) x = Ok (l, w, n) -> sys_close (ukernel u) (_fd w) = (r, e, k) ->
    use u {| handles := handles u; uheap := uheap u; ukernel := k; closes := closes u; failed := S (failed u) |}
| use_read u x n data h k : x ∈ handles u -> handle_read (uheap u) (ukernel u) x n = Ok (data, h, k) ->
    use u {| handles := handles u; uheap := h; ukernel := k; closes := closes u; failed := failed u |}
| use_read_throws u x l w c n ex m r e data k : x ∈ handles u -> handle_read (uheap u) (ukernel u) x n = Throw ex ->
    deref (uheap u) x = Ok (l, w, c) -> sys_read (ukernel u) (_fd w) m = (r, e, data, k) ->
    use u {| handles := handles u; uheap := uheap u; ukernel := k; closes := closes u; failed := failed u |}
| use_write u x b all n h k : x ∈ handles u -> handle_write (uheap u) (ukernel u) x b all = Ok (n, h, k) ->
    use u {| handles := handles u; uheap := h; ukernel := k; closes := closes u; failed := failed u |}
| use_write_throws u x l w c b all ex w' k : x ∈ handles u -> handle_write (uheap u) (ukernel u) x b all = Throw ex ->
    deref (uheap u) x = Ok (l, w, c) -> rtc writev_call (w, ukernel u) (w', k) ->
    use u {| handles := handles u; uheap := <[l := (w', c)]> (uheap u); ukernel := k;
             closes := closes u; failed := failed u |}.

End handles.
Arguments usage : clear implicits.

(** The number of times [close(2)] was called for a descriptor. *)
Class CloseCount (K : Type) `{Kernel K} := {
  closed_count : K -> Z -> nat;
  close_counts : forall k fd r e k', sys_close k fd = (r, e, k') -> closed_count k' fd = S (closed_count k fd);
  read_counts : forall k fd n r e data k' f, sys_read k fd n = (r, e, data, k') -> closed_count k' f = closed_count k f;
  writev_counts : forall k fd iov r e k' f, sys_writev k fd iov = (r, e, k') -> closed_count k' f = closed_count k f
}.

Section properties.
Context {K : Type} `{CloseCount K}.

(** What reading and writing leave alone. *)
Definition kept (fd : Z) (w : FDWrapper) (k : K) (w' : FDWrapper) (k' : K) : Prop :=
  _fd w' = _fd w /\ _closed w' = _closed w /\ closed_count k' fd = closed_count k fd.

Lemma read_keeps fd w k n data w' k' : read w k n = Ok (data, w', k') -> kept fd w k w' k'.
Proof.
  unfold read. destruct (sys_read _ _ _) as [[[r e] d] k1] eqn:E. destruct (SystemCall _ _ _ _) as [m|]; [|done].
  cbn [mbind result_bind]. destruct (_ <? m); [done|]. intros [= _ <- <-].
  split; [|split]; [by destruct (_ && _)..|]. by apply (read_counts _ _ _ _ _ _ _ fd E).
Qed.

Lemma write_loop_keeps fd fuel w k b all t n w' k' :
  write_loop fuel w k b all t = Ok (n, w', k') -> kept fd w k w' k'.
Proof.
  revert w k b t. induction fuel as [|fuel IH]; intros w k b t; cbn [write_loop]; [done|].
  destruct (sys_writev _ _ _) as [[r e] k1] eqn:E. destruct (SystemCall _ _ _ _) as [m|]; [|done]. cbn [mbind result_bind].
  destruct (_ && _); [done|]. destruct (_ <? m); [done|]. destruct (bvl_remove_prefix _ _) as [b'|]; [|done].
  cbn [mbind result_bind]. pose proof (writev_counts _ _ _ _ _ _ fd E) as Hc. destruct (_ && _).
  - intros (H1 & H2 & H3)%IH. unfold kept. rewrite H1, H2, H3, Hc. done.
  - by intros [= _ <- <-].
Qed.

Context (l : positive) (fd : Z) (c0 : nat).

(** All handles refer to the object, which counts them; [close(2)] was called
    once for every [close()], and at the end once more if none has returned. *)
Definition tracked (u : usage K) : Prop :=
  Forall (eq (Some l)) (handles u) /\
  match handles u with
  | [] => uheap u !! l = None /\ closed_count (ukernel u) fd = (c0 + Nat.max 1 (closes u) + failed u)%nat
  | _ => exists w, uheap u !! l = Some (w, length (handles u)) /\ _fd w = fd /\
           _closed w = negb (closes u =? 0)%nat /\ closed_count (ukernel u) fd = (c0 + closes u + failed u)%nat
  end.

(** A live handle leads to the object. *)
Lemma tracked_live u x :
  tracked u -> x ∈ handles u ->
  x = Some l /\ handles u <> [] /\
  exists w, uheap u !! l = Some (w, length (handles u)) /\ _fd w = fd /\
    _closed w = negb (closes u =? 0)%nat /\ closed_count (ukernel u) fd = (c0 + closes u + failed u)%nat /\
    deref (uheap u) x = Ok (l, w, length (handles u)).
Proof.
  intros [Ha Ht] Hx. pose proof (proj1 (Forall_forall _ _) Ha x Hx) as <-. split; [done|].
  destruct (handles u) as [|y ys] eqn:E; [by apply not_elem_of_nil in Hx|]. split; [done|].
  destruct Ht as (w & Hl & Hf & Hc & Hn). exists w. cbn [deref]. rewrite Hl. done.
Qed.

(** Through an operation that keeps the object. *)
Lemma tracked_keep u x w w' k' :
  tracked u -> x ∈ handles u -> uheap u !! l = Some (w, length (handles u)) -> kept fd w (ukernel u) w' k' ->
  tracked {| handles := handles u; uheap := <[l := (w', length (handles u))]> (uheap u); ukernel := k'; closes := closes u; failed := failed u |}.
Proof.
  intros Ht Hx Hl (K1 & K2 & K3). destruct (tracked_live u x Ht Hx) as (_ & Hne & w0 & Hl0 & Hf & Hc & Hn & _).
  rewrite Hl in Hl0. injection Hl0 as <-. split; [apply Ht|]. cbn [handles uheap ukernel closes failed].
  destruct (handles u) eqn:E; [done|]. exists w'. rewrite lookup_insert_eq, K1, K2, K3. done.
Qed.

Lemma release_tracked u x l1 l2 h k :
  tracked u -> handles u = l1 ++ x :: l2 -> release (uheap u) (ukernel u) x = (h, k) ->
  tracked {| handles := l1 ++ l2; uheap := h; ukernel := k; closes := closes u; failed := failed u |}.
Proof.
  intros Ht E. assert (Hx : x ∈ handles u) by (rewrite E; set_solver).
  destruct (tracked_live u x Ht Hx) as (-> & _ & w & Hl & Hf & Hc & Hn & _). cbn [release]. rewrite Hl.
  assert (Ha : Forall (eq (Some l)) (l1 ++ l2)).
  { destruct Ht as [Ha _]. rewrite E in Ha. apply Forall_app in Ha as [? Ha]. apply Forall_cons in Ha as [_ ?].
    by apply Forall_app. }
  assert (Hlen : length (handles u) = S (length (l1 ++ l2))) by (rewrite E, !length_app; cbn; lia). rewrite Hlen.
  destruct (l1 ++ l2) as [|y ys] eqn:El; cbn [length].
  - intros [= <- <-]. split; [done|]. cbn [handles uheap ukernel closes failed]. split; [apply lookup_delete_eq|].
    unfold destroy. rewrite Hc. destruct (closes u) as [|m]; cbn [Nat.eqb negb]; [|rewrite Hn; lia].
    destruct (sys_close (ukernel u) (_fd w)) as [[r e] k'] eqn:Ek. rewrite Hf in Ek.
    rewrite (close_counts _ _ _ _ _ Ek). lia.
  - intros [= <- <-]. split; [done|]. cbn [handles uheap ukernel closes failed]. exists w. by rewrite lookup_insert_eq.
Qed.

Lemma writev_calls_keep w k w' k' : rtc writev_call (w, k) (w', k') -> kept fd w k w' k'.
Proof.
  intros Hr. remember (w, k) as p eqn:Ep. remember (w', k') as q eqn:Eq. revert w k Ep.
  induction Hr as [|p y z Hs _ IH]; intros w k ->; [by simplify_eq|].
  inversion Hs as [? ? ? ? ? ? E|? ? ? ? ? ? E]; subst; specialize (IH eq_refl _ _ eq_refl) as (? & ? & ?);
    pose proof (writev_counts _ _ _ _ _ _ fd E); split_and!; try done; congruence.
Qed.

(** A [close()], whether it returns or throws. *)
Lemma close_tracked u x :
  tracked u -> x ∈ handles u ->
  (forall h k, handle_close (uheap u) (ukernel u) x = Ok (h, k) ->
     tracked {| handles := handles u; uheap := h; ukernel := k; closes := S (closes u); failed := failed u |}) /\
  (forall l' w n r e k, deref (uheap u) x = Ok (l', w, n) -> sys_close (ukernel u) (_fd w) = (r, e, k) ->
     tracked {| handles := handles u; uheap := uheap u; ukernel := k; closes := closes u; failed := S (failed u) |}).
Proof.
  intros Ht Hx. destruct (tracked_live u x Ht Hx) as (-> & Hne & w & Hl & Hf & Hc & Hn & Hd). split.
  - intros h k E. unfold handle_close, close in E.
    rewrite Hd in E. cbn [mbind result_bind] in E. destruct (sys_close _ _) as [[r e] k'] eqn:Ek. rewrite Hf in Ek.
    destruct (SystemCall _ _ _ _); [|done]. cbn [mbind result_bind] in E. injection E as <- <-. split; [apply Ht|].
    cbn [handles uheap ukernel closes failed]. destruct (handles u) eqn:Eh; [done|]. eexists. rewrite lookup_insert_eq.
    split; [done|]. cbn. split; [done|]. split; [done|]. rewrite (close_counts _ _ _ _ _ Ek), Hn. lia.
  - intros l' w' n r e k E Ek. rewrite Hd in E. injection E as <- <- <-. rewrite Hf in Ek. split; [apply Ht|].
    cbn [handles uheap ukernel closes failed]. destruct (handles u) eqn:Eh; [done|]. exists w.
    rewrite (close_counts _ _ _ _ _ Ek), Hn. split_and!; done || lia.
Qed.

(** A call on an object that stays as it is. *)
Lemma tracked_same u x k :
  tracked u -> x ∈ handles u -> closed_count k fd = closed_count (ukernel u) fd ->
  tracked {| handles := handles u; uheap := uheap u; ukernel := k; closes := closes u; failed := failed u |}.
Proof.
  intros Ht Hx Hk. destruct (tracked_live u x Ht Hx) as (_ & Hne & w & Hl & Hf & Hc & Hn & _).
  split; [apply Ht|]. cbn [handles uheap ukernel closes failed]. destruct (handles u); [done|].
  exists w. by rewrite Hk, Hn.
Qed.

Lemma use_tracked u u' : tracked u -> use u u' -> tracked u'.
Proof.
  intros Ht Hu. destruct Hu as [u x y h Hx E|u x l1 l2 h k E Er|u x h k Hx E|u x l' w n ex r e k Hx _ Hd Ek
    |u x n data h k Hx E|u x l' w c n ex m r e data k Hx _ Hd Ek|u x b all n h k Hx E|u x l' w c b all ex w' k Hx _ Hd Hr].
  - destruct (tracked_live u x Ht Hx) as (-> & _ & w & Hl & Hf & Hc & Hn & Hd). unfold duplicate in E. rewrite Hd in E.
    injection E as <- <-. split; [by constructor; [|apply Ht]|]. cbn [handles uheap ukernel closes failed]. exists w.
    by rewrite lookup_insert_eq.
  - by eapply release_tracked.
  - by apply (close_tracked u x Ht Hx).
  - by eapply (close_tracked u x Ht Hx).
  - destruct (tracked_live u x Ht Hx) as (-> & Hne & w & Hl & Hf & Hc & Hn & Hd). unfold handle_read in E. rewrite Hd in E.
    cbn [mbind result_bind] in E. destruct (read _ _ _) as [[[d w'] k']|] eqn:Er; [|done]. injection E as <- <- <-.
    eapply tracked_keep; [done..|by eapply read_keeps].
  - eapply tracked_same; [done..|]. by apply (read_counts _ _ _ _ _ _ _ fd Ek).
  - destruct (tracked_live u x Ht Hx) as (-> & Hne & w & Hl & Hf & Hc & Hn & Hd). unfold handle_write in E. rewrite Hd in E.
    cbn [mbind result_bind] in E. destruct (write _ _ _ _) as [[[m w'] k']|] eqn:Er; [|done]. injection E as <- <- <-.
    eapply tracked_keep; [done..|by eapply write_loop_keeps].
  - destruct (tracked_live u x Ht Hx) as (-> & Hne & w0 & Hl & Hf & Hc & Hn & Hd0). rewrite Hd0 in Hd.
    injection Hd as <- <- <-. eapply tracked_keep; [done..|by apply writev_calls_keep].
Qed.

End properties.

(** ** Property *)

(** C40: Closing a descriptor. Whoever holds handles to a descriptor, and
    however they duplicate, drop, read, write and close, with any of these calls
    returning or throwing: while there is a handle the object behind it is there
    and counts the handles, and [close(2)] was called for the descriptor once
    for every [close()], returned or thrown; when the last handle is gone the
    object is gone, and [close(2)] was called once more exactly if no [close()]
    has returned. A descriptor that nobody closes by hand is so closed once. *)
Theorem descriptor_closed_once {K} `{CloseCount K} h0 (k0 : K) fd x h u :
  new_FileDescriptor h0 fd = Ok (x, h) ->
  rtc use {| handles := [x]; uheap := h; ukernel := k0; closes := 0; failed := 0 |} u ->
  exists l, x = Some l /\ h0 !! l = None /\
  if bool_decide (handles u = [])
  then uheap u !! l = None /\
       closed_count (ukernel u) fd =
         (closed_count k0 fd + closes u + failed u + (if bool_decide (closes u = O) then 1 else 0))%nat
  else exists w, uheap u !! l = Some (w, length (handles u)) /\ _fd w = fd /\
         closed_count (ukernel u) fd = (closed_count k0 fd + closes u + failed u)%nat.
Proof.
  unfold new_FileDescriptor, new_FDWrapper. destruct (fd <? 0); [done|]. intros [= <- <-] Hu.
  set (l := fresh (dom h0)) in *. assert (Hf : h0 !! l = None) by (apply not_elem_of_dom, is_fresh).
  exists l. split; [done|]. split; [done|].
  assert (Ht : tracked l fd (closed_count k0 fd) u).
  { revert Hu. match goal with |- rtc use ?u0 _ -> _ => assert (Hi : tracked l fd (closed_count k0 fd) u0) end.
    { split; [by constructor|]. eexists. cbn [handles uheap ukernel closes failed]. rewrite lookup_insert_eq.
      split; [done|]. split; [done|]. split; [done|]. lia. }
    intros Hu. induction Hu as [|x y z Hs _ IH]; [done|]. apply IH. by eapply use_tracked. }
  destruct Ht as [_ Ht]. destruct (handles u); [|by destruct Ht as (w & ? & ? & _ & ?); exists w].
  destruct Ht as [? ->]. split; [done|]. case_bool_decide as Hz; lia.
Qed.

(** A kernel that counts, and fails the first [close(2)] of a descriptor. *)
#[local] Instance counting_kernel : Kernel (gmap Z nat) := {
  sys_read := fun k _ _ => (0, 0, [], k);
  sys_writev := fun k _ iov => (zlen (concat (map fst iov)), 0, k);
  sys_close := fun k fd =>
    (match default O (k !! fd) with O => -1 | _ => 0 end, 4, <[fd := S (default O (k !! fd))]> k);
  sys_getfl := fun k _ => (0, 0, k);
  sys_setfl := fun k _ _ => (0, 0, k)
}.

#[local] Program Instance counting_laws : CloseCount (gmap Z nat) := {
  closed_count := fun k fd => default O (k !! fd)
}.
Next Obligation. cbn. intros k fd r e k' [= _ _ <-]. by rewrite lookup_insert_eq. Qed.
Next Obligation. cbn. by intros k fd n r e data k' f [= _ _ _ <-]. Qed.
Next Obligation. cbn. by intros k fd iov r e k' f [= _ _ <-]. Qed.

(** Two handles; one is dropped, [close()] throws, the other is dropped: two
    calls of [close(2)], one of them the destructor's. *)
Lemma descriptor_closed_once_witness :
  exists (u : usage (gmap Z nat)), handles u = [] /\ closed_count (ukernel u) 5 = 2%nat.
Proof.
  destruct (new_FileDescriptor ∅ 5) as [[x h]|] eqn:E; [|vm_compute in E; discriminate].
  destruct (descriptor_closed_once ∅ (∅ : gmap Z nat) 5 x h
    {| handles := []; uheap := ∅; ukernel := {[5 := 2%nat]}; closes := 0; failed := 1 |} E) as (l & _ & _ & Hu).
  - vm_compute in E. injection E as <- <-.
    eapply (rtc_l _ _ {| handles := [Some 1%positive; Some 1%positive]; closes := 0; failed := 0; ukernel := ∅; uheap := _ |}).
    { eapply (use_duplicate {| handles := [Some 1%positive] |} (Some 1%positive)); [set_solver|vm_compute; reflexivity]. }
    eapply (rtc_l _ _ {| handles := [Some 1%positive]; closes := 0; failed := 0; ukernel := ∅; uheap := _ |}).
    { eapply (use_release {| handles := [Some 1%positive; Some 1%positive] |} (Some 1%positive) []); [reflexivity|vm_compute; reflexivity]. }
    eapply (rtc_l _ _ {| handles := [Some 1%positive]; closes := 0; failed := 1; ukernel := _; uheap := _ |}).
    { eapply (use_close_throws {| handles := [Some 1%positive] |} (Some 1%positive));
        [set_solver|vm_compute; reflexivity|vm_compute; reflexivity|vm_compute; reflexivity]. }
    eapply rtc_once.
    eapply (use_release {| handles := [Some 1%positive] |} (Some 1%positive) [] []); [reflexivity|vm_compute; reflexivity].
  - eexists. split; [|exact (proj2 Hu)]. reflexivity.
Defined.
