(* ===== verification/Socket.v ===== *)
(** * Sockets

    Models [Socket] and [UDPSocket] of [src/libsponge/util/socket.hh] and [.cc] on
    top of [FileDescriptor], as far as datagrams and shutting down go; opening,
    binding and connecting are in [SocketSetup]. The system calls are again
    parameters, and addresses any type with the interface of [FdAdapter], which
    the class modelled in [Address] implements. *)

From S2P Require Import Prelude Buffer FileDescriptor FdAdapter.

Definition SHUT_RD : Z := 0.
Definition SHUT_WR : Z := 1.
Definition SHUT_RDWR : Z := 2.
Definition AF_UNIX : Z := 1.
Definition AF_INET : Z := 2.
Definition SOCK_STREAM : Z := 1.
Definition SOCK_DGRAM : Z := 2.
Definition SO_TYPE : Z := 3.
Definition SO_DOMAIN : Z := 39.

(** [sys_getsockopt] yields the value and the length it stored; [sys_recvfrom],
    called with [MSG_TRUNC], the bytes it stored and the sender. *)
Class SocketKernel (K Address : Type) := {
  sys_getsockopt : K -> Z -> Z -> Z * Z * (Z * Z) * K;
  sys_shutdown : K -> Z -> Z -> Z * Z * K;
  sys_recvfrom : K -> Z -> Z -> Z * Z * list byte * Address * K;
  sys_sendmsg : K -> Z -> option Address -> list (list byte * Z) -> Z * Z * K
}.

(** What [recvfrom(2)] and [sendmsg(2)] document for datagram sockets: with
    [MSG_TRUNC] the value is the size of the datagram, of which as much is
    stored as fits; a message is sent whole or not at all. Neither they nor
    [shutdown(2)] touch the bytes of a stream. *)
Class SocketLaws (K Address : Type) `{SocketKernel K Address} `{Streams K} := {
  sent_to : K -> Z -> list (option Address * list byte);
  shutdown_law : forall k fd how r e k', sys_shutdown k fd how = (r, e, k') ->
    -2 ^ 31 <= r < 2 ^ 31 /\ (r < 0 -> e <> 0) /\ (forall f, untouched f k k');
  recvfrom_law : forall k fd size r e data from k', 0 <= size ->
    sys_recvfrom k fd size = (r, e, data, from, k') ->
    -2 ^ 31 <= r < 2 ^ 31 /\ (r < 0 -> e <> 0) /\ (0 <= r -> zlen data = Z.min r size) /\
    (forall f, untouched f k k');
  sendmsg_law : forall k fd dest iov r e k', sys_sendmsg k fd dest iov = (r, e, k') ->
    -2 ^ 31 <= r < 2 ^ 31 /\ (r < 0 -> e <> 0) /\
    (0 <= r -> r = zlen (concat (map fst iov)) /\
      sent_to k' fd = sent_to k fd ++ [(dest, concat (map fst iov))]) /\
    (forall f, untouched f k k')
}.

Section socket.
Context {K Address : Type} `{SocketKernel K Address}.

(** One of the two checks of the constructor from a descriptor. *)
Definition verify (w : FDWrapper) (k : K) (option expected : Z) (what : string) : result K :=
  let '(ret, errno, (actual_value, len), k) := sys_getsockopt k (_fd w) option in
  _ ← SystemCall "getsockopt" ret errno 0;
  if negb (len =? 4) || negb (actual_value =? expected) then Throw (runtime_error what) else Ok k.

Definition new_Socket (w : FDWrapper) (k : K) (domain type : Z) : result (FDWrapper * K) :=
  k ← verify w k SO_DOMAIN domain "socket domain mismatch";
  k ← verify w k SO_TYPE type "socket type mismatch";
  Ok (w, k).

Definition shutdown (w : FDWrapper) (k : K) (how : Z) : result (FDWrapper * K) :=
  let '(ret, errno, k) := sys_shutdown k (_fd w) how in
  _ ← SystemCall "shutdown" ret errno 0;
  if how =? SHUT_RD then Ok (register_read w, k)
  else if how =? SHUT_WR then Ok (register_write w, k)
  else if how =? SHUT_RDWR then Ok (register_write (register_read w), k)
  else Throw (runtime_error "Socket::shutdown() called with invalid `how`").

Definition recv (w : FDWrapper) (k : K) (mtu : Z)
    : result (received_datagram Address * FDWrapper * K) :=
  let payload := resize [] mtu in
  let '(ret, errno, data, from, k) := sys_recvfrom k (_fd w) (zlen payload) in
  recv_len ← SystemCall "recvfrom" ret errno 0;
  if s64 mtu <? recv_len then Throw (runtime_error "recvfrom (oversized datagram)")
  else Ok ({| source_address := from;
              datagram_payload := resize (overwrite payload data) (u64 recv_len) |},
           register_read w, k).

Definition sendmsg_helper (fd_num : Z) (k : K) (destination_address : option Address)
    (payload : BufferViewList) : result K :=
  let '(ret, errno, k) := sys_sendmsg k fd_num destination_address (as_iovecs payload) in
  bytes_sent ← SystemCall "sendmsg" ret errno 0;
  if negb (u64 bytes_sent =? bvl_size payload)
  then Throw (runtime_error "datagram payload too big for sendmsg()") else Ok k.

Definition sendto (w : FDWrapper) (k : K) (destination : Address) (payload : BufferViewList)
    : result (FDWrapper * K) :=
  k ← sendmsg_helper (_fd w) k (Some destination) payload; Ok (register_write w, k).

Definition send (w : FDWrapper) (k : K) (payload : BufferViewList) : result (FDWrapper * K) :=
  k ← sendmsg_helper (_fd w) k None payload; Ok (register_write w, k).

End socket.

(** ** Properties *)

Section properties.
Context {K Address : Type} `{SocketLaws K Address}.

Lemma resize_nil n : 0 <= n -> zlen (resize [] n) = n.
Proof. intros. unfold resize, zlen. rewrite take_nil, app_nil_l, length_replicate. simpl. lia. Qed.

(** [recv] returns the whole datagram or throws. *)
Lemma recv_spec w (k : K) mtu :
  0 <= mtu < 2 ^ 31 ->
  (exists e, recv w k mtu = Throw e /\
    (e = runtime_error "recvfrom (oversized datagram)" \/ exists c, e = unix_error "recvfrom" c)) \/
  exists dg k' e, recv w k mtu = Ok (dg, register_read w, k') /\
    sys_recvfrom k (_fd w) mtu =
      (zlen (datagram_payload dg), e, datagram_payload dg, source_address dg, k') /\
    zlen (datagram_payload dg) <= mtu /\ (forall f, untouched f k k').
Proof.
  intros Hm. unfold recv. rewrite resize_nil by lia.
  destruct (sys_recvfrom k (_fd w) mtu) as [[[[r e] data] from] k'] eqn:Er.
  destruct (recvfrom_law _ _ _ _ _ _ _ _ (proj1 Hm) Er) as (Hr & He & Hd & Hu).
  destruct (SystemCall_spec "recvfrom" r e Hr He) as [[Hn ->]|[_ ->]]; [|left; eauto 6].
  cbn [mbind result_bind]. rewrite s64_small by lia.
  destruct (Z.ltb_spec mtu r); [left; eauto|]. right. specialize (Hd Hn).
  rewrite Z.min_l in Hd by lia. rewrite u64_small by lia. rewrite <- Hd, resize_overwrite.
  eexists _, k', e. split; [done|]. cbn. split; [done|]. split; [lia|done].
Qed.

(** [sendto] hands the message over whole, or the system call fails. *)
Lemma sendto_spec w (k : K) dest (payload : BufferViewList) :
  zlen (concat payload) < 2 ^ 63 ->
  (exists c, sendto w k dest payload = Throw (unix_error "sendmsg" c)) \/
  exists k', sendto w k dest payload = Ok (register_write w, k') /\
    sent_to k' (_fd w) = sent_to k (_fd w) ++ [(Some dest, concat payload)] /\
    (forall f, untouched f k k').
Proof.
  intros Hl. unfold sendto, sendmsg_helper.
  destruct (sys_sendmsg _ _ _ _) as [[r e] k'] eqn:Es.
  destruct (sendmsg_law _ _ _ _ _ _ _ Es) as (Hr & He & Hok & Hu). rewrite as_iovecs_concat in Hok.
  destruct (SystemCall_spec "sendmsg" r e Hr He) as [[Hn ->]|[_ ->]]; [|left; by eexists].
  destruct (Hok Hn) as [Hle Hs]. cbn [mbind result_bind]. rewrite bvl_size_concat, u64_small by lia.
  rewrite Hle, Z.eqb_refl. cbn. right. eauto.
Qed.

(** Shutting down one direction counts as reading or writing. *)
Lemma shutdown_wr_spec w (k : K) :
  (exists c, shutdown w k SHUT_WR = Throw (unix_error "shutdown" c)) \/
  exists k', shutdown w k SHUT_WR = Ok (register_write w, k') /\ (forall f, untouched f k k').
Proof.
  unfold shutdown. destruct (sys_shutdown _ _ _) as [[r e] k'] eqn:Es.
  destruct (shutdown_law _ _ _ _ _ _ Es) as (Hr & He & Hu).
  destruct (SystemCall_spec "shutdown" r e Hr He) as [[Hn ->]|[_ ->]]; [right|left]; eauto.
Qed.

Lemma shutdown_safe w (k : K) how :
  0 <= how <= 2 ->
  (exists c, shutdown w k how = Throw (unix_error "shutdown" c)) \/
  exists w' k', shutdown w k how = Ok (w', k').
Proof.
  intros Hh. unfold shutdown. destruct (sys_shutdown _ _ _) as [[r e] k'] eqn:Es.
  destruct (shutdown_law _ _ _ _ _ _ Es) as (Hr & He & _).
  destruct (SystemCall_spec "shutdown" r e Hr He) as [[Hn ->]|[_ ->]]; [right|left; eauto].
  unfold SHUT_RD, SHUT_WR, SHUT_RDWR. cbn [mbind result_bind].
  destruct (Z.eqb_spec how 0); [eauto|]. destruct (Z.eqb_spec how 1); [eauto|].
  destruct (Z.eqb_spec how 2); [eauto|lia].
Qed.

End properties.
