(* ===== verification/EventLoop.v ===== *)
(** * The event loop

    Models class [EventLoop] of [src/libsponge/util/eventloop.hh] and [.cc]. The
    callbacks of the rules act on a world [W] that holds what they capture; a
    descriptor is a key of the world, since a rule shares its [FDWrapper] with
    the object it was added for. An [interest] is a predicate: every one in the
    program only looks. [poll] is a parameter. *)

From S2P Require Import Prelude FileDescriptor.

(** ** Data *)

Definition POLLIN : Z := 1.
Definition POLLOUT : Z := 4.
Definition POLLERR : Z := 8.
Definition POLLHUP : Z := 16.
Definition POLLNVAL : Z := 32.
Definition EINTR : Z := 4.

Inductive Direction := In | Out.

Definition poll_flag (d : Direction) : Z := match d with In => POLLIN | Out => POLLOUT end.

Record pollfd := {
  pfd : Z;
  events : Z;
  revents : Z
}.

(** The world: its descriptors, and [poll], which returns its value, [errno] and
    the array with the received events; the world may change while it waits. *)
Class World (W FD : Type) := {
  fdw : W -> FD -> FDWrapper;
  sys_poll : W -> list pollfd -> Z -> Z * Z * list pollfd * W
}.

(** What [poll(2)] documents: only [revents] is written, and not even that when
    the call fails. *)
Class PollLaws (W FD : Type) `{World W FD} := {
  poll_value : forall w ps t r e ps' w', sys_poll w ps t = (r, e, ps', w') ->
    -2 ^ 31 <= r < 2 ^ 31 /\ (r < 0 -> e <> 0);
  poll_array : forall w ps t r e ps' w', sys_poll w ps t = (r, e, ps', w') ->
    map events ps' = map events ps;
  poll_fails : forall w ps t r e ps' w', sys_poll w ps t = (r, e, ps', w') ->
    r < 0 -> ps' = ps
}.

(** The same for a kernel on its own; a world that holds one builds its [World]
    from it. [poll] touches no stream. *)
Class PollKernel (K : Type) := kernel_poll : K -> list pollfd -> Z -> Z * Z * list pollfd * K.

Class PollKernelLaws (K : Type) `{PollKernel K} `{Streams K} := {
  kpoll_value : forall k ps t r e ps' k', kernel_poll k ps t = (r, e, ps', k') ->
    -2 ^ 31 <= r < 2 ^ 31 /\ (r < 0 -> e <> 0);
  kpoll_array : forall k ps t r e ps' k', kernel_poll k ps t = (r, e, ps', k') ->
    map events ps' = map events ps;
  kpoll_fails : forall k ps t r e ps' k', kernel_poll k ps t = (r, e, ps', k') -> r < 0 -> ps' = ps;
  kpoll_streams : forall k ps t r e ps' k' f, kernel_poll k ps t = (r, e, ps', k') -> untouched f k k'
}.

Inductive Result := Success | Timeout | Exit.

Section event_loop.
Context {W FD : Type} `{World W FD}.

Record Rule := {
  fd : FD;
  direction : Direction;
  callback : W -> result W;
  interest : W -> bool;
  cancel : W -> result W
}.

(** [EventLoop] is its list of rules. *)
Abbreviation EventLoop := (list Rule).

(** The default arguments. *)
Definition always (w : W) : bool := true.
Definition nothing (w : W) : result W := Ok w.

Definition service_count (r : Rule) (w : W) : Z :=
  match direction r with
  | In => _read_count (fdw w (fd r))
  | Out => _write_count (fdw w (fd r))
  end.

Definition add_rule (_rules : EventLoop) (fd : FD) (direction : Direction)
    (callback : W -> result W) (interest : W -> bool) (cancel : W -> result W) : EventLoop :=
  _rules ++ [Build_Rule fd direction callback interest cancel].

(** The first loop: the rules that stay, one [pollfd] for each, and
    [something_to_poll]. *)
Fixpoint setup (_rules : EventLoop) (w : W) : result (EventLoop * list pollfd * bool * W) :=
  match _rules with
  | [] => Ok ([], [], false, w)
  | this_rule :: rest =>
      if match direction this_rule with In => _eof (fdw w (fd this_rule)) | Out => false end
      then w ← cancel this_rule w; setup rest w
      else if _closed (fdw w (fd this_rule)) then w ← cancel this_rule w; setup rest w
      else
        let interested := interest this_rule w in
        let p := {| pfd := _fd (fdw w (fd this_rule));
                    events := if interested then poll_flag (direction this_rule) else 0;
                    revents := 0 |} in
        '(rs, ps, something, w) ← setup rest w;
        Ok (this_rule :: rs, p :: ps, interested || something, w)
  end.

(** The callback of a ready rule and the check for busy waiting. *)
Definition serve (this_rule : Rule) (w : W) : result W :=
  let count_before := service_count this_rule w in
  w ← callback this_rule w;
  if (count_before =? service_count this_rule w) && interest this_rule w
  then Throw (runtime_error "EventLoop: busy wait detected: callback did not read/write fd and is still interested")
  else Ok w.

(** The second loop. *)
Fixpoint results (_rules : EventLoop) (pollfds : list pollfd) (idx : nat) (w : W)
    : result (EventLoop * W) :=
  match _rules with
  | [] => Ok ([], w)
  | this_rule :: rest =>
      match pollfds !! idx with
      | None => Throw (undefined "pollfds[idx]")
      | Some this_pollfd =>
          if negb (Z.land (revents this_pollfd) (Z.lor POLLERR POLLNVAL) =? 0)
          then Throw (runtime_error "EventLoop: error on polled file descriptor")
          else
            let poll_ready := negb (Z.land (revents this_pollfd) (events this_pollfd) =? 0) in
            let poll_hup := negb (Z.land (revents this_pollfd) POLLHUP =? 0) in
            if poll_hup && negb (events this_pollfd =? 0) && negb poll_ready
            then w ← cancel this_rule w; results rest pollfds (S idx) w
            else
              w ← (if poll_ready then serve this_rule w else Ok w);
              '(rs, w) ← results rest pollfds (S idx) w;
              Ok (this_rule :: rs, w)
      end
  end.

Definition wait_next_event (_rules : EventLoop) (timeout_ms : Z) (w : W)
    : result (Result * EventLoop * W) :=
  '(_rules, pollfds, something_to_poll, w) ← setup _rules w;
  if negb something_to_poll then Ok (Exit, _rules, w)
  else
    let '(ret, errno, pollfds, w) := sys_poll w pollfds timeout_ms in
    let after_poll (_ : unit) :=
      '(_rules, w) ← results _rules pollfds 0 w; Ok (Success, _rules, w) in
    match SystemCall "poll" ret errno 0 with
    | Ok n => if n =? 0 then Ok (Timeout, _rules, w) else after_poll tt
    | Throw (unix_error _ code) => if code =? EINTR then Ok (Exit, _rules, w) else after_poll tt
    | Throw e => Throw e
    end.

(** Each rule that stays has its own [pollfd], with no events received yet. *)
Lemma setup_pollfds rules w rs ps something w' :
  setup rules w = Ok (rs, ps, something, w') ->
  length ps = length rs /\ Forall (fun p => revents p = 0) ps.
Proof.
  revert w rs ps something. induction rules as [|r rules IH]; intros w rs ps b; cbn [setup].
  { intros [= <- <- _ _]. by split. }
  assert (Hc : (w ← cancel r w; setup rules w) = Ok (rs, ps, b, w') ->
    length ps = length rs /\ Forall (fun p => revents p = 0) ps)
    by (destruct (cancel r w) as [w1|]; [apply IH|done]).
  destruct (match direction r with In => _ | Out => false end); [done|]. destruct (_closed _); [done|].
  destruct (setup rules w) as [[[[rs1 ps1] b1] w1]|] eqn:E; [|done]. cbn [mbind result_bind].
  intros [= <- <- _ <-]. destruct (IH _ _ _ _ E). split; [simpl; by f_equal|by constructor].
Qed.

(** Without received events nothing happens. *)
Lemma results_quiet rules pollfds idx w :
  Forall (fun p => revents p = 0) pollfds -> (idx + length rules <= length pollfds)%nat ->
  results rules pollfds idx w = Ok (rules, w).
Proof.
  intros Hq. revert idx. induction rules as [|r rules IH]; intros idx Hlen; [done|]. cbn [results length] in *.
  destruct (lookup_lt_is_Some_2 pollfds idx) as [p Hp]; [lia|]. rewrite Hp.
  rewrite Forall_lookup in Hq. rewrite (Hq _ _ Hp), !Z.land_0_l, Z.eqb_refl. cbn [negb andb mbind result_bind].
  by rewrite IH by lia.
Qed.

(** ** A round, rule by rule *)

(** A rule is over when the input of its descriptor has ended, or when the
    descriptor is closed. *)
Definition finished (r : Rule) (w : W) : Prop :=
  (direction r = In /\ _eof (fdw w (fd r)) = true) \/ _closed (fdw w (fd r)) = true.

(** Before the wait: exactly the rules that are over are cancelled and leave;
    the others stay, and ask for their event if they are interested. *)
Inductive swept : list Rule -> W -> list Rule -> list pollfd -> W -> Prop :=
| swept_end w : swept [] w [] [] w
| swept_cancel r rules w w1 kept ps w' :
    finished r w -> cancel r w = Ok w1 -> swept rules w1 kept ps w' ->
    swept (r :: rules) w kept ps w'
| swept_keep r rules w kept ps w' ev :
    ~ finished r w -> ev = (if interest r w then poll_flag (direction r) else 0) ->
    swept rules w kept ps w' ->
    swept (r :: rules) w (r :: kept) ({| pfd := _fd (fdw w (fd r)); events := ev; revents := 0 |} :: ps) w'.

(** What came back for a descriptor: an event that was asked for; the end of
    the other side, and nothing of what was asked for; an error. *)
Definition got_ready (p : pollfd) : Prop := Z.land (revents p) (events p) <> 0.
Definition hung_up (p : pollfd) : Prop :=
  events p <> 0 /\ ~ got_ready p /\ Z.land (revents p) POLLHUP <> 0.
Definition no_error (p : pollfd) : Prop := Z.land (revents p) (Z.lor POLLERR POLLNVAL) = 0.

(** After the wait: a rule whose descriptor hung up is cancelled and leaves; one
    whose descriptor is ready has its callback run, once, and stays; every
    other rule stays and nothing is called. *)
Inductive answered : list Rule -> list pollfd -> W -> list Rule -> W -> Prop :=
| answered_end ps w : answered [] ps w [] w
| answered_hup r rules p ps w w1 rs w' :
    no_error p -> hung_up p -> cancel r w = Ok w1 -> answered rules ps w1 rs w' ->
    answered (r :: rules) (p :: ps) w rs w'
| answered_ready r rules p ps w w1 rs w' :
    no_error p -> got_ready p -> callback r w = Ok w1 ->
    (service_count r w1 <> service_count r w \/ interest r w1 = false) ->
    answered rules ps w1 rs w' -> answered (r :: rules) (p :: ps) w (r :: rs) w'
| answered_idle r rules p ps w rs w' :
    no_error p -> ~ got_ready p -> ~ hung_up p -> answered rules ps w rs w' ->
    answered (r :: rules) (p :: ps) w (r :: rs) w'.

Lemma setup_swept rules w kept ps something w' :
  setup rules w = Ok (kept, ps, something, w') ->
  swept rules w kept ps w' /\ (something = false <-> Forall (fun p => events p = 0) ps).
Proof.
  revert w kept ps something. induction rules as [|r rules IH]; intros w kept ps b; cbn [setup].
  { intros [= <- <- <- <-]. split; [constructor|]. by split; [constructor|]. }
  assert (Hc : finished r w -> (w ← cancel r w; setup rules w) = Ok (kept, ps, b, w') ->
    swept (r :: rules) w kept ps w' /\ (b = false <-> Forall (fun p => events p = 0) ps)).
  { intros Hf. destruct (cancel r w) as [w1|] eqn:Ec; [|done]. cbn [mbind result_bind]. intros [Hs Hb]%IH.
    split; [by eapply swept_cancel|done]. }
  destruct (match direction r with In => _ | Out => false end) eqn:Ee.
  { apply Hc. left. by destruct (direction r). }
  destruct (_closed _) eqn:Ecl; [apply Hc; by right|]. clear Hc.
  destruct (setup rules w) as [[[[rs1 ps1] b1] w1]|] eqn:E; [|done]. cbn [mbind result_bind].
  intros [= <- <- <- <-]. destruct (IH _ _ _ _ E) as [Hs Hb]. split.
  - apply swept_keep; [|done|done]. intros [[Hd Hf]|Hf]; [|congruence]. rewrite Hd in Ee. congruence.
  - rewrite orb_false_iff, Forall_cons, Hb. cbn [events].
    destruct (interest r w); [|clear; tauto]. split; intros [Hd _]; [done|by destruct (direction r)].
Qed.

Lemma results_answered rules pollfds idx w rs w' :
  results rules pollfds idx w = Ok (rs, w') -> answered rules (drop idx pollfds) w rs w'.
Proof.
  revert idx w rs. induction rules as [|r rules IH]; intros idx w rs; cbn [results].
  { intros [= <- <-]. constructor. }
  destruct (pollfds !! idx) as [p|] eqn:Ep; [|done]. rewrite (drop_S _ _ _ Ep).
  destruct (Z.eqb_spec (Z.land (revents p) (Z.lor POLLERR POLLNVAL)) 0) as [He|]; cbn [negb]; [|done].
  destruct (Z.eqb_spec (Z.land (revents p) POLLHUP) 0) as [Hh|Hh],
    (Z.eqb_spec (events p) 0) as [Ha|Ha],
    (Z.eqb_spec (Z.land (revents p) (events p)) 0) as [Hr|Hr]; cbn [negb andb mbind result_bind];
  try (destruct (results rules pollfds (S idx) w) as [[rs1 w1]|] eqn:E; [|done]; intros [= <- <-];
       apply answered_idle; [done|by intros ?|by intros (? & ? & ?)|by apply IH]);
  try (unfold serve; destruct (callback r w) as [w1|] eqn:Ec; [|done]; cbn [mbind result_bind];
       destruct (Z.eqb_spec (service_count r w) (service_count r w1)) as [Hc|Hc], (interest r w1) eqn:Hi;
       cbn [andb mbind result_bind]; [done|..];
       (destruct (results rules pollfds (S idx) w1) as [[rs1 w2]|] eqn:E; [|done]); intros [= <- <-];
       (eapply answered_ready; [done|done|exact Ec|by auto|by apply IH])).
  destruct (cancel r w) as [w1|] eqn:Ec; [|done]. cbn [mbind result_bind]. intros E.
  eapply answered_hup; [done| |exact Ec|by apply IH]. split; [done|]. by split; [intros ?|].
Qed.

(** One call: the rules before it, its result and what is left. When [poll]
    fails for another reason than a signal, nobody is served. *)
Definition waited (rules : list Rule) (timeout_ms : Z) (w : W) (ret : Result) (rs : list Rule) (w' : W) : Prop :=
  exists kept ps w1, swept rules w kept ps w1 /\
    if bool_decide (Forall (fun p => events p = 0) ps)
    then ret = Exit /\ rs = kept /\ w' = w1
    else exists n errno ps' w2, sys_poll w1 ps timeout_ms = (n, errno, ps', w2) /\
      ((n = 0 /\ ret = Timeout /\ rs = kept /\ w' = w2) \/
       (n < 0 /\ (errno = EINTR -> ret = Exit) /\ rs = kept /\ w' = w2) \/
       (0 < n /\ ret = Success /\ answered kept ps' w2 rs w')).

End event_loop.

Arguments Rule : clear implicits.

(** ** What the loop promises its clients *)

Section client.
Context {W FD : Type} `{PollLaws W FD}.

(** An invariant of the world; what must still hold of it when the callback of
    a rule that was interested is finally called, after those of other rules;
    and the exceptions a callback may raise. *)
Context (Inv : W -> Prop) (need : Rule W FD -> W -> Prop) (allowed : exn -> Prop).

Record served (r : Rule W FD) : Prop := {
  served_interest : forall w, Inv w -> interest r w = true -> need r w;
  served_cancel : forall w, Inv w ->
    match cancel r w with Ok w' => Inv w' | Throw e => allowed e end;
  served_callback : forall w, Inv w -> need r w ->
    match callback r w with
    | Ok w' => Inv w' /\ (service_count r w' <> service_count r w \/ interest r w' = false)
    | Throw e => allowed e
    end
}.

(** Rule [r] leaves what rule [r'] needs. *)
Definition respects (r r' : Rule W FD) : Prop := forall w w', Inv w -> need r' w ->
  (cancel r w = Ok w' -> need r' w') /\ (need r w -> callback r w = Ok w' -> need r' w').

(** The waiting itself changes nothing that matters. *)
Definition poll_respects (rs : list (Rule W FD)) : Prop :=
  forall w ps t r e ps' w', sys_poll w ps t = (r, e, ps', w') -> Inv w ->
    Inv w' /\ Forall (fun r => need r w -> need r w') rs.

Abbreviation respectful := (ForallOrdPairs (fun r r' => respects r r' /\ respects r' r)).

(** Rules matched with the events that were asked for. *)
Definition asked (w : W) (r : Rule W FD) (ev : Z) : Prop := ev = 0 \/ need r w.

Lemma respectful_tail r rs : respectful (r :: rs) -> Forall (respects r) rs /\ respectful rs.
Proof. inversion 1 as [|?? Hf]; subst. split; [|done]. eapply Forall_impl; [exact Hf|by intros ? []]. Qed.

Lemma asked_mono (w w' : W) rs evs :
  Forall (fun r => need r w -> need r w') rs -> Forall2 (asked w) rs evs -> Forall2 (asked w') rs evs.
Proof.
  intros Hm. induction 1 as [|r ev rs evs Hr _ IH]; [constructor|].
  apply Forall_cons in Hm as [Hr' Hm]. constructor; [|by apply IH]. destruct Hr; [by left|right; auto].
Qed.

Lemma setup_spec rules w :
  Forall served rules -> respectful rules -> Inv w ->
  match setup rules w with
  | Throw e => allowed e
  | Ok (rs, ps, something, w') =>
      Inv w' /\ sublist rs rules /\ Forall2 (asked w') rs (map events ps) /\
      (forall r0, Forall (fun r => respects r r0) rules -> need r0 w -> need r0 w')
  end.
Proof.
  intros Hs. revert w. induction Hs as [|r rules Hr Hs IH]; intros w Hp HI; cbn [setup].
  { split_and!; [done|constructor|constructor|done]. }
  inversion Hp as [|?? Hf Hp']; subst.
  assert (Hcancel : match (w ← cancel r w; setup rules w) with
    | Throw e => allowed e
    | Ok (rs, ps, something, w') =>
        Inv w' /\ sublist rs (r :: rules) /\ Forall2 (asked w') rs (map events ps) /\
          (forall r0, Forall (fun r => respects r r0) (r :: rules) -> need r0 w -> need r0 w')
    end).
  { pose proof (served_cancel r Hr w HI) as Hc. destruct (cancel r w) as [w1|] eqn:Ec; [|done].
    cbn [mbind result_bind]. specialize (IH w1 Hp' Hc).
    destruct (setup rules w1) as [[[[rs ps] b] w2]|]; [|done].
    destruct IH as (H1 & H2 & H3 & H5). split_and!; try done; [by constructor|].
    intros r0 [Hr0 Hf0]%Forall_cons Hn. apply H5; [done|]. exact (proj1 (Hr0 w w1 HI Hn) Ec). }
  destruct (match direction r with In => _ | Out => false end); [done|].
  destruct (_closed _); [done|]. clear Hcancel. specialize (IH w Hp' HI).
  destruct (setup rules w) as [[[[rs ps] b] w2]|]; [|done]. cbn [mbind result_bind].
  destruct IH as (H1 & H2 & H3 & H5). split_and!; try done; [by constructor| |].
  - constructor; [|done]. cbn. destruct (interest r w) eqn:Ei; [right|by left].
    apply H5; [eapply Forall_impl; [exact Hf|by intros ? []]|]. by apply Hr.
  - intros r0 [_ Hf0]%Forall_cons. by apply H5.
Qed.

Lemma serve_spec r w :
  served r -> Inv w -> need r w ->
  match serve r w with
  | Throw e => allowed e
  | Ok w' => Inv w' /\ callback r w = Ok w'
  end.
Proof.
  intros Hr HI Hn. unfold serve. pose proof (served_callback r Hr w HI Hn) as Hc.
  destruct (callback r w) as [w'|]; [|done]. cbn [mbind result_bind]. destruct Hc as [HI1 Hb].
  destruct (Z.eqb_spec (service_count r w) (service_count r w')); [|done].
  destruct Hb as [Hb|Hb]; [congruence|by rewrite Hb].
Qed.

(** What a round of the second loop may throw. *)
Definition round_error (e : exn) : Prop :=
  allowed e \/ e = runtime_error "EventLoop: error on polled file descriptor".

Lemma results_spec rules pollfds idx w :
  Forall served rules -> respectful rules -> Inv w ->
  Forall2 (asked w) rules (map events (drop idx pollfds)) ->
  match results rules pollfds idx w with
  | Throw e => round_error e
  | Ok (rs, w') => Inv w' /\ sublist rs rules
  end.
Proof.
  intros Hs. revert idx w. induction Hs as [|r rules Hr Hs IH]; intros idx w Hp HI Ha; cbn [results].
  { split; [done|constructor]. }
  destruct (respectful_tail r rules Hp) as [Hf Hp'].
  destruct (pollfds !! idx) as [p|] eqn:Ep.
  2:{ rewrite drop_ge in Ha by by apply lookup_ge_None. inversion Ha. }
  rewrite (drop_S _ _ _ Ep) in Ha. cbn [map] in Ha. apply Forall2_cons in Ha as [Har Ha].
  assert (Hnext : forall w', Inv w' -> Forall (fun r => need r w -> need r w') rules ->
    match results rules pollfds (S idx) w' with
    | Throw e => round_error e
    | Ok (rs, w') => Inv w' /\ sublist rs rules end)
    by (intros w' HI' Hm; apply IH; [done|done|by eapply asked_mono]).
  destruct (negb _); [by right|]. destruct (_ && _).
  { pose proof (served_cancel r Hr w HI) as Hc. destruct (cancel r w) as [w1|] eqn:Ec; [|by left].
    cbn [mbind result_bind]. specialize (Hnext w1 Hc).
    destruct (results rules pollfds (S idx) w1) as [[rs w2]|].
    - destruct Hnext as [H1 H2]; [|by split; [|constructor]].
      eapply Forall_impl; [exact Hf|]. intros r' Hr' Hn. exact (proj1 (Hr' w w1 HI Hn) Ec).
    - apply Hnext. eapply Forall_impl; [exact Hf|]. intros r' Hr' Hn. exact (proj1 (Hr' w w1 HI Hn) Ec). }
  destruct (Z.eqb_spec (Z.land (revents p) (events p)) 0) as [E|E]; cbn [negb mbind result_bind].
  - specialize (Hnext w HI). destruct (results rules pollfds (S idx) w) as [[rs w2]|].
    + destruct Hnext as [H1 H2]; [by apply Forall_true|]. split; [done|by constructor].
    + apply Hnext. by apply Forall_true.
  - destruct Har as [Har|Hn]; [by rewrite Har, Z.land_0_r in E|].
    pose proof (serve_spec r w Hr HI Hn) as Hsv. destruct (serve r w) as [w1|]; [|by left].
    destruct Hsv as [HI1 Hc]. cbn [mbind result_bind].
    assert (Hm : Forall (fun r => need r w -> need r w1) rules)
      by (eapply Forall_impl; [exact Hf|]; intros r' Hr' Hn'; exact (proj2 (Hr' w w1 HI Hn') Hn Hc)).
    specialize (Hnext w1 HI1 Hm). destruct (results rules pollfds (S idx) w1) as [[rs w2]|]; [|done].
    destruct Hnext. split; [done|by constructor].
Qed.

Lemma served_sublist rs rules : sublist rs rules -> Forall served rules -> Forall served rs.
Proof. intros Hsub. rewrite !Forall_forall. eauto using elem_of_sublist. Qed.

Lemma respectful_sublist rs rules : sublist rs rules -> respectful rules -> respectful rs.
Proof.
  intros Hsub. induction Hsub as [|r rs rules Hsub IH|r rs rules Hsub IH]; [done| |].
  - inversion 1 as [|?? Hf Hp]; subst. constructor; [|by apply IH].
    rewrite Forall_forall in Hf |- *. intros r' Hr'. apply Hf. by eapply elem_of_sublist.
  - inversion 1; subst. by apply IH.
Qed.

Lemma wait_next_event_lem rules timeout_ms w :
  Forall served rules -> respectful rules -> poll_respects rules -> Inv w ->
  match wait_next_event rules timeout_ms w with
  | Throw e => round_error e
  | Ok (_, rs, w') => Inv w' /\ sublist rs rules
  end.
Proof.
  intros Hs Hp Hpoll HI. unfold wait_next_event. pose proof (setup_spec rules w Hs Hp HI) as Hset.
  destruct (setup rules w) as [[[[rs ps] b] w1]|]; [|by left]. cbn [mbind result_bind].
  destruct Hset as (HI1 & Hsub & Ha & _). destruct (negb b); [done|].
  destruct (sys_poll w1 ps timeout_ms) as [[[r e] ps'] w2] eqn:Ep.
  destruct (poll_value _ _ _ _ _ _ _ Ep) as [Hv He]. destruct (Hpoll _ _ _ _ _ _ _ Ep HI1) as [HI2 Hn].
  pose proof (results_spec rs ps' 0 w2 (served_sublist _ _ Hsub Hs) (respectful_sublist _ _ Hsub Hp) HI2) as Hres.
  rewrite drop_0, (poll_array _ _ _ _ _ _ _ Ep) in Hres. cbn zeta.
  assert (Hrest : match ('(_rules, w) ← results rs ps' 0 w2; Ok (Success, _rules, w)) with
    | Throw e => round_error e | Ok (_, rs, w') => Inv w' /\ sublist rs rules end).
  { assert (Ha2 : Forall2 (asked w2) rs (map events ps)).
    { eapply asked_mono; [|exact Ha]. rewrite Forall_forall in Hn |- *. intros x Hx. apply Hn.
      by eapply elem_of_sublist. }
    specialize (Hres Ha2). destruct (results rs ps' 0 w2) as [[rs' w3]|]; [|done].
    destruct Hres. split; [done|by etransitivity]. }
  destruct (SystemCall_spec "poll" r e Hv He) as [[_ ->]|[_ ->]].
  - by destruct (r =? 0).
  - by destruct (e =? EINTR).
Qed.

Lemma wait_next_event_waited rules timeout_ms w ret rs w' :
  wait_next_event rules timeout_ms w = Ok (ret, rs, w') -> waited rules timeout_ms w ret rs w'.
Proof.
  unfold wait_next_event. destruct (setup rules w) as [[[[kept ps] b] w1]|] eqn:Es; [|done].
  cbn [mbind result_bind]. intros Hw. destruct (setup_swept _ _ _ _ _ _ Es) as [Hs Hb]. exists kept, ps, w1. split; [done|].
  destruct b; cbn [negb] in Hw.
  2:{ rewrite bool_decide_eq_true_2 by by apply Hb. by simplify_eq. }
  rewrite bool_decide_eq_false_2 by (intros Hf%Hb; done).
  destruct (sys_poll w1 ps timeout_ms) as [[[n e] ps'] w2] eqn:Ep. exists n, e, ps', w2. split; [done|].
  destruct (poll_value _ _ _ _ _ _ _ Ep) as [Hv He]. cbn zeta in Hw.
  destruct (SystemCall_spec "poll" n e Hv He) as [[Hn Hc]|[Hn Hc]]; rewrite Hc in Hw.
  - destruct (Z.eqb_spec n 0) as [->|]; [simplify_eq; by left|].
    destruct (results kept ps' 0 w2) as [[rs1 w3]|] eqn:Er; [|done]. cbn [mbind result_bind] in Hw. simplify_eq.
    apply results_answered in Er. rewrite drop_0 in Er. right; right. split; [lia|done].
  - right; left. split; [done|]. destruct (Z.eqb_spec e EINTR) as [->|Hne]; [by simplify_eq|].
    destruct (setup_pollfds _ _ _ _ _ _ Es) as [Hlen Hq].
    rewrite (poll_fails _ _ _ _ _ _ _ Ep Hn), results_quiet in Hw by (done || lia).
    cbn [mbind result_bind] in Hw. by simplify_eq.
Qed.

End client.

(** A second invariant that the rules keep under the first. *)
Section both.
Context {W FD : Type} `{World W FD} (Inv Inv2 : W -> Prop) (need : Rule W FD -> W -> Prop) (allowed : exn -> Prop).

Lemma served_both r :
  served Inv need allowed r -> (forall w w', Inv w -> Inv2 w -> cancel r w = Ok w' -> Inv2 w') ->
  (forall w w', Inv w -> Inv2 w -> need r w -> callback r w = Ok w' -> Inv2 w') ->
  served (fun w => Inv w /\ Inv2 w) need allowed r.
Proof.
  intros [H1 H2 H3] Hc Hb. constructor.
  - intros w [Hi _]. by apply H1.
  - intros w [Hi Hi2]. specialize (H2 w Hi). destruct (cancel r w) eqn:E; [|done]. split; [done|by eapply Hc].
  - intros w [Hi Hi2] Hn. specialize (H3 w Hi Hn). destruct (callback r w) eqn:E; [|done].
    destruct H3. split; [|done]. split; [done|by eapply Hb].
Qed.

Lemma respectful_both rs :
  ForallOrdPairs (fun r r' => respects Inv need r r' /\ respects Inv need r' r) rs ->
  ForallOrdPairs (fun r r' => respects (fun w => Inv w /\ Inv2 w) need r r' /\
                              respects (fun w => Inv w /\ Inv2 w) need r' r) rs.
Proof.
  induction 1 as [|r rs Hf _ IH]; constructor; [|done]. eapply Forall_impl; [exact Hf|].
  intros r' [H1 H2]. split; intros w w' [Hi _]; [by apply H1|by apply H2].
Qed.
End both.

(** A failing [poll] goes unnoticed. When [poll] fails with anything but [EINTR],
    the exception is swallowed: no rule is served, and the call reports
    [Success], although its description promises an exception. *)
Theorem poll_error_swallowed {W FD} `{PollLaws W FD} (rules : list (Rule W FD)) timeout_ms w rs ps w1 r e ps' w2 :
  setup rules w = Ok (rs, ps, true, w1) -> sys_poll w1 ps timeout_ms = (r, e, ps', w2) ->
  r < 0 -> e <> EINTR ->
  wait_next_event rules timeout_ms w = Ok (Success, rs, w2).
Proof.
  intros Hs Hp Hr He. unfold wait_next_event. rewrite Hs. cbn [mbind result_bind negb]. rewrite Hp.
  destruct (poll_value _ _ _ _ _ _ _ Hp) as [Hv He0].
  destruct (SystemCall_spec "poll" r e Hv He0) as [[? _]|[_ ->]]; [lia|].
  destruct (Z.eqb_spec e EINTR); [done|]. rewrite (poll_fails _ _ _ _ _ _ _ Hp Hr).
  destruct (setup_pollfds _ _ _ _ _ _ Hs) as [Hlen Hq]. rewrite results_quiet by (done || lia). done.
Qed.

(** ** An example world

    One descriptor, which is always ready; the flag says whether [poll] fails. *)
#[export] Instance example_world : World (FDWrapper * bool) unit := {
  fdw := fun w _ => w.1;
  sys_poll := fun w ps _ =>
    if w.2 then (-1, 22, ps, w)
    else (Z.min 1 (zlen ps), 0,
          map (fun p => {| pfd := pfd p; events := events p; revents := events p |}) ps, w)
}.

#[export] Instance example_poll_laws : PollLaws (FDWrapper * bool) unit.
Proof.
  split; cbn; intros [f []] ps t r e ps' w'; cbn; intros [= <- <- <- <-];
    pose proof (zlen_nonneg ps); try done; try lia. by rewrite map_map.
Qed.

(** A rule that reads whenever it can. *)
Definition example_rule : Rule (FDWrapper * bool) unit :=
  {| fd := (); direction := In; callback := fun w => Ok (register_read w.1, w.2);
     interest := always; cancel := nothing |}.

Definition example_fd : FDWrapper :=
  {| _fd := 3; _eof := false; _closed := false; _read_count := 7; _write_count := 0 |}.

(** A rule that has no interest, and one whose descriptor would have to be at
    its end to be erased: both stay, and only the first rule's callback runs. *)
Definition idle_rule : Rule (FDWrapper * bool) unit :=
  {| fd := (); direction := Out; callback := fun _ => Throw (runtime_error "called");
     interest := fun _ => false; cancel := fun _ => Throw (runtime_error "cancelled") |}.


Lemma poll_error_swallowed_witness :
  wait_next_event [example_rule] 10 (example_fd, true) = Ok (Success, [example_rule], (example_fd, true)).
Proof.
  apply (poll_error_swallowed [example_rule] 10 (example_fd, true) [example_rule]
    [{| pfd := 3; events := 1; revents := 0 |}] (example_fd, true) (-1) 22
    [{| pfd := 3; events := 1; revents := 0 |}] (example_fd, true)); [reflexivity|reflexivity|lia|].
  unfold EINTR. lia.
Defined.
