(* ===== verification/Emission.v ===== *)
(** * What a connection hands to the network

    Every segment that a [TCPConnection] queues has a header whose fields fit
    the wire format, without options, and a payload of at most
    [MAX_PAYLOAD_SIZE] bytes: it can be serialized, and the peer's adapter
    accepts it. The invariant follows the segments from [fill_window] through
    the retransmission list and the two queues. *)

From S2P Require Import Prelude WrappingIntegers ByteStream StreamReassembler ReassemblerProps Buffer TCPHeader TCPSegment TCPReceiver TCPSender TCPState TCPConnection.

Definition sendable (seg : TCPSegment) : Prop :=
  wf_TCPHeader (header seg) /\ doff (header seg) = 5 /\
  zlen (str (payload seg)) <= MAX_PAYLOAD_SIZE.

(** ** The sender *)

Lemma default_header_wf : wf_TCPHeader default_TCPHeader.
Proof. constructor; vm_compute; done. Qed.

Lemma set_seqno_wf h v : wf_TCPHeader h -> wi_wf v -> wf_TCPHeader (set_seqno h v).
Proof. by intros [] ?; constructor. Qed.
Lemma set_syn_wf h : wf_TCPHeader h -> wf_TCPHeader (set_syn h).
Proof. by intros []; constructor. Qed.
Lemma set_fin_wf h : wf_TCPHeader h -> wf_TCPHeader (set_fin h).
Proof. by intros []; constructor. Qed.
#[local] Hint Resolve default_header_wf set_seqno_wf set_syn_wf set_fin_wf wi_wf_wrap : sponge.

Lemma build_segment_sendable win s : sendable (build_segment win s).1.
Proof.
  unfold build_segment, sendable. set (n := Z.min MAX_PAYLOAD_SIZE _).
  assert (0 <= n) by (subst n; apply Z.min_glb; [vm_compute; done|apply u64_range]).
  assert (Hlen : zlen (ByteStream.read (_stream s) n).1 <= MAX_PAYLOAD_SIZE).
  { unfold ByteStream.read. cbn [fst]. rewrite peek_output_take, zlen_take by done. subst n. lia. }
  destruct (ByteStream.read (_stream s) n) as [pl st]. cbn [fst] in *. cbn [header payload _header _payload].
  rewrite str_new. unfold next_seqno.
  destruct (negb (_fin s) && _ && _), (_syn s); (split; [|split; [done|done]]); auto 6 with sponge.
Qed.

Lemma map_insert_Forall {A} (P : Z * A -> Prop) k v l :
  P (k, v) -> Forall P l -> Forall P (map_insert k v l).
Proof.
  intros Hk. induction 1 as [|[k' v'] l Hx Hl IH]; cbn [map_insert]; [by constructor|].
  destruct (k <? k'); [by repeat constructor|]. destruct (k =? k'); by constructor.
Qed.

(** A predicate of every segment that the sender builds, on its queue and on
    the segments it keeps. *)
Definition empty_segment (s : TCPSender) : TCPSegment :=
  {| _header := set_seqno default_TCPHeader (next_seqno s); _payload := empty_Buffer |}.

Class Built (P : TCPSegment -> Prop) : Prop := {
  built_segment : forall win s, P (build_segment win s).1;
  built_empty : forall s, P (empty_segment s)
}.

Record snd_emits (P : TCPSegment -> Prop) (s : TCPSender) : Prop := {
  emits_queue : Forall P (TCPSender._segments_out s);
  emits_outgoing : Forall (fun p => P p.2) (_segments_outgoing s)
}.

Section sender.
Context (P : TCPSegment -> Prop) `{!Built P}.

Lemma fill_window_loop_emits fuel win s s' :
  snd_emits P s -> fill_window_loop fuel win s = Some s' -> snd_emits P s'.
Proof.
  revert s. induction fuel as [|fuel IH]; intros s H; cbn [fill_window_loop]; [done|].
  destruct (negb _); [by intros [= <-]|].
  pose proof (built_segment win s) as Hb. destruct (build_segment win s) as [seg st]. cbn [fst] in Hb.
  destruct (_ =? 0). { intros [= <-]. by destruct H. }
  assert (Hp : snd_emits P (push_segment s seg st)).
  { destruct H. constructor; cbn; [|by apply map_insert_Forall].
    apply Forall_app. split; [done|by apply Forall_singleton]. }
  destruct (TCPHeader.fin _); [by intros [= <-]|by apply IH].
Qed.

Lemma fill_window_emits s : snd_emits P s -> snd_emits P (fill_window s).
Proof.
  intros H. unfold fill_window. destruct (fill_window_loop _ _ s) eqn:E; [|done].
  by apply (fill_window_loop_emits _ _ _ _ H E).
Qed.

Lemma ack_loop_suffix a l o r : exists k, l = k ++ (ack_loop a l o r).1.1.
Proof.
  revert o r. induction l as [|[k seg] l IH]; intros o r; cbn [ack_loop]; [by exists []|].
  destruct (_ <=? a); [|by exists []].
  destruct (IH (u64 (o - length_in_sequence_space seg)) true) as [k' Hk]. exists ((k, seg) :: k').
  by rewrite <- app_comm_cons, <- Hk.
Qed.

Lemma ack_received_emits s n w : snd_emits P s -> snd_emits P (ack_received s n w).
Proof.
  intros [H1 H2]. unfold ack_received. destruct (_ <? _); [done|].
  pose proof (ack_loop_suffix (unwrap n (TCPSender._isn s) (_next_seqno s)) (_segments_outgoing s) (_outgoing_bytes s) false) as [k Hk].
  destruct (ack_loop _ _ _ _) as [[l o] r]. cbn [fst] in Hk. rewrite Hk in H2. apply Forall_app in H2 as [_ H2].
  by apply fill_window_emits.
Qed.

Lemma tick_emits s ms : snd_emits P s -> snd_emits P (TCPSender.tick s ms).
Proof.
  intros [H1 H2]. unfold TCPSender.tick. destruct (_segments_outgoing s) as [|[k seg] l] eqn:E; [by constructor|].
  destruct (_ <=? _); constructor; cbn; rewrite ?E; try done. apply Forall_app. split; [done|].
  apply Forall_cons in H2 as [H2 _]. by apply Forall_singleton.
Qed.

Lemma send_empty_emits s : snd_emits P s -> snd_emits P (send_empty_segment s).
Proof.
  intros [H1 H2]. constructor; [|done]. cbn. apply Forall_app. split; [done|].
  apply Forall_singleton, built_empty.
Qed.

Lemma on_stream_emits f s : snd_emits P s -> snd_emits P (on_stream_in f s).
Proof. by intros []; constructor. Qed.

Lemma clear_emits s : snd_emits P s -> snd_emits P (clear_segments_out s).
Proof. intros []. constructor; [apply Forall_nil_2|done]. Qed.

End sender.

#[export] Instance sendable_built : Built sendable.
Proof.
  constructor; [apply build_segment_sendable|]. intros s. unfold empty_segment, next_seqno.
  split; [cbn; auto with sponge|]. split; [done|]. vm_compute. done.
Qed.

(** ** The connection *)

Record conn_emits (c : TCPConnection) : Prop := {
  emits_sender : snd_emits sendable (_sender c);
  emits_out : Forall sendable (_segments_out c)
}.

Lemma on_sender_emits f c : (forall s, snd_emits sendable s -> snd_emits sendable (f s)) -> conn_emits c -> conn_emits (on_sender f c).
Proof. intros Hf []. constructor; [by apply Hf|done]. Qed.

Lemma set_ack_wf h n w : wf_TCPHeader h -> wi_wf n -> 0 <= w < 2 ^ 16 -> wf_TCPHeader (set_ack h n w).
Proof. by intros [] ? ?; constructor. Qed.

Lemma stamp_sendable r seg : sendable seg -> sendable (stamp r seg).
Proof.
  intros (Hw & Hd & Hp). unfold stamp.
  assert (Ha : forall n, TCPReceiver.ackno r = Some n -> wi_wf n).
  { intros n. unfold TCPReceiver.ackno. destruct (negb _); [done|].
    destruct (ByteStream.input_ended _); intros [= <-]; apply wi_wf_wrap. }
  destruct (TCPReceiver.ackno r) as [n|]; [|done]. split; [|done].
  apply set_ack_wf; [done|by apply Ha|apply u16_range].
Qed.

Lemma send_segments_emits c : conn_emits c -> conn_emits (send_segments c).
Proof.
  intros [[H1 H2] H3]. destruct (send_segments_parts c) as (_ & E2 & E3 & _).
  constructor; rewrite ?E2, ?E3; [by constructor|]. apply Forall_app. split; [done|].
  apply Forall_fmap. eapply Forall_impl; [exact H1|]. intros seg. apply stamp_sendable.
Qed.

Lemma set_receiver_emits c r : conn_emits c -> conn_emits (set_receiver c r).
Proof. by intros []; constructor. Qed.
Lemma set_time_emits c t : conn_emits c -> conn_emits (set_time c t).
Proof. by intros []; constructor. Qed.
Lemma set_inactive_emits c : conn_emits c -> conn_emits (set_inactive c).
Proof. by intros []; constructor. Qed.

Create HintDb emits.
#[export] Hint Resolve sendable_built fill_window_emits ack_received_emits tick_emits send_empty_emits on_stream_emits
  on_sender_emits send_segments_emits set_receiver_emits set_time_emits set_inactive_emits : emits.

Lemma connect_emits c : conn_emits c -> conn_emits (connect c).
Proof. intros H. unfold connect. change (set_sender c _) with (on_sender fill_window c). auto with emits. Qed.

Lemma sender_ack_emits seg c : conn_emits c -> conn_emits (sender_ack seg c).
Proof. intros. unfold sender_ack. auto with emits. Qed.
#[export] Hint Resolve connect_emits sender_ack_emits : emits.

Lemma segment_received_emits c seg c' :
  conn_emits c -> segment_received c seg = Ok c' -> conn_emits c'.
Proof.
  intros Hc Hr. eapply (segment_received_closed conn_emits seg); [|done..].
  constructor; intros; auto 8 with emits. revert H1. unfold receiver_segment.
  destruct (TCPReceiver.segment_received _ _); [|done]. intros [= <-]. auto with emits.
Qed.

Lemma reset_emits c : conn_emits c -> conn_emits (reset_connection c).
Proof.
  intros [[] Ho]. constructor; [by constructor|].
  unfold reset_connection. cbn. apply Forall_app. split; [done|]. apply Forall_singleton.
  split; [constructor; vm_compute; done|]. split; [done|]. vm_compute. done.
Qed.

Lemma conn_tick_emits c ms : conn_emits c -> conn_emits (tick c ms).
Proof.
  intros H. unfold tick. destruct (negb _); [done|]. set (c1 := on_sender _ _).
  assert (Hc1 : conn_emits c1) by (subst c1; auto with emits).
  destruct (_ <? _); [by apply reset_emits|auto with emits].
Qed.

Lemma write_emits c data : conn_emits c -> conn_emits (write c data).2.
Proof.
  intros H. unfold write. destruct data; [done|]. destruct (ByteStream.write _ _). cbn. auto 8 with emits.
Qed.

Lemma end_input_emits c : conn_emits c -> conn_emits (end_input_stream c).
Proof. intros H. unfold end_input_stream. auto 8 with emits. Qed.

Lemma new_emits cfg rnd : conn_emits (new_TCPConnection cfg rnd).
Proof. by repeat constructor. Qed.

Lemma set_segments_out_emits c q : conn_emits c -> Forall sendable q -> conn_emits (set_segments_out c q).
Proof. by intros []; constructor. Qed.

(** ** Properties *)

(** Any call on a connection: by the application, the timer or the network. *)
Inductive conn_step (c : TCPConnection) : TCPConnection -> Prop :=
| step_connect : conn_step c (connect c)
| step_write data : conn_step c (write c data).2
| step_end : conn_step c (end_input_stream c)
| step_tick ms : conn_step c (tick c ms)
| step_receive seg c' : segment_received c seg = Ok c' -> conn_step c c'
| step_inbound f : conn_step c (on_inbound_stream f c)
| step_transmit : conn_step c (set_segments_out c []).

Lemma conn_step_emits c c' : conn_step c c' -> conn_emits c -> conn_emits c'.
Proof.
  intros Hs Hc; destruct Hs; eauto using connect_emits, write_emits, end_input_emits, conn_tick_emits,
    segment_received_emits, set_receiver_emits, set_segments_out_emits.
Qed.

(** C22: What a connection emits fits a datagram. After any calls, every segment in
    the queue of a connection has a header whose fields fit their widths,
    without options, and at most [MAX_PAYLOAD_SIZE] bytes of payload. *)
Theorem emitted_fits_datagram cfg rnd c :
  rtc conn_step (new_TCPConnection cfg rnd) c -> Forall sendable (TCPConnection.segments_out c).
Proof.
  intros H. apply emits_out. revert H. generalize (new_emits cfg rnd).
  induction 2 as [|x y z Hs _ IH]; eauto using conn_step_emits.
Qed.

Lemma emitted_fits_datagram_witness :
  Forall sendable (TCPConnection.segments_out (write (connect (new_TCPConnection test_config 0)) [Byte.x61]).2) /\
  TCPConnection.segments_out (connect (new_TCPConnection test_config 0)) <> [].
Proof.
  split; [|vm_compute; discriminate]. apply (emitted_fits_datagram test_config 0).
  eapply rtc_l; [apply step_connect|]. eapply rtc_l; [apply step_write|]. apply rtc_refl.
Defined.
