(* ===== verification/AdapterIO.v ===== *)
(** * Adapters on descriptors

    The adapters of [FdAdapter] and [TCPOverIP] joined with the descriptors they
    read and write: the interface [AdaptT] that the template parameter of
    [TCPSpongeSocket] must have ([src/libsponge/tcp_helpers/fd_adapter.hh],
    [lossy_fd_adapter.hh], [tuntap_adapter.hh]), its four instances, and what they
    promise for any bytes that arrive. *)

From S2P Require Import Prelude WrappingIntegers ByteStream StreamReassembler Buffer Parser InternetChecksum TCPHeader TCPSegment TCPReceiver TCPSender TCPState TCPConnection IPv4Header IPv4Datagram FdAdapter TCPOverIP FileDescriptor Socket Emission.

(** ** Interfaces *)

(** The bytes of a datagram or message. *)
Class Wire (X : Type) := wire_bytes : X -> list byte.

(** What an adapter does with its descriptor. *)
Class Device (K In Out : Type) := {
  receive : FDWrapper -> K -> result (In * FDWrapper * K);
  transmit : FDWrapper -> K -> Out -> result (FDWrapper * K)
}.

(** What [TCPSpongeSocket] uses of its adapter. *)
Class AdaptT (A Address K : Type) := {
  at_config : A -> FdAdapterConfig Address;
  at_set_config : A -> FdAdapterConfig Address -> A;
  at_set_listening : A -> bool -> A;
  at_tick : A -> Z -> A;
  at_read : A -> FDWrapper -> K -> result (option TCPSegment * A * FDWrapper * K);
  at_write : A -> FDWrapper -> K -> TCPSegment -> result (A * FDWrapper * K)
}.

(** Exceptions that come from the descriptor. *)
Definition io_error (e : exn) : Prop :=
  (exists attempt code, e = unix_error attempt code) \/
  e = runtime_error "recvfrom (oversized datagram)" \/
  e = runtime_error "write returned 0 given non-empty input buffer".

(** The laws of the three interfaces: a read is counted, yields at most what
    fits a segment, and touches no other descriptor; any bytes that arrive are
    handled without an exception, and a segment that results fits the wire
    format; a segment that a connection emits can be written. *)
Class DeviceLaws (K In Out : Type) `{Device K In Out} `{Wire In} `{Wire Out} `{Streams K} := {
  receive_law : forall w k, match receive w k with
    | Throw e => io_error e
    | Ok (i, w', k') => zlen (wire_bytes i) < 2 ^ 32 /\ same_fd w w' /\
        _read_count w' = u32 (_read_count w + 1) /\ (forall f, f <> _fd w -> untouched f k k')
    end;
  transmit_law : forall w k (out : Out), zlen (wire_bytes out) < 2 ^ 63 -> match transmit w k out with
    | Throw e => io_error e
    | Ok (w', k') => same_fd w w' /\ _eof w' = _eof w /\ (forall f, f <> _fd w -> untouched f k k')
    end
}.

Class AdapterSafe (A Address In Out : Type) `{FdAdapter A Address In Out} `{Wire In} `{Wire Out} := {
  read_safe : forall a i, zlen (wire_bytes i) < 2 ^ 32 ->
    exists o a', adapter_read a i = Ok (o, a') /\ (forall seg, o = Some seg -> wire_ok seg);
  write_safe : forall a seg, sendable seg ->
    exists out, adapter_write a seg = Ok out /\ zlen (wire_bytes out) < 2 ^ 63
}.

Class AdaptLaws (A Address K : Type) `{AdaptT A Address K} `{Streams K} := {
  at_read_law : forall a w k, match at_read a w k with
    | Throw e => io_error e
    | Ok (o, _, w', k') => (forall seg, o = Some seg -> wire_ok seg) /\ same_fd w w' /\
        _read_count w' = u32 (_read_count w + 1) /\ (forall f, f <> _fd w -> untouched f k k')
    end;
  at_write_law : forall a w k seg, sendable seg -> match at_write a w k seg with
    | Throw e => io_error e
    | Ok (_, w', k') => same_fd w w' /\ _eof w' = _eof w /\ (forall f, f <> _fd w -> untouched f k k')
    end
}.

(** ** Descriptors *)

#[export] Instance datagram_wire Address : Wire (received_datagram Address) := datagram_payload.
#[export] Instance message_wire Address : Wire (Address * BufferList) := fun m => bl_concatenate m.2.
#[export] Instance bytes_wire : Wire (list byte) := fun b => b.
#[export] Instance buffers_wire : Wire BufferList := bl_concatenate.

(** A UDP socket: [recv()] with the default size and [sendto]. *)
#[export] Instance udp_device {K Address} `{SocketKernel K Address} :
  Device K (received_datagram Address) (Address * BufferList) := {
  receive := fun w k => recv w k 65536;
  transmit := fun w k out => sendto w k out.1 (bvl_of_BufferList out.2)
}.

(** A TUN device: [read()] without a limit and [write]. *)
#[export] Instance tun_device {K} `{Kernel K} : Device K (list byte) BufferList := {
  receive := fun w k => FileDescriptor.read w k ULONG_LONG_MAX;
  transmit := fun w k out =>
    '(_, w, k) ← FileDescriptor.write w k (bvl_of_BufferList out) true; Ok (w, k)
}.

Lemma bvl_of_BufferList_concat l : concat (bvl_of_BufferList l) = bl_concatenate l.
Proof.
  unfold bvl_of_BufferList. induction l as [|b l IH]; [done|].
  rewrite bl_concatenate_cons, <- IH. done.
Qed.

Lemma write_error_io e : write_error e -> io_error e.
Proof. intros [[c ->]| ->]; [left; eauto|by right; right]. Qed.

#[export] Instance udp_device_laws {K Address} `{SocketLaws K Address} :
  DeviceLaws K (received_datagram Address) (Address * BufferList).
Proof.
  split.
  - intros w k. cbn [receive udp_device].
    destruct (recv_spec w k 65536) as [(e & -> & He)|(dg & k' & e & -> & _ & Hl & Hu)]; [lia| |].
    + destruct He as [->|[c ->]]; [by right; left|left; eauto].
    + unfold wire_bytes, datagram_wire. split; [lia|]. split; [done|]. split; [done|auto].
  - intros w k [dest bl] Hl. cbn [transmit udp_device fst snd].
    destruct (sendto_spec w k dest (bvl_of_BufferList bl)) as [[c ->]|(k' & -> & _ & Hu)];
      [by rewrite bvl_of_BufferList_concat|left; eauto|]. split; [done|]. split; [done|auto].
Qed.

#[export] Instance tun_device_laws {K} `{KernelLaws K} : DeviceLaws K (list byte) BufferList.
Proof.
  split.
  - intros w k. cbn [receive tun_device].
    destruct (fd_read_spec w k ULONG_LONG_MAX) as [[c ->]|(data & w1 & k' & -> & Hl & _ & _ & Hu & Hw)];
      [unfold ULONG_LONG_MAX; lia|left; eauto|]. unfold BUFFER_SIZE, wire_bytes, bytes_wire in *.
    split; [lia|]. destruct ((_ <? _) && _); subst w1; done.
  - intros w k bl Hl. cbn [transmit tun_device]. unfold FileDescriptor.write.
    pose proof (zlen_nonneg (bl_concatenate bl)). unfold wire_bytes, buffers_wire in Hl.
    rewrite bvl_size_concat by (rewrite bvl_of_BufferList_concat; lia).
    destruct (write_loop_spec (S (Z.to_nat (zlen (concat (bvl_of_BufferList bl))))) w k
      (bvl_of_BufferList bl) true 0) as [(e & -> & He)|(n & w' & k' & -> & _ & _ & _ & _ & Hu & Hs & He & _)];
      [lia|lia|rewrite bvl_of_BufferList_concat; lia|by apply write_error_io|done].
Qed.

(** ** Adapters that survive any input *)

Lemma parsed_wire_ok seg (buf : Buffer) :
  zlen (str buf) < 2 ^ 32 ->
  wi_wf (seqno (TCPSegment.header seg)) /\ wi_wf (TCPHeader.ackno (TCPSegment.header seg)) /\
  0 <= win (TCPSegment.header seg) < 2 ^ 16 /\
  wf_Buffer (TCPSegment.payload seg) /\ zlen (str (TCPSegment.payload seg)) <= zlen (str buf) ->
  wire_ok seg.
Proof. intros Hb (H1 & H2 & H3 & _ & H5). split; [|done]. split; [done|]. split; [done|lia]. Qed.

Section safe.
Context {Address : Type} `{AddressLaws Address}.

#[export] Instance udp_safe :
  AdapterSafe (FdAdapterBase Address) Address (received_datagram Address) (Address * BufferList).
Proof.
  split.
  - intros a [from bytes] Hl. unfold wire_bytes, datagram_wire in Hl. cbn [datagram_payload] in Hl.
    cbn [adapter_read udp_adapter]. unfold udp_read. cbn [source_address datagram_payload].
    destruct (negb _ && _); [by eexists None, _|].
    destruct (segment_parse_total default_TCPSegment (new_Buffer bytes) 0) as (r & seg & -> & Hok);
      [apply wf_new_Buffer; lia|]. cbn [mbind result_bind].
    destruct (decide (r = NoError)) as [E|E];
      [rewrite bool_decide_eq_true_2 by done|rewrite bool_decide_eq_false_2 by done; by eexists None, _].
    pose proof (parsed_wire_ok seg (new_Buffer bytes) Hl (Hok E)) as Hseg. cbn [negb].
    destruct (listening a); [destruct (syn _ && _)|]; eexists _, _; (split; [done|]); by intros ? [= <-].
  - intros a seg (Hw & Hd & Hp). cbn [adapter_write udp_adapter]. unfold udp_write.
    assert (Hd' : doff (TCPSegment._header (address_segment a seg)) = 5) by exact Hd.
    destruct (segment_serialize_layout (address_segment a seg) 0) as (bl & -> & Hb); [lia|].
    cbn [mbind result_bind]. eexists. split; [done|]. unfold wire_bytes, message_wire. cbn [snd].
    rewrite Hb, !zlen_app, TCPHeader.zlen_before_cksum, zlen_be_bytes, TCPHeader.zlen_after_cksum by lia.
    change (TCPSegment._payload (address_segment a seg)) with (TCPSegment.payload seg).
    unfold MAX_PAYLOAD_SIZE in Hp. lia.
Qed.

Lemma unwrap_safe (a : FdAdapterBase Address) h (b : Buffer) :
  wf_Buffer b -> zlen (str b) < 2 ^ 32 ->
  exists o a', unwrap_tcp_in_ip a {| IPv4Datagram._header := h; IPv4Datagram._payload := [b] |} = Ok (o, a') /\
    (forall seg, o = Some seg -> wire_ok seg).
Proof.
  intros Hb Hl. unfold unwrap_tcp_in_ip. cbn [IPv4Datagram.header IPv4Datagram._header IPv4Datagram.payload IPv4Datagram._payload bl_to_Buffer].
  destruct (negb _ && _); [by eexists None, _|]. destruct (negb _ && _); [by eexists None, _|].
  destruct (negb _); [by eexists None, _|]. cbn [mbind result_bind].
  destruct (segment_parse_total default_TCPSegment b (pseudo_cksum h) Hb) as (r & seg & -> & Hok).
  cbn [mbind result_bind]. destruct (decide (r = NoError)) as [E|E];
    [rewrite bool_decide_eq_true_2 by done|rewrite bool_decide_eq_false_2 by done; by eexists None, _].
  pose proof (parsed_wire_ok seg b Hl (Hok E)) as Hseg. cbn [negb].
  destruct (negb _); [by eexists None, _|]. destruct (_ && negb _); [by eexists None, _|].
  destruct (negb _); [by eexists None, _|]. eexists _, _. split; [done|]. by intros ? [= <-].
Qed.

Lemma tun_write_ok (a : FdAdapterBase Address) seg :
  wf_TCPHeader (TCPSegment.header seg) -> fits seg ->
  exists bl, tun_write a seg = Ok bl /\ zlen (bl_concatenate bl) < 2 ^ 17.
Proof.
  intros Hwf Hfit. set (s := address_segment a seg). set (h := wrap_header a s). unfold fits in Hfit.
  pose proof (wf_doff _ Hwf) as Hd. pose proof (zlen_nonneg (str (TCPSegment.payload seg))) as Hp0.
  assert (Hws : wf_TCPHeader (TCPSegment._header s)) by by apply wf_address_segment.
  pose proof (wf_wrap_header a s) as Hwh. fold h in Hwh. destruct (pseudo_cksum_eq h Hwh) as [_ Hck].
  destruct (segment_roundtrip_lem s default_TCPSegment (pseudo_cksum h) Hws Hck) as (pl & c & Hser & Hlen & _).
  { change (TCPSegment._payload s) with (TCPSegment.payload seg). lia. }
  change (doff (TCPSegment._header s)) with (doff (TCPSegment.header seg)) in Hlen.
  change (TCPSegment._payload s) with (TCPSegment.payload seg) in Hlen.
  assert (Hh : len h = 20 + zlen (bl_concatenate pl)).
  { unfold h. cbn [len wrap_header]. rewrite Hlen. change (hlen default_IPv4Header) with 5.
    change (doff (TCPSegment.header s)) with (doff (TCPSegment.header seg)).
    change (TCPSegment.payload s) with (TCPSegment.payload seg). rewrite u16_small; lia. }
  assert (Hsz : bl_size pl = payload_length h).
  { unfold payload_length. rewrite Hh. change (hlen h) with 5. unfold bl_size. rewrite bl_size_spec, u16_small; lia. }
  unfold tun_write, wrap_tcp_in_ip. fold s. fold h. rewrite Hser. cbn [mbind result_bind].
  rewrite datagram_serialize_layout by done. eexists. split; [done|].
  cbn [app]. rewrite bl_concatenate_cons, str_new, !zlen_app, ip_zlen_before, ip_zlen_after, zlen_be_bytes by done.
  change (hlen _) with 5. cbn [IPv4Datagram._payload]. lia.
Qed.

Lemma tun_safe : @AdapterSafe (FdAdapterBase Address) Address (list byte) BufferList tun_adapter _ _.
Proof.
  split.
  - intros a bytes Hl. unfold wire_bytes, bytes_wire in Hl. cbn [adapter_read tun_adapter]. unfold tun_read.
    destruct (datagram_parse_total default_IPv4Datagram (new_Buffer bytes)) as (r & h & b & -> & Hb & Hlb);
      [apply wf_new_Buffer; lia|]. cbn [mbind result_bind]. rewrite str_new in Hlb.
    destruct (negb _); [by eexists None, _|]. apply unwrap_safe; [done|lia].
  - intros a seg (Hw & Hd & Hp). cbn [adapter_write tun_adapter].
    destruct (tun_write_ok a seg Hw) as (bl & -> & Hl).
    + unfold fits, MAX_PAYLOAD_SIZE in *. lia.
    + eexists. split; [done|]. unfold wire_bytes, buffers_wire. lia.
Qed.
End safe.

(** ** The adapters as the socket sees them *)

Section joined.
Context {A Address In Out K : Type} `{FdAdapter A Address In Out} `{Device K In Out}.

(** [TCPOverUDPSocketAdapter] and [TCPOverIPv4OverTunFdAdapter]. *)
Definition plain_adapt : AdaptT A Address K := {|
  at_config := adapter_config;
  at_set_config := adapter_set_config;
  at_set_listening := adapter_set_listening;
  at_tick := adapter_tick;
  at_read := fun a w k =>
    '(i, w, k) ← receive w k; '(o, a) ← adapter_read a i; Ok (o, a, w, k);
  at_write := fun a w k seg =>
    out ← adapter_write a seg; '(w, k) ← transmit w k out; Ok (a, w, k)
|}.

(** [LossyFdAdapter] around either of them. *)
Definition lossy_adapt {R} (rand : R -> Z * R) : AdaptT (@LossyFdAdapter A R) Address K := {|
  at_config := lossy_config;
  at_set_config := lossy_set_config;
  at_set_listening := lossy_set_listening;
  at_tick := lossy_tick;
  at_read := fun l w k =>
    '(i, w, k) ← receive w k; '(o, l) ← lossy_read rand l i; Ok (o, l, w, k);
  at_write := fun l w k seg =>
    '(out, l) ← lossy_write rand l seg;
    match out with
    | Some out => '(w, k) ← transmit w k out; Ok (l, w, k)
    | None => Ok (l, w, k)
    end
|}.

Context `{!Wire In} `{!Wire Out} `{!Streams K}.
Context `{!AdapterSafe A Address In Out} `{!DeviceLaws K In Out}.

#[export] Instance plain_laws : @AdaptLaws A Address K plain_adapt _.
Proof.
  split.
  - intros a w k. cbn [at_read plain_adapt]. pose proof (receive_law w k) as Hr.
    destruct (receive w k) as [[[i w'] k']|]; [|done]. cbn [mbind result_bind].
    destruct Hr as (Hi & Hs & Hc & Hu). destruct (read_safe a i Hi) as (o & a' & -> & Ho). by split.
  - intros a w k seg Hseg. cbn [at_write plain_adapt]. destruct (write_safe a seg Hseg) as (out & -> & Hl).
    cbn [mbind result_bind]. pose proof (transmit_law w k out Hl) as Ht.
    by destruct (transmit w k out) as [[w' k']|].
Qed.

#[export] Instance lossy_laws {R} (rand : R -> Z * R) : @AdaptLaws (@LossyFdAdapter A R) Address K (lossy_adapt rand) _.
Proof.
  split.
  - intros l w k. cbn [at_read lossy_adapt]. pose proof (receive_law w k) as Hr.
    destruct (receive w k) as [[[i w'] k']|]; [|done]. cbn [mbind result_bind].
    destruct Hr as (Hi & Hs & Hc & Hu). unfold lossy_read.
    destruct (read_safe (_adapter l) i Hi) as (o & a' & -> & Ho). cbn [mbind result_bind].
    destruct (_should_drop rand _ false) as [[] l']; cbn [mbind result_bind]; by split.
  - intros l w k seg Hseg. cbn [at_write lossy_adapt]. unfold lossy_write.
    destruct (_should_drop rand l true) as [[] l']; cbn [mbind result_bind]; [done|].
    destruct (write_safe (_adapter l') seg Hseg) as (out & -> & Hl). cbn [mbind result_bind].
    pose proof (transmit_law w k out Hl) as Ht. by destruct (transmit w k out) as [[w'' k']|].
Qed.
End joined.

(** ** Properties *)

(** The outcome of a read: no exception, and any segment is taken by [c]. *)
Definition survives {A} (c : TCPConnection) (read : result (option TCPSegment * A)) : Prop :=
  exists o a', read = Ok (o, a') /\
    forall seg, o = Some seg -> exists c', segment_received c seg = Ok c' /\ wf c'.

(** C21: Nothing that arrives can hurt. Whatever bytes a datagram has, both adapters,
    and a lossy adapter around either, read them without an exception, and if a
    segment results, every well-formed connection takes it without an exception
    and stays well-formed. *)
Theorem any_bytes_survived {Address R} `{AddressLaws Address} (rand : R -> Z * R) (r : R)
    (a : FdAdapterBase Address) from bytes c :
  zlen bytes < 2 ^ 32 -> wf c ->
  let datagram := {| source_address := from; datagram_payload := bytes |} in
  survives c (udp_read a datagram) /\ survives c (tun_read a bytes) /\
  survives c (lossy_read (H := udp_adapter) rand {| _rand := r; _adapter := a |} datagram) /\
  survives c (lossy_read (H := tun_adapter) rand {| _rand := r; _adapter := a |} bytes).
Proof.
  intros Hl Hc datagram.
  assert (Hs : forall o : option TCPSegment, (forall seg, o = Some seg -> wire_ok seg) ->
    forall seg, o = Some seg -> exists c', segment_received c seg = Ok c' /\ wf c')
    by (intros o Ho seg E; apply segment_received_conn_wf; auto).
  assert (Hlossy : forall In Out (F : FdAdapter (FdAdapterBase Address) Address In Out) i,
    (exists o a', adapter_read a i = Ok (o, a') /\ (forall seg, o = Some seg -> wire_ok seg)) ->
    survives c (adapter_read a i) /\ survives c (lossy_read (H := F) rand {| _rand := r; _adapter := a |} i)).
  { intros In Out F i (o & a' & E & Ho). split; [exists o, a'; split; [done|by apply Hs]|]. unfold lossy_read. cbn [_adapter].
    rewrite E. cbn [mbind result_bind]. destruct (_should_drop rand _ false) as [[] l]; eexists _, _;
      (split; [done|]); [by intros seg|by apply Hs]. }
  pose proof (Hlossy _ _ udp_adapter datagram (read_safe (AdapterSafe := udp_safe) a datagram Hl)) as [H1 H2].
  pose proof (Hlossy _ _ tun_adapter bytes (read_safe (AdapterSafe := tun_safe) a bytes Hl)) as [H3 H4]. done.
Qed.

Lemma any_bytes_survived_witness :
  let a : FdAdapterBase (Z * Z) := new_FdAdapterBase in
  survives (new_TCPConnection test_config 0) (tun_read a [Byte.x45; Byte.x00; Byte.x61]).
Proof.
  intros a. apply (any_bytes_survived (fun r : Z => (r, r)) 0 a (0, 0) [Byte.x45; Byte.x00; Byte.x61]
    (new_TCPConnection test_config 0)); [vm_compute; reflexivity|apply conn_wf_new, test_config_ok].
Defined.
