(* ===== verification/ExampleKernel.v ===== *)
(** * A kernel for examples

    An instance of the interfaces to the kernel, for which their laws hold: the
    files of [example_kernel], a log of the datagrams sent, and queues of the
    datagrams to be received; a descriptor can always be written, and read when
    there is something to come. *)
From S2P Require Import Prelude FileDescriptor FdAdapter Socket EventLoop.

Record example_net := {
  files : example_files;
  mailbox : list (option (Z * Z) * list byte);
  arriving : gmap Z (list (received_datagram (Z * Z)))
}.

Definition queue (k : example_net) (fd : Z) : list (received_datagram (Z * Z)) := default [] (arriving k !! fd).

#[export] Instance net_kernel : Kernel example_net := {
  sys_read := fun k fd size =>
    let '(r, e, data, f) := sys_read (files k) fd size in
    (r, e, data, {| files := f; mailbox := mailbox k; arriving := arriving k |});
  sys_writev := fun k fd iov =>
    let '(r, e, f) := sys_writev (files k) fd iov in (r, e, {| files := f; mailbox := mailbox k; arriving := arriving k |});
  sys_close := fun k _ => (0, 0, k);
  sys_getfl := fun k _ => (0, 0, k);
  sys_setfl := fun k _ _ => (0, 0, k)
}.

#[export] Instance net_streams : Streams example_net := {
  input := fun k fd => input (files k) fd;
  written := fun k fd => written (files k) fd
}.

#[export] Instance net_sockets : SocketKernel example_net (Z * Z) := {
  sys_getsockopt := fun k _ _ => (0, 0, (0, 4), k);
  sys_shutdown := fun k _ _ => (0, 0, k);
  sys_recvfrom := fun k fd size =>
    match queue k fd with
    | [] => (-1, 11, [], (0, 0), k)
    | d :: ds =>
        let data := datagram_payload d in
        let k := {| files := files k; mailbox := mailbox k; arriving := <[fd := ds]> (arriving k) |} in
        if zlen data <? 2 ^ 31 then (zlen data, 0, take (Z.to_nat size) data, source_address d, k)
        else (-1, 90, [], (0, 0), k)
    end;
  sys_sendmsg := fun k _ dest iov =>
    let data := concat (map fst iov) in
    if zlen data <? 65508
    then (zlen data, 0, {| files := files k; mailbox := mailbox k ++ [(dest, data)]; arriving := arriving k |})
    else (-1, 90, k)
}.

(** [poll] of a kernel where a descriptor can always be written. *)
Definition poll_when {K} (ready : K -> Z -> bool) : PollKernel K := fun k ps _ =>
  let ps' := map (fun p => {| pfd := pfd p; events := events p;
    revents := if events p =? POLLOUT then POLLOUT else if ready k (pfd p) then Z.land (events p) POLLIN else 0 |}) ps in
  (zlen (List.filter (fun p => negb (revents p =? 0)) ps') mod 2 ^ 31, 0, ps', k).

#[export] Instance net_poll : PollKernel example_net :=
  poll_when (fun k fd => match input k fd, queue k fd with [], [] => false | _, _ => true end).

Lemma poll_when_laws {K} `{Streams K} (ready : K -> Z -> bool) : @PollKernelLaws K (poll_when ready) _.
Proof.
  split; unfold kernel_poll, poll_when; intros k ps t r e ps' k'.
  - intros [= <- <- _ _].
    match goal with |- context [?x mod ?m] => pose proof (Z.mod_pos_bound x m ltac:(lia)) end. lia.
  - intros [= _ _ <- _]. by rewrite map_map.
  - intros [= <- _ _ _]. match goal with |- context [?x mod ?m] => pose proof (Z.mod_pos_bound x m ltac:(lia)) end. lia.
  - intros f [= _ _ _ <-]. by split.
Qed.

Lemma net_read k fd size r e data k' :
  sys_read k fd size = (r, e, data, k') ->
  exists f, sys_read (files k) fd size = (r, e, data, f) /\ k' = {| files := f; mailbox := mailbox k; arriving := arriving k |}.
Proof.
  change (sys_read k fd size) with (let '(r, e, data, f) := sys_read (files k) fd size in
    (r, e, data, {| files := f; mailbox := mailbox k; arriving := arriving k |})).
  destruct (sys_read (files k) fd size) as [[[r0 e0] d0] f0]. intros [= <- <- <- <-]. eauto.
Qed.

Lemma net_writev k fd iov r e k' :
  sys_writev k fd iov = (r, e, k') ->
  exists f, sys_writev (files k) fd iov = (r, e, f) /\ k' = {| files := f; mailbox := mailbox k; arriving := arriving k |}.
Proof.
  change (sys_writev k fd iov) with (let '(r, e, f) := sys_writev (files k) fd iov in
    (r, e, {| files := f; mailbox := mailbox k; arriving := arriving k |})).
  destruct (sys_writev (files k) fd iov) as [[r0 e0] f0]. intros [= <- <- <-]. eauto.
Qed.

#[export] Instance net_kernel_laws : KernelLaws example_net.
Proof.
  split.
  - intros k fd size r e data k' Hs (f & E & ->)%net_read. exact (read_law _ _ _ _ _ _ _ Hs E).
  - intros k fd iov r e k' (f & E & ->)%net_writev. exact (writev_law _ _ _ _ _ _ E).
  - intros k fd size r e data k' fd' (f & E & ->)%net_read Hne. exact (read_others _ _ _ _ _ _ _ fd' E Hne).
  - intros k fd iov r e k' fd' (f & E & ->)%net_writev Hne. exact (writev_others _ _ _ _ _ _ fd' E Hne).
  - intros k fd r e k' f [= <- <- <-]. by split_and!; lia || done.
  - intros k fd r e k' f [= <- <- <-]. by split_and!; lia || done.
  - intros k fd flags r e k' f [= <- <- <-]. by split_and!; lia || done.
Qed.

#[export] Program Instance net_socket_laws : SocketLaws example_net (Z * Z) := {
  sent_to := fun k _ => mailbox k
}.
Next Obligation. cbn. intros k fd how r e k' [= <- <- <-]. split; [lia|]. split; [lia|]. by split. Qed.
Next Obligation.
  cbn. intros k fd size r e data from k' Hs. pose proof (zlen_nonneg (A := byte)) as Hz.
  destruct (queue k fd) as [|d ds]; [|specialize (Hz (datagram_payload d)); destruct (Z.ltb_spec (zlen (datagram_payload d)) (2 ^ 31))];
    intros [= <- <- <- <- <-]; (split; [lia|]); (split; [lia|]); (split; [|by split]); intros ?; try lia.
  rewrite zlen_take. lia.
Qed.
Next Obligation.
  cbn. intros k fd dest iov r e k'. pose proof (zlen_nonneg (concat (map fst iov))).
  destruct (Z.ltb_spec (zlen (concat (map fst iov))) 65508); intros [= <- <- <-]; (split; [lia|]); (split; [lia|]).
  - split; [done|]. by split.
  - split; [lia|]. by split.
Qed.

#[export] Instance net_poll_laws : PollKernelLaws example_net := poll_when_laws _.
