(* ===== verification/TCPSpongeSocket.v ===== *)
(** * The TCP thread of a socket

    Models [TCPSpongeSocket] of [src/libsponge/tcp_helpers/tcp_sponge_socket.hh]
    and [.cc]: the four rules that connect a [TCPConnection] with the datagram
    adapter on one side and the stream socket of the owner on the other, the
    loop that serves them and lets time pass, and [connect],
    [listen_and_accept] and [_tcp_main]. The two threads share the socket pair,
    which is part of the kernel's state, and the flag [_abort], whose value at
    each iteration is an input, as is the clock. Messages on the error stream
    are left out. *)

From S2P Require Import Prelude WrappingIntegers ByteStream StreamReassembler ReassemblerProps Buffer TCPHeader TCPSegment TCPReceiver TCPSender TCPState TCPConnection Transport FdAdapter FileDescriptor Socket EventLoop Emission AdapterIO ExampleKernel.

(** ** State *)

Section socket.
Context {A Address K : Type}.

Record TCPSpongeSocket := {
  owner : FDWrapper;
  _thread_data : FDWrapper;
  _datagram_adapter : A;
  adapter_fd : FDWrapper;
  _tcp : option TCPConnection;
  _inbound_shutdown : bool;
  _outbound_shutdown : bool;
  _fully_acked : bool;
  kernel : K
}.

Definition set_tcp (s : TCPSpongeSocket) (c : option TCPConnection) : TCPSpongeSocket :=
  {| owner := owner s; _thread_data := _thread_data s; _datagram_adapter := _datagram_adapter s;
     adapter_fd := adapter_fd s; _tcp := c; _inbound_shutdown := _inbound_shutdown s;
     _outbound_shutdown := _outbound_shutdown s; _fully_acked := _fully_acked s; kernel := kernel s |}.
Definition set_thread_data (s : TCPSpongeSocket) (td : FDWrapper) (k : K) : TCPSpongeSocket :=
  {| owner := owner s; _thread_data := td; _datagram_adapter := _datagram_adapter s;
     adapter_fd := adapter_fd s; _tcp := _tcp s; _inbound_shutdown := _inbound_shutdown s;
     _outbound_shutdown := _outbound_shutdown s; _fully_acked := _fully_acked s; kernel := k |}.
Definition set_adapter (s : TCPSpongeSocket) (a : A) (fd : FDWrapper) (k : K) : TCPSpongeSocket :=
  {| owner := owner s; _thread_data := _thread_data s; _datagram_adapter := a;
     adapter_fd := fd; _tcp := _tcp s; _inbound_shutdown := _inbound_shutdown s;
     _outbound_shutdown := _outbound_shutdown s; _fully_acked := _fully_acked s; kernel := k |}.
Definition set_owner (s : TCPSpongeSocket) (w : FDWrapper) (k : K) : TCPSpongeSocket :=
  {| owner := w; _thread_data := _thread_data s; _datagram_adapter := _datagram_adapter s;
     adapter_fd := adapter_fd s; _tcp := _tcp s; _inbound_shutdown := _inbound_shutdown s;
     _outbound_shutdown := _outbound_shutdown s; _fully_acked := _fully_acked s; kernel := k |}.
Definition set_flags (s : TCPSpongeSocket) (inbound outbound acked : bool) : TCPSpongeSocket :=
  {| owner := owner s; _thread_data := _thread_data s; _datagram_adapter := _datagram_adapter s;
     adapter_fd := adapter_fd s; _tcp := _tcp s; _inbound_shutdown := inbound;
     _outbound_shutdown := outbound; _fully_acked := acked; kernel := kernel s |}.
End socket.

Arguments TCPSpongeSocket : clear implicits.

(** The descriptors that rules are added for. *)
Inductive socket_fd := thread_data_fd | datagram_adapter_fd.

#[export] Instance socket_world {A K} `{PollKernel K} : World (TCPSpongeSocket A K) socket_fd := {
  fdw := fun s f => match f with thread_data_fd => _thread_data s | datagram_adapter_fd => adapter_fd s end;
  sys_poll := fun s ps t =>
    let '(r, e, ps, k) := kernel_poll (kernel s) ps t in
    (r, e, ps, set_thread_data s (_thread_data s) k)
}.

(** ** The rules *)

Section operations.
Context {A Address K : Type} `{AdaptT A Address K} `{Kernel K} `{SocketKernel K Address} `{PollKernel K}.

Abbreviation socket := (TCPSpongeSocket A K).
Abbreviation rules := (list (Rule socket socket_fd)).

Definition TCP_TICK_MS : Z := 10.

(** [_tcp->]; a rule exists only while there is a connection. *)
Definition on_tcp (s : socket) (f : TCPConnection -> result socket) : result socket :=
  match _tcp s with Some c => f c | None => Throw (undefined "_tcp->") end.
Definition test_tcp (s : socket) (f : TCPConnection -> bool) : bool :=
  match _tcp s with Some c => f c | None => false end.

(** Rule 1: read from the packet stream into the connection. *)
Definition datagram_in (s : socket) : result socket :=
  '(seg, a, fd, k) ← at_read (_datagram_adapter s) (adapter_fd s) (kernel s);
  on_tcp (set_adapter s a fd k) (fun c =>
    c ← match seg with Some seg => TCPConnection.segment_received c seg | None => Ok c end;
    let acked := _eof (_thread_data s) && (TCPConnection.bytes_in_flight c =? 0) && negb (_fully_acked s) in
    Ok (set_flags (set_tcp (set_adapter s a fd k) (Some c))
          (_inbound_shutdown s) (_outbound_shutdown s) (acked || _fully_acked s))).

Definition datagram_in_interest (s : socket) : bool := test_tcp s active.

(** Rule 2: read from the owner's socket into the outbound stream. *)
Definition outbound_in (s : socket) : result socket :=
  on_tcp s (fun c =>
    '(data, td, k) ← FileDescriptor.read (_thread_data s) (kernel s) (remaining_outbound_capacity c);
    let len := zlen data in
    let '(amount_written, c) := TCPConnection.write c data in
    if negb (amount_written =? len)
    then Throw (runtime_error "TCPConnection::write() accepted less than advertised length")
    else
      let s := set_tcp (set_thread_data s td k) (Some c) in
      if _eof td
      then Ok (set_flags (set_tcp s (Some (end_input_stream c)))
                 (_inbound_shutdown s) true (_fully_acked s))
      else Ok s).

Definition outbound_in_interest (s : socket) : bool :=
  test_tcp s active && negb (_outbound_shutdown s)
  && test_tcp s (fun c => 0 <? remaining_outbound_capacity c).

Definition outbound_in_cancel (s : socket) : result socket :=
  on_tcp s (fun c =>
    Ok (set_flags (set_tcp s (Some (end_input_stream c)))
          (_inbound_shutdown s) true (_fully_acked s))).

(** Rule 3: write from the inbound stream to the owner's socket. *)
Definition inbound_out (s : socket) : result socket :=
  on_tcp s (fun c =>
    let inbound := inbound_stream c in
    let amount_to_write := Z.min 65536 (ByteStream.buffer_size inbound) in
    let buffer := ByteStream.peek_output inbound amount_to_write in
    '(bytes_written, td, k) ←
      FileDescriptor.write (_thread_data s) (kernel s) (bvl_of_string buffer) false;
    let c := on_inbound_stream (fun i => ByteStream.pop_output i bytes_written) c in
    let s := set_tcp (set_thread_data s td k) (Some c) in
    if ByteStream.eof (inbound_stream c) || ByteStream.error (inbound_stream c) then
      '(td, k) ← shutdown (Address := Address) td k SHUT_WR;
      Ok (set_flags (set_thread_data s td k) true (_outbound_shutdown s) (_fully_acked s))
    else Ok s).

Definition inbound_out_interest (s : socket) : bool :=
  test_tcp s (fun c => negb (ByteStream.buffer_empty (inbound_stream c)) ||
    ((ByteStream.eof (inbound_stream c) || ByteStream.error (inbound_stream c))
     && negb (_inbound_shutdown s))).

(** Rule 4: send the queued segments. *)
Fixpoint send_all (a : A) (fd : FDWrapper) (k : K) (segs : list TCPSegment)
    : result (A * FDWrapper * K) :=
  match segs with
  | [] => Ok (a, fd, k)
  | seg :: segs => '(a, fd, k) ← at_write a fd k seg; send_all a fd k segs
  end.

Definition datagram_out (s : socket) : result socket :=
  on_tcp s (fun c =>
    '(a, fd, k) ← send_all (_datagram_adapter s) (adapter_fd s) (kernel s) (TCPConnection.segments_out c);
    Ok (set_tcp (set_adapter s a fd k) (Some (set_segments_out c [])))).

Definition datagram_out_interest (s : socket) : bool :=
  test_tcp s (fun c => match TCPConnection.segments_out c with [] => false | _ => true end).

(** ** The socket *)

(** [random] is drawn by the sender of the connection. *)
Definition _initialize_TCP (s : socket) (_eventloop : rules) (config : TCPConfig) (random : Z)
    : socket * rules :=
  let s := set_tcp s (Some (new_TCPConnection config random)) in
  let _eventloop := add_rule _eventloop datagram_adapter_fd In datagram_in datagram_in_interest nothing in
  let _eventloop :=
    add_rule _eventloop thread_data_fd In outbound_in outbound_in_interest outbound_in_cancel in
  let _eventloop := add_rule _eventloop thread_data_fd Out inbound_out inbound_out_interest nothing in
  let _eventloop :=
    add_rule _eventloop datagram_adapter_fd Out datagram_out datagram_out_interest nothing in
  (s, _eventloop).

(** What happens after the events of an iteration: the clock ticks. *)
Definition tick_all (s : socket) (ms : Z) : socket :=
  match _tcp s with
  | Some c =>
      set_adapter (set_tcp s (Some (TCPConnection.tick c ms))) (at_tick (_datagram_adapter s) ms) (adapter_fd s) (kernel s)
  | None => s
  end.

(** The loop, for as many iterations as [env] has inputs, each with the value
    of [_abort] after the events have been served and the time then; the flag
    returned says whether the loop has ended. *)
Fixpoint _tcp_loop (condition : socket -> bool) (base_time : Z) (env : list (bool * Z))
    (_eventloop : rules) (s : socket) : result (bool * rules * socket) :=
  match env with
  | [] => Ok (false, _eventloop, s)
  | (_abort, next_time) :: env =>
      if negb (condition s) then Ok (true, _eventloop, s)
      else
        '(ret, _eventloop, s) ← wait_next_event _eventloop TCP_TICK_MS s;
        if match ret with Exit => true | _ => false end || _abort then Ok (true, _eventloop, s)
        else
          match _tcp s with
          | None => Throw (runtime_error "bad optional access")
          | Some c =>
              if active c
              then _tcp_loop condition next_time env _eventloop
                     (tick_all s (u64 (next_time - base_time)))
              else _tcp_loop condition base_time env _eventloop s
          end
  end.

Definition connect (s : socket) (_eventloop : rules) (c_tcp : TCPConfig) (c_ad : FdAdapterConfig Address)
    (random base_time : Z) (env : list (bool * Z)) : result (bool * rules * socket) :=
  match _tcp s with
  | Some _ => Throw (runtime_error "connect() with TCPConnection already initialized")
  | None =>
      let '(s, _eventloop) := _initialize_TCP s _eventloop c_tcp random in
      let s := set_adapter s (at_set_config (_datagram_adapter s) c_ad) (adapter_fd s) (kernel s) in
      match _tcp s with
      | None => Throw (undefined "_tcp->")
      | Some c =>
          let c := TCPConnection.connect c in
          if neqb_TCPState (state c) (of_State SYN_SENT)
          then Throw (runtime_error "After TCPConnection::connect(), state was")
          else _tcp_loop (fun s => test_tcp s (fun c => eqb_TCPState (state c) (of_State SYN_SENT)))
                 base_time env _eventloop (set_tcp s (Some c))
      end
  end.

Definition listen_and_accept (s : socket) (_eventloop : rules) (c_tcp : TCPConfig)
    (c_ad : FdAdapterConfig Address) (random base_time : Z) (env : list (bool * Z))
    : result (bool * rules * socket) :=
  match _tcp s with
  | Some _ => Throw (runtime_error "listen_and_accept() with TCPConnection already initialized")
  | None =>
      let '(s, _eventloop) := _initialize_TCP s _eventloop c_tcp random in
      let a := at_set_listening (at_set_config (_datagram_adapter s) c_ad) true in
      _tcp_loop (fun s => test_tcp s (fun c =>
          eqb_TCPState (state c) (of_State LISTEN) || eqb_TCPState (state c) (of_State SYN_RCVD)
          || eqb_TCPState (state c) (of_State SYN_SENT)))
        base_time env _eventloop (set_adapter s a (adapter_fd s) (kernel s))
  end.

(** The main function of the thread; the last component says whether it has
    returned. *)
Definition _tcp_main (s : socket) (_eventloop : rules) (base_time : Z) (env : list (bool * Z))
    : result (bool * rules * socket) :=
  match _tcp s with
  | None => Throw (runtime_error "no TCP")
  | Some _ =>
      '(finished, _eventloop, s) ← _tcp_loop (fun _ => true) base_time env _eventloop s;
      if (finished : bool) then
        '(w, k) ← shutdown (Address := Address) (owner s) (kernel s) SHUT_RDWR;
        Ok (true, _eventloop, set_tcp (set_owner s w k) None)
      else Ok (false, _eventloop, s)
  end.

End operations.

(** ** What the rules rely on from the connection *)

(** [W] are the bytes written so far, [b] says whether the stream has ended. *)
Record good (W : list byte) (b : bool) (c : TCPConnection) : Prop := {
  good_sends : sends W (_sender c);
  good_receiver : bounded_wf (_receiver c);
  good_time : 0 <= _time_since_last_segment_received c < 2 ^ 64;
  good_emits : conn_emits c;
  good_ended : ByteStream.input_ended (stream_in (_sender c)) = b
}.

Section good.
Context (W : list byte) (b : bool).
Abbreviation good := (good W b).

Lemma good_wf c : good c -> wf c.
Proof. intros [H1 [H2 _] H3 _ _]. constructor; [done|by apply (snd_wf W)|done]. Qed.

Lemma good_on_sender f c :
  good c -> sends W (f (_sender c)) -> same_stream (_sender c) (f (_sender c)) ->
  snd_emits sendable (f (_sender c)) -> good (on_sender f c).
Proof.
  intros [H1 H2 H3 [H4 H5] H6] Hs [_ He] Hm. constructor; try done. unfold stream_in in *. cbn. congruence.
Qed.

Lemma good_fill c : good c -> good (on_sender fill_window c).
Proof.
  intros H. pose proof (good_sends _ _ c H) as Hs. apply good_on_sender; [done|by apply sends_fill| |].
  - by apply same_fill, (snd_wf W).
  - apply (fill_window_emits sendable), H.
Qed.

Lemma good_empty c : good c -> good (on_sender send_empty_segment c).
Proof.
  intros H. apply good_on_sender; [done|apply sends_empty, H|done|apply (send_empty_emits sendable), H].
Qed.

Lemma good_ack seg c : wire_ok seg -> good c -> good (sender_ack seg c).
Proof.
  intros [_ Hw] H. apply good_on_sender; [done|apply sends_ack; [apply H|done]| |apply (ack_received_emits sendable), H].
  apply same_ack; [apply (snd_wf W), H|done].
Qed.

Lemma good_send c : good c -> good (send_segments c).
Proof.
  intros [H1 H2 H3 H4 H5]. destruct (send_segments_parts c) as (E1 & E2 & _ & E4 & _).
  constructor; rewrite ?E1, ?E2, ?E4; try done; [by apply sends_clear|by apply send_segments_emits].
Qed.

Lemma good_set_time c t : good c -> 0 <= t < 2 ^ 64 -> good (set_time c t).
Proof. intros [] ?. constructor; try done. by apply set_time_emits. Qed.
Lemma good_set_receiver c r : good c -> bounded_wf r -> good (set_receiver c r).
Proof. intros [] ?. constructor; try done. by apply set_receiver_emits. Qed.
Lemma good_inactive c : good c -> good (set_inactive c).
Proof. intros []. constructor; try done. by apply set_inactive_emits. Qed.
Lemma good_segments_out c : good c -> good (set_segments_out c []).
Proof. intros []. constructor; try done. by apply set_segments_out_emits. Qed.
Create HintDb good.
#[local] Hint Resolve good_fill good_empty good_ack good_send good_set_time good_set_receiver good_inactive : good.

Lemma good_then seg c k :
  wire_ok seg -> good c -> (forall c, good c -> good (k c)) ->
  exists c', (c ← receiver_segment seg c; Ok (k c)) = Ok c' /\ good c'.
Proof.
  intros [Hs _] Hc Hk. unfold receiver_segment.
  destruct (segment_received_bounded (_receiver c) seg) as (r & -> & Hr); [apply Hc|done|].
  eexists. split; [done|]. apply Hk. by apply good_set_receiver.
Qed.

Lemma good_error c :
  good c -> good (set_receiver (on_sender (on_stream_in ByteStream.set_error) c)
                    (on_stream_out ByteStream.set_error (_receiver c))).
Proof.
  intros H. apply good_set_receiver; [|apply error_bounded, H].
  apply good_on_sender; [done|apply sends_error, H|done|apply on_stream_emits, H].
Qed.

Lemma good_segment_received c seg :
  good c -> wire_ok seg -> exists c', TCPConnection.segment_received c seg = Ok c' /\ good c'.
Proof.
  intros Hc Hs. unfold TCPConnection.segment_received. destruct (_active c); [|by exists c]. cbn [negb].
  assert (Ht : good (set_time c 0)) by (apply good_set_time; [done|lia]).
  revert Ht. generalize (set_time c 0). clear Hc c. intros c Hc. cbn zeta.
  assert (Ha := good_ack seg c Hs Hc).
  assert (Hconn : forall c, good c -> good (TCPConnection.connect c))
    by (intros; apply good_send, good_fill; done).
  repeat match goal with |- context [if ?b then _ else _] =>
    lazymatch b with 0 <? length_in_sequence_space _ => fail | _ => destruct b end end;
    try (eexists; split; [reflexivity|]; done);
    try (apply good_then; auto 6 with good; done).
  - eexists. split; [done|]. by apply good_inactive, good_error.
  - destruct (good_then seg (sender_ack seg c) (fun c => c)) as (c' & Hr & Hg); try done.
    destruct (receiver_segment seg (sender_ack seg c)) as [c1|]; [|done]. exists c1. split; [done|].
    by injection Hr as ->.
  - apply (good_then seg _ (fun c0 => send_segments (on_sender fill_window
      (if 0 <? length_in_sequence_space seg then on_sender send_empty_segment c0 else c0)))); [done|done|].
    intros c0 H0. destruct (0 <? _); auto 6 with good.
Qed.

Lemma good_tick c ms : good c -> good (TCPConnection.tick c ms).
Proof.
  intros H. unfold TCPConnection.tick. destruct (negb _); [done|]. set (c1 := on_sender _ _).
  assert (H1 : good c1).
  { assert (H0 : good (set_time c (u64 (_time_since_last_segment_received c + ms))))
      by (apply good_set_time; [done|apply u64_range]).
    apply good_on_sender; [done|apply sends_tick, H0|apply same_tick|apply tick_emits, H0]. }
  destruct (_ <? _); [|by apply good_send]. destruct H1 as [H1 H2 H3 H4 H5].
  constructor; try done; [by apply sends_error|by apply error_bounded|by apply reset_emits].
Qed.

Lemma good_pop c n :
  good c -> 0 <= n <= ByteStream.buffer_size (inbound_stream c) ->
  good (on_inbound_stream (fun i => ByteStream.pop_output i n) c).
Proof.
  intros H Hn. apply good_set_receiver; [done|].
  assert (E : on_stream_out (fun i => ByteStream.pop_output i n) (_receiver c) =
              on_stream_out (fun s => snd (ByteStream.read s n)) (_receiver c)).
  { unfold on_stream_out, ByteStream.read. cbn [snd]. by rewrite ByteStream.pop_peek by lia. }
  rewrite E. apply read_bounded; [apply H|lia].
Qed.
End good.

Lemma good_connect W b c : good W b c -> good W b (TCPConnection.connect c).
Proof. intros H. by apply good_send, good_fill. Qed.

Lemma good_end W b c : good W b c -> good W true (end_input_stream c).
Proof.
  intros [H1 H2 H3 [H4 H5] H6]. apply good_send, good_fill. constructor; try done.
  - by apply sends_end.
  - constructor; [by apply on_stream_emits|done].
Qed.

(** The connection accepts all that fits in the capacity it advertises. *)
Lemma good_write W c data :
  good W false c -> zlen W + zlen data < 2 ^ 62 -> zlen data <= remaining_outbound_capacity c ->
  exists c', TCPConnection.write c data = (zlen data, c') /\ good (W ++ data) false c'.
Proof.
  intros [H1 H2 H3 H4 H5] Hb Hcap. unfold TCPConnection.write. destruct data as [|x data].
  { exists c. rewrite app_nil_r. by split; [|constructor]. }
  set (d := x :: data) in *. assert (Hs := sends_write W _ d H1 H5 ltac:(lia)). cbn zeta in Hs.
  assert (Hn : fst (ByteStream.write (stream_in (_sender c)) d) = zlen d).
  { unfold ByteStream.write, remaining_outbound_capacity in *. cbn [fst]. apply Z.min_l. lia. }
  destruct (ByteStream.write (stream_in (_sender c)) d) as [m st] eqn:Ew. cbn [fst] in Hn. subst m.
  unfold stream_in in Ew. rewrite Ew in Hs. cbn [fst] in Hs.
  rewrite take_ge in Hs by (unfold zlen; lia).
  assert (Hst : on_stream_in (fun b => snd (ByteStream.write b d)) (_sender c) =
                on_stream_in (fun _ => st) (_sender c)) by (unfold on_stream_in; by rewrite Ew).
  rewrite Hst in Hs. eexists. split; [done|]. apply good_send, good_fill. constructor; try done.
  - destruct H4. constructor; [by apply on_stream_emits|done].
  - change (ByteStream.input_ended (snd (zlen d, st)) = false). by rewrite <- Ew.
Qed.

Lemma good_new cfg rnd : cfg_ok cfg -> good [] false (new_TCPConnection cfg rnd).
Proof.
  intros (H1 & H2 & H3 & H4). constructor; [by apply sends_new|by apply bounded_new|done|by apply new_emits|done].
Qed.

(** ** The invariant of the socket *)

#[export] Instance socket_poll_laws {A K} `{PollKernelLaws K} : PollLaws (TCPSpongeSocket A K) socket_fd.
Proof.
  split; cbn; intros w ps t r e ps' w'; destruct (kernel_poll _ _ _) as [[[r0 e0] ps0] k0] eqn:E;
    intros [= <- <- <- <-]; [by eapply kpoll_value|by eapply kpoll_array|by eapply kpoll_fails].
Qed.

Section safety.
Context {A Address K : Type} `{!AdaptT A Address K} `{!Kernel K} `{!SocketKernel K Address} `{!PollKernel K}.
Context `{!Streams K} `{!KernelLaws K} `{!SocketLaws K Address} `{!AdaptLaws A Address K} `{!PollKernelLaws K}.

Abbreviation socket := (TCPSpongeSocket A K).

(** All the bytes the owner will ever write. *)
Context (S : list byte) (HS : zlen S < 2 ^ 62).

Definition thread_input (s : socket) : list byte := input (kernel s) (_fd (_thread_data s)).

(** The connection is well-formed; what has been written to it and what is still
    to come from the owner make up [S]; and its outbound stream is open unless
    the socket knows that it has been shut down. *)
Record inv (s : socket) : Prop := {
  inv_distinct : _fd (_thread_data s) <> _fd (adapter_fd s);
  inv_conn : exists c W b, _tcp s = Some c /\ good W b c /\
    (_outbound_shutdown s = false -> b = false) /\ W ++ thread_input s = S
}.

(** Only the rule that writes to the connection counts on more. *)
Definition need (r : Rule socket socket_fd) (s : socket) : Prop :=
  match direction r, fd r with In, thread_data_fd => _outbound_shutdown s = false | _, _ => True end.

Lemma served_datagram_in s :
  inv s -> match datagram_in s with
  | Throw e => io_error e
  | Ok s' => inv s' /\ _read_count (adapter_fd s') <> _read_count (adapter_fd s) /\
      _outbound_shutdown s' = _outbound_shutdown s
  end.
Proof.
  intros [Hd (c & W & b & Hc & Hg & Ho & HW)]. unfold datagram_in.
  pose proof (at_read_law (_datagram_adapter s) (adapter_fd s) (kernel s)) as Hr.
  destruct (at_read _ _ _) as [[[[o a] fd] k]|]; [|done]. cbn [mbind result_bind].
  destruct Hr as (Hok & [Hfd _] & Hcnt & Hu). unfold on_tcp. cbn [_tcp set_adapter]. rewrite Hc.
  assert (exists c', (match o with Some seg => TCPConnection.segment_received c seg | None => Ok c end) = Ok c' /\
    good W b c') as (c' & -> & Hg').
  { destruct o as [seg|]; [|by exists c]. apply good_segment_received; [done|by apply Hok]. }
  cbn [mbind result_bind]. split; [|split; [apply count_next; by left|done]].
  constructor; [cbn; congruence|]. exists c', W, b. split_and!; try done.
  unfold thread_input in *. cbn. destruct (Hu (_fd (_thread_data s)) ltac:(congruence)) as [-> _]. done.
Qed.

Lemma outbound_in_spec s c W :
  _tcp s = Some c -> good W false c -> W ++ thread_input s = S ->
  match outbound_in s with
  | Throw e => io_error e
  | Ok s' => exists c' W' b', _tcp s' = Some c' /\ good W' b' c' /\ W' ++ thread_input s' = S /\
      (_outbound_shutdown s' = false -> b' = false) /\
      same_fd (_thread_data s) (_thread_data s') /\ adapter_fd s' = adapter_fd s /\
      _read_count (_thread_data s') = u32 (_read_count (_thread_data s) + 1)
  end.
Proof.
  intros Hc Hg HW. unfold outbound_in, on_tcp. rewrite Hc.
  destruct (fd_read_spec (_thread_data s) (kernel s) (remaining_outbound_capacity c))
    as [[code ->]|(data & w1 & k' & -> & Hl & Hi & _ & _ & Hw1)]; [apply u64_range|left; eauto|].
  cbn [mbind result_bind]. unfold thread_input in HW. rewrite Hi in HW.
  assert (Hlen : zlen W + zlen data < 2 ^ 62).
  { rewrite <- HW, !zlen_app in HS. pose proof (zlen_nonneg (input k' (_fd (_thread_data s)))). lia. }
  destruct (good_write W c data Hg Hlen) as (c' & -> & Hg'); [lia|]. rewrite Z.eqb_refl. cbn [negb].
  assert (Hfd : same_fd (_thread_data s) (register_read w1) /\
    _read_count (register_read w1) = u32 (_read_count (_thread_data s) + 1)).
  { by destruct ((_ <? _) && _); subst w1. }
  destruct Hfd as [Hfd Hcnt]. pose proof (proj1 Hfd) as Hf.
  destruct (_eof (register_read w1)).
  - exists (end_input_stream c'), (W ++ data), true. split_and!; try done; [by eapply good_end|].
    unfold thread_input. cbn. cbn in Hf. by rewrite Hf, <- app_assoc.
  - exists c', (W ++ data), false. split_and!; try done.
    unfold thread_input. cbn. cbn in Hf. by rewrite Hf, <- app_assoc.
Qed.

(** What the owner can read from its socket. *)
Definition thread_output (s : socket) : list byte := written (kernel s) (_fd (_thread_data s)).

Lemma inbound_out_spec s c :
  _tcp s = Some c ->
  match inbound_out s with
  | Throw e => io_error e
  | Ok s' => exists n c', c' = on_inbound_stream (fun i => ByteStream.pop_output i n) c /\
      0 <= n <= ByteStream.buffer_size (inbound_stream c) /\ _tcp s' = Some c' /\
      thread_output s' = thread_output s ++ take (Z.to_nat n) (ByteStream._buff (inbound_stream c)) /\
      thread_input s' = thread_input s /\ same_fd (_thread_data s) (_thread_data s') /\
      adapter_fd s' = adapter_fd s /\ _outbound_shutdown s' = _outbound_shutdown s /\
      _write_count (_thread_data s') <> _write_count (_thread_data s)
  end.
Proof.
  intros Hc. unfold inbound_out, on_tcp. rewrite Hc.
  set (amount := Z.min 65536 _). assert (Ha : 0 <= amount).
  { subst amount. pose proof (zlen_nonneg (ByteStream._buff (inbound_stream c))). unfold ByteStream.buffer_size. lia. }
  rewrite ByteStream.peek_output_take by done. set (buf := take _ _).
  assert (Hbuf : zlen buf <= 65536 /\ zlen buf <= ByteStream.buffer_size (inbound_stream c)).
  { subst buf amount. rewrite zlen_take. unfold ByteStream.buffer_size. lia. }
  assert (Hcc : concat (bvl_of_string buf) = buf) by apply app_nil_r.
  destruct (write_once (_thread_data s) (kernel s) (bvl_of_string buf))
    as [(e & -> & He)|(n & k' & -> & Hn & Hw & Hi & _)];
    [rewrite Hcc; lia|cbn; by apply write_error_io|]. rewrite Hcc in Hn, Hw. cbn [mbind result_bind].
  assert (Htake : take (Z.to_nat n) buf = take (Z.to_nat n) (ByteStream._buff (inbound_stream c))).
  { subst buf. rewrite take_take. f_equal. unfold zlen in Hn. rewrite length_take in Hn. lia. }
  rewrite Htake in Hw. set (c' := on_inbound_stream _ c). destruct (_ || _).
  - destruct (shutdown_wr_spec (Address := Address) (register_write (_thread_data s)) k') as [[code ->]|(k2 & -> & Hu)];
      [left; eauto|]. cbn [mbind result_bind]. destruct (Hu (_fd (_thread_data s))) as [Hu1 Hu2].
    exists n, c'. unfold thread_input, thread_output. cbn. rewrite Hu1, Hu2.
    split_and!; try done; try lia. apply count_next. by right.
  - exists n, c'. unfold thread_input, thread_output. cbn. split_and!; try done; try lia.
    apply count_next. by left.
Qed.

Lemma send_all_spec segs a fd k :
  Forall sendable segs ->
  match send_all a fd k segs with
  | Throw e => io_error e
  | Ok (_, fd', k') => same_fd fd fd' /\ forall f, f <> _fd fd -> untouched f k k'
  end.
Proof.
  intros Hs. revert a fd k. induction Hs as [|seg segs Hseg _ IH]; intros a fd k; cbn [send_all].
  { split; [done|]. by split. }
  pose proof (at_write_law a fd k seg Hseg) as Hw. destruct (at_write a fd k seg) as [[[a1 fd1] k1]|]; [|done].
  cbn [mbind result_bind]. destruct Hw as ([Hf Hcl] & _ & Hu). specialize (IH a1 fd1 k1).
  destruct (send_all a1 fd1 k1 segs) as [[[a2 fd2] k2]|]; [|done]. destruct IH as [[Hf2 Hcl2] Hu2].
  split; [split; congruence|]. intros f Hne. eapply untouched_trans; [by apply Hu|apply Hu2; congruence].
Qed.

Lemma datagram_out_spec s :
  inv s -> match datagram_out s with
  | Throw e => io_error e
  | Ok s' => inv s' /\ datagram_out_interest s' = false /\ _outbound_shutdown s' = _outbound_shutdown s
  end.
Proof.
  intros [Hd (c & W & b & Hc & Hg & Ho & HW)]. unfold datagram_out, on_tcp. rewrite Hc.
  pose proof (send_all_spec (TCPConnection.segments_out c) (_datagram_adapter s) (adapter_fd s) (kernel s)) as Hs.
  specialize (Hs (emits_out c (good_emits _ _ c Hg))).
  destruct (send_all _ _ _ _) as [[[a fd] k]|]; [|done]. cbn [mbind result_bind]. destruct Hs as [[Hfd _] Hu].
  split; [|done]. constructor; [cbn; congruence|]. exists (set_segments_out c []), W, b.
  split; [done|]. split; [by apply good_segments_out|]. split; [done|].
  unfold thread_input in *. cbn. destruct (Hu (_fd (_thread_data s)) ltac:(congruence)) as [-> _]. done.
Qed.

(** ** The rules in the event loop *)

Definition socket_rules : list (Rule socket socket_fd) :=
  [Build_Rule datagram_adapter_fd In datagram_in datagram_in_interest nothing;
   Build_Rule thread_data_fd In outbound_in outbound_in_interest outbound_in_cancel;
   Build_Rule thread_data_fd Out inbound_out inbound_out_interest nothing;
   Build_Rule datagram_adapter_fd Out datagram_out datagram_out_interest nothing].

Lemma socket_rules_served : Forall (served inv need io_error) socket_rules.
Proof.
  unfold socket_rules. repeat apply Forall_cons_2; [..|apply Forall_nil_2]; constructor; cbn; try done.
  - intros s Hs _. pose proof (served_datagram_in s Hs) as H. destruct (datagram_in s); [|done].
    destruct H as (H1 & H2 & _). split; [done|by left].
  - intros s [_ (c & W & b & Hc & _)]. unfold outbound_in_interest, need. cbn.
    destruct (_outbound_shutdown s); [by rewrite andb_false_r|done].
  - intros s [Hd (c & W & b & Hc & Hg & _ & HW)]. unfold outbound_in_cancel, on_tcp. rewrite Hc.
    constructor; [done|]. exists (end_input_stream c), W, true. split; [done|]. split; [by eapply good_end|done].
  - intros s [Hd (c & W & b & Hc & Hg & Ho & HW)] Hn. unfold need in Hn. cbn in Hn. rewrite (Ho Hn) in Hg.
    pose proof (outbound_in_spec s c W Hc Hg HW) as H. destruct (outbound_in s) as [s'|]; [|done].
    destruct H as (c' & W' & b' & H1 & H2 & H3 & H4 & [H5 _] & H6 & H7).
    split; [|left; apply count_next; by left]. constructor; [congruence|]. by exists c', W', b'.
  - intros s [Hd (c & W & b & Hc & Hg & Ho & HW)] _.
    pose proof (inbound_out_spec s c Hc) as H. destruct (inbound_out s) as [s'|]; [|done].
    destruct H as (n & c' & -> & Hn & H1 & _ & H3 & [H4 _] & H5 & H6 & H7).
    split; [|by left]. constructor; [congruence|]. eexists _, W, b. split; [done|].
    split; [by apply good_pop|]. rewrite H6. split; [done|]. congruence.
  - intros s Hs _. pose proof (datagram_out_spec s Hs) as H. destruct (datagram_out s); [|done].
    destruct H as (H1 & H2 & _). split; [done|by right].
Qed.

Lemma respects_trivial r r' : (forall s, need r' s) -> respects inv need r r'.
Proof. intros H s s' _ _. by split. Qed.

Lemma respects_outbound r r' :
  cancel r = nothing -> direction r' = In -> fd r' = thread_data_fd ->
  (forall s s', inv s -> callback r s = Ok s' -> _outbound_shutdown s' = _outbound_shutdown s) ->
  respects inv need r r'.
Proof.
  intros Hc Hd Hf Hcb s s' Hs. unfold need. rewrite Hd, Hf. intros Hn. split.
  - rewrite Hc. by intros [= <-].
  - intros _ E. by rewrite (Hcb s s' Hs E).
Qed.

Lemma datagram_in_keeps s s' : inv s -> datagram_in s = Ok s' -> _outbound_shutdown s' = _outbound_shutdown s.
Proof. intros Hs E. pose proof (served_datagram_in s Hs) as H. rewrite E in H. apply H. Qed.
Lemma inbound_out_keeps s s' : inv s -> inbound_out s = Ok s' -> _outbound_shutdown s' = _outbound_shutdown s.
Proof.
  intros [_ (c & W & b & Hc & Hg & _)] E. pose proof (inbound_out_spec s c Hc) as H. rewrite E in H.
  by destruct H as (n & c' & _ & _ & _ & _ & _ & _ & _ & H & _).
Qed.
Lemma datagram_out_keeps s s' : inv s -> datagram_out s = Ok s' -> _outbound_shutdown s' = _outbound_shutdown s.
Proof. intros Hs E. pose proof (datagram_out_spec s Hs) as H. rewrite E in H. apply H. Qed.

Lemma socket_rules_respectful :
  ForallOrdPairs (fun r r' => respects inv need r r' /\ respects inv need r' r) socket_rules.
Proof.
  unfold socket_rules.
  repeat first [apply FOP_nil | apply FOP_cons; [repeat apply Forall_cons_2; [..|apply Forall_nil_2]|]]; split;
    first [by apply respects_trivial | apply respects_outbound; eauto using datagram_in_keeps, inbound_out_keeps, datagram_out_keeps].
Qed.

Lemma socket_poll_respects rs : poll_respects inv need rs.
Proof.
  intros s ps t r e ps' s'. cbn. destruct (kernel_poll _ _ _) as [[[r0 e0] ps0] k0] eqn:E. intros [= <- <- <- <-].
  intros [Hd (c & W & b & Hc & Hg & Ho & HW)]. split.
  - constructor; [done|]. exists c, W, b. split_and!; try done. unfold thread_input in *. cbn.
    destruct (kpoll_streams _ _ _ _ _ _ _ (_fd (_thread_data s)) E) as [-> _]. done.
  - apply Forall_forall. intros r _. done.
Qed.

Lemma tick_all_inv s ms : inv s -> inv (tick_all s ms).
Proof.
  intros [Hd (c & W & b & Hc & Hg & Ho & HW)]. unfold tick_all. rewrite Hc.
  constructor; [done|]. eexists _, W, b. split; [done|]. split; [by apply good_tick|]. by split.
Qed.

(** What can still go wrong: a system call fails, a datagram is too large for
    the buffer, or [poll] reports an error on a descriptor. *)
Definition socket_error (e : exn) : Prop := round_error io_error e.

Lemma tcp_loop_safe condition base_time env rs s :
  sublist rs socket_rules -> inv s ->
  match _tcp_loop condition base_time env rs s with
  | Throw e => socket_error e
  | Ok (_, rs', s') => sublist rs' socket_rules /\ inv s'
  end.
Proof.
  revert base_time rs s. induction env as [|[abort now] env IH]; intros base_time rs s Hrs Hs; cbn [_tcp_loop]; [done|].
  destruct (negb (condition s)); [done|].
  pose proof (wait_next_event_lem inv need io_error rs TCP_TICK_MS s
    (served_sublist _ _ _ _ _ Hrs socket_rules_served)
    (respectful_sublist _ _ _ _ Hrs socket_rules_respectful) (socket_poll_respects rs) Hs) as Hw.
  destruct (wait_next_event rs TCP_TICK_MS s) as [[[ret rs1] s1]|]; [|done]. cbn [mbind result_bind].
  destruct Hw as [Hs1 Hrs1]. assert (Hrs' : sublist rs1 socket_rules) by by etransitivity.
  destruct (_ || abort); [done|]. destruct (inv_conn s1 Hs1) as (c & _ & _ & -> & _).
  destruct (active c); [|by apply IH]. apply IH; [done|by apply tick_all_inv].
Qed.

Lemma fresh_inv s c :
  _fd (_thread_data s) <> _fd (adapter_fd s) -> thread_input s = S -> good [] false c -> _tcp s = Some c -> inv s.
Proof. intros Hd Hi Hg Hc. constructor; [done|]. by exists c, [], false. Qed.
End safety.

(** ** Properties *)

Section properties.
Context {A Address K : Type} `{!AdaptT A Address K} `{!Kernel K} `{!SocketKernel K Address} `{!PollKernel K}.
Context `{!Streams K} `{!KernelLaws K} `{!SocketLaws K Address} `{!AdaptLaws A Address K} `{!PollKernelLaws K}.

Abbreviation socket := (TCPSpongeSocket A K).

(** The connection is well-formed and has been given the bytes [W] of the
    owner's stream [S], in order; the rest is still to come. *)
Definition relays (S : list byte) (s : socket) : Prop :=
  exists c W, _tcp s = Some c /\ wf c /\ sends W (_sender c) /\ W ++ thread_input s = S.

Lemma inv_relays S s : inv S s -> relays S s.
Proof.
  intros [_ (c & W & b & Hc & Hg & _ & HW)]. exists c, W. split; [done|].
  split; [by eapply good_wf|]. split; [apply Hg|done].
Qed.

Lemma main_safe S s rs base_time env :
  zlen S < 2 ^ 62 -> sublist rs socket_rules -> inv S s ->
  match _tcp_main s rs base_time env with
  | Throw e => socket_error e
  | Ok (finished, _, s') => finished = false -> relays S s'
  end.
Proof.
  intros HS Hrs Hs. unfold _tcp_main. destruct (inv_conn S s Hs) as (c & _ & _ & -> & _).
  pose proof (tcp_loop_safe S HS (fun _ => true) base_time env rs s Hrs Hs) as Hl.
  destruct (_tcp_loop _ _ _ _ _) as [[[[] rs'] s']|]; [..|done]; cbn [mbind result_bind].
  - destruct (shutdown_safe (Address := Address) (owner s') (kernel s') SHUT_RDWR) as [[code ->]|(w' & k' & ->)];
      [unfold SHUT_RDWR; lia| |done]. left. left. eauto.
  - intros _. apply inv_relays, Hl.
Qed.

(** C13: A session of the socket. Whatever the network delivers, however the kernel
    splits reads and writes and the clock runs, the thread of a socket that
    connects or listens and then runs its main loop never reports a busy wait,
    never finds the connection to accept less than it advertised or to be in
    an unexpected state, and never ends with an exception other than one of
    the kernel's; and at each point the bytes given to the connection are
    exactly the bytes read from the owner, in order. *)
Theorem socket_session (s : socket) c_tcp c_ad random t0 env t1 env1 start :
  _tcp s = None -> _fd (_thread_data s) <> _fd (adapter_fd s) -> cfg_ok c_tcp ->
  zlen (thread_input s) < 2 ^ 62 ->
  start = connect s [] c_tcp c_ad random t0 env \/ start = listen_and_accept s [] c_tcp c_ad random t0 env ->
  match start with
  | Throw e => socket_error e
  | Ok (_, rs, s1) =>
      relays (thread_input s) s1 /\
      match _tcp_main s1 rs t1 env1 with
      | Throw e => socket_error e
      | Ok (finished, _, s2) => finished = false -> relays (thread_input s) s2
      end
  end.
Proof.
  intros Hc Hd Hcfg HS Hstart. set (S := thread_input s) in *.
  assert (Hrun : exists cond s1, start = _tcp_loop cond t0 env socket_rules s1 /\ inv S s1).
  { destruct Hstart as [-> | ->]; unfold connect, listen_and_accept; rewrite Hc; cbn [_initialize_TCP].
    - cbn [_tcp set_adapter set_tcp]. rewrite connect_new. cbn [neqb_TCPState]. eexists _, _. split; [reflexivity|].
      eapply fresh_inv; [done|done| |done]. rewrite <- connect_new. by apply good_connect, good_new.
    - eexists _, _. split; [reflexivity|]. eapply fresh_inv; [done|done| |done]. by apply good_new. }
  destruct Hrun as (cond & s1 & -> & Hs1).
  pose proof (tcp_loop_safe S HS cond t0 env socket_rules s1 (reflexivity _) Hs1) as Hl.
  destruct (_tcp_loop cond t0 env socket_rules s1) as [[[f rs] s2]|]; [|done]. destruct Hl as [Hrs Hs2].
  split; [by apply inv_relays|by apply main_safe].
Qed.

(** The owner gets what the peer sent. The rule that serves the owner's socket
    moves bytes from the inbound stream to it, possibly fewer than it offered
    to write; none is lost, repeated or reordered. *)
Theorem inbound_relayed (s : socket) c :
  _tcp s = Some c ->
  match inbound_out s with
  | Throw e => io_error e
  | Ok s' => exists c', _tcp s' = Some c' /\
      thread_output s' ++ ByteStream._buff (inbound_stream c') =
      thread_output s ++ ByteStream._buff (inbound_stream c)
  end.
Proof.
  intros Hc. pose proof (inbound_out_spec s c Hc) as H. destruct (inbound_out s) as [s'|]; [|done].
  destruct H as (n & c' & -> & Hn & Ht & Ho & _). eexists. split; [exact Ht|]. rewrite Ho, <- app_assoc. f_equal.
  rewrite <- ByteStream.peek_output_take by lia. symmetry. apply ByteStream.pop_output_buff. lia.
Qed.
End properties.

(** ** An example *)

(** A UDP socket on descriptor 4 whose owner, on descriptor 3, will write five
    bytes. *)
Definition example_socket : TCPSpongeSocket (FdAdapterBase (Z * Z)) example_net :=
  let w n := {| _fd := n; _eof := false; _closed := false; _read_count := 0; _write_count := 0 |} in
  {| owner := w 5; _thread_data := w 3; _datagram_adapter := new_FdAdapterBase; adapter_fd := w 4;
     _tcp := None; _inbound_shutdown := false; _outbound_shutdown := false; _fully_acked := false;
     kernel := {| files := <[3 := ([Byte.x68; Byte.x65; Byte.x6c; Byte.x6c; Byte.x6f], [])]> ∅;
                  mailbox := []; arriving := ∅ |} |}.

Definition example_peer : FdAdapterConfig (Z * Z) :=
  {| source := (1, 1000); destination := (2, 2000); loss_rate_dn := 0; loss_rate_up := 0 |}.

#[local] Existing Instance plain_adapt.

(** After two iterations of [connect] the SYN is out and four of the five bytes
    are in the connection. *)
Lemma socket_session_witness :
  match connect example_socket [] test_config example_peer 0 0 [(false, 10); (false, 20)] with
  | Ok (_, _, s) => zlen (mailbox (kernel s)) = 1 /\
      exists c, _tcp s = Some c /\ wf c /\ sends [Byte.x68; Byte.x65; Byte.x6c; Byte.x6c] (_sender c)
  | Throw _ => False
  end.
Proof.
  pose proof (socket_session example_socket test_config example_peer 0 0 [(false, 10); (false, 20)] 20 []
    (connect example_socket [] test_config example_peer 0 0 [(false, 10); (false, 20)])
    eq_refl ltac:(vm_compute; discriminate) test_config_ok ltac:(vm_compute; reflexivity) (or_introl eq_refl)) as H.
  assert (Hrun : match connect example_socket [] test_config example_peer 0 0 [(false, 10); (false, 20)] with
    | Ok (_, _, s) => thread_input s = [Byte.x6f] /\ zlen (mailbox (kernel s)) = 1
    | Throw _ => False end) by (vm_compute; split; reflexivity).
  destruct (connect example_socket [] test_config example_peer 0 0 [(false, 10); (false, 20)]) as [[[f rs] s]|e];
    [|exact Hrun]. destruct Hrun as [Hi Hm]. destruct H as [(c & W & Hc & Hwf & Hs & HW) _].
  split; [exact Hm|]. exists c. split; [exact Hc|]. split; [exact Hwf|]. rewrite Hi in HW.
  apply (app_inj_tail W [Byte.x68; Byte.x65; Byte.x6c; Byte.x6c]) in HW as [-> _]. exact Hs.
Defined.

(** A connection with three bytes for the owner, of which the kernel takes two. *)
Definition example_inbound : TCPConnection :=
  deliver (new_TCPConnection test_config 0)
    [segment_of_syn (wrapping_int32 7); peer_segment false false 1 1 50 [Byte.x61; Byte.x62; Byte.x63]].

Lemma inbound_relayed_witness :
  match inbound_out (set_tcp example_socket (Some example_inbound)) with
  | Ok s' => thread_output s' = [Byte.x61; Byte.x62] /\
      exists c', _tcp s' = Some c' /\
        thread_output s' ++ ByteStream._buff (inbound_stream c') = [Byte.x61; Byte.x62; Byte.x63]
  | Throw _ => False
  end.
Proof.
  pose proof (inbound_relayed (set_tcp example_socket (Some example_inbound)) example_inbound eq_refl) as H.
  assert (Hrun : match inbound_out (set_tcp example_socket (Some example_inbound)) with
    | Ok s' => thread_output s' = [Byte.x61; Byte.x62] | Throw _ => False end) by (vm_compute; reflexivity).
  destruct (inbound_out (set_tcp example_socket (Some example_inbound))) as [s'|e]; [|exact Hrun].
  split; [exact Hrun|]. destruct H as (c' & Hc & H). exists c'. split; [exact Hc|]. rewrite H. vm_compute. reflexivity.
Defined.
