(* ===== verification/StreamCopy.v ===== *)
(** * Copying between a socket and the terminal

    Models [bidirectional_stream_copy] of [src/apps/bidirectional_stream_copy.cc]:
    four rules in an event loop copy the standard input to a socket through one
    [ByteStream], and the socket to the standard output through another. *)

From S2P Require Import Prelude ByteStream Buffer FileDescriptor Socket EventLoop AdapterIO ExampleKernel.

(** ** State *)

(** The variables of the function; the event loop is passed separately. *)
Record copier {K : Type} := {
  _input : FDWrapper;
  _output : FDWrapper;
  socket : FDWrapper;
  _outbound : ByteStream;
  _inbound : ByteStream;
  _outbound_shutdown : bool;
  _inbound_shutdown : bool;
  kernel : K
}.
Arguments copier : clear implicits.

Inductive copier_fd := input_fd | output_fd | socket_fd.

#[export] Instance copier_world {K} `{PollKernel K} : World (copier K) copier_fd := {
  fdw := fun s f => match f with input_fd => _input s | output_fd => _output s | socket_fd => socket s end;
  sys_poll := fun s ps t =>
    let '(r, e, ps, k) := kernel_poll (kernel s) ps t in
    (r, e, ps, {| _input := _input s; _output := _output s; socket := socket s; _outbound := _outbound s;
                  _inbound := _inbound s; _outbound_shutdown := _outbound_shutdown s;
                  _inbound_shutdown := _inbound_shutdown s; kernel := k |})
}.

(** ** The rules *)

Section operations.
Context {K : Type} (Address : Type) `{Kernel K} `{SocketKernel K Address} `{PollKernel K}.

Definition max_copy_length : Z := 65536.
Definition buffer_size : Z := 1048576.
Definition STDIN_FILENO : Z := 0.
Definition STDOUT_FILENO : Z := 1.

(** Changes of one direction: its two descriptors, its stream and its flag. *)
Definition set_out (s : copier K) (i w : FDWrapper) (o : ByteStream) (sh : bool) (k : K) : copier K :=
  {| _input := i; _output := _output s; socket := w; _outbound := o; _inbound := _inbound s;
     _outbound_shutdown := sh; _inbound_shutdown := _inbound_shutdown s; kernel := k |}.
Definition set_in (s : copier K) (w o : FDWrapper) (i : ByteStream) (sh : bool) (k : K) : copier K :=
  {| _input := _input s; _output := o; socket := w; _outbound := _outbound s; _inbound := i;
     _outbound_shutdown := _outbound_shutdown s; _inbound_shutdown := sh; kernel := k |}.

(** Reading from a descriptor into a stream, as rules 1 and 3 do. *)
Definition fill (w : FDWrapper) (st : ByteStream) (k : K) : result (FDWrapper * ByteStream * K) :=
  '(data, w, k) ← FileDescriptor.read w k (ByteStream.remaining_capacity st);
  let st := snd (ByteStream.write st data) in
  Ok (w, if _eof w then ByteStream.end_input st else st, k).

(** Writing from a stream to a descriptor, as rules 2 and 4 do. *)
Definition drain (w : FDWrapper) (st : ByteStream) (k : K) : result (FDWrapper * ByteStream * K) :=
  let bytes_to_write := Z.min max_copy_length (ByteStream.buffer_size st) in
  '(bytes_written, w, k) ←
    FileDescriptor.write w k (bvl_of_string (ByteStream.peek_output st bytes_to_write)) false;
  Ok (w, ByteStream.pop_output st bytes_written, k).

(** Rule 1: standard input to the outbound stream. *)
Definition rule1 (s : copier K) : result (copier K) :=
  '(w, st, k) ← fill (_input s) (_outbound s) (kernel s);
  Ok (set_out s w (socket s) st (_outbound_shutdown s) k).
Definition rule1_interest (s : copier K) : bool :=
  negb (ByteStream.error (_outbound s)) && (0 <? ByteStream.remaining_capacity (_outbound s))
  && negb (ByteStream.error (_inbound s)).

(** Rule 2: outbound stream to the socket. *)
Definition rule2 (s : copier K) : result (copier K) :=
  '(w, st, k) ← drain (socket s) (_outbound s) (kernel s);
  if ByteStream.eof st then
    '(w, k) ← shutdown (Address := Address) w k SHUT_WR; Ok (set_out s (_input s) w st true k)
  else Ok (set_out s (_input s) w st (_outbound_shutdown s) k).
Definition rule2_interest (s : copier K) : bool :=
  negb (ByteStream.buffer_empty (_outbound s))
  || (ByteStream.eof (_outbound s) && negb (_outbound_shutdown s)).

(** Rule 3: socket to the inbound stream. *)
Definition rule3 (s : copier K) : result (copier K) :=
  '(w, st, k) ← fill (socket s) (_inbound s) (kernel s);
  Ok (set_in s w (_output s) st (_inbound_shutdown s) k).
Definition rule3_interest (s : copier K) : bool :=
  negb (ByteStream.error (_inbound s)) && (0 <? ByteStream.remaining_capacity (_inbound s))
  && negb (ByteStream.error (_outbound s)).

(** Rule 4: inbound stream to standard output. *)
Definition rule4 (s : copier K) : result (copier K) :=
  '(w, st, k) ← drain (_output s) (_inbound s) (kernel s);
  if ByteStream.eof st then '(w, k) ← close w k; Ok (set_in s (socket s) w st true k)
  else Ok (set_in s (socket s) w st (_inbound_shutdown s) k).
Definition rule4_interest (s : copier K) : bool :=
  negb (ByteStream.buffer_empty (_inbound s))
  || (ByteStream.eof (_inbound s) && negb (_inbound_shutdown s)).

(** The cancel callbacks of rules 1 and 2, and of rules 3 and 4. *)
Definition end_outbound (s : copier K) : result (copier K) :=
  Ok (set_out s (_input s) (socket s) (ByteStream.end_input (_outbound s)) (_outbound_shutdown s) (kernel s)).
Definition end_inbound (s : copier K) : result (copier K) :=
  Ok (set_in s (socket s) (_output s) (ByteStream.end_input (_inbound s)) (_inbound_shutdown s) (kernel s)).

Definition copy_rules : list (Rule (copier K) copier_fd) :=
  let _eventloop := add_rule [] input_fd In rule1 rule1_interest end_outbound in
  let _eventloop := add_rule _eventloop socket_fd Out rule2 rule2_interest end_outbound in
  let _eventloop := add_rule _eventloop socket_fd In rule3 rule3_interest end_inbound in
  add_rule _eventloop output_fd Out rule4 rule4_interest end_inbound.

(** [n] iterations of the loop; the flag says whether it has returned. *)
Fixpoint copy_loop (n : nat) (_eventloop : list (Rule (copier K) copier_fd)) (s : copier K)
    : result (bool * list (Rule (copier K) copier_fd) * copier K) :=
  match n with
  | O => Ok (false, _eventloop, s)
  | S n =>
      '(ret, _eventloop, s) ← wait_next_event _eventloop (-1) s;
      match ret with
      | Exit => Ok (true, _eventloop, s)
      | _ => copy_loop n _eventloop s
      end
  end.

Definition bidirectional_stream_copy (w : FDWrapper) (k : K) (n : nat)
    : result (bool * list (Rule (copier K) copier_fd) * copier K) :=
  _input ← new_FDWrapper STDIN_FILENO;
  _output ← new_FDWrapper STDOUT_FILENO;
  k ← set_blocking w k false;
  k ← set_blocking _input k false;
  k ← set_blocking _output k false;
  copy_loop n copy_rules
    {| _input := _input; _output := _output; socket := w;
       _outbound := new_ByteStream buffer_size; _inbound := new_ByteStream buffer_size;
       _outbound_shutdown := false; _inbound_shutdown := false; kernel := k |}.

End operations.

(** ** Conservation of bytes *)

Section safety.
Context {K Address : Type} `{!Kernel K} `{!SocketKernel K Address} `{!PollKernel K}.
Context `{!Streams K} `{!KernelLaws K} `{!SocketLaws K Address} `{!PollKernelLaws K}.

#[export] Instance copier_poll_laws : PollLaws (copier K) copier_fd.
Proof.
  split; cbn; intros w ps t r e ps' w'; destruct (kernel_poll _ _ _) as [[[r0 e0] ps0] k0] eqn:E;
    intros [= <- <- <- <-]; [by eapply kpoll_value|by eapply kpoll_array|by eapply kpoll_fails].
Qed.

Lemma fill_spec w st (k : K) :
  ByteStream.wf st ->
  match fill w st k with
  | Throw e => io_error e
  | Ok (w', st', k') => ByteStream.wf st' /\ _fd w' = _fd w /\
      _read_count w' <> _read_count w /\ written k' (_fd w) = written k (_fd w) /\
      ByteStream._buff st' ++ input k' (_fd w) = ByteStream._buff st ++ input k (_fd w) /\
      (forall f, f <> _fd w -> untouched f k k')
  end.
Proof.
  intros Hst. unfold fill.
  destruct (fd_read_spec w k (ByteStream.remaining_capacity st))
    as [[c ->]|(data & w1 & k' & -> & Hl & Hi & Hw & Hu & Hw1)]; [apply u64_range|left; eauto|].
  cbn [mbind result_bind]. set (st' := snd (ByteStream.write st data)).
  assert (Hb : ByteStream._buff st' = ByteStream._buff st ++ data).
  { unfold st'. rewrite ByteStream.write_buff by done. f_equal. apply take_ge.
    unfold ByteStream.write. cbn [fst]. unfold zlen in *. lia. }
  assert (Hf : _fd w1 = _fd w /\ _read_count w1 = _read_count w) by (by destruct ((_ <? _) && _); subst w1).
  destruct Hf as [Hf Hc]. assert (Hwf : ByteStream.wf st') by by apply ByteStream.wf_write.
  assert (Hgoal : forall st2, ByteStream.wf st2 -> ByteStream._buff st2 = ByteStream._buff st' ->
    ByteStream.wf st2 /\ _fd (register_read w1) = _fd w /\ _read_count (register_read w1) <> _read_count w /\
    written k' (_fd w) = written k (_fd w) /\
    ByteStream._buff st2 ++ input k' (_fd w) = ByteStream._buff st ++ input k (_fd w) /\
    (forall f, f <> _fd w -> untouched f k k')).
  { intros st2 H2 E2. split_and!; try done; [rewrite <- Hc; apply read_count_changes|].
    by rewrite E2, Hb, <- app_assoc, Hi. }
  destruct (_eof (register_read w1)); apply Hgoal; try done. by apply ByteStream.wf_end_input.
Qed.

Lemma stream_drain_spec w st (k : K) :
  ByteStream.wf st ->
  match drain w st k with
  | Throw e => io_error e
  | Ok (w', st', k') => ByteStream.wf st' /\ w' = register_write w /\
      input k' (_fd w) = input k (_fd w) /\
      written k' (_fd w) ++ ByteStream._buff st' = written k (_fd w) ++ ByteStream._buff st /\
      (forall f, f <> _fd w -> untouched f k k')
  end.
Proof.
  intros Hst. unfold drain. set (amount := Z.min max_copy_length _).
  assert (Ha : 0 <= amount) by (subst amount; pose proof (zlen_nonneg (ByteStream._buff st));
    unfold ByteStream.buffer_size, max_copy_length; lia).
  rewrite ByteStream.peek_output_take by done. set (buf := take _ _).
  assert (Hbuf : zlen buf <= 65536) by (subst buf amount; rewrite zlen_take; unfold max_copy_length; lia).
  assert (Hcc : concat (bvl_of_string buf) = buf) by apply app_nil_r.
  destruct (write_once w k (bvl_of_string buf)) as [(e & -> & He)|(n & k' & -> & Hn & Hw & Hi & Hu)];
    [rewrite Hcc; lia|cbn; by apply write_error_io|]. rewrite Hcc in Hn, Hw. cbn [mbind result_bind].
  split; [apply ByteStream.wf_pop; [done|lia]|]. split; [done|]. split; [done|]. split; [|done].
  assert (Htake : take (Z.to_nat n) buf = take (Z.to_nat n) (ByteStream._buff st)).
  { subst buf. rewrite take_take. f_equal. unfold zlen in Hn. rewrite length_take in Hn. lia. }
  rewrite Hw, Htake, <- app_assoc. f_equal. rewrite <- ByteStream.peek_output_take by lia.
  symmetry. apply ByteStream.pop_output_buff. lia.
Qed.

(** Everything that comes from the terminal and everything that comes from the
    socket is accounted for. *)
Definition outbound_bytes (s : copier K) : list byte :=
  written (kernel s) (_fd (socket s)) ++ ByteStream._buff (_outbound s) ++ input (kernel s) (_fd (_input s)).
Definition inbound_bytes (s : copier K) : list byte :=
  written (kernel s) (_fd (_output s)) ++ ByteStream._buff (_inbound s) ++ input (kernel s) (_fd (socket s)).

Record copies (S T : list byte) (s : copier K) : Prop := {
  copies_fds : _fd (_input s) <> _fd (_output s) /\ _fd (_input s) <> _fd (socket s) /\
               _fd (_output s) <> _fd (socket s);
  copies_out_wf : ByteStream.wf (_outbound s);
  copies_in_wf : ByteStream.wf (_inbound s);
  copies_out : outbound_bytes s = S;
  copies_in : inbound_bytes s = T
}.

Section rules.
Context (S T : list byte).
Abbreviation inv := (copies S T).
Abbreviation no_need := (fun _ _ => True).

Lemma rule1_served s :
  inv s -> match rule1 s with
  | Throw e => io_error e
  | Ok s' => inv s' /\ _read_count (_input s') <> _read_count (_input s)
  end.
Proof.
  intros [(D1 & D2 & D3) Ho Hi HS HT]. unfold rule1. pose proof (fill_spec (_input s) (_outbound s) (kernel s) Ho) as H.
  destruct (fill _ _ _) as [[[w st] k]|]; [|done]. cbn [mbind result_bind].
  destruct H as (H1 & H2 & H3 & H4 & H5 & H6). split; [|done].
  destruct (H6 (_fd (socket s)) ltac:(congruence)) as [U1 U2]. destruct (H6 (_fd (_output s)) ltac:(congruence)) as [_ U4].
  constructor; cbn; rewrite ?H2; try done.
  - rewrite <- HS. unfold outbound_bytes. cbn. by rewrite H2, U2, H5.
  - rewrite <- HT. unfold inbound_bytes. cbn. by rewrite U1, U4.
Qed.

Lemma rule3_served s :
  inv s -> match rule3 s with
  | Throw e => io_error e
  | Ok s' => inv s' /\ _read_count (socket s') <> _read_count (socket s)
  end.
Proof.
  intros [(D1 & D2 & D3) Ho Hi HS HT]. unfold rule3. pose proof (fill_spec (socket s) (_inbound s) (kernel s) Hi) as H.
  destruct (fill _ _ _) as [[[w st] k]|]; [|done]. cbn [mbind result_bind].
  destruct H as (H1 & H2 & H3 & H4 & H5 & H6). split; [|done].
  destruct (H6 (_fd (_input s)) ltac:(congruence)) as [U1 _]. destruct (H6 (_fd (_output s)) ltac:(congruence)) as [_ U4].
  constructor; cbn; rewrite ?H2; try done.
  - rewrite <- HS. unfold outbound_bytes. cbn. by rewrite H2, H4, U1.
  - rewrite <- HT. unfold inbound_bytes. cbn. by rewrite H2, H5, U4.
Qed.

(** The state after the outbound stream has been drained into the socket. *)
Lemma drained_out s st k w sh :
  inv s -> ByteStream.wf st -> _fd w = _fd (socket s) ->
  input k (_fd (socket s)) = input (kernel s) (_fd (socket s)) ->
  written k (_fd (socket s)) ++ ByteStream._buff st =
    written (kernel s) (_fd (socket s)) ++ ByteStream._buff (_outbound s) ->
  (forall f, f <> _fd (socket s) -> untouched f (kernel s) k) -> inv (set_out s (_input s) w st sh k).
Proof.
  intros [(D1 & D2 & D3) Ho Hi HS HT] H1 H2 H4 H5 H6.
  destruct (H6 (_fd (_input s)) ltac:(congruence)) as [U1 _]. destruct (H6 (_fd (_output s)) ltac:(congruence)) as [_ U4].
  constructor; cbn; rewrite ?H2; try done.
  - rewrite <- HS. unfold outbound_bytes. cbn. by rewrite H2, app_assoc, H5, U1, <- app_assoc.
  - rewrite <- HT. unfold inbound_bytes. cbn. by rewrite H2, H4, U4.
Qed.

Lemma drained_in s st k w sh :
  inv s -> ByteStream.wf st -> _fd w = _fd (_output s) ->
  written k (_fd (_output s)) ++ ByteStream._buff st =
    written (kernel s) (_fd (_output s)) ++ ByteStream._buff (_inbound s) ->
  (forall f, f <> _fd (_output s) -> untouched f (kernel s) k) -> inv (set_in s (socket s) w st sh k).
Proof.
  intros [(D1 & D2 & D3) Ho Hi HS HT] H1 H2 H5 H6.
  destruct (H6 (_fd (_input s)) ltac:(congruence)) as [U1 _]. destruct (H6 (_fd (socket s)) ltac:(congruence)) as [U3 U4].
  constructor; cbn; rewrite ?H2; try done.
  - rewrite <- HS. unfold outbound_bytes. cbn. by rewrite U1, U4.
  - rewrite <- HT. unfold inbound_bytes. cbn. by rewrite H2, app_assoc, H5, U3, <- app_assoc.
Qed.

Lemma rule2_served s :
  inv s -> match rule2 Address s with
  | Throw e => io_error e
  | Ok s' => inv s' /\ _write_count (socket s') <> _write_count (socket s)
  end.
Proof.
  intros Hs. unfold rule2. pose proof (stream_drain_spec (socket s) (_outbound s) (kernel s) (copies_out_wf _ _ s Hs)) as H.
  destruct (drain _ _ _) as [[[w st] k]|]; [|done]. cbn [mbind result_bind].
  destruct H as (H1 & -> & H4 & H5 & H6). destruct (ByteStream.eof st).
  - destruct (shutdown_wr_spec (Address := Address) (register_write (socket s)) k) as [[code ->]|(k2 & -> & Hu)];
      [left; eauto|]. cbn [mbind result_bind]. destruct (Hu (_fd (socket s))) as [V1 V2].
    split; [|apply count_next; by right].
    apply drained_out; try done; [by rewrite V1|by rewrite V2|]. intros f Hf. eapply untouched_trans; [by apply H6|apply Hu].
  - split; [by apply drained_out|]. apply count_next. by left.
Qed.

Lemma rule4_served s :
  inv s -> match rule4 s with
  | Throw e => io_error e
  | Ok s' => inv s' /\ _write_count (_output s') <> _write_count (_output s)
  end.
Proof.
  intros Hs. unfold rule4. pose proof (stream_drain_spec (_output s) (_inbound s) (kernel s) (copies_in_wf _ _ s Hs)) as H.
  destruct (drain _ _ _) as [[[w st] k]|]; [|done]. cbn [mbind result_bind].
  destruct H as (H1 & -> & H4 & H5 & H6). destruct (ByteStream.eof st).
  - destruct (close_spec (register_write (_output s)) k) as [[code ->]|(w2 & k2 & -> & Hf & Hc & Hu)];
      [left; eauto|]. cbn [mbind result_bind]. destruct (Hu (_fd (_output s))) as [V1 V2].
    split; [|apply count_next; left; exact Hc].
    apply drained_in; try done; [by rewrite V2|]. intros f Hf'. eapply untouched_trans; [by apply H6|apply Hu].
  - split; [by apply drained_in|]. apply count_next. by left.
Qed.

Lemma end_outbound_inv s : inv s -> match end_outbound s with Ok s' => inv s' | Throw e => io_error e end.
Proof. intros []. constructor; try done. by apply ByteStream.wf_end_input. Qed.
Lemma end_inbound_inv s : inv s -> match end_inbound s with Ok s' => inv s' | Throw e => io_error e end.
Proof. intros []. constructor; try done. by apply ByteStream.wf_end_input. Qed.

Lemma copy_rules_served : Forall (served inv no_need io_error) (copy_rules Address).
Proof.
  repeat apply Forall_cons_2; [..|apply Forall_nil_2]; constructor; try done;
    try exact end_outbound_inv; try exact end_inbound_inv; intros s Hs _; cbn [callback];
    unfold service_count; cbn [direction fd fdw copier_world].
  - pose proof (rule1_served s Hs) as H. destruct (rule1 s); [|done]. destruct H. split; [done|by left].
  - pose proof (rule2_served s Hs) as H. destruct (rule2 Address s); [|done]. destruct H. split; [done|by left].
  - pose proof (rule3_served s Hs) as H. destruct (rule3 s); [|done]. destruct H. split; [done|by left].
  - pose proof (rule4_served s Hs) as H. destruct (rule4 s); [|done]. destruct H. split; [done|by left].
Qed.

Lemma copy_rules_respectful :
  ForallOrdPairs (fun r r' => respects inv no_need r r' /\ respects inv no_need r' r) (copy_rules Address).
Proof.
  repeat first [apply FOP_nil | apply FOP_cons; [repeat apply Forall_cons_2; [..|apply Forall_nil_2]|]]; by split.
Qed.

Lemma copier_poll_respects rs : poll_respects inv no_need rs.
Proof.
  intros s ps t r e ps' s'. cbn. destruct (kernel_poll _ _ _) as [[[r0 e0] ps0] k0] eqn:E. intros [= <- <- <- <-].
  intros [D Ho Hi HS HT]. split; [|by apply Forall_true].
  pose proof (fun f => kpoll_streams _ _ _ _ _ _ _ f E) as U.
  destruct (U (_fd (_input s))) as [U1 _], (U (_fd (_output s))) as [_ U2], (U (_fd (socket s))) as [U3 U4].
  constructor; try done.
  - rewrite <- HS. unfold outbound_bytes. cbn. by rewrite U1, U4.
  - rewrite <- HT. unfold inbound_bytes. cbn. by rewrite U2, U3.
Qed.

Lemma copy_loop_safe n rs s :
  sublist rs (copy_rules Address) -> inv s ->
  match copy_loop n rs s with
  | Throw e => round_error io_error e
  | Ok (_, _, s') => inv s'
  end.
Proof.
  revert rs s. induction n as [|n IH]; intros rs s Hrs Hs; cbn [copy_loop]; [done|].
  pose proof (wait_next_event_lem inv no_need io_error rs (-1) s
    (served_sublist _ _ _ _ _ Hrs copy_rules_served)
    (respectful_sublist _ _ _ _ Hrs copy_rules_respectful) (copier_poll_respects rs) Hs) as Hw.
  destruct (wait_next_event rs (-1) s) as [[[ret rs1] s1]|]; [|done]. cbn [mbind result_bind].
  destruct Hw as [Hs1 Hrs1]. assert (Hrs' : sublist rs1 (copy_rules Address)) by by etransitivity.
  destruct ret; [by apply IH|by apply IH|done].
Qed.
End rules.

(** ** Properties *)

(** C24: Nothing is lost on the way. However the kernel splits reads and writes, after
    any number of iterations the bytes written to the socket, those buffered
    and those still to come from the standard input make up, in this order,
    exactly the standard input (after what had been written before), and the
    same holds in the other direction; the copying never reports a busy wait
    and ends with an exception only when a system call fails. *)
Theorem stream_copy_conserves w (k : K) n :
  _fd w <> STDIN_FILENO -> _fd w <> STDOUT_FILENO ->
  match bidirectional_stream_copy Address w k n with
  | Throw e => round_error io_error e
  | Ok (_, _, s) =>
      outbound_bytes s = written k (_fd w) ++ input k STDIN_FILENO /\
      inbound_bytes s = written k STDOUT_FILENO ++ input k (_fd w)
  end.
Proof.
  intros Hi Ho. unfold bidirectional_stream_copy. cbn [new_FDWrapper STDIN_FILENO STDOUT_FILENO Z.ltb Z.compare mbind result_bind].
  assert (Herr : forall c, round_error io_error (unix_error "fcntl" c)) by (left; left; eauto).
  destruct (set_blocking_spec w k false) as [[c ->]|(k1 & -> & U1)]; [apply Herr|]. cbn [mbind result_bind].
  match goal with |- context [set_blocking ?x k1 false] => destruct (set_blocking_spec x k1 false) as [[c ->]|(k2 & -> & U2)] end;
    [apply Herr|]. cbn [mbind result_bind].
  match goal with |- context [set_blocking ?x k2 false] => destruct (set_blocking_spec x k2 false) as [[c ->]|(k3 & -> & U3)] end;
    [apply Herr|]. cbn [mbind result_bind].
  assert (U : forall f, untouched f k k3) by eauto using untouched_trans.
  match goal with |- context [copy_loop n _ ?s0] =>
    assert (Hinv : copies (written k (_fd w) ++ input k STDIN_FILENO) (written k STDOUT_FILENO ++ input k (_fd w)) s0);
    [|pose proof (copy_loop_safe _ _ n (copy_rules Address) s0 (reflexivity _) Hinv) as H] end.
  { destruct (U (_fd w)) as [A1 A2], (U STDIN_FILENO) as [A3 _], (U STDOUT_FILENO) as [_ A4].
    constructor; cbn; [done|by apply bs_wf_new|by apply bs_wf_new| |].
    - unfold outbound_bytes. cbn. by rewrite A2, A3.
    - unfold inbound_bytes. cbn. by rewrite A1, A4. }
  destruct (copy_loop _ _ _) as [[[f rs] s]|]; [by destruct H|done].
Qed.
End safety.

(** Three letters typed while three others come from the socket on descriptor 5;
    the example kernel moves two at a time. *)
Definition example_terminal : example_net :=
  {| files := <[0 := ([Byte.x61; Byte.x62; Byte.x63], [])]>
                (<[5 := ([Byte.x78; Byte.x79; Byte.x7a], [])]> ∅);
     mailbox := []; arriving := ∅ |}.

Lemma stream_copy_conserves_witness :
  let w := {| _fd := 5; _eof := false; _closed := false; _read_count := 0; _write_count := 0 |} in
  match bidirectional_stream_copy (Z * Z) w example_terminal 2 with
  | Throw e => False
  | Ok (_, _, s) =>
      written (kernel s) 5 = [Byte.x61; Byte.x62] /\ ByteStream._buff (_outbound s) = [Byte.x63] /\
      outbound_bytes s = [Byte.x61; Byte.x62; Byte.x63] /\
      inbound_bytes s = [Byte.x78; Byte.x79; Byte.x7a]
  end.
Proof.
  intros w. pose proof (stream_copy_conserves (Address := Z * Z) w example_terminal 2
    ltac:(vm_compute; discriminate) ltac:(vm_compute; discriminate)) as H.
  assert (Hrun : match bidirectional_stream_copy (Z * Z) w example_terminal 2 with
    | Throw e => False
    | Ok (_, _, s) => written (kernel s) 5 = [Byte.x61; Byte.x62] /\ ByteStream._buff (_outbound s) = [Byte.x63]
    end) by (vm_compute; split; reflexivity).
  destruct (bidirectional_stream_copy (Z * Z) w example_terminal 2) as [[[f rs] s]|e]; [|exact Hrun].
  destruct Hrun as [H1 H2]. destruct H as [H3 H4].
  split; [exact H1|]. split; [exact H2|]. split; [exact H3|exact H4].
Defined.
