(* ===== verification/Acknowledgment.v ===== *)
(** * What an acknowledgment means

    Between two endpoints, a byte leaves the sender's retransmission list only
    after the peer has it in order: whatever the network does, nothing that was
    written is forgotten before it is delivered. The invariant pairs the first
    outstanding number of one side with the number the other side expects
    next, through the acknowledgments on their way. *)

From S2P Require Import Prelude WrappingIntegers ByteStream StreamReassembler ReassemblerProps Buffer TCPHeader TCPSegment TCPReceiver TCPSender TCPState TCPConnection Transport Emission.

(** ** The two numbers *)

(** The first absolute number that a sender holds outstanding. *)
Definition acked (s : TCPSender) : Z := next_seqno_absolute s - TCPSender.bytes_in_flight s.

(** The absolute number that a receiver expects next; 0 before the SYN. *)
Definition expected (r : TCPReceiver) : Z := if TCPReceiver._syn r then next_expected r else 0.

(** ** Segments before they are stamped *)

Definition unstamped (seg : TCPSegment) : Prop :=
  ack (header seg) = false /\ TCPHeader.ackno (header seg) = wrapping_int32 0 /\
  rst (header seg) = false.

#[export] Instance unstamped_built : Built unstamped.
Proof.
  constructor; [|done]. intros win s. unfold build_segment. destruct (ByteStream.read _ _).
  by destruct (_syn s), (negb (_fin s) && _ && _).
Qed.

(** [seg] acknowledges at most the number [n] of the stream that starts at [isn],
    or nothing. *)
Definition acks_upto (isn : WrappingInt32) (n : Z) (seg : TCPSegment) : Prop :=
  if ack (header seg) then exists k, 0 <= k <= n /\ TCPHeader.ackno (header seg) = wrap k isn
  else TCPHeader.ackno (header seg) = wrapping_int32 0.

Lemma acks_upto_le isn n m seg : acks_upto isn n seg -> n <= m -> acks_upto isn m seg.
Proof.
  unfold acks_upto. destruct (ack _); [|done]. intros (k & ? & ?) ?. exists k. split; [lia|done].
Qed.

Lemma acks_upto_wi isn n seg : acks_upto isn n seg -> wi_wf (TCPHeader.ackno (header seg)).
Proof. unfold acks_upto. destruct (ack _); [intros (k & _ & ->)|intros ->]; auto with sponge. Qed.

(** ** The receiver's number *)

Lemma expected_nonneg r : TCPReceiver.wf r -> 0 <= expected r.
Proof.
  intros [Hr _ _ _]. pose proof (wf_written _ Hr) as (H0 & Hw & _). unfold expected, next_expected.
  change (_output (_reassembler r)) with (TCPReceiver.stream_out r) in *.
  unfold ByteStream.buffer_size in *. pose proof (zlen_nonneg (ByteStream._buff (TCPReceiver.stream_out r))).
  destruct (TCPReceiver._syn r); [|done]. destruct (ByteStream.input_ended _); lia.
Qed.

Lemma expected_bound W isn r : receives W isn r -> expected r <= zlen W + 2.
Proof.
  intros [_ Hf _]. pose proof (fol_written _ _ Hf) as Hw. pose proof (zlen_nonneg W).
  unfold expected, next_expected. change (_output (_reassembler r)) with (TCPReceiver.stream_out r) in *.
  destruct (TCPReceiver._syn r); [|lia]. destruct (ByteStream.input_ended _); lia.
Qed.

(** The stream position of a segment, from its absolute number. *)
Lemma position_at W e isn q seg :
  wi_wf isn -> zlen W + 2 < 2 ^ 32 -> sent_at W e isn q seg ->
  position (raw_value isn) seg = if syn (header seg) then 0 else u64 (q - 1).
Proof.
  intros Hi HW (_ & _ & Hq & Hs & _). unfold position. destruct (syn (header seg)); [done|].
  rewrite Hs, raw_wrap. f_equal. f_equal. unfold wi_wf in Hi. word.
Qed.

(** What a segment that is not dropped does to the reassembler. *)
Lemma segment_received_pushed W isn r seg r' :
  wi_wf isn -> zlen W < 2 ^ 63 -> receives W isn r -> seg_of W isn seg ->
  TCPReceiver.segment_received r seg = Ok r' ->
  (ignored r seg = true /\ r' = r) \/ exists t, ignored r seg = false /\ TCPReceiver._syn r' = true /\
    push_substring (_reassembler r) (str (payload seg)) (position (raw_value isn) seg) (fin (header seg))
      = Ok (_reassembler r') /\
    pushed (_reassembler r) (str (payload seg)) (position (raw_value isn) seg) (fin (header seg)) t
      (_reassembler r').
Proof.
  intros Hi HW [Hwf Hf Hisn] Hseg E. destruct (position_of W isn seg Hi Hseg) as (Hp & Hs & Hsyn).
  rewrite segment_received_eq in E by done.
  destruct (ignored r seg) eqn:Eg; [injection E as <-; by left|right]. cbn zeta in E.
  assert (Hn : (if syn (header seg) then raw_value (seqno (header seg)) else TCPReceiver._isn r) = raw_value isn).
  { unfold ignored in Eg. destruct (syn (header seg)); [auto|]. destruct (TCPReceiver._syn r); [auto|done]. }
  rewrite Hn in E. destruct (push_follows W HW (_reassembler r) _ _ _ Hf Hp (position_range _ _))
    as (t & a & Ha & Hpu & _). rewrite Ha in E. injection E as <-. by exists t.
Qed.

Lemma expected_mono W isn r seg r' :
  wi_wf isn -> zlen W < 2 ^ 63 -> receives W isn r -> seg_of W isn seg ->
  TCPReceiver.segment_received r seg = Ok r' -> expected r <= expected r'.
Proof.
  intros Hi HW Hr Hseg E. pose proof (receiver_keeps_flags _ _ _ E) as (He & _ & Hsy).
  assert (Hr' : receives W isn r').
  { destruct (segment_received_receives W isn r seg Hi HW Hr Hseg) as (r1 & E1 & H1 & _). congruence. }
  pose proof (expected_nonneg r' (rcv_wf _ _ _ Hr')) as H0.
  destruct (segment_received_pushed W isn r seg r' Hi HW Hr Hseg E) as [[_ ->]|(t & _ & _ & _ & Hpu)]; [done|].
  unfold expected in *. destruct (TCPReceiver._syn r); [|done]. rewrite (Hsy eq_refl). unfold next_expected.
  pose proof (pushed_written _ _ _ _ _ _ Hpu) as Hw. pose proof (zlen_nonneg t).
  change (_output (_reassembler r)) with (TCPReceiver.stream_out r) in *.
  change (_output (_reassembler r')) with (TCPReceiver.stream_out r') in *. rewrite Hw.
  destruct (ByteStream.input_ended (TCPReceiver.stream_out r)); [rewrite He by done; lia|].
  destruct (ByteStream.input_ended (TCPReceiver.stream_out r')); lia.
Qed.

(** Reading and setting the error flag leave it. *)
Lemma expected_read r n :
  expected (on_stream_out (fun s => snd (ByteStream.read s n)) r) = expected r.
Proof. done. Qed.

Lemma expected_error r : expected (on_stream_out ByteStream.set_error r) = expected r.
Proof. done. Qed.

(** What [stamp] writes. *)
Lemma stamp_acks W isn r seg :
  receives W isn r -> wi_wf isn -> unstamped seg -> acks_upto isn (expected r) (stamp r seg).
Proof.
  intros Hr Hi (Ha & Hn & _). pose proof (expected_nonneg r (rcv_wf _ _ _ Hr)) as H0. revert H0.
  unfold stamp, expected. rewrite ackno_eq by apply Hr.
  destruct (TCPReceiver._syn r) eqn:Es; intros H0; unfold acks_upto; cbn; [|by rewrite Ha].
  exists (next_expected r). split; [lia|]. f_equal. apply wrapping_eq. cbn.
  rewrite (rcv_isn _ _ _ Hr Es). by apply u32_small.
Qed.

(** ** The sender's number *)

Lemma acked_fill s : TCPSender.wf s -> acked (fill_window s) = acked s.
Proof.
  intros H. destruct (fill_window_more s H) as (segs & [] & _).
  unfold acked, next_seqno_absolute, TCPSender.bytes_in_flight. lia.
Qed.

Lemma acked_tick s ms : acked (TCPSender.tick s ms) = acked s.
Proof. unfold TCPSender.tick. destruct (_segments_outgoing s) as [|[k x] l]; [done|]. by destruct (_ <=? _). Qed.

(** An acknowledgment moves it at most to the number it carries. *)
Lemma acked_ack s n w :
  TCPSender.wf s -> 0 <= w < 2 ^ 16 ->
  let a := unwrap n (TCPSender._isn s) (_next_seqno s) in
  acked s <= acked (ack_received s n w) /\
  (acked (ack_received s n w) = acked s \/ (a <= _next_seqno s /\ acked (ack_received s n w) <= a)).
Proof.
  intros Hwf Hw a. destruct (ack_received_eq s n w Hwf Hw) as [[_ ->]|(Ha & o & -> & Hwf' & Ho & Hm)].
  { split; [lia|by left]. }
  rewrite acked_fill by done. unfold acked, next_seqno_absolute, TCPSender.bytes_in_flight in *.
  cbn [ack_state _next_seqno _outgoing_bytes]. fold a in Ha, Hm. split; [lia|].
  destruct (Z.eq_dec o (_outgoing_bytes s)); [left; lia|right; lia].
Qed.

(** The numbers of a stream that starts at [isn] and is followed by [len] bytes
    and the two flags do not pass 0 on their way. *)
Definition no_wrap (isn : WrappingInt32) (len : Z) : Prop :=
  raw_value isn = 0 \/ raw_value isn + len + 2 < 2 ^ 32.

(** The number in [seg] can be told apart from that of a segment without an
    acknowledgment. *)
Definition unambiguous (isn : WrappingInt32) (len : Z) (seg : TCPSegment) : Prop :=
  ack (header seg) = true \/ no_wrap isn len.

Lemma ack_upto_unwrap isn n len cp seg :
  wi_wf isn -> acks_upto isn n seg -> 0 <= n < 2 ^ 32 -> unambiguous isn len seg -> 0 <= cp <= len + 2 ->
  len + 2 < 2 ^ 32 -> wi_wf (TCPHeader.ackno (header seg)) ->
  let a := unwrap (TCPHeader.ackno (header seg)) isn cp in a <= cp -> 0 <= a <= n.
Proof.
  intros Hi Ha Hn Hw Hcp Hl Hk a Hle. pose proof (unwrap_nonneg (TCPHeader.ackno (header seg)) isn cp) as H0.
  pose proof (unwrap_represents_lem (TCPHeader.ackno (header seg)) isn cp Hk Hi ltac:(lia)) as Hr.
  unfold represents in Hr. fold a in H0, Hr. apply (f_equal raw_value) in Hr. rewrite raw_wrap in Hr.
  unfold acks_upto in Ha. unfold wi_wf in Hi. unfold unambiguous in Hw. destruct (ack (header seg)).
  - destruct Ha as (k & Hk' & Ek). rewrite Ek, raw_wrap in Hr. word.
  - rewrite Ha in Hr. change (raw_value (wrapping_int32 0)) with 0 in Hr. destruct Hw as [?|[Hw|Hw]]; [done|..].
    + rewrite Hw in Hr. word.
    + destruct (Z.eq_dec (raw_value isn) 0) as [Ez|Ez]; [rewrite Ez in Hr; word|]. exfalso. word.
Qed.

(** ** The segments a sender keeps *)

(** An outstanding segment is the part of the stream at its key. *)
Definition kept_at (W : list byte) (ended : bool) (isn : WrappingInt32) (p : Z * TCPSegment) : Prop :=
  sent_at W ended isn p.1 p.2 /\ TCPHeader.syn (header p.2) = (p.1 =? 0).

Definition keeps (W : list byte) (s : TCPSender) : Prop :=
  Forall (kept_at W (ByteStream.input_ended (_stream s)) (TCPSender._isn s)) (_segments_outgoing s).

Lemma keeps_push W win s seg stream :
  sends W s -> keeps W s -> _outgoing_bytes s < win -> win < 2 ^ 16 ->
  build_segment win s = (seg, stream) -> 0 < length_in_sequence_space seg ->
  keeps W (push_segment s seg stream).
Proof.
  intros Hs Hk Ho Hw Hb Hl. pose proof (snd_wf W s Hs) as Hwf.
  pose proof (build_segment_at W win s seg stream Hs Ho Hw Hb) as Hat.
  pose proof (build_segment_spec win s Hwf Ho Hw) as Hsp. rewrite Hb in Hsp.
  destruct Hsp as (Hst & _ & _ & Hsy & _ & Hroom & _).
  pose proof (stream_read (_stream s) _ (wf_stream s Hwf) (wf_bound s Hwf) Hroom) as (_ & _ & _ & _ & Hie & _).
  pose proof (push_segment_wf win s Hwf Ho Hw) as Hp. rewrite Hb in Hp. destruct (Hp Hl) as (_ & _ & _ & Hmap).
  unfold keeps. rewrite Hmap. cbn [push_segment _stream TCPSender._isn]. rewrite Hst, Hie.
  apply Forall_app. split; [done|]. apply Forall_singleton. split; [done|]. cbn [fst snd]. rewrite Hsy.
  pose proof (wf_next s Hwf) as Hn. pose proof (ByteStream.wf_totout _ (wf_stream s Hwf)) as Ht.
  change (ByteStream._totout (_stream s)) with (ByteStream.bytes_read (_stream s)) in Ht.
  destruct (_syn s) eqn:Es; cbn [negb b1] in *.
  - symmetry. apply Z.eqb_neq. destruct (_fin s); cbn [b1] in Hn; lia.
  - destruct (wf_syn s Hwf Es) as [Hr Hf]. rewrite Hf in Hn. cbn [b1] in Hn. symmetry. apply Z.eqb_eq. lia.
Qed.

Lemma keeps_fill W s : sends W s -> keeps W s -> keeps W (fill_window s).
Proof.
  intros Hs Hk. pose proof (snd_wf W s Hs) as Hwf. pose proof (effective_window_range s Hwf).
  destruct (fill_window_spec s Hwf) as (_ & Hf & _).
  apply (fills_ind_wf (fun s => sends W s /\ keeps W s)) in Hf as [_ [_ ?]]; [done|lia| |done|done].
  intros s1 seg st _ [H1 H2] Ho Hb Hl _. split; [eapply sends_push|eapply keeps_push]; eauto; lia.
Qed.

(** [ack_received] does nothing, or fills the window of a sender that keeps
    fewer segments of the same stream. *)
Lemma ack_cases W s n w :
  sends W s -> keeps W s -> 0 <= w < 2 ^ 16 ->
  ack_received s n w = s \/
  exists s1, ack_received s n w = fill_window s1 /\ sends W s1 /\ keeps W s1 /\
    _stream s1 = _stream s /\ TCPSender._isn s1 = TCPSender._isn s /\
    _next_seqno s1 = _next_seqno s /\ TCPSender._segments_out s1 = TCPSender._segments_out s.
Proof.
  intros Hs Hk Hw. destruct (ack_received_eq s n w (snd_wf W s Hs) Hw)
    as [[_ ->]|(_ & o & -> & Hwf' & _)]; [by left|right].
  eexists. split; [done|]. set (s1 := ack_state _ _ _ _) in *.
  assert (Hk' : keeps W s1).
  { unfold keeps in *. cbn [s1 ack_state _segments_outgoing _stream TCPSender._isn].
    rewrite Forall_forall in *. intros p Hp. apply Hk. apply list_elem_of_In in Hp.
    apply filter_In in Hp as [Hp _]. by apply list_elem_of_In. }
  split; [|done]. destruct Hs. constructor; try done.
  cbn [_segments_outgoing s1 ack_state _stream TCPSender._isn].
  eapply Forall_impl; [exact Hk'|]. intros p [Hp _]. by eapply sent_at_sent.
Qed.

Lemma keeps_ack W s n w :
  sends W s -> keeps W s -> 0 <= w < 2 ^ 16 -> keeps W (ack_received s n w).
Proof.
  intros Hs Hk Hw. destruct (ack_cases W s n w Hs Hk Hw) as [->|(s1 & -> & H1 & H2 & _)]; [done|].
  by apply keeps_fill.
Qed.

Lemma keeps_tick W s ms : keeps W s -> keeps W (TCPSender.tick s ms).
Proof.
  unfold keeps, TCPSender.tick. intros H. destruct (_segments_outgoing s) as [|[k x] l] eqn:E; cbn; rewrite ?E; [done|].
  destruct (_ <=? _); cbn; by rewrite ?E.
Qed.

Lemma keeps_end W s : keeps W s -> keeps W (on_stream_in ByteStream.end_input s).
Proof.
  intros H. eapply Forall_impl; [exact H|]. intros p [(H1 & _ & H2) ?]. split; [|done]. by split.
Qed.

Lemma keeps_grow W D s s' :
  ByteStream.input_ended (_stream s) = false -> TCPSender._isn s' = TCPSender._isn s ->
  _segments_outgoing s' = _segments_outgoing s -> keeps W s -> keeps (W ++ D) s'.
Proof.
  unfold keeps. intros He -> -> H. rewrite He in H. eapply Forall_impl; [exact H|]. intros p [Hp ?]. split; [|done].
  by apply sent_at_grow.
Qed.

(** ** The invariant of one endpoint *)

Section invariant.
Context (W : list byte) (mend : bool) (misn : WrappingInt32).
Context (V : list byte) (vend : bool) (visn : WrappingInt32).
Context (HW : zlen W + 2 < 2 ^ 32) (Hmisn : wi_wf misn).
Context (HV : zlen V + 2 < 2 ^ 32) (Hvisn : wi_wf visn).

(** As for [conn_inv]; [E] is the number that the peer expects next. *)
Record acks_inv (E : Z) (c : TCPConnection) : Prop := {
  ai_conn : conn_inv W mend misn V vend visn c;
  ai_plain : snd_emits unstamped (_sender c);
  ai_keeps : keeps W (_sender c);
  ai_out : Forall (acks_upto visn (expected (_receiver c))) (_segments_out c);
  ai_acked : acked (_sender c) <= E
}.

Lemma acks_inv_send E c : acks_inv E c -> acks_inv E (send_segments c).
Proof.
  intros [H1 H2 H3 H4 H5]. destruct (send_segments_parts c) as (E1 & E2 & E3 & _).
  constructor; rewrite ?E1, ?E2, ?E3; try done; [by apply send_segments_inv|by apply clear_emits|].
  apply Forall_app. split; [done|]. apply Forall_fmap. eapply Forall_impl; [apply (emits_queue _ _ H2)|].
  intros seg. eapply stamp_acks; [apply H1|done].
Qed.

Lemma acks_inv_sender E f c :
  acks_inv E c -> conn_inv W mend misn V vend visn (on_sender f c) ->
  snd_emits unstamped (f (_sender c)) -> keeps W (f (_sender c)) -> acked (f (_sender c)) <= E ->
  acks_inv E (on_sender f c).
Proof. by intros [H1 H2 H3 H4 H5] ? ? ? ?; constructor. Qed.

Lemma acks_inv_fill E c : acks_inv E c -> acks_inv E (on_sender fill_window c).
Proof.
  intros H. pose proof H as [H1 H2 H3 H4 H5]. apply acks_inv_sender; [done|by apply fill_inv|..].
  - by apply fill_window_emits; [apply _|].
  - apply keeps_fill; [apply H1|done].
  - rewrite acked_fill; [done|]. eapply snd_wf, H1.
Qed.

Lemma acks_inv_empty E c : acks_inv E c -> acks_inv E (on_sender send_empty_segment c).
Proof.
  intros H. pose proof H as [H1 H2 H3 H4 H5]. apply acks_inv_sender; [done|by apply empty_inv|..|done].
  - by apply send_empty_emits; [apply _|].
  - done.
Qed.

(** An acknowledgment of the peer. *)
Lemma acks_inv_ack E seg c :
  0 <= win (header seg) < 2 ^ 16 -> acks_upto misn E seg -> 0 <= E < 2 ^ 32 ->
  unambiguous misn (zlen W) seg -> acks_inv E c -> acks_inv E (sender_ack seg c).
Proof.
  intros Hw Ha HE Hnw H. pose proof (acks_upto_wi _ _ _ Ha) as Hn. pose proof H as [H1 H2 H3 H4 H5].
  pose proof (ci_sends _ _ _ _ _ _ _ H1) as Hs. pose proof (snd_wf _ _ Hs) as Hwf.
  apply acks_inv_sender; [done|by apply ack_inv|..].
  - by apply ack_received_emits; [apply _|].
  - by apply keeps_ack.
  - destruct (acked_ack (_sender c) (TCPHeader.ackno (header seg)) (win (header seg)) Hwf Hw) as [_ [->|[Hle Hm]]]; [done|].
    rewrite (ci_isn _ _ _ _ _ _ _ H1) in *.
    assert (Hnext : 0 <= _next_seqno (_sender c) <= zlen W + 2).
    { pose proof (wf_next _ Hwf). pose proof (snd_read _ _ Hs). pose proof (wf_flight _ Hwf).
      destruct (_syn (_sender c)), (_fin (_sender c)); cbn [b1] in *; lia. }
    pose proof (ack_upto_unwrap misn E (zlen W) _ seg Hmisn Ha HE Hnw Hnext HW Hn Hle). lia.
Qed.

(** A segment of the peer, as it comes off the network. *)
Lemma acks_inv_receiver E seg c c' :
  sent V vend visn seg -> acks_inv E c -> receiver_segment seg c = Ok c' ->
  acks_inv E c' /\ expected (_receiver c) <= expected (_receiver c').
Proof.
  intros Hseg [H1 H2 H3 H4 H5] Hr. destruct (receive_inv _ _ _ _ _ _ HV Hvisn seg c Hseg H1) as (c1 & E1 & Hc & _).
  rewrite Hr in E1. injection E1 as <-. unfold receiver_segment in Hr.
  destruct (TCPReceiver.segment_received (_receiver c) seg) as [r|] eqn:Er; [|done]. injection Hr as <-.
  assert (Hm : expected (_receiver c) <= expected r).
  { eapply expected_mono; [done| |apply H1| |done]; [lia|]. by eapply sent_seg_of. }
  split; [|done]. constructor; try done. cbn [set_receiver _receiver _segments_out].
  eapply Forall_impl; [exact H4|]. intros x Hx. by eapply acks_upto_le.
Qed.

Lemma acks_inv_segment E seg c c' :
  emitted V vend visn seg -> acks_upto misn E seg -> 0 <= E < 2 ^ 32 -> unambiguous misn (zlen W) seg ->
  segment_received c seg = Ok c' -> acks_inv E c ->
  acks_inv E c' /\ expected (_receiver c) <= expected (_receiver c').
Proof.
  intros Hem Ha HE Hnw Hr Hc. set (e := expected (_receiver c)) in *.
  eapply (segment_received_closed (fun c => acks_inv E c /\ e <= expected (_receiver c)) seg);
    [|exact Hr|split; [done|subst e; lia]]. constructor.
  - intros c0 [[H1 H2 H3 H4 H5] ?]. split; [|done]. by constructor; [destruct H1|..].
  - intros c0 _ [[H1 H2 H3 H4 H5] ?]. split; [|done]. constructor; try done.
    + destruct H1 as [A1 A2 A3 A4 A5 A6]. constructor; try done; [by apply sends_error|by apply receives_error].
    + by apply on_stream_emits.
  - intros c0 Ers [H ?]. destruct Hem as [?|Hem]; [congruence|]. split; [|done].
    apply acks_inv_ack; auto. apply Hem.
  - intros c0 c1 Ers [H ?] E1. destruct Hem as [?|Hem]; [congruence|].
    destruct (acks_inv_receiver E seg c0 c1 Hem H E1). split; [done|lia].
  - intros c0 [H ?]. split; [by apply acks_inv_fill|done].
  - intros c0 [H ?]. split; [by apply acks_inv_empty|done].
  - intros c0 [H ?]. split; [by apply acks_inv_send|]. by destruct (send_segments_parts c0) as (-> & _).
Qed.

Lemma acks_inv_tick E c ms : acks_inv E c -> acks_inv E (tick c ms).
Proof.
  intros H. unfold tick. destruct (negb (_active c)); [done|]. cbn zeta. set (t := u64 _).
  assert (H' : acks_inv E (on_sender (fun s => TCPSender.tick s ms) (set_time c t))).
  { destruct H as [H1 H2 H3 H4 H5]. constructor; [by apply sender_tick_inv|by apply tick_emits|by apply keeps_tick|done|].
    cbn. by rewrite acked_tick. }
  destruct (_ <? _); [|by apply acks_inv_send]. destruct H' as [H1 H2 H3 H4 H5].
  constructor; try done; [by apply reset_inv|by apply on_stream_emits|].
  apply Forall_app. split; [done|]. by apply Forall_singleton.
Qed.

Lemma acks_inv_read E c n :
  0 <= n -> acks_inv E c -> acks_inv E (on_inbound_stream (fun s => snd (ByteStream.read s n)) c).
Proof. intros Hn [H1 H2 H3 H4 H5]. constructor; try done. by apply read_inv. Qed.

Lemma acks_inv_connect E c : acks_inv E c -> acks_inv E (connect c).
Proof. intros H. by apply acks_inv_send, (acks_inv_fill E c). Qed.

Lemma acks_inv_transmit E c : acks_inv E c -> acks_inv E (set_segments_out c []).
Proof. intros [H1 H2 H3 H4 H5]. constructor; try done. by destruct H1; constructor. Qed.

Lemma acks_inv_le E E' c : E <= E' -> acks_inv E c -> acks_inv E' c.
Proof. intros ? []. constructor; try done. lia. Qed.

End invariant.

(** Ending the stream and writing to it, before the window is filled. *)
Lemma acks_inv_ended W mend misn V vend visn E c :
  acks_inv W mend misn V vend visn E c ->
  acks_inv W true misn V vend visn E (on_sender (on_stream_in ByteStream.end_input) c).
Proof.
  intros [H1 H2 H3 H4 H5]. constructor; try done.
  - destruct H1 as [A1 A2 A3 A4 A5 A6]. constructor; try done; [by apply sends_end|].
    eapply Forall_impl; [exact A4|]. intros seg [?|?]; [by left|right; by eapply sent_end].
  - by apply on_stream_emits.
  - by apply keeps_end.
Qed.

Lemma acks_inv_end W mend misn V vend visn E c :
  wi_wf visn ->
  acks_inv W mend misn V vend visn E c -> acks_inv W true misn V vend visn E (end_input_stream c).
Proof. intros Hv H. apply acks_inv_send, acks_inv_fill; [done|]. by eapply acks_inv_ended. Qed.

Lemma acks_inv_accept W misn V vend visn E c d n st :
  acks_inv W false misn V vend visn E c -> zlen W + zlen d + 2 < 2 ^ 32 ->
  ByteStream.write (stream_in (_sender c)) d = (n, st) ->
  acks_inv (W ++ take (Z.to_nat n) d) false misn V vend visn E (on_sender (on_stream_in (fun _ => st)) c).
Proof.
  intros [H1 H2 H3 H4 H5] Hl Ew.
  constructor; [by apply stream_write_inv|by apply on_stream_emits| |done|done].
  eapply keeps_grow; [apply (ci_ended _ _ _ _ _ _ _ H1)|done..].
Qed.

Lemma acks_inv_write W misn V vend visn E c data n c' :
  wi_wf visn -> acks_inv W false misn V vend visn E c -> zlen W + zlen data + 2 < 2 ^ 32 ->
  write c data = (n, c') -> acks_inv (W ++ take (Z.to_nat n) data) false misn V vend visn E c'.
Proof.
  intros Hv H Hl. unfold write. destruct data as [|x data]; [intros [= <- <-]|].
  { by rewrite take_nil, app_nil_r. }
  destruct (ByteStream.write (stream_in (_sender c)) (x :: data)) as [m st] eqn:Ew.
  intros [= <- <-]. apply acks_inv_send, acks_inv_fill; [done|]. by apply acks_inv_accept.
Qed.

(** ** The invariant of the system *)

(** What is on its way from [x] acknowledges at most what [x] has, and [x] has
    forgotten at most what [y] has. *)
Record side_acks (x y : endpoint) (net : list TCPSegment) : Prop := {
  sa_conn : acks_inv (written x) (ended x) (isn_of x) (written y) (ended y) (isn_of y)
              (expected (_receiver (conn y))) (conn x);
  sa_net : Forall (acks_upto (isn_of y) (expected (_receiver (conn x)))) net
}.

(** A new state of [x]. *)
Lemma side_acks_new x x' y net out e :
  side_acks x y net ->
  acks_inv (written x') e (isn_of x) (written y) (ended y) (isn_of y)
    (expected (_receiver (conn y))) (conn x') ->
  expected (_receiver (conn x)) <= expected (_receiver (conn x')) ->
  Forall (acks_upto (isn_of y) (expected (_receiver (conn x')))) out ->
  side_acks x' y (net ++ out) /\ expected (_receiver (conn x)) <= expected (_receiver (conn x')).
Proof.
  intros [H1 H2] Hc Hle Ho. split; [|done].
  pose proof (ci_ended _ _ _ _ _ _ _ (ai_conn _ _ _ _ _ _ _ _ Hc)) as He.
  pose proof (ci_isn _ _ _ _ _ _ _ (ai_conn _ _ _ _ _ _ _ _ Hc)) as Hi.
  assert (Hi' : isn_of x' = isn_of x) by done. assert (He' : ended x' = e) by done.
  constructor; rewrite ?Hi', ?He'; [done|]. apply Forall_app. split; [|done].
  eapply Forall_impl; [exact H2|]. intros seg Hs. by eapply acks_upto_le.
Qed.

(** Calls other than [segment_received] leave the receiver's number. *)
Lemma send_expected c : expected (_receiver (send_segments c)) = expected (_receiver c).
Proof. by destruct (send_segments_parts c) as (-> & _). Qed.

Lemma tick_expected c ms : expected (_receiver (tick c ms)) = expected (_receiver c).
Proof.
  unfold tick. destruct (negb (_active c)); [done|]. cbn zeta. destruct (_ <? _); [done|]. by rewrite send_expected.
Qed.

Lemma write_expected c data n c' :
  write c data = (n, c') -> expected (_receiver c') = expected (_receiver c).
Proof.
  unfold write. destruct data; [by intros [= _ <-]|]. destruct (ByteStream.write _ _).
  intros [= _ <-]. by rewrite send_expected.
Qed.

Lemma local_step_acks x y inbox net x' out :
  local_step inbox x x' out -> side_inv x y net -> side_inv y x inbox ->
  side_acks x y net -> Forall (acks_upto (isn_of x) (expected (_receiver (conn y)))) inbox ->
  Forall (unambiguous (isn_of x) (zlen (written x))) inbox ->
  side_acks x' y (net ++ out) /\ expected (_receiver (conn x)) <= expected (_receiver (conn x')).
Proof.
  intros Hst Hx Hy Ha Hink Hnw. pose proof (sa_conn _ _ _ Ha) as Hc.
  pose proof (si_isn _ _ _ Hx) as Hxi. pose proof (si_isn _ _ _ Hy) as Hyi.
  pose proof (si_small _ _ _ Hx) as Hxs. pose proof (si_small _ _ _ Hy) as Hys.
  assert (Hrecv : forall seg c, seg ∈ inbox -> segment_received (conn x) seg = Ok c ->
    acks_inv (written x) (ended x) (isn_of x) (written y) (ended y) (isn_of y)
      (expected (_receiver (conn y))) c /\ expected (_receiver (conn x)) <= expected (_receiver c)).
  { rewrite Forall_forall in Hink, Hnw. pose proof (si_net _ _ _ Hy) as Hem. rewrite Forall_forall in Hem.
    intros seg c Hseg Hr. pose proof (ci_receives _ _ _ _ _ _ _ (si_conn _ _ _ Hy)) as Hrc.
    pose proof (expected_bound _ _ _ Hrc). pose proof (expected_nonneg _ (rcv_wf _ _ _ Hrc)).
    eapply acks_inv_segment; try done; [by apply Hem|by apply Hink|lia|by apply Hnw]. }
  destruct Hst as [|data n c He Hb Hwr| |ms|n bs Hn ->|seg c Hseg Hr|];
    (eapply side_acks_new; [done| | |]); cbn [with_conn conn written]; try apply Forall_nil_2; try done.
  - by apply acks_inv_connect.
  - unfold connect. by rewrite send_expected.
  - rewrite He in Hc. by eapply acks_inv_write.
  - by rewrite (write_expected _ _ _ _ Hwr).
  - by apply (acks_inv_end _ (ended x)).
  - unfold end_input_stream. by rewrite send_expected.
  - by apply acks_inv_tick.
  - by rewrite tick_expected.
  - by apply acks_inv_read.
  - by apply (Hrecv seg c).
  - by apply (Hrecv seg c).
  - by apply acks_inv_transmit.
  - apply Hc.
Qed.

(** What a step of [x] does to the peer's side. *)
Lemma side_acks_peer x x' y net :
  side_acks y x net -> zlen (written x) + 2 < 2 ^ 32 -> isn_of x' = isn_of x ->
  evolves (written x) (ended x) (written x') (ended x') ->
  expected (_receiver (conn x)) <= expected (_receiver (conn x')) -> side_acks y x' net.
Proof.
  intros [[H1 H2 H3 H4 H5] Hn] Hx Hi Hev Hle. constructor; rewrite Hi; [|done].
  constructor; try done; [by eapply conn_inv_evolves|lia].
Qed.

Definition acks_ok (s : system) : Prop :=
  side_acks (left s) (right s) (to_right s) /\ side_acks (right s) (left s) (to_left s).

(** No stream of the system passes number 0 of its own numbering. *)
Definition unwrapped (s : system) : Prop :=
  no_wrap (isn_of (left s)) (zlen (written (left s))) /\
  no_wrap (isn_of (right s)) (zlen (written (right s))).

Lemma no_wrap_evolves isn W e W' e' : evolves W e W' e' -> no_wrap isn (zlen W') -> no_wrap isn (zlen W).
Proof.
  intros (D & -> & _) [?|H]; [by left|right]. rewrite zlen_app in H. pose proof (zlen_nonneg D). lia.
Qed.

Lemma no_wrap_unambiguous isn len segs : no_wrap isn len -> Forall (unambiguous isn len) segs.
Proof. intros H. apply Forall_forall. intros seg _. by right. Qed.

Lemma system_step_acks s s' :
  system_step s s' -> system_inv s -> (unwrapped s -> acks_ok s) -> unwrapped s' -> acks_ok s'.
Proof.
  intros Hst [HL HR] IH [Nl Nr]. destruct Hst as [s e' out Hl|s e' out Hl]; cbn in Nl, Nr.
  - destruct (local_step_inv _ _ _ _ _ _ Hl HL (si_net _ _ _ HR) (si_small _ _ _ HR) (si_isn _ _ _ HR))
      as (H1 & H2 & H3). rewrite H2 in Nl. apply (no_wrap_evolves _ _ _ _ _ H3) in Nl.
    destruct (IH (conj Nl Nr)) as [Al Ar].
    destruct (local_step_acks _ _ _ _ _ _ Hl HL HR Al (sa_net _ _ _ Ar) (no_wrap_unambiguous _ _ _ Nl)) as [Ha He].
    split; [done|]. by eapply (side_acks_peer (left s)); [|apply HL|..].
  - destruct (local_step_inv _ _ _ _ _ _ Hl HR (si_net _ _ _ HL) (si_small _ _ _ HL) (si_isn _ _ _ HL))
      as (H1 & H2 & H3). rewrite H2 in Nr. apply (no_wrap_evolves _ _ _ _ _ H3) in Nr.
    destruct (IH (conj Nl Nr)) as [Al Ar].
    destruct (local_step_acks _ _ _ _ _ _ Hl HR HL Ar (sa_net _ _ _ Al) (no_wrap_unambiguous _ _ _ Nr)) as [Ha He].
    split; [|done]. by eapply (side_acks_peer (right s)); [|apply HR|..].
Qed.

Lemma new_side_acks cfg rnd cfg' rnd' :
  cfg_ok cfg -> cfg_ok cfg' -> side_acks (new_endpoint cfg rnd) (new_endpoint cfg' rnd') [].
Proof.
  intros Hc Hc'. constructor; [|apply Forall_nil_2]. constructor; try done.
  - apply (si_conn _ _ []), new_side; done.
  - constructor; apply Forall_nil_2.
Qed.

Lemma reachable_acks cfgL cfgR rndL rndR s :
  cfg_ok cfgL -> cfg_ok cfgR -> rtc system_step (start cfgL cfgR rndL rndR) s -> unwrapped s -> acks_ok s.
Proof.
  intros HL HR. apply (rtc_ind_r (fun s => unwrapped s -> acks_ok s)).
  - intros _. split; by apply new_side_acks.
  - intros s1 s2 Hs Hst IH. apply (system_step_acks s1); [done| |done].
    by apply (reachable_inv cfgL cfgR rndL rndR).
Qed.

(** ** What is still held *)

(** The bytes a sender still holds: outstanding, then not yet sent. *)
Definition held (s : TCPSender) : list byte :=
  payloads (map snd (_segments_outgoing s)) ++ ByteStream._buff (_stream s).

(** The stream position of an absolute number. *)
Definition stream_pos (W : list byte) (q : Z) : Z := Z.min (Z.max 0 (q - 1)) (zlen W).

Lemma kept_payload W e isn k seg :
  zlen W < 2 ^ 62 -> kept_at W e isn (k, seg) -> 0 < length_in_sequence_space seg ->
  str (payload seg) = sub W (stream_pos W k) (zlen (str (payload seg))) /\
  stream_pos W (k + length_in_sequence_space seg) = stream_pos W k + zlen (str (payload seg)).
Proof.
  intros HW [(_ & _ & Hq & _ & _ & Hp) Hsy] Hl. cbn [fst snd] in *. pose proof (zlen_nonneg (str (payload seg))). pose proof (zlen_nonneg W).
  assert (Hlen : zlen (str (payload seg)) <= zlen W).
  { apply piece_length in Hp as [?|Hp]; [lia|]. destruct (TCPHeader.syn _); [lia|].
    pose proof (u64_range (k - 1)). lia. }
  rewrite length_small in * by lia. rewrite Hsy in *.
  assert (Hidx : (if k =? 0 then 0 else u64 (k - 1)) = Z.max 0 (k - 1)).
  { destruct (Z.eqb_spec k 0); [lia|]. rewrite u64_small; lia. }
  rewrite Hidx in Hp. pose proof (piece_length _ _ _ _ Hp) as Hpl. pose proof (piece_eof _ _ _ _ Hp) as Hfin.
  assert (Hpos : stream_pos W k = Z.max 0 (k - 1)).
  { unfold stream_pos. destruct Hpl as [Hz|?]; [|lia]. destruct (Z.eqb_spec k 0); [lia|].
    destruct (TCPHeader.fin (header seg)); [specialize (Hfin eq_refl); lia|]. cbn [b1] in Hl. lia. }
  split.
  - apply zget_ext. intros i Hi. rewrite Hpos, zget_sub by (unfold stream_pos in Hpos; lia).
    destruct (Z.ltb_spec i (zlen (str (payload seg)))) as [Hlt|Hge].
    + destruct (zget_is_Some (str (payload seg)) i) as [b Eb]; [lia|]. rewrite Eb. symmetry. by apply Hp.
    + destruct (zget (str (payload seg)) i) eqn:Eb; [|done]. apply zget_Some in Eb. lia.
  - rewrite Hpos. unfold stream_pos. destruct (TCPHeader.fin (header seg)).
    + specialize (Hfin eq_refl). destruct (Z.eqb_spec k 0); cbn [b1]; lia.
    + destruct (Z.eqb_spec k 0); cbn [b1] in *; lia.
Qed.

Lemma chain_payloads W e isn lo l hi :
  zlen W < 2 ^ 62 -> chain lo l hi -> Forall (kept_at W e isn) l ->
  payloads (map snd l) = sub W (stream_pos W lo) (stream_pos W hi - stream_pos W lo) /\
  stream_pos W lo <= stream_pos W hi.
Proof.
  intros HW. revert lo. induction l as [|[k seg] l IH]; intros lo.
  { intros -> _. rewrite Z.sub_diag, sub_0. by split; [|lia]. }
  intros (-> & Hl & Hc) Hk. apply Forall_cons in Hk as [Hk Hks]. destruct (IH _ Hc Hks) as [E1 E2].
  destruct (kept_payload W e isn lo seg HW Hk Hl) as [P1 P2]. rewrite P2 in *.
  pose proof (zlen_nonneg (str (payload seg))). pose proof (zlen_nonneg W). split; [|lia]. unfold payloads in *. cbn [map concat snd].
  rewrite E1. replace (stream_pos W hi - stream_pos W lo) with
    (zlen (str (payload seg)) + (stream_pos W hi - (stream_pos W lo + zlen (str (payload seg))))) by lia.
  rewrite sub_add; [by rewrite <- P1|..]; unfold stream_pos in *; lia.
Qed.

(** A sender holds its stream from the first outstanding number on. *)
Lemma held_eq W s :
  zlen W + 2 < 2 ^ 32 -> sends W s -> keeps W s ->
  held s = drop (Z.to_nat (stream_pos W (acked s))) W.
Proof.
  intros HW Hs Hk. pose proof (snd_wf _ _ Hs) as Hwf.
  destruct (chain_payloads W _ _ _ _ _ ltac:(lia) (wf_chain _ Hwf) Hk) as [E Hle]. unfold held. rewrite E, (snd_buff _ _ Hs).
  fold (acked s) in *. change (_next_seqno s - _outgoing_bytes s) with (acked s) in *.
  assert (Hpos : stream_pos W (_next_seqno s) = ByteStream.bytes_read (_stream s)).
  { pose proof (wf_next _ Hwf) as Hn. pose proof (snd_read _ _ Hs). unfold stream_pos.
    pose proof (ByteStream.wf_totout _ (wf_stream s Hwf)) as Ht.
    change (ByteStream._totout (_stream s)) with (ByteStream.bytes_read (_stream s)) in Ht.
    destruct (_syn s) eqn:Es; [|destruct (wf_syn _ Hwf Es) as [? Ef]; rewrite Ef in Hn; cbn [b1] in Hn; lia].
    destruct (_fin s) eqn:Ef; cbn [b1] in Hn; [|lia].
    pose proof (wf_fin _ Hwf Ef) as He. apply eof_iff in He as [_ Hb]. rewrite (snd_buff _ _ Hs) in Hb.
    apply (f_equal zlen) in Hb. rewrite zlen_drop, (@zlen_nil byte) in Hb. lia. }
  rewrite Hpos in *. unfold sub.
  assert (0 <= stream_pos W (acked s) <= zlen W) by (unfold stream_pos; pose proof (zlen_nonneg W); lia).
  pose proof (snd_read _ _ Hs). rewrite Z.min_l by lia.
  set (a := Z.to_nat (stream_pos W (acked s))) in *.
  replace (Z.to_nat (ByteStream.bytes_read (_stream s)))
    with (a + Z.to_nat (ByteStream.bytes_read (_stream s) - stream_pos W (acked s)))%nat by lia.
  rewrite <- drop_drop. by rewrite take_drop.
Qed.

Lemma side_holds x y netx nety :
  side_inv x y netx -> side_inv y x nety -> side_acks x y netx ->
  acked (_sender (conn x)) <= expected (_receiver (conn y)) /\
  exists n, 0 <= n <= ByteStream.bytes_written (inbound_stream (conn y)) /\
    held (_sender (conn x)) = drop (Z.to_nat n) (written x).
Proof.
  intros Hx Hy [[H1 _ H3 _ H5] _]. split; [done|]. exists (stream_pos (written x) (acked (_sender (conn x)))).
  split; [|by apply held_eq; [apply Hx|apply H1|]].
  pose proof (ci_receives _ _ _ _ _ _ _ (si_conn _ _ _ Hy)) as Hr. pose proof (rcv_follows _ _ _ Hr) as Hf.
  pose proof (wf_written _ (fol_wf _ _ Hf)) as (H0 & Hw & _). pose proof (fol_ended _ _ Hf) as He.
  unfold ByteStream.buffer_size in Hw. pose proof (zlen_nonneg (ByteStream._buff (_output (_reassembler (_receiver (conn y)))))).
  unfold expected, next_expected in H5. unfold inbound_stream.
  change (_output (_reassembler (_receiver (conn y)))) with (TCPReceiver.stream_out (_receiver (conn y))) in *.
  unfold stream_pos. pose proof (zlen_nonneg (written x)). split; [lia|].
  destruct (TCPReceiver._syn _); [|lia]. destruct (ByteStream.input_ended _); [destruct (He eq_refl); lia|lia].
Qed.

(** ** Acknowledgment numbers without the flag *)

Lemma chain_extends lo l1 mid l hi segs :
  chain lo l1 mid -> chain lo l hi -> map snd l = map snd l1 ++ segs ->
  exists l2, l = l1 ++ l2 /\ chain mid l2 hi.
Proof.
  revert lo l. induction l1 as [|[k seg] l1 IH]; intros lo l; cbn [chain].
  - intros -> Hc _. by exists l.
  - intros (-> & _ & H1) H2. destruct l as [|[k' seg'] l]; [done|]. cbn [chain map snd app] in *.
    destruct H2 as (-> & _ & H2). intros [= -> E]. destruct (IH _ _ H1 H2 E) as (l2 & -> & Hl2). by exists l2.
Qed.

(** Filling the window only appends. *)
Lemma fill_extends s :
  TCPSender.wf s -> exists more, _segments_outgoing (fill_window s) = _segments_outgoing s ++ more /\
    chain (next_seqno_absolute s) more (next_seqno_absolute (fill_window s)).
Proof.
  intros Hwf. destruct (fill_window_more s Hwf) as (segs & M & _).
  pose proof (wf_chain _ (fill_window_wf s Hwf)) as C2. pose proof (acked_fill s Hwf) as Ha.
  unfold acked, next_seqno_absolute, TCPSender.bytes_in_flight in *. rewrite Ha in C2.
  exact (chain_extends _ _ _ _ _ segs (wf_chain s Hwf) C2 (more_outgoing _ _ _ M)).
Qed.

(** An acknowledgment within what was sent, and whatever is filled after it. *)
Lemma ack_then_fill s ackno w b :
  TCPSender.wf s -> 0 <= w < 2 ^ 16 ->
  let a := unwrap ackno (TCPSender._isn s) (next_seqno_absolute s) in
  a <= next_seqno_absolute s ->
  let s1 := ack_received s ackno w in
  exists more,
    _segments_outgoing (fill_window (if b : bool then send_empty_segment s1 else s1)) =
      List.filter (unacked a) (_segments_outgoing s) ++ more /\
    Forall (fun p => next_seqno_absolute s <= p.1) more.
Proof.
  intros Hwf Hw a Ha s1. unfold next_seqno_absolute in Ha.
  destruct (ack_received_eq s ackno w Hwf Hw) as [[Hlt _]|(_ & o & E & Hwf1 & _)]; [subst a; unfold next_seqno_absolute in *; lia|].
  fold s1 in E. set (s0 := ack_state _ _ _ _) in *.
  destruct (fill_extends s0 Hwf1) as (more1 & E1 & C1). rewrite <- E in E1, C1.
  assert (Hwf2 : TCPSender.wf s1) by (rewrite E; by apply fill_window_wf).
  assert (exists more2, _segments_outgoing (fill_window (if b then send_empty_segment s1 else s1)) =
      _segments_outgoing s1 ++ more2 /\ Forall (fun p => next_seqno_absolute s1 <= p.1) more2) as (more2 & E2 & C2).
  { destruct (fill_extends (if b then send_empty_segment s1 else s1)) as (more2 & E2 & C2).
    { destruct b; [by apply send_empty_segment_wf|done]. }
    exists more2. split; [by destruct b|]. apply Forall_forall. intros p Hp%list_elem_of_In.
    pose proof (chain_keys _ _ _ _ C2 Hp). by destruct b. }
  exists (more1 ++ more2). rewrite E2, E1, <- app_assoc. split; [done|]. pose proof (chain_le _ _ _ C1) as Hle.
  apply Forall_app. split; [|eapply Forall_impl; [exact C2|]; cbn; change (next_seqno_absolute s) with (next_seqno_absolute s0); lia].
  apply Forall_forall. intros p Hp%list_elem_of_In. exact (chain_keys _ _ _ _ C1 Hp).
Qed.

(** ** Properties *)

(** C8: Nothing is forgotten before it is delivered. Two endpoints talk over a
    network that loses, repeats, reorders and delays segments at will. As long
    as the sequence numbers of their streams do not pass zero, a sender's first
    outstanding number is at most the number that the peer expects next, and
    what the sender still holds, in outstanding segments and in its stream, is
    everything that was written from a position the peer has reached on. *)
Theorem nothing_forgotten cfgL cfgR rndL rndR s :
  cfg_ok cfgL -> cfg_ok cfgR -> rtc system_step (start cfgL cfgR rndL rndR) s -> unwrapped s ->
  let covers x y :=
    acked (_sender (conn x)) <= expected (_receiver (conn y)) /\
    exists n, 0 <= n <= ByteStream.bytes_written (inbound_stream (conn y)) /\
      held (_sender (conn x)) = drop (Z.to_nat n) (written x) in
  covers (left s) (right s) /\ covers (right s) (left s).
Proof.
  intros HL HR Hs Hu. destruct (reachable_inv _ _ _ _ _ HL HR Hs) as [Il Ir].
  destruct (reachable_acks _ _ _ _ _ HL HR Hs Hu) as [Al Ar].
  split; by eapply side_holds.
Qed.

Lemma nothing_forgotten_witness :
  acked (_sender (conn (left example_transfer))) <= expected (_receiver (conn (right example_transfer))).
Proof.
  destruct (nothing_forgotten test_config test_config 0 0 example_transfer) as [[H _] _].
  - exact test_config_ok.
  - exact test_config_ok.
  - apply exec_reach.
  - split; vm_compute; auto.
  - exact H.
Defined.

(** C37: An acknowledgment needs no flag. In an open connection, the number in the
    acknowledgment field of a segment counts whether or not the ACK flag is
    set: if it lies within what was sent, exactly the outstanding segments that
    end by it leave the retransmission list, and whatever is behind them in the
    list afterwards is new. The field of a SYN without the flag is zero, so a
    repeated SYN releases what was sent before the stream passed sequence number
    zero, whether or not the peer has it. *)
Theorem unflagged_number_acknowledges c seg st :
  wf c -> wire_ok seg -> st = ESTABLISHED \/ st = CLOSE_WAIT -> state c = of_State st ->
  rst (header seg) = false -> ack (header seg) = false ->
  let a := unwrap (TCPHeader.ackno (header seg)) (TCPSender._isn (_sender c)) (next_seqno_absolute (_sender c)) in
  a <= next_seqno_absolute (_sender c) ->
  exists c' more, segment_received c seg = Ok c' /\
    _segments_outgoing (_sender c') = List.filter (unacked a) (_segments_outgoing (_sender c)) ++ more /\
    Forall (fun p => next_seqno_absolute (_sender c) <= p.1) more.
Proof.
  intros Hwf [Hs Hw] Hor Hst Hr _ a Ha. rewrite (dispatch_by_state c seg st Hwf Hst Hr).
  assert (_active c = true) as -> by (destruct Hor; subst; apply (f_equal TCPState._active Hst)).
  destruct (segment_received_wf (_receiver c) seg (wf_receiver c Hwf) Hs) as (r & Hrs & _).
  set (b := negb (ByteStream.eof (stream_in (_sender c))) && (0 <? length_in_sequence_space seg)).
  destruct (ack_then_fill (_sender c) (TCPHeader.ackno (header seg)) (win (header seg)) b
    (wf_sender c Hwf) Hw Ha) as (more & E & Hm).
  set (f := fun c' => on_sender fill_window (if b then on_sender send_empty_segment c' else c')).
  exists (send_segments (f (set_receiver (sender_ack seg (set_time c 0)) r))), more.
  assert (Hb : by_state st seg (set_time c 0) = ack_and_receive seg f (set_time c 0)) by by destruct Hor; subst st.
  rewrite Hb. unfold ack_and_receive, receiver_segment.
  change (_receiver (sender_ack seg (set_time c 0))) with (_receiver c). rewrite Hrs. split; [done|].
  destruct (send_segments_parts (f (set_receiver (sender_ack seg (set_time c 0)) r))) as (_ & -> & _).
  split; [|done]. change (_segments_outgoing (clear_segments_out ?x)) with (_segments_outgoing x).
  etransitivity; [|exact E]. unfold f. by destruct b.
Qed.

(** The left endpoint starts at a number four before the wrap; the SYN that
    opened the connection arrives a second time. *)
Definition wrapping_config : TCPConfig :=
  {| rt_timeout := 1000; recv_capacity := 8; send_capacity := 8;
     fixed_isn := Some (wrapping_int32 (2 ^ 32 - 4)) |}.

Lemma wrapping_config_ok : cfg_ok wrapping_config.
Proof. split_and!; cbn; try lia. intros i [= <-]. apply wi_wf_wrapping_int32. Qed.

Definition before_repetition : system :=
  fold_left exec
    [(false, Connect); (false, Transmit); (true, Receive 0); (true, Transmit); (false, Receive 0);
     (false, Transmit); (true, Receive 1); (true, Write [Byte.x61; Byte.x62; Byte.x63]);
     (true, Transmit)]
    (start wrapping_config test_config 0 0).

Definition repeated_syn : system := exec before_repetition (true, Receive 0).

(** The application has written three bytes, the segment with them is lost, and
    after the repeated SYN the sender holds none of them any more. *)
Example repeated_syn_loses_data :
  written (left repeated_syn) = [Byte.x61; Byte.x62; Byte.x63] /\
  held (_sender (conn (left repeated_syn))) = [] /\
  ByteStream.bytes_written (inbound_stream (conn (right repeated_syn))) = 0 /\
  active (conn (left repeated_syn)) = true /\ active (conn (right repeated_syn)) = true.
Proof. vm_compute. split_and!; reflexivity. Qed.

Lemma unflagged_number_acknowledges_witness :
  let c := conn (left before_repetition) in
  let seg := nth 0 (to_left before_repetition) default_TCPSegment in
  syn (header seg) = true /\ length (_segments_outgoing (_sender c)) = 1%nat /\
  exists c' more, segment_received c seg = Ok c' /\ _segments_outgoing (_sender c') = [] ++ more /\
    Forall (fun p => next_seqno_absolute (_sender c) <= p.1) more.
Proof.
  intros c seg. split; [vm_compute; reflexivity|]. split; [vm_compute; reflexivity|].
  assert (Hwf : wf c).
  { destruct (reachable_inv wrapping_config test_config 0 0 before_repetition) as [Il _];
      [exact wrapping_config_ok|exact test_config_ok|apply exec_reach|].
    constructor; [exact (rcv_wf _ _ _ (ci_receives _ _ _ _ _ _ _ (si_conn _ _ _ Il)))
                 |exact (snd_wf _ _ (ci_sends _ _ _ _ _ _ _ (si_conn _ _ _ Il)))|].
    vm_compute. split; [discriminate|reflexivity]. }
  apply (unflagged_number_acknowledges c seg ESTABLISHED);
    [exact Hwf| |by left|vm_compute; reflexivity|vm_compute; reflexivity|vm_compute; reflexivity|vm_compute; discriminate].
  split; [|vm_compute; split; [discriminate|reflexivity]].
  vm_compute. split_and!; (discriminate || reflexivity).
Defined.
