(* ===== verification/StateDiagram.v ===== *)
(** * The TCP state diagram

    A [TCPConnection] ([src/libsponge/tcp_connection.cc]) has no state variable:
    [state()] sums up what its counters and flags say. Whatever its owner and its
    peer do, these summaries move along the connection state diagram of RFC 793
    (figure 6), and the error state is entered in two ways only. *)

From S2P Require Import Prelude WrappingIntegers ByteStream StreamReassembler ReassemblerProps Buffer TCPHeader TCPSegment TCPReceiver TCPSender TCPState TCPConnection Transport Emission Acknowledgment.

(** ** The diagram *)

(** The arrows of the diagram, from LISTEN on; a reset leads from every state of
    a live connection to RESET, which the diagram has no box for. *)
Definition arrows (st : State) : list State :=
  match st with
  | LISTEN => [SYN_RCVD; SYN_SENT; RESET]
  | SYN_SENT => [SYN_RCVD; ESTABLISHED; RESET]
  | SYN_RCVD => [ESTABLISHED; FIN_WAIT_1; RESET]
  | ESTABLISHED => [FIN_WAIT_1; CLOSE_WAIT; RESET]
  | FIN_WAIT_1 => [FIN_WAIT_2; CLOSING; TIME_WAIT; RESET]
  | FIN_WAIT_2 => [TIME_WAIT; RESET]
  | CLOSE_WAIT => [LAST_ACK; RESET]
  | CLOSING => [TIME_WAIT; RESET]
  | LAST_ACK | TIME_WAIT => [CLOSED; RESET]
  | CLOSED | RESET => []
  end.

Definition arrow (a b : State) : Prop := b ∈ arrows a.

(** ** The calls on a connection

    Everything the owner, the network and the clock can do: a segment may be
    anything that a datagram can hold. The owner does not write after it has
    ended its stream. *)
Inductive call : TCPConnection -> TCPConnection -> Prop :=
| call_connect c : call c (connect c)
| call_write c data n c' :
    ByteStream.input_ended (stream_in (_sender c)) = false ->
    ByteStream.bytes_read (stream_in (_sender c)) + ByteStream.buffer_size (stream_in (_sender c)) + zlen data < 2 ^ 62 ->
    write c data = (n, c') -> call c c'
| call_end c : call c (end_input_stream c)
| call_tick c ms : call c (tick c ms)
| call_receive c seg c' : wire_ok seg -> segment_received c seg = Ok c' -> call c c'
| call_read c n : 0 <= n -> call c (on_inbound_stream (fun s => snd (ByteStream.read s n)) c)
| call_pop c q : call c (set_segments_out c q).

(** ** What only grows *)

Definition errors (c : TCPConnection) : bool * bool :=
  (ByteStream.error (stream_in (_sender c)), ByteStream.error (inbound_stream c)).

Record sender_advances (s s' : TCPSender) : Prop := {
  sa_error : ByteStream.error (stream_in s) = true -> ByteStream.error (stream_in s') = true;
  sa_syn : TCPSender._syn s = true -> TCPSender._syn s' = true;
  sa_acked : acked s <= acked s';
  sa_fin : TCPSender._fin s = true ->
    TCPSender._fin s' = true /\ next_seqno_absolute s' = next_seqno_absolute s
}.

Record receiver_advances (r r' : TCPReceiver) : Prop := {
  ra_error : ByteStream.error (TCPReceiver.stream_out r) = true -> ByteStream.error (TCPReceiver.stream_out r') = true;
  ra_syn : TCPReceiver._syn r = true -> TCPReceiver._syn r' = true;
  ra_ended : ByteStream.input_ended (TCPReceiver.stream_out r) = true ->
    ByteStream.input_ended (TCPReceiver.stream_out r') = true
}.

(** Once the FIN is out, it is settled whether the connection will linger. *)
Record advances (c c' : TCPConnection) : Prop := {
  adv_sender : sender_advances (_sender c) (_sender c');
  adv_receiver : receiver_advances (_receiver c) (_receiver c');
  adv_active : _active c' = true -> _active c = true;
  adv_linger : _linger_after_streams_finish c' = true -> _linger_after_streams_finish c = true;
  adv_settled : TCPSender._fin (_sender c) = true ->
    _linger_after_streams_finish c' = _linger_after_streams_finish c
}.

#[export] Instance sender_advances_preorder : PreOrder sender_advances.
Proof.
  split; [by constructor; auto with lia|]. intros s s' s'' [] []. constructor; [auto|auto|lia|].
  intros H. destruct (sa_fin0 H) as [H1 E1]. destruct (sa_fin1 H1) as [H2 E2]. by rewrite E2, E1.
Qed.

#[export] Instance receiver_advances_preorder : PreOrder receiver_advances.
Proof. split; [by constructor|]. intros r r' r'' [] []. constructor; auto. Qed.

#[export] Instance advances_preorder : PreOrder advances.
Proof.
  split; [by constructor|]. intros c c' c'' [S1 R1 A1 L1 F1] [S2 R2 A2 L2 F2].
  constructor; [by rewrite S1|by rewrite R1|auto|auto|]. intros H. by rewrite F2, F1 by (done || by apply (sa_fin _ _ S1)).
Qed.

(** ** The sender *)

Lemma fin_filled s : TCPSender.wf s -> TCPSender._fin s = true -> fill_window s = s.
Proof.
  intros Hwf Hf. apply fill_window_filled; [done|]. right. pose proof (wf_fin s Hwf Hf) as He.
  apply eof_iff in He as [_ He]. split_and!; try done.
  destruct (TCPSender._syn s) eqn:E; [done|]. destruct (wf_syn s Hwf E). congruence.
Qed.

Lemma fill_advances s :
  TCPSender.wf s ->
  sender_advances s (fill_window s) /\
  ByteStream.error (stream_in (fill_window s)) = ByteStream.error (stream_in s).
Proof.
  intros Hwf. destruct (fill_window_more s Hwf) as (segs & M & _).
  assert (ByteStream.error (stream_in (fill_window s)) = ByteStream.error (stream_in s)) as E by apply M.
  split; [|done]. constructor; [by rewrite E|apply M|rewrite acked_fill by done; lia|].
  intros Hf. by rewrite (fin_filled s Hwf Hf).
Qed.

Lemma ack_advances s n w :
  TCPSender.wf s -> 0 <= w < 2 ^ 16 ->
  sender_advances s (ack_received s n w) /\
  ByteStream.error (stream_in (ack_received s n w)) = ByteStream.error (stream_in s).
Proof.
  intros Hwf Hw. pose proof (acked_ack s n w Hwf Hw) as [Ha _].
  destruct (ack_received_eq s n w Hwf Hw) as [[_ E]|(_ & o & E & Hwf' & _)]; [by rewrite E|].
  destruct (fill_advances _ Hwf') as [[H1 H2 _ H4] He]. rewrite <- E in *. split; [|done]. by constructor.
Qed.

Lemma tick_advances s ms :
  sender_advances s (TCPSender.tick s ms) /\
  ByteStream.error (stream_in (TCPSender.tick s ms)) = ByteStream.error (stream_in s).
Proof.
  unfold TCPSender.tick. destruct (_segments_outgoing s) as [|[k x] l]; [|destruct (_ <=? _)];
    (split; [constructor; try done; unfold acked, next_seqno_absolute, TCPSender.bytes_in_flight; cbn; lia|done]).
Qed.

(** ** The parts of a call *)

(** Well-formed, with a receiver whose counters stay in bounds. *)
Definition sound (c : TCPConnection) : Prop := wf c /\ bounded_wf (_receiver c).

Lemma on_sender_advances f c :
  sender_advances (_sender c) (f (_sender c)) -> advances c (on_sender f c).
Proof. intros H. by constructor. Qed.

Lemma set_receiver_advances c r : receiver_advances (_receiver c) r -> advances c (set_receiver c r).
Proof. intros H. by constructor. Qed.

Lemma send_advances c : wf c -> advances c (send_segments c) /\ errors (send_segments c) = errors c.
Proof.
  intros Hwf. destruct (send_segments_parts c) as (E1 & E2 & _).
  assert (Hs : sender_advances (_sender c) (_sender (send_segments c))) by (rewrite E2; by destruct c).
  split; [|unfold errors, inbound_stream; by rewrite E1, E2].
  assert (Hf : TCPSender._fin (_sender c) = true -> ByteStream.eof (stream_in (_sender c)) = true)
    by apply (wf_fin _ (wf_sender c Hwf)).
  constructor; [done|by rewrite E1|..]; unfold send_segments;
    cbn [_sender _receiver set_sender set_segments_out _linger_after_streams_finish];
    change (stream_in (clear_segments_out (_sender c))) with (stream_in (_sender c));
    destruct (ByteStream.input_ended _); try done;
    destruct (ByteStream.eof (stream_in (_sender c))); cbn [negb]; try done;
    try (destruct (_ =? 0); [destruct (_ || _)|]; done).
  intros H%Hf. done.
Qed.

Lemma send_sound c : sound c -> sound (send_segments c).
Proof.
  intros [H1 H2]. split; [by apply send_segments_wf|]. by rewrite (proj1 (send_segments_parts c)).
Qed.

Lemma sender_sound f c : sound c -> TCPSender.wf (f (_sender c)) -> sound (on_sender f c).
Proof. intros [H1 H2] H. split; [by apply on_sender_wf|done]. Qed.

Lemma receive_advances r seg r' :
  TCPReceiver.segment_received r seg = Ok r' ->
  receiver_advances r r' /\ ByteStream.error (TCPReceiver.stream_out r') = ByteStream.error (TCPReceiver.stream_out r).
Proof. intros (H1 & H2 & H3)%receiver_keeps_flags. split; [|done]. constructor; [by rewrite H2|done|done]. Qed.

(** Where a connection has come from [c]: nothing went back, and without a reset
    the error flags are as they were. *)
Record came_from (reset : bool) (c x : TCPConnection) : Prop := {
  cf_sound : sound x;
  cf_advances : advances c x;
  cf_errors : reset = false -> errors x = errors c
}.

Lemma came_on reset c x f :
  came_from reset c x -> TCPSender.wf (f (_sender x)) ->
  sender_advances (_sender x) (f (_sender x)) /\
    ByteStream.error (stream_in (f (_sender x))) = ByteStream.error (stream_in (_sender x)) ->
  came_from reset c (on_sender f x).
Proof.
  intros [H1 H2 H3] Hw [Ha He]. constructor; [by apply sender_sound|by rewrite H2; apply on_sender_advances|].
  intros Hr. rewrite <- (H3 Hr). unfold errors. cbn [on_sender set_sender _sender inbound_stream]. by rewrite He.
Qed.

Lemma came_fill reset c x : came_from reset c x -> came_from reset c (on_sender fill_window x).
Proof.
  intros H. pose proof (wf_sender _ (proj1 (cf_sound _ _ _ H))) as Hw.
  apply came_on; [done|by apply fill_window_wf|by apply fill_advances].
Qed.

Lemma came_send reset c x : came_from reset c x -> came_from reset c (send_segments x).
Proof.
  intros [H1 H2 H3]. destruct (send_advances x (proj1 H1)) as [Ha He].
  constructor; [by apply send_sound|by rewrite H2|]. intros Hr. by rewrite He, H3.
Qed.

Lemma came_closed c seg : wire_ok seg -> closed_under seg (came_from (rst (header seg)) c).
Proof.
  intros [Hs Hw]. constructor.
  - intros x [H1 H2 H3]. constructor; [|by rewrite H2|done]. destruct H1. split; [apply set_time_wf; [done|lia]|done].
  - intros x Hr [[[] H1] [[] [] ???] H3]. rewrite Hr in *. constructor; [|by constructor; [constructor|constructor|..]|done].
    split; [|by apply error_bounded]. constructor; [by apply recv_error_wf|by apply stream_error_wf|done].
  - intros x _ H. pose proof (wf_sender _ (proj1 (cf_sound _ _ _ H))). apply came_on; [done| |].
    + by apply ack_received_wf.
    + by apply ack_advances.
  - intros x x' Hr [[H0 H1] H2 H3]. unfold receiver_segment.
    destruct (segment_received_bounded _ _ H1 Hs) as (r & E & Hb). rewrite E. intros [= <-].
    destruct (receive_advances _ _ _ E) as [Ha He]. constructor.
    + split; [|done]. apply set_receiver_wf; [done|apply Hb].
    + rewrite H2. by apply set_receiver_advances.
    + intros Hf. rewrite <- (H3 Hf). unfold errors, inbound_stream. cbn [set_receiver _receiver _sender]. by rewrite He.
  - intros x. apply came_fill.
  - intros x H. pose proof (wf_sender _ (proj1 (cf_sound _ _ _ H))). apply came_on; [done|by apply send_empty_segment_wf|].
    split; [|done]. by constructor; auto with lia.
  - intros x. apply came_send.
Qed.

Lemma came_refl c : sound c -> came_from false c c.
Proof. by constructor. Qed.

(** ** The calls *)

Lemma receive_came c seg c' :
  sound c -> wire_ok seg -> segment_received c seg = Ok c' -> came_from (rst (header seg)) c c'.
Proof.
  intros Hc Hs E. eapply (segment_received_closed _ seg c); [by apply came_closed|done|]. by constructor.
Qed.

(** The two ways to a reset. *)
Definition gives_up (c : TCPConnection) (ms : Z) : bool :=
  _active c && (MAX_RETX_ATTEMPTS <? consecutive_retransmissions (TCPSender.tick (_sender c) ms)).

Lemma tick_came c ms : sound c -> came_from (gives_up c ms) c (tick c ms).
Proof.
  intros [Hw Hb]. unfold gives_up, tick. destruct (_active c) eqn:Ea; [|by constructor]. cbn [negb andb].
  set (t := u64 _). set (x := on_sender _ _).
  assert (came_from false c x) as Hx.
  { apply came_on; [|apply tick_wf, Hw|apply tick_advances].
    constructor; [split; [apply set_time_wf; [done|apply u64_range]|done]|by constructor|done]. }
  change (_sender x) with (TCPSender.tick (_sender c) ms).
  destruct (_ <? _); [|by apply came_send].
  destruct Hx as [[Hx1 Hx2] [[] [] ? ? ?] _]. constructor; [|by constructor; [constructor|constructor|..]|done].
  split; [|by apply error_bounded]. destruct Hx1. constructor; [by apply recv_error_wf|by apply stream_error_wf|done].
Qed.

Lemma end_came c : sound c -> came_from false c (end_input_stream c).
Proof.
  intros Hc. apply came_send, came_fill. apply came_on; [by apply came_refl|apply end_input_wf, Hc|].
  split; [|done]. by constructor; auto with lia.
Qed.

Lemma write_came c data n c' :
  sound c -> ByteStream.input_ended (stream_in (_sender c)) = false ->
  ByteStream.bytes_read (stream_in (_sender c)) + ByteStream.buffer_size (stream_in (_sender c)) + zlen data < 2 ^ 62 ->
  write c data = (n, c') -> came_from false c c'.
Proof.
  intros Hc He Hb. unfold write. destruct data as [|b data]; [intros [= _ <-]; by apply came_refl|].
  set (d := b :: data) in *. destruct (ByteStream.write (stream_in (_sender c)) d) as [m st] eqn:E.
  intros [= _ <-]. apply came_send, came_fill.
  pose proof (write_wf (_sender c) d (wf_sender c (proj1 Hc)) He Hb) as Hw.
  unfold on_stream_in in Hw. change (_stream (_sender c)) with (stream_in (_sender c)) in Hw. rewrite E in Hw.
  apply came_on; [by apply came_refl|exact Hw|].
  assert (ByteStream.error st = ByteStream.error (stream_in (_sender c))) as Herr.
  { change st with (m, st).2. by rewrite <- E. }
  split; [|done]. constructor; [by cbn; rewrite Herr|done|exact (Z.le_refl (acked (_sender c)))|done].
Qed.

(** No call goes back; and only a segment with RST, or a [tick] that gives up,
    sets the error flags, and these need a live connection. *)
Lemma call_came c c' :
  call c c' -> sound c ->
  exists reset, came_from reset c c' /\ (reset = true -> _active c = true /\
    ((exists seg, wire_ok seg /\ rst (header seg) = true /\ segment_received c seg = Ok c') \/
     (exists ms, gives_up c ms = true /\ c' = tick c ms))).
Proof.
  intros Hcall Hc. destruct Hcall as [c|c data n c' He Hb E|c|c ms|c seg c' Hs E|c n Hn|c q].
  - exists false. split; [|done]. unfold connect. by apply came_send, (came_fill false c c), came_refl.
  - exists false. split; [|done]. by eapply write_came.
  - exists false. split; [|done]. by apply end_came.
  - exists (gives_up c ms). split; [by apply tick_came|]. intros Hg. split; [|eauto].
    unfold gives_up in Hg. by destruct (_active c).
  - destruct (_active c) eqn:Ea.
    + exists (rst (header seg)). split; [by apply receive_came|]. eauto 6.
    + exists false. split; [|done]. unfold segment_received in E. rewrite Ea in E. injection E as <-. by apply came_refl.
  - exists false. split; [|done]. destruct Hc as [Hw Hb]. pose proof (read_bounded _ n Hb Hn) as Hb'.
    constructor; [|by constructor|done]. split; [|done]. apply set_receiver_wf; [done|apply Hb'].
  - exists false. split; [|done]. destruct Hc as [[] Hb]. constructor; [by split|by constructor|done].
Qed.

(** A run: nothing goes back, and once the connection is over the error flags
    are settled. *)
Lemma run_advances c c' :
  rtc call c c' -> sound c -> sound c' /\ advances c c' /\ (_active c = false -> errors c' = errors c).
Proof.
  induction 1 as [c|c c1 c' H _ IH]; intros Hc; [done|].
  destruct (call_came c c1 H Hc) as (reset & [H1 H2 H3] & Hr). destruct (IH H1) as (I1 & I2 & I3).
  split; [done|]. split; [by rewrite H2|]. intros Ha. rewrite I3.
  - apply H3. destruct reset; [|done]. destruct (Hr eq_refl). congruence.
  - destruct (_active c1) eqn:E; [|done]. rewrite (adv_active _ _ H2 E) in Ha. done.
Qed.

(** ** From the flags to the states *)

(** The flags that the official states look at: an error; the SYN sent, then
    acknowledged; the FIN sent, then acknowledged; the peer's SYN and end. *)
Record flags := {
  f_error : bool; f_syn : bool; f_syn_acked : bool; f_fin : bool; f_fin_acked : bool;
  f_peer_error : bool; f_peer_syn : bool; f_peer_end : bool; f_active : bool; f_linger : bool
}.

Definition flags_of (c : TCPConnection) : flags :=
  {| f_error := ByteStream.error (stream_in (_sender c)); f_syn := TCPSender._syn (_sender c);
     f_syn_acked := 0 <? acked (_sender c); f_fin := TCPSender._fin (_sender c);
     f_fin_acked := TCPSender.bytes_in_flight (_sender c) =? 0;
     f_peer_error := ByteStream.error (inbound_stream c); f_peer_syn := TCPReceiver._syn (_receiver c);
     f_peer_end := ByteStream.input_ended (inbound_stream c);
     f_active := _active c; f_linger := _linger_after_streams_finish c |}.

(** [state()], from the flags. *)
Definition summary (f : flags) : TCPState :=
  {| TCPState._sender :=
       if f_error f then S.ERROR else if negb (f_syn f) then S.CLOSED
       else if negb (f_syn_acked f) then S.SYN_SENT
       else if negb (f_fin f) then S.SYN_ACKED
       else if f_fin_acked f then S.FIN_ACKED else S.FIN_SENT;
     TCPState._receiver :=
       if f_peer_error f then R.ERROR else if negb (f_peer_syn f) then R.LISTEN
       else if f_peer_end f then R.FIN_RECV else R.SYN_RECV;
     TCPState._active := f_active f;
     TCPState._linger_after_streams_finish := if f_active f then f_linger f else false |}.

Lemma state_summary c : wf c -> state c = summary (flags_of c).
Proof.
  intros [Hr Hs _]. unfold state, new_TCPState, summary. rewrite (sender_summary_eq _ Hs).
  unfold receiver_summary. rewrite (ackno_eq _ Hr). pose proof (wf_flight _ Hs) as Hf.
  cbn [flags_of f_error f_syn f_syn_acked f_fin f_fin_acked f_peer_error f_peer_syn f_peer_end f_active f_linger].
  unfold acked, next_seqno_absolute, TCPSender.bytes_in_flight, inbound_stream. f_equal.
  - destruct (ByteStream.error _); [done|]. destruct (negb (TCPSender._syn _)); [done|].
    destruct (Z.eqb_spec (_next_seqno (_sender c)) (_outgoing_bytes (_sender c))) as [E|E].
    + by rewrite (proj2 (Z.ltb_ge _ _)) by lia.
    + by rewrite (proj2 (Z.ltb_lt _ _)) by lia.
  - destruct (ByteStream.error _); [done|]. by destruct (TCPReceiver._syn _).
Qed.

(** Progress of the flags. *)
Definition flags_follow (f f' : flags) : bool :=
  implb (f_error f) (f_error f') && implb (f_syn f) (f_syn f') && implb (f_syn_acked f) (f_syn_acked f') &&
  implb (f_fin f) (f_fin f' && implb (f_fin_acked f) (f_fin_acked f') && Bool.eqb (f_linger f') (f_linger f)) &&
  implb (f_peer_error f) (f_peer_error f') && implb (f_peer_syn f) (f_peer_syn f') &&
  implb (f_peer_end f) (f_peer_end f') && implb (f_active f') (f_active f) && implb (f_linger f') (f_linger f) &&
  (f_active f || (Bool.eqb (f_error f') (f_error f) && Bool.eqb (f_peer_error f') (f_peer_error f))).

Lemma advances_follows c c' :
  wf c' -> advances c c' -> (_active c = false -> errors c' = errors c) -> flags_follow (flags_of c) (flags_of c') = true.
Proof.
  intros Hwf [[S1 S2 S3 S4] [R1 R2 R3] HA HL HS] He. unfold flags_follow, flags_of. cbn.
  pose proof (wf_flight _ (wf_sender _ Hwf)) as Hf.
  rewrite !andb_true_iff, !implb_true_iff, orb_true_iff, !andb_true_iff, !Bool.eqb_true_iff.
  split_and!; try done.
  - rewrite !Z.ltb_lt. lia.
  - intros H. destruct (S4 H) as [H1 H2]. split_and!; [done| |by apply HS].
    apply implb_true_iff. unfold acked, next_seqno_absolute, TCPSender.bytes_in_flight in *.
    rewrite !Z.eqb_eq. lia.
  - destruct (_active c); [by left|right]. specialize (He eq_refl). unfold errors in He. by injection He as -> ->.
Qed.

(** Following at most [n] arrows. *)
Fixpoint reach (n : nat) (a b : State) : bool :=
  bool_decide (a = b) || match n with O => false | S n => existsb (fun x => reach n x b) (arrows a) end.

Lemma reach_sound n a b : reach n a b = true -> rtc arrow a b.
Proof.
  revert a. induction n as [|n IH]; intros a; cbn [reach]; rewrite orb_true_iff, bool_decide_eq_true;
    (intros [->|H]; [apply rtc_refl|]); [done|].
  apply existsb_exists in H as (x & Hx & H). eapply rtc_l; [|by apply IH]. by apply list_elem_of_In.
Qed.

(** Evaluates the flags behind an official state. *)
Ltac official H :=
  let Hs := fresh in let Hr := fresh in let Ha := fresh in let Hl := fresh in
  pose proof (f_equal TCPState._sender H) as Hs; pose proof (f_equal TCPState._receiver H) as Hr;
  pose proof (f_equal TCPState._active H) as Ha;
  pose proof (f_equal TCPState._linger_after_streams_finish H) as Hl; clear H;
  cbn [summary of_State TCPState._sender TCPState._receiver TCPState._active
       TCPState._linger_after_streams_finish f_error f_syn f_syn_acked f_fin f_fin_acked
       f_peer_error f_peer_syn f_peer_end f_active f_linger] in Hs, Hr, Ha, Hl;
  subst;
  repeat match type of Hs with context [if ?b then _ else _] =>
    lazymatch b with negb ?x => destruct x | _ => destruct b end; cbn [negb] in Hs; try discriminate Hs end;
  repeat match type of Hr with context [if ?b then _ else _] =>
    lazymatch b with negb ?x => destruct x | _ => destruct b end; cbn [negb] in Hr; try discriminate Hr end;
  clear Hs Hr; try subst.

Lemma diagram_complete f f' st st' :
  summary f = of_State st -> summary f' = of_State st' -> flags_follow f f' = true -> rtc arrow st st'.
Proof.
  intros H H' Hf. destruct (reach 6 st st') eqn:E; [by eapply reach_sound|exfalso].
  destruct f as [e s a fi fa pe ps pd ac li], f' as [e' s' a' fi' fa' pe' ps' pd' ac' li'].
  unfold flags_follow in Hf. rewrite !andb_true_iff in Hf.
  destruct st, st'; try (vm_compute in E; discriminate E); official H; official H';
    cbn in Hf; destruct_and?; congruence.
Qed.

(** ** Property *)


Lemma deliver_calls segs c : Forall wire_ok segs -> rtc call c (deliver c segs).
Proof.
  intros H. revert c. induction H as [|seg segs Hs _ IH]; intros c; [done|]. cbn [deliver].
  destruct (segment_received c seg) as [c'|] eqn:E; [|done]. eapply rtc_l; [by eapply call_receive|done].
Qed.

(** An open connection ends its stream, and the peer answers with an
    acknowledgment and its own FIN: from FIN_WAIT_1 to TIME_WAIT. *)
Definition example_closing : TCPConnection := end_input_stream example_established.
Definition example_closed : TCPConnection := deliver example_closing [peer_segment false true 1 2 50 []].

