(* ===== verification/Progress.v ===== *)
(** * Delivery stays possible

    From every open state that two endpoints can reach ([open_pair]),
    a continuation exists in which the peer's application gets all that was
    written, even if every segment handed to the network so far is lost: the
    timer repeats the oldest outstanding segment, the peer takes it and
    answers, and the answer moves the sender on. *)

From S2P Require Import Prelude WrappingIntegers ByteStream StreamReassembler ReassemblerProps Buffer TCPHeader TCPSegment TCPReceiver TCPSender TCPState TCPConnection Transport Emission Acknowledgment.

(** ** A receiver has at most what was sent *)

(** [seg] ends before the absolute number [B] of the stream [W]. *)
Definition ends_by (W : list byte) (e : bool) (isn : WrappingInt32) (B : Z) (seg : TCPSegment) : Prop :=
  rst (header seg) = true \/
  exists q, sent_at W e isn q seg /\ q + length_in_sequence_space seg <= B.

Lemma ends_by_le W e isn B B' seg : B <= B' -> ends_by W e isn B seg -> ends_by W e isn B' seg.
Proof. intros ? [?|(q & ? & ?)]; [by left|]. right. exists q. split; [done|lia]. Qed.

Lemma ends_by_grow W D e isn B seg : ends_by W false isn B seg -> ends_by (W ++ D) e isn B seg.
Proof. intros [?|(q & ? & ?)]; [by left|]. right. exists q. split; [by apply sent_at_grow|done]. Qed.

Lemma ends_by_end W e isn B seg : ends_by W e isn B seg -> ends_by W true isn B seg.
Proof. intros [?|(q & (? & _ & ?) & ?)]; [by left|]. right. by exists q. Qed.

Lemma ends_by_evolves W e W' e' isn B seg :
  evolves W e W' e' -> ends_by W e isn B seg -> ends_by W' e' isn B seg.
Proof.
  intros (D & -> & He) H. destruct e; [|by apply ends_by_grow].
  destruct (He eq_refl) as [-> ->]. by rewrite app_nil_r.
Qed.

Lemma stamp_ends W e isn B r seg : ends_by W e isn B seg -> ends_by W e isn B (stamp r seg).
Proof.
  intros H. unfold stamp. destruct (TCPReceiver.ackno r); [|done]. destruct H as [?|(q & (Hw & H) & Hl)]; [by left|].
  right. exists q. split; [|done]. split; [apply u16_range|done].
Qed.

(** The receiver [r] of the stream [W] knows nothing of the numbers from [B] on. *)
Record upto (W : list byte) (B : Z) (r : TCPReceiver) : Prop := {
  upto_bytes : bounded (Z.max 0 (B - 1)) (_reassembler r);
  upto_syn : TCPReceiver._syn r = true -> 1 <= B;
  upto_eof : _posEOF (_reassembler r) <> ULONG_LONG_MAX -> zlen W + 2 <= B
}.

Lemma upto_le W B B' r : B <= B' -> upto W B r -> upto W B' r.
Proof.
  intros Hle [[H1 H2] H3 H4]. constructor; [constructor|..]; try lia.
  - intros i b Hb. specialize (H2 i b Hb). lia.
  - intros ?%H3. lia.
Qed.

Lemma upto_expected W isn B r : receives W isn r -> upto W B r -> 0 <= B -> expected r <= B.
Proof.
  intros [Hwf Hf _] [[H1 _] H3 H4] HB. unfold expected, next_expected.
  destruct (TCPReceiver._syn r); [|done]. specialize (H3 eq_refl).
  change (_output (_reassembler r)) with (TCPReceiver.stream_out r) in *.
  destruct (ByteStream.input_ended (TCPReceiver.stream_out r)) eqn:Ee; [|lia].
  destruct (fol_ended _ _ Hf Ee) as [Hw Hp]. pose proof (fol_written _ _ Hf).
  assert (zlen W + 2 <= B); [|change (_output (_reassembler r)) with (TCPReceiver.stream_out r) in *; lia].
  apply H4. rewrite Hp. pose proof (wf_room _ (fol_wf _ _ Hf)) as Hr.
  pose proof (wf_written _ (fol_wf _ _ Hf)) as (_ & _ & Hx). pose proof (wf_capacity_nonneg _ (fol_wf _ _ Hf)).
  unfold ULONG_LONG_MAX.
  change (_output (_reassembler r)) with (TCPReceiver.stream_out r) in *. lia.
Qed.

Lemma upto_receive W e isn B r seg r' :
  wi_wf isn -> zlen W + 2 < 2 ^ 32 -> receives W isn r -> upto W B r ->
  ends_by W e isn B seg -> rst (header seg) = false ->
  TCPReceiver.segment_received r seg = Ok r' -> upto W B r'.
Proof.
  intros Hi HW Hr Hu [?|(q & Hat & Hend)] Hrst E; [congruence|].
  assert (Hof : seg_of W isn seg) by (eapply sent_seg_of; [done|by eapply sent_at_sent]).
  pose proof (position_at W e isn q seg Hi HW Hat) as Hpos. pose proof Hat as (_ & _ & Hq & _ & Hsyn & Hp).
  pose proof (zlen_nonneg (str (payload seg))).
  assert (Hlen : zlen (str (payload seg)) < 2 ^ 32).
  { apply piece_length in Hp as [?|?]; [lia|]. destruct (TCPHeader.syn _); [lia|].
    pose proof (u64_range (q - 1)). lia. }
  rewrite length_small in Hend by lia.
  destruct (segment_received_pushed W isn r seg r' Hi ltac:(lia) Hr Hof E) as [[_ ->]|(t & Hig & Hs' & Hpush & Hpu)]; [done|].
  destruct Hu as [Hb H3 H4]. pose proof (wf_room _ (fol_wf _ _ (rcv_follows _ _ _ Hr))) as Hroom.
  pose proof (piece_eof _ _ _ _ Hp) as Hfin. rewrite Hpos in *. constructor.
  - eapply (push_bounded _ _ _ _ _ _ (fol_wf _ _ (rcv_follows _ _ _ Hr)) Hb); [| | |exact Hpush]; [|lia|].
    + destruct (syn (header seg)); [lia|apply u64_range].
    + destruct (syn (header seg)); cbn [b1] in *; [rewrite (Hsyn eq_refl) in *; destruct (fin (header seg)); cbn [b1] in *; lia|].
      destruct (Z.eq_dec q 0) as [->|Hq0].
      * change (u64 (0 - 1)) with (2 ^ 64 - 1). lia.
      * rewrite u64_small by lia. destruct (fin (header seg)); cbn [b1] in *; lia.
  - intros _. unfold ignored in Hig. destruct (TCPReceiver._syn r); [by apply H3|].
    destruct (syn (header seg)); [|done]. destruct (fin (header seg)); cbn [b1] in *; lia.
  - rewrite (pushed_eof _ _ _ _ _ _ Hpu). unfold new_eof. destruct (fin (header seg)) eqn:Ef; [|done].
    intros _. specialize (Hfin eq_refl). destruct (syn (header seg)); cbn [b1] in *; [rewrite (Hsyn eq_refl) in *; lia|].
    destruct (Z.eq_dec q 0) as [->|Hq0].
    * change (u64 (0 - 1)) with (2 ^ 64 - 1) in Hfin. lia.
    * rewrite u64_small in Hfin by lia. lia.
Qed.

Lemma upto_evolves W e W' e' B r :
  evolves W e W' e' -> (e = false -> _posEOF (_reassembler r) = ULONG_LONG_MAX) ->
  upto W B r -> upto W' B r.
Proof.
  intros (D & -> & He) Ho [H1 H2 H3]. constructor; [done..|]. destruct e.
  - destruct (He eq_refl) as [-> _]. by rewrite app_nil_r.
  - by rewrite Ho.
Qed.

(** ** Nothing waits that the window admits *)

(** At most a window is in flight, and the window is used. *)
Definition settled (s : TCPSender) : Prop :=
  _outgoing_bytes s <= 2 ^ 16 /\ (_syn s = true -> filled (effective_window s) s).

Lemma settled_fill s : TCPSender.wf s -> _outgoing_bytes s <= 2 ^ 16 -> settled (fill_window s).
Proof.
  intros H Ho. destruct (fill_window_spec s H) as (_ & _ & Hf). destruct (fill_window_more s H) as (segs & [] & Hm).
  pose proof (effective_window_range s H). split.
  - destruct (_syn s); cbn [negb b1] in Hm; lia.
  - unfold effective_window in *. by rewrite more_win.
Qed.

Lemma settled_ack s n w :
  TCPSender.wf s -> 0 <= w < 2 ^ 16 -> settled s -> settled (ack_received s n w).
Proof.
  intros H Hw Hs. destruct (ack_received_eq s n w H Hw) as [[_ ->]|(_ & o & -> & Hwf & Ho & _)]; [done|].
  apply settled_fill; [done|]. destruct Hs. cbn. lia.
Qed.

Lemma settled_tick s ms : settled s -> settled (TCPSender.tick s ms).
Proof. unfold TCPSender.tick. destruct (_segments_outgoing s) as [|[k x] l]; [done|]. by destruct (_ <=? _). Qed.

(** ** What a sender queues ends before its next number *)

Lemma chain_ends W e isn lo l hi :
  chain lo l hi -> Forall (kept_at W e isn) l -> Forall (ends_by W e isn hi) (map snd l).
Proof.
  revert lo. induction l as [|[k seg] l IH]; intros lo; [intros; apply Forall_nil_2|].
  intros (-> & Hl & Hc) [[Hat _] Hk]%Forall_cons. cbn [map snd]. apply Forall_cons_2; [|by apply (IH _ Hc)].
  right. exists lo. split; [done|]. by apply chain_le in Hc.
Qed.

Lemma outgoing_ends W s :
  TCPSender.wf s -> keeps W s ->
  Forall (ends_by W (ByteStream.input_ended (_stream s)) (TCPSender._isn s) (_next_seqno s))
    (map snd (_segments_outgoing s)).
Proof. intros Hwf Hk. eapply chain_ends; [apply (wf_chain s Hwf)|done]. Qed.

Lemma fill_next s : TCPSender.wf s -> _next_seqno s <= _next_seqno (fill_window s).
Proof.
  intros H. pose proof (fill_window_wf s H) as H'. pose proof (acked_fill s H) as Ha.
  destruct (fill_window_more s H) as (segs & [] & _). rewrite more_next.
  assert (0 <= seq_lengths segs); [|lia]. revert more_numbered. generalize (_next_seqno s). clear.
  unfold seq_lengths. induction segs as [|x segs IH]; intros n; [done|]. intros (_ & _ & Hl & Hn). cbn.
  specialize (IH _ Hn). lia.
Qed.

Lemma ack_next s n w :
  TCPSender.wf s -> 0 <= w < 2 ^ 16 -> _next_seqno s <= _next_seqno (ack_received s n w).
Proof.
  intros H Hw. destruct (ack_received_eq s n w H Hw) as [[_ ->]|(_ & o & -> & Hwf & _)]; [done|].
  by apply fill_next in Hwf.
Qed.

(** The queue of a sender, each segment ending before the next number. *)
Definition queue_ends (W : list byte) (s : TCPSender) : Prop :=
  Forall (ends_by W (ByteStream.input_ended (_stream s)) (TCPSender._isn s) (_next_seqno s))
    (TCPSender._segments_out s).

Lemma queue_fill W s : sends W s -> keeps W s -> queue_ends W s -> queue_ends W (fill_window s).
Proof.
  intros Hs Hk Hq. pose proof (snd_wf _ _ Hs) as Hwf. pose proof (fill_next s Hwf) as Hn.
  pose proof (outgoing_ends W _ (fill_window_wf s Hwf) (keeps_fill W s Hs Hk)) as Ho.
  destruct (fill_window_more s Hwf) as (segs & [] & _). unfold queue_ends in *.
  rewrite more_out, more_ended, more_isn in *. rewrite more_outgoing in Ho.
  apply Forall_app in Ho as [_ Ho]. apply Forall_app. split; [|done].
  eapply Forall_impl; [exact Hq|]. intros x. by apply ends_by_le.
Qed.

Lemma queue_ack W s n w :
  sends W s -> keeps W s -> queue_ends W s -> 0 <= w < 2 ^ 16 -> queue_ends W (ack_received s n w).
Proof.
  intros Hs Hk Hq Hw. destruct (ack_cases W s n w Hs Hk Hw) as [->|(s1 & -> & H1 & H2 & E1 & E2 & E3 & E4)]; [done|].
  apply queue_fill; [done..|]. unfold queue_ends. by rewrite E1, E2, E3, E4.
Qed.

Lemma queue_tick W s ms :
  TCPSender.wf s -> keeps W s -> queue_ends W s -> queue_ends W (TCPSender.tick s ms).
Proof.
  intros Hwf Hk Hq. pose proof (outgoing_ends W s Hwf Hk) as Ho. unfold queue_ends, TCPSender.tick in *.
  destruct (_segments_outgoing s) as [|[k x] l]; [done|]. apply Forall_cons in Ho as [Ho _].
  destruct (_ <=? _); [|done]. cbn. apply Forall_app. split; [done|]. by apply Forall_singleton.
Qed.

Lemma queue_empty W s : sends W s -> queue_ends W s -> queue_ends W (send_empty_segment s).
Proof.
  intros Hs Hq. unfold queue_ends in *. cbn. apply Forall_app. split; [done|]. apply Forall_singleton.
  right. exists (_next_seqno s). pose proof (wf_next s (snd_wf _ _ Hs)). pose proof (snd_read _ _ Hs).
  pose proof (wf_flight s (snd_wf _ _ Hs)). split; [|by replace (length_in_sequence_space _) with 0 by reflexivity; lia].
  split; [done|]. split; [done|]. split; [destruct (_syn s), (_fin s); cbn [b1] in *; lia|]. split; [done|]. split; [done|].
  constructor; [intros k b; by rewrite zget_nil|done].
Qed.

(** ** The invariant of one endpoint *)

Section invariant.
Context (W : list byte) (mend : bool) (misn : WrappingInt32).
Context (V : list byte) (vend : bool) (visn : WrappingInt32).
Context (HW : zlen W + 2 < 2 ^ 32) (Hmisn : wi_wf misn).
Context (HV : zlen V + 2 < 2 ^ 32) (Hvisn : wi_wf visn).

(** As for [acks_inv]; [B] is the next number the peer will send. *)
Record prog_inv (E B : Z) (c : TCPConnection) : Prop := {
  pi_acks : acks_inv W mend misn V vend visn E c;
  pi_settled : settled (_sender c);
  pi_queue : queue_ends W (_sender c);
  pi_out : Forall (ends_by W mend misn (_next_seqno (_sender c))) (_segments_out c);
  pi_upto : upto V B (_receiver c)
}.

Lemma prog_sender E B f c :
  prog_inv E B c -> acks_inv W mend misn V vend visn E (on_sender f c) ->
  settled (f (_sender c)) -> queue_ends W (f (_sender c)) ->
  _next_seqno (_sender c) <= _next_seqno (f (_sender c)) -> prog_inv E B (on_sender f c).
Proof.
  intros [H1 H2 H3 H4 H5] Ha Hs Hq Hn. constructor; try done.
  eapply Forall_impl; [exact H4|]. intros x. by apply ends_by_le.
Qed.

(** Whatever waited before. *)
Lemma prog_refill E B c :
  acks_inv W mend misn V vend visn E c -> queue_ends W (_sender c) ->
  _outgoing_bytes (_sender c) <= 2 ^ 16 -> Forall (ends_by W mend misn (_next_seqno (_sender c))) (_segments_out c) -> upto V B (_receiver c) ->
  prog_inv E B (on_sender fill_window c).
Proof.
  intros H1 H3 Ho H4 H5. pose proof (ai_conn _ _ _ _ _ _ _ _ H1) as [Hs _ _ _ _ _].
  pose proof (snd_wf _ _ Hs) as Hwf.
  constructor; [by apply acks_inv_fill|by apply settled_fill| | |done].
  - apply queue_fill; [done|apply H1|done].
  - eapply Forall_impl; [exact H4|]. intros x. apply ends_by_le. by apply fill_next.
Qed.

Lemma prog_fill E B c : prog_inv E B c -> prog_inv E B (on_sender fill_window c).
Proof. intros [? [] ? ? ?]. by apply prog_refill. Qed.

Lemma prog_empty E B c : prog_inv E B c -> prog_inv E B (on_sender send_empty_segment c).
Proof.
  intros H. pose proof H as [H1 H2 H3 H4 H5]. pose proof (ai_conn _ _ _ _ _ _ _ _ H1) as [Hs _ _ _ _ _].
  apply prog_sender; [done|by apply acks_inv_empty|done| |done]. by apply queue_empty.
Qed.

Lemma prog_send E B c : prog_inv E B c -> prog_inv E B (send_segments c).
Proof.
  intros [H1 H2 H3 H4 H5]. destruct (send_segments_parts c) as (E1 & E2 & E3 & _).
  constructor; rewrite ?E1, ?E2, ?E3; try done; [by apply acks_inv_send|apply Forall_nil_2|].
  apply Forall_app. split; [done|]. apply Forall_fmap. eapply Forall_impl; [|intros x; apply stamp_ends].
  pose proof (ai_conn _ _ _ _ _ _ _ _ H1) as Hc. unfold queue_ends in H3.
  pose proof (ci_ended _ _ _ _ _ _ _ Hc) as He. unfold stream_in in He.
  by rewrite He, (ci_isn _ _ _ _ _ _ _ Hc) in H3.
Qed.

Lemma prog_segment E B seg c c' :
  emitted V vend visn seg -> acks_upto misn E seg -> ends_by V vend visn B seg ->
  0 <= E < 2 ^ 32 -> unambiguous misn (zlen W) seg -> segment_received c seg = Ok c' -> prog_inv E B c ->
  prog_inv E B c' /\ _next_seqno (_sender c) <= _next_seqno (_sender c').
Proof.
  intros Hem Ha Hb HE Hnw Hrc Hc. pose proof (Z.le_refl (_next_seqno (_sender c))) as Hn0. revert Hn0.
  generalize (_next_seqno (_sender c)) at 1 3. intros n Hn0.
  eapply (segment_received_closed (fun c => prog_inv E B c /\ n <= _next_seqno (_sender c)) seg);
    [|exact Hrc|by split]. clear c c' Hrc Hc Hn0.
  assert (Hwf : forall c, prog_inv E B c -> sends W (_sender c) /\ TCPSender.wf (_sender c)).
  { intros c [[[Hs _ _ _ _ _] _ _ _ _] _ _ _ _]. split; [done|by eapply snd_wf]. }
  constructor.
  - intros c [[[H1 A2 A3 A4 A5] H2 H3 H4 H5] ?]. split; [|done]. constructor; try done.
    constructor; try done. by destruct H1.
  - intros c _ [[[H1 A2 A3 A4 A5] H2 H3 H4 H5] ?]. split; [|done]. constructor; try done.
    + constructor; try done; [|by apply on_stream_emits].
      destruct H1. constructor; try done; [by apply sends_error|by apply receives_error].
    + destruct H5 as [[] ? ?]. by constructor; [constructor|..].
  - intros c Hr [H Hn]. destruct Hem as [?|Hem]; [congruence|]. pose proof H as [H1 H2 H3 H4 H5].
    destruct (Hwf c H) as [Hs Hw]. assert (Hwin : 0 <= win (header seg) < 2 ^ 16) by apply Hem.
    pose proof (ack_next (_sender c) (TCPHeader.ackno (header seg)) (win (header seg)) Hw Hwin) as Hm.
    split; [|exact (Z.le_trans _ _ _ Hn Hm)]. apply prog_sender; [done|by apply acks_inv_ack|by apply settled_ack| |done].
    apply queue_ack; [done|apply H1|done|done].
  - intros c c1 Hr [H Hn] E1. destruct Hem as [?|Hem]; [congruence|]. pose proof H as [H1 H2 H3 H4 H5].
    destruct (acks_inv_receiver _ _ _ _ _ _ HV Hvisn E seg c c1 Hem H1 E1) as [Hc1 _].
    unfold receiver_segment in E1. destruct (TCPReceiver.segment_received _ _) as [r|] eqn:Er; [|done].
    injection E1 as <-. split; [|done]. constructor; try done. cbn [set_receiver _receiver].
    by eapply upto_receive; [| |apply H1|..].
  - intros c [H Hn]. destruct (Hwf c H) as [_ Hw]. pose proof (fill_next _ Hw) as Hm.
    split; [by apply prog_fill|exact (Z.le_trans _ _ _ Hn Hm)].
  - intros c [H Hn]. split; [by apply prog_empty|done].
  - intros c [H Hn]. split; [by apply prog_send|]. by destruct (send_segments_parts c) as (_ & -> & _).
Qed.

Lemma prog_tick E B c ms : prog_inv E B c -> prog_inv E B (tick c ms).
Proof.
  intros H. unfold tick. destruct (negb (_active c)) eqn:Ea; [done|]. cbn zeta. set (t := u64 _).
  pose proof H as [H1 H2 H3 H4 H5]. pose proof (ai_conn _ _ _ _ _ _ _ _ H1) as [Hs _ _ _ _ _].
  pose proof (snd_wf _ _ Hs) as Hwf.
  assert (Hn : _next_seqno (TCPSender.tick (_sender c) ms) = _next_seqno (_sender c)).
  { unfold TCPSender.tick. destruct (_segments_outgoing _) as [|[k x] l]; [done|]. by destruct (_ <=? _). }
  assert (H' : prog_inv E B (on_sender (fun s => TCPSender.tick s ms) (set_time c t))).
  { constructor; cbn [on_sender set_time set_sender _sender _segments_out _receiver]; try done.
    - pose proof H1 as [A1 A2 A3 A4 A5]. constructor; [by apply sender_tick_inv|by apply tick_emits|by apply keeps_tick|done|].
      cbn. by rewrite acked_tick.
    - by apply settled_tick.
    - apply queue_tick; [done|apply H1|done].
    - by rewrite Hn. }
  destruct (_ <? _); [|by apply prog_send]. destruct H' as [[B1 B2 B3 B4 B5] P2 P3 P4 P5].
  constructor; try done.
  - constructor; try done; [by apply reset_inv|by apply on_stream_emits|].
    apply Forall_app. split; [done|]. by apply Forall_singleton.
  - apply Forall_app. split; [done|]. apply Forall_singleton. by left.
  - destruct P5 as [[] ? ?]. by constructor; [constructor|..].
Qed.

Lemma prog_read E B c n :
  0 <= n -> prog_inv E B c -> prog_inv E B (on_inbound_stream (fun s => snd (ByteStream.read s n)) c).
Proof.
  intros Hn [H1 H2 H3 H4 H5]. constructor; try done; [by apply acks_inv_read|].
  destruct H5 as [[] ? ?]. by constructor; [constructor|..].
Qed.

Lemma prog_connect E B c : prog_inv E B c -> prog_inv E B (connect c).
Proof. intros H. by apply prog_send, (prog_fill E B c). Qed.

Lemma prog_transmit E B c : prog_inv E B c -> prog_inv E B (set_segments_out c []).
Proof. intros [H1 H2 H3 H4 H5]. constructor; try done. by apply acks_inv_transmit. Qed.

End invariant.

Lemma prog_end W mend misn V vend visn E B c :
  wi_wf visn -> prog_inv W mend misn V vend visn E B c ->
  prog_inv W true misn V vend visn E B (end_input_stream c).
Proof.
  intros Hv [H1 [H2 _] H3 H4 H5]. apply prog_send, prog_refill; try done.
  - by eapply acks_inv_ended.
  - eapply Forall_impl; [exact H3|]. intros x. apply ends_by_end.
  - eapply Forall_impl; [exact H4|]. intros x. apply ends_by_end.
Qed.

Lemma prog_write W misn V vend visn E B c data n c' :
  wi_wf visn -> prog_inv W false misn V vend visn E B c -> zlen W + zlen data + 2 < 2 ^ 32 ->
  write c data = (n, c') -> prog_inv (W ++ take (Z.to_nat n) data) false misn V vend visn E B c'.
Proof.
  intros Hv H Hl. pose proof H as [H1 [H2 _] H3 H4 H5]. unfold write. destruct data as [|x data]; [intros [= <- <-]|].
  { by rewrite take_nil, app_nil_r. }
  destruct (ByteStream.write (stream_in (_sender c)) (x :: data)) as [m st] eqn:Ew. intros [= <- <-].
  pose proof (ci_ended _ _ _ _ _ _ _ (ai_conn _ _ _ _ _ _ _ _ H1)) as He. unfold stream_in in He.
  apply prog_send, prog_refill; try done.
  - by apply acks_inv_accept.
  - eapply Forall_impl; [exact H3|]. intros y. rewrite He. apply ends_by_grow.
  - eapply Forall_impl; [exact H4|]. intros y. apply ends_by_grow.
Qed.

(** ** The invariant of the system *)

Definition next_of (x : endpoint) : Z := _next_seqno (_sender (conn x)).

Record side_prog (x y : endpoint) (net : list TCPSegment) : Prop := {
  sp_conn : prog_inv (written x) (ended x) (isn_of x) (written y) (ended y) (isn_of y)
              (expected (_receiver (conn y))) (next_of y) (conn x);
  sp_net : Forall (ends_by (written x) (ended x) (isn_of x) (next_of x)) net
}.

(** A new state of [x]. *)
Lemma side_prog_new x x' y net out e :
  side_prog x y net -> evolves (written x) (ended x) (written x') (ended x') ->
  prog_inv (written x') e (isn_of x) (written y) (ended y) (isn_of y)
    (expected (_receiver (conn y))) (next_of y) (conn x') ->
  next_of x <= next_of x' -> Forall (ends_by (written x') e (isn_of x) (next_of x')) out ->
  side_prog x' y (net ++ out) /\ next_of x <= next_of x'.
Proof.
  intros [H1 H2] Hev Hc Hle Ho. split; [|done]. pose proof (ai_conn _ _ _ _ _ _ _ _ (pi_acks _ _ _ _ _ _ _ _ _ Hc)) as Hcc.
  pose proof (ci_ended _ _ _ _ _ _ _ Hcc) as He. pose proof (ci_isn _ _ _ _ _ _ _ Hcc) as Hi.
  assert (Hi' : isn_of x' = isn_of x) by done. assert (He' : ended x' = e) by done.
  constructor; rewrite ?Hi', ?He'; [done|]. apply Forall_app. split; [|done].
  eapply Forall_impl; [exact H2|]. intros seg Hs. rewrite <- He'.
  eapply ends_by_evolves; [done|]. by eapply ends_by_le.
Qed.

Lemma send_next c : _next_seqno (_sender (send_segments c)) = _next_seqno (_sender c).
Proof. by destruct (send_segments_parts c) as (_ & -> & _). Qed.

Lemma tick_next c ms : _next_seqno (_sender (tick c ms)) = _next_seqno (_sender c).
Proof.
  unfold tick. destruct (negb (_active c)); [done|]. cbn zeta.
  assert (H : _next_seqno (TCPSender.tick (_sender c) ms) = _next_seqno (_sender c)).
  { unfold TCPSender.tick. destruct (_segments_outgoing _) as [|[k x] l]; [done|]. by destruct (_ <=? _). }
  by destruct (_ <? _); rewrite ?send_next.
Qed.

(** Filling the window after any change of the stream. *)
Lemma refill_next c f :
  TCPSender.wf (on_stream_in f (_sender c)) ->
  _next_seqno (_sender c) <= _next_seqno (_sender (send_segments (on_sender fill_window (on_sender (on_stream_in f) c)))).
Proof. intros H. rewrite send_next. by apply fill_next in H. Qed.

Lemma local_step_prog x y inbox net x' out :
  local_step inbox x x' out -> side_inv x y net -> side_inv y x inbox ->
  side_acks y x inbox -> side_prog x y net -> side_prog y x inbox ->
  Forall (unambiguous (isn_of x) (zlen (written x))) inbox ->
  side_prog x' y (net ++ out) /\ next_of x <= next_of x'.
Proof.
  intros Hst Hx Hy Ha Hp Hpy Hnw. pose proof (sp_conn _ _ _ Hp) as Hc.
  pose proof (si_isn _ _ _ Hx) as Hxi. pose proof (si_isn _ _ _ Hy) as Hyi.
  pose proof (si_small _ _ _ Hx) as Hxs. pose proof (si_small _ _ _ Hy) as Hys.
  destruct (local_step_inv _ _ _ _ _ _ Hst Hx (si_net _ _ _ Hy) Hys Hyi) as (Hx' & _ & Hev).
  pose proof (snd_wf _ _ (ci_sends _ _ _ _ _ _ _ (si_conn _ _ _ Hx))) as Hwf.
  assert (Hrecv : forall seg c, seg ∈ inbox -> segment_received (conn x) seg = Ok c ->
    prog_inv (written x) (ended x) (isn_of x) (written y) (ended y) (isn_of y)
      (expected (_receiver (conn y))) (next_of y) c /\ next_of x <= _next_seqno (_sender c)).
  { pose proof (sa_net _ _ _ Ha) as Hink. pose proof (si_net _ _ _ Hy) as Hem. pose proof (sp_net _ _ _ Hpy) as Hends.
    rewrite Forall_forall in Hink, Hem, Hends, Hnw.
    intros seg c Hseg Hr. pose proof (ci_receives _ _ _ _ _ _ _ (si_conn _ _ _ Hy)) as Hrc.
    pose proof (expected_bound _ _ _ Hrc). pose proof (expected_nonneg _ (rcv_wf _ _ _ Hrc)).
    eapply prog_segment; try done; [by apply Hem|by apply Hink|by apply Hends|lia|by apply Hnw]. }
  destruct Hst as [|data n c He Hb Hwr| |ms|n bs Hn ->|seg c Hseg Hr|];
    (eapply side_prog_new; [done|exact Hev| | |]); unfold next_of; cbn [with_conn conn written];
    try apply Forall_nil_2; try done.
  - by apply prog_connect.
  - unfold connect. rewrite send_next. by apply fill_next.
  - rewrite He in Hc. by eapply prog_write.
  - revert Hwr. unfold write. destruct data as [|d data]; [by intros [= _ <-]|].
    destruct (ByteStream.write (stream_in (_sender (conn x))) (d :: data)) as [m st] eqn:Ew. intros [= _ <-].
    apply refill_next. pose proof (si_conn _ _ _ Hx) as Hcc. rewrite He in Hcc.
    exact (snd_wf _ _ (ci_sends _ _ _ _ _ _ _ (stream_write_inv _ _ _ _ _ _ _ _ _ Hcc Hb Ew))).
  - by apply (prog_end _ (ended x)).
  - apply refill_next. by apply end_input_wf.
  - by apply prog_tick.
  - by rewrite tick_next.
  - by apply prog_read.
  - by apply (Hrecv seg c).
  - by apply (Hrecv seg c).
  - by apply prog_transmit.
  - apply Hc.
Qed.

Lemma side_prog_peer x x' y net netx :
  side_prog y x net -> side_inv y x netx -> isn_of x' = isn_of x ->
  evolves (written x) (ended x) (written x') (ended x') -> zlen (written x) + 2 < 2 ^ 32 ->
  expected (_receiver (conn x)) <= expected (_receiver (conn x')) -> next_of x <= next_of x' ->
  side_prog y x' net.
Proof.
  intros [[H1 H2 H3 H4 H5] Hn] Hy Hi Hev Hx Hle Hnx. constructor; [|done]. constructor; try done.
  - pose proof H1 as [A1 A2 A3 A4 A5]. rewrite Hi. constructor; try done; [by eapply conn_inv_evolves|lia].
  - eapply upto_le; [exact Hnx|]. eapply upto_evolves; [done| |done]. intros E.
    by apply (ci_open _ _ _ _ _ _ _ (si_conn _ _ _ Hy)).
Qed.

Definition prog_ok (s : system) : Prop :=
  side_prog (left s) (right s) (to_right s) /\ side_prog (right s) (left s) (to_left s).

Lemma system_step_prog s s' :
  system_step s s' -> system_inv s -> acks_ok s -> prog_ok s -> unwrapped s -> prog_ok s'.
Proof.
  intros Hst [HL HR] [Al Ar] [Pl Pr] [Nl Nr]. destruct Hst as [s e' out Hl|s e' out Hl].
  - destruct (local_step_inv _ _ _ _ _ _ Hl HL (si_net _ _ _ HR) (si_small _ _ _ HR) (si_isn _ _ _ HR)) as (H1 & H2 & H3).
    apply (no_wrap_unambiguous _ _ (to_left s)) in Nl.
    destruct (local_step_acks _ _ _ _ _ _ Hl HL HR Al (sa_net _ _ _ Ar) Nl) as [Ha He].
    destruct (local_step_prog _ _ _ _ _ _ Hl HL HR Ar Pl Pr Nl) as [Hp Hn].
    split; [done|]. eapply side_prog_peer; try done. apply HL.
  - destruct (local_step_inv _ _ _ _ _ _ Hl HR (si_net _ _ _ HL) (si_small _ _ _ HL) (si_isn _ _ _ HL)) as (H1 & H2 & H3).
    apply (no_wrap_unambiguous _ _ (to_right s)) in Nr.
    destruct (local_step_acks _ _ _ _ _ _ Hl HR HL Ar (sa_net _ _ _ Al) Nr) as [Ha He].
    destruct (local_step_prog _ _ _ _ _ _ Hl HR HL Al Pr Pl Nr) as [Hp Hn].
    split; [|done]. eapply side_prog_peer; try done. apply HR.
Qed.

Lemma unwrapped_step s s' : system_step s s' -> system_inv s -> unwrapped s' -> unwrapped s.
Proof.
  intros Hst [HL HR] [Nl Nr]. destruct Hst as [s e' out Hl|s e' out Hl]; cbn in Nl, Nr.
  - destruct (local_step_inv _ _ _ _ _ _ Hl HL (si_net _ _ _ HR) (si_small _ _ _ HR) (si_isn _ _ _ HR))
      as (_ & H2 & H3). rewrite H2 in Nl. split; [|done]. by eapply no_wrap_evolves.
  - destruct (local_step_inv _ _ _ _ _ _ Hl HR (si_net _ _ _ HL) (si_small _ _ _ HL) (si_isn _ _ _ HL))
      as (_ & H2 & H3). rewrite H2 in Nr. split; [done|]. by eapply no_wrap_evolves.
Qed.

Lemma new_side_prog cfg rnd cfg' rnd' :
  cfg_ok cfg -> cfg_ok cfg' -> side_prog (new_endpoint cfg rnd) (new_endpoint cfg' rnd') [].
Proof.
  intros Hc Hc'. constructor; [|apply Forall_nil_2]. constructor; try done.
  - by apply (sa_conn _ _ []), new_side_acks.
  - apply Forall_nil_2.
  - constructor; [constructor|..]; cbn; try done. intros i b. by rewrite zget_nil.
Qed.

(** Everything that is known of a state the system can reach. *)
Record known (s : system) : Prop := {
  known_inv : system_inv s;
  known_acks : acks_ok s;
  known_prog : prog_ok s;
  known_unwrapped : unwrapped s
}.

Lemma reachable_known cfgL cfgR rndL rndR s :
  cfg_ok cfgL -> cfg_ok cfgR -> rtc system_step (start cfgL cfgR rndL rndR) s -> unwrapped s -> known s.
Proof.
  intros HL HR Hs Hu. revert Hu. revert s Hs. apply (rtc_ind_r (fun s => unwrapped s -> known s)).
  - intros Hu. constructor; [split; by apply new_side|split; by apply new_side_acks|split; by apply new_side_prog|done].
  - intros s1 s2 Hs Hst IH Hu. pose proof (reachable_inv _ _ _ _ _ HL HR Hs) as Hi.
    destruct (IH (unwrapped_step _ _ Hst Hi Hu)) as [_ Ha Hp Hu1].
    constructor; [by eapply system_step_inv|by eapply system_step_acks|by eapply system_step_prog|done].
Qed.

(** A step that writes nothing keeps what is known. *)
Lemma known_step s s' :
  known s -> system_step s s' -> written (left s') = written (left s) ->
  written (right s') = written (right s) -> known s'.
Proof.
  intros [Hi Ha Hp Hu] Hst Wl Wr. assert (Hu' : unwrapped s').
  { pose proof Hi as [HL HR]. destruct Hu as [Nl Nr]. split; [rewrite Wl|rewrite Wr]; destruct Hst as [s e' out Hl|s e' out Hl]; cbn [left right]; try done.
    - by destruct (local_step_inv _ _ _ _ _ _ Hl HL (si_net _ _ _ HR) (si_small _ _ _ HR) (si_isn _ _ _ HR))
        as (_ & -> & _).
    - by destruct (local_step_inv _ _ _ _ _ _ Hl HR (si_net _ _ _ HL) (si_small _ _ _ HL) (si_isn _ _ _ HL))
        as (_ & -> & _). }
  constructor; [by eapply system_step_inv|by eapply system_step_acks|by eapply system_step_prog|done].
Qed.

(** ** One round

    The oldest outstanding segment is sent again, the peer takes what its
    window admits and answers, and the answer reaches the sender. *)

(** The receiver takes all of the oldest segment, or is full. *)
Lemma receiver_takes W e isn k seg r r0 r' :
  wi_wf isn -> zlen W + 2 < 2 ^ 32 -> receives W isn r -> kept_at W e isn (k, seg) ->
  0 < length_in_sequence_space seg -> 0 < k <= expected r ->
  TCPReceiver.segment_received r (stamp r0 seg) = Ok r' ->
  expected r <= expected r' /\
  (k + length_in_sequence_space seg <= expected r' \/
   ByteStream.input_ended (TCPReceiver.stream_out r) = false /\
   1 + ByteStream.bytes_read (TCPReceiver.stream_out r) + TCPReceiver._capacity r <= expected r').
Proof.
  intros Hi HW Hr [Hat Hsy] Hl Hk E. cbn [fst snd] in *.
  assert (Hat' : sent_at W e isn k (stamp r0 seg)).
  { destruct Hat as (Hw & H). unfold stamp. destruct (TCPReceiver.ackno r0); [|by split]. split; [apply u16_range|done]. }
  assert (Hst : syn (header (stamp r0 seg)) = false /\ fin (header (stamp r0 seg)) = fin (header seg) /\
    payload (stamp r0 seg) = payload seg).
  { unfold stamp. rewrite (proj2 (Z.eqb_neq k 0)) in Hsy by lia. by destruct (TCPReceiver.ackno r0). }
  destruct Hst as (Es & Ef & Epl). rewrite (proj2 (Z.eqb_neq k 0)) in Hsy by lia.
  assert (Hof : seg_of W isn (stamp r0 seg)) by (eapply sent_seg_of; [done|by eapply sent_at_sent]).
  assert (Hm := expected_mono W isn r _ r' Hi ltac:(lia) Hr Hof E). split; [done|].
  pose proof (position_at W e isn k _ Hi HW Hat') as Hpos. rewrite Es in Hpos.
  pose proof Hat' as (_ & _ & Hq & _ & _ & Hp). rewrite u64_small in Hpos by lia. rewrite Es, u64_small, Ef, Epl in Hp by lia.
  pose proof (zlen_nonneg (str (payload seg))). pose proof (piece_length _ _ _ _ Hp) as Hpl.
  pose proof (piece_eof _ _ _ _ Hp) as Hfin.
  rewrite length_small in * by lia. rewrite Hsy in *. cbn [b1] in *.
  assert (Hsyn : TCPReceiver._syn r = true) by (unfold expected in Hk; destruct (TCPReceiver._syn r); [done|lia]).
  destruct (ByteStream.input_ended (TCPReceiver.stream_out r)) eqn:Ee.
  { left. assert (Hex : expected r = zlen W + 2).
    { unfold expected, next_expected. rewrite Hsyn, Ee. destruct (fol_ended _ _ (rcv_follows _ _ _ Hr) Ee) as [Hw _].
      unfold TCPReceiver.stream_out, StreamReassembler.stream_out. lia. }
    destruct (fin (header seg)); [specialize (Hfin eq_refl); cbn [b1] in *; lia|]. cbn [b1] in *. lia. }
  destruct (segment_received_receives W isn r _ Hi ltac:(lia) Hr Hof) as (r1 & E1 & Hr1 & _ & _ & _ & Hprog).
  rewrite E in E1. injection E1 as <-. rewrite Hpos, Epl in Hprog.
  assert (Hig : ignored r (stamp r0 seg) = false) by (unfold ignored; by rewrite Es, Hsyn).
  assert (Hb : k - 1 <= ByteStream.bytes_written (TCPReceiver.stream_out r)).
  { unfold expected, next_expected in Hk. rewrite Hsyn, Ee in Hk. lia. }
  specialize (Hprog Hig Hb).
  destruct (segment_received_pushed W isn r _ r' Hi ltac:(lia) Hr Hof E) as [[? _]|(t & _ & Hs' & _ & Hpu)]; [congruence|].
  pose proof (pushed_ended _ _ _ _ _ _ Hpu) as Hend. pose proof (fol_written _ _ (rcv_follows _ _ _ Hr1)) as Hw1.
  change (_output (_reassembler r)) with (TCPReceiver.stream_out r) in *.
  change (_output (_reassembler r')) with (TCPReceiver.stream_out r') in *.
  rewrite Ee, Hpos, Ef, Epl in Hend. cbn [orb] in Hend. unfold expected, next_expected. rewrite Hs', Hend.
  destruct (Z.min_spec (k - 1 + zlen (str (payload seg)))
    (ByteStream.bytes_read (TCPReceiver.stream_out r) + TCPReceiver._capacity r)) as [[_ Hmin]|[_ Hmin]];
    rewrite Hmin in Hprog; [left|right; split; [done|]; destruct (_ =? _); lia].
  destruct (fin (header seg)); cbn [b1]; [|destruct (_ =? _); lia]. specialize (Hfin eq_refl). unfold new_eof.
  rewrite u64_small by lia. rewrite (proj2 (Z.eqb_eq _ _)) by lia. lia.
Qed.

(** A connection with an open stream, in either direction, stays active. *)
Lemma send_active c :
  ByteStream.input_ended (stream_in (_sender c)) = false \/
  ByteStream.input_ended (TCPReceiver.stream_out (_receiver c)) = false ->
  _active (send_segments c) = _active c.
Proof.
  intros H. unfold send_segments. cbn zeta. cbn [_receiver set_sender set_segments_out _sender].
  destruct (ByteStream.input_ended (TCPReceiver.stream_out (_receiver c))) eqn:E; [|done].
  destruct H as [H|?]; [|done]. unfold ByteStream.eof, stream_in in *.
  cbn [clear_segments_out _stream]. by rewrite H.
Qed.

(** A connection whose SYN is acknowledged and whose stream is open answers a
    segment that occupies sequence numbers. *)
Lemma established_replies c seg c' :
  TCPSender.wf (_sender c) -> 0 <= win (header seg) < 2 ^ 16 -> _active c = true -> 0 < acked (_sender c) ->
  ByteStream.input_ended (stream_in (_sender c)) = false -> rst (header seg) = false ->
  0 < length_in_sequence_space seg -> segment_received c seg = Ok c' ->
  TCPReceiver.segment_received (_receiver c) seg = Ok (_receiver c') /\ _active c' = true /\
  acked (_sender c) <= acked (_sender c') /\
  ByteStream.input_ended (stream_in (_sender c')) = false /\
  exists s, stamp (_receiver c') (empty_segment s) ∈ segments_out c'.
Proof.
  intros Hwf Hw Hact Hack Hend Hr Hl. unfold segment_received. rewrite Hact, Hr. cbn [negb]. cbn zeta.
  assert (He : ByteStream.eof (stream_in (_sender c)) = false) by (unfold ByteStream.eof; by rewrite Hend).
  unfold acked in Hack. pose proof (wf_flight _ Hwf) as Hfl.
  unfold next_seqno_absolute, TCPSender.bytes_in_flight in *. cbn [_sender set_time _receiver].
  rewrite (proj2 (Z.eqb_neq (_next_seqno (_sender c)) 0)) by lia.
  rewrite (proj2 (Z.eqb_neq (_next_seqno (_sender c)) (_outgoing_bytes (_sender c)))) by lia.
  rewrite (proj2 (Z.ltb_lt (_outgoing_bytes (_sender c)) (_next_seqno (_sender c)))) by lia.
  rewrite He, (proj2 (Z.ltb_lt _ _) Hl). cbn [andb negb].
  unfold receiver_segment. change (_receiver (sender_ack seg (set_time c 0))) with (_receiver c).
  destruct (TCPReceiver.segment_received (_receiver c) seg) as [r|] eqn:Er; [|done]. cbn [mbind result_bind].
  intros [= <-]. match goal with |- context [send_segments ?z] => set (c1 := z) end.
  set (s1 := ack_received (_sender c) (TCPHeader.ackno (header seg)) (win (header seg))).
  assert (H1 : TCPSender.wf s1) by (apply ack_received_wf; [exact Hwf|done]).
  assert (H2 : TCPSender.wf (send_empty_segment s1)) by by apply send_empty_segment_wf.
  assert (Es : _sender c1 = fill_window (send_empty_segment s1)) by done.
  assert (Ha : acked (_sender c) <= acked s1) by (apply acked_ack; [exact Hwf|done]).
  assert (Ei : ByteStream.input_ended (stream_in (_sender c1)) = false).
  { rewrite Es. unfold stream_in. rewrite (proj2 (same_fill _ H2)). cbn [send_empty_segment _stream].
    unfold s1. by rewrite (proj2 (same_ack _ _ _ Hwf Hw)). }
  destruct (send_segments_parts c1) as (P1 & P2 & P3 & _). rewrite (send_active c1 (or_introl Ei)), P1, P2.
  split; [done|]. split; [done|]. split.
  { change (acked (clear_segments_out (_sender c1))) with (acked (_sender c1)). rewrite Es, acked_fill by done. done. }
  split; [done|]. exists s1. unfold segments_out. rewrite P3. apply elem_of_app. right.
  apply list_elem_of_fmap_2. rewrite Es. destruct (fill_window_more _ H2) as (segs & [] & _).
  unfold TCPSender.segments_out. rewrite more_out. apply elem_of_app. left. cbn [send_empty_segment TCPSender._segments_out].
  apply elem_of_app. right. by apply list_elem_of_singleton.
Qed.

(** An acknowledgment inside the window is taken, and removes the oldest
    segment when it covers it. *)
Lemma ack_moves s k seg l E w :
  TCPSender.wf s -> settled s -> _segments_outgoing s = (k, seg) :: l -> acked s <= E <= _next_seqno s ->
  0 <= w < 2 ^ 16 ->
  let s' := ack_received s (wrap E (TCPSender._isn s)) w in
  consecutive_retransmissions s' = 0 /\ acked s <= acked s' /\
  (k + length_in_sequence_space seg <= E -> acked s < acked s').
Proof.
  intros Hwf [Hf _] Hog HE Hw s'. pose proof (wf_flight _ Hwf) as Hfl. pose proof (next_seqno_small s Hwf) as Hns.
  assert (Hu : unwrap (wrap E (TCPSender._isn s)) (TCPSender._isn s) (_next_seqno s) = E).
  { unfold acked, next_seqno_absolute, TCPSender.bytes_in_flight in HE.
    apply unwrap_wrap_lem; [apply Hwf|lia..]. }
  destruct (ack_received_eq s (wrap E (TCPSender._isn s)) w Hwf Hw) as [[Hgt _]|(_ & o & Heq & Hwf' & Ho & _)]; [rewrite Hu in Hgt; lia|].
  rewrite Hu in Heq, Hwf'. fold s' in Heq. rewrite Heq. set (s1 := ack_state _ _ _ _) in *.
  rewrite acked_fill by done. destruct (fill_window_more s1 Hwf') as (segs & [] & _).
  unfold consecutive_retransmissions. rewrite more_consecutive. split; [done|].
  assert (Ha : acked s1 = _next_seqno s - o) by done.
  unfold acked, next_seqno_absolute, TCPSender.bytes_in_flight in *.
  split; [lia|]. intros Hcov. assert (o <> _outgoing_bytes s); [|lia]. intros ->.
  pose proof (wf_chain _ Hwf') as Hc'. pose proof (wf_chain _ Hwf) as Hc. cbn [s1 ack_state _segments_outgoing _next_seqno _outgoing_bytes] in Hc'.
  pose proof (unacked_prefix _ _ _ _ Hc Hc') as Hp. rewrite Hog in Hp. cbn [List.filter] in Hp.
  unfold unacked in Hp at 1. cbn [fst snd] in Hp. rewrite (proj2 (Z.ltb_ge _ _)) in Hp by done.
  apply (f_equal length) in Hp. cbn in Hp.
  pose proof (List.filter_length_le (unacked E) l). lia.
Qed.

(** What the calls after [ack_received] and the receiver leave alone. *)
Record quiet (c c' : TCPConnection) : Prop := {
  quiet_wf : TCPSender.wf (_sender c');
  quiet_receiver : _receiver c' = _receiver c;
  quiet_acked : acked (_sender c') = acked (_sender c);
  quiet_count : consecutive_retransmissions (_sender c') = consecutive_retransmissions (_sender c);
  quiet_active :
    ByteStream.input_ended (TCPReceiver.stream_out (_receiver c)) = false -> _active c' = _active c
}.

Lemma quiet_refl c : TCPSender.wf (_sender c) -> quiet c c.
Proof. by constructor. Qed.

Lemma quiet_fill c0 c : quiet c0 c -> quiet c0 (on_sender fill_window c).
Proof.
  intros [H1 H2 H3 H4 H5]. constructor; cbn [on_sender set_sender _sender]; try done; [by apply fill_window_wf|..].
  - by rewrite acked_fill.
  - destruct (fill_window_more _ H1) as (segs & [] & _). unfold consecutive_retransmissions in *. congruence.
Qed.

Lemma quiet_empty c0 c : quiet c0 c -> quiet c0 (on_sender send_empty_segment c).
Proof. intros [H1 H2 H3 H4 H5]. constructor; try done. by apply send_empty_segment_wf. Qed.

Lemma quiet_send c0 c : quiet c0 c -> quiet c0 (send_segments c).
Proof.
  intros [H1 H2 H3 H4 H5]. destruct (send_segments_parts c) as (P1 & P2 & _).
  constructor; rewrite ?P1, ?P2; try done; [by apply clear_segments_out_wf|].
  intros H. rewrite send_active; [auto|]. right. by rewrite H2.
Qed.

(** A plain acknowledgment is processed in every state with an open inbound
    stream and something outstanding. *)
Lemma ack_processed c a c' :
  TCPSender.wf (_sender c) -> 0 <= win (header a) < 2 ^ 16 -> _active c = true -> 0 < acked (_sender c) ->
  0 < TCPSender.bytes_in_flight (_sender c) ->
  ByteStream.input_ended (inbound_stream c) = false -> ByteStream.input_ended (inbound_stream c') = false ->
  rst (header a) = false -> fin (header a) = false -> ack (header a) = true ->
  segment_received c a = Ok c' ->
  let s := ack_received (_sender c) (TCPHeader.ackno (header a)) (win (header a)) in
  _active c' = true /\ acked (_sender c') = acked s /\
  consecutive_retransmissions (_sender c') = consecutive_retransmissions s.
Proof.
  intros Hwf Hw Hact Hack Hfp Hend Hend' Hr Hfi Hak. unfold segment_received. rewrite Hact, Hr, Hfi, Hak. cbn [negb]. cbn zeta.
  unfold acked in Hack. pose proof (wf_flight _ Hwf) as Hfl.
  unfold next_seqno_absolute, TCPSender.bytes_in_flight in *. cbn [_sender set_time _receiver].
  rewrite (proj2 (Z.eqb_neq (_next_seqno (_sender c)) 0)) by lia.
  rewrite (proj2 (Z.eqb_neq (_next_seqno (_sender c)) (_outgoing_bytes (_sender c)))) by lia.
  rewrite (proj2 (Z.ltb_lt (_outgoing_bytes (_sender c)) (_next_seqno (_sender c)))) by lia.
  rewrite (proj2 (Z.ltb_lt 0 (_outgoing_bytes (_sender c)))) by lia.
  rewrite (proj2 (Z.eqb_neq (_outgoing_bytes (_sender c)) 0)) by lia.
  unfold inbound_stream in Hend, Hend'. rewrite Hend. cbn [andb negb]. rewrite !andb_true_r, !andb_false_r.
  set (c1 := sender_ack a (set_time c 0)).
  assert (Hw1 : TCPSender.wf (_sender c1)) by (apply ack_received_wf; [exact Hwf|done]).
  assert (Hthen : forall k, (forall c0, TCPSender.wf (_sender c0) -> quiet c0 (k c0)) ->
    (c0 ← receiver_segment a c1; Ok (k c0)) = Ok c' ->
    _active c' = true /\ acked (_sender c') = acked (_sender c1) /\
    consecutive_retransmissions (_sender c') = consecutive_retransmissions (_sender c1)).
  { intros k Hk. unfold receiver_segment. destruct (TCPReceiver.segment_received _ _) as [r|]; [|done].
    cbn [mbind result_bind]. intros [= <-]. destruct (Hk (set_receiver c1 r) Hw1) as [Q1 Q2 Q3 Q4 Q5].
    rewrite Q2 in Hend'. rewrite Q3, Q4, (Q5 Hend'). done. }
  destruct (negb _); [|destruct (_ && _)]; apply Hthen; intros c0 H0.
  - apply quiet_send, quiet_fill. destruct (0 <? _); [by apply quiet_empty, quiet_refl|by apply quiet_refl].
  - by apply quiet_send, quiet_refl.
  - by apply quiet_send, quiet_fill, quiet_refl.
Qed.

(** The timer expires: the oldest segment is queued again. *)
Lemma timeout_resends c k seg l :
  TCPSender.wf (_sender c) -> _active c = true -> ByteStream.input_ended (inbound_stream c) = false ->
  _segments_outgoing (_sender c) = (k, seg) :: l ->
  consecutive_retransmissions (_sender c) < MAX_RETX_ATTEMPTS ->
  let c' := tick c (2 ^ 32 - 1 - _retransmission_timecount (_sender c)) in
  _active c' = true /\ _receiver c' = _receiver c /\ acked (_sender c') = acked (_sender c) /\
  _segments_outgoing (_sender c') = _segments_outgoing (_sender c) /\
  _next_seqno (_sender c') = _next_seqno (_sender c) /\
  stamp (_receiver c) seg ∈ segments_out c'.
Proof.
  intros Hwf Hact Hend Hog Hc c'. pose proof (wf_timecount _ Hwf) as Ht.
  pose proof (wf_timeout _ Hwf) as Hto. pose proof (wf_consecutive _ Hwf) as Hcr.
  unfold c', tick. rewrite Hact. cbn [negb]. cbn zeta. set (ms := 2 ^ 32 - 1 - _). set (t := u64 _).
  set (c1 := on_sender _ _).
  assert (Hs : exists rto, _sender c1 =
    {| TCPSender._isn := TCPSender._isn (_sender c); TCPSender._segments_out := TCPSender._segments_out (_sender c) ++ [seg];
       _initial_retransmission_timeout := _initial_retransmission_timeout (_sender c);
       _stream := _stream (_sender c); _next_seqno := _next_seqno (_sender c);
       _retransmission_timeout := rto; _retransmission_timecount := 0;
       _consecutive_retransmissions := _consecutive_retransmissions (_sender c) + 1;
       _segments_outgoing := _segments_outgoing (_sender c); _outgoing_bytes := _outgoing_bytes (_sender c);
       _syn := _syn (_sender c); _fin := _fin (_sender c); _win_size := _win_size (_sender c) |}).
  { unfold c1. cbn [on_sender set_sender _sender set_time]. unfold TCPSender.tick. cbn zeta. rewrite Hog.
    replace (_retransmission_timecount (_sender c) + ms) with (2 ^ 32 - 1) by (unfold ms; lia).
    rewrite (u32_small (2 ^ 32 - 1)) by lia. rewrite (proj2 (Z.leb_le _ _)) by lia.
    unfold consecutive_retransmissions, MAX_RETX_ATTEMPTS in Hc. rewrite (u32_small (_ + 1)) by lia. by eexists. }
  destruct Hs as [rto Hs]. unfold consecutive_retransmissions, MAX_RETX_ATTEMPTS in *.
  rewrite (proj2 (Z.ltb_ge _ _)) by (rewrite Hs; cbn [_consecutive_retransmissions]; lia).
  destruct (send_segments_parts c1) as (P1 & P2 & P3 & _).
  rewrite send_active by (right; exact Hend). rewrite P1, P2, Hs. split_and!; try done.
  unfold segments_out. rewrite P3, Hs. apply elem_of_app. right. cbn [TCPSender.segments_out TCPSender._segments_out].
  apply list_elem_of_fmap_2. apply elem_of_app. right. by apply list_elem_of_singleton.
Qed.

(** ** The system in one round *)

(** Both SYNs are acknowledged, both sides are alive, the right side has not
    ended its stream and has room for a byte, and the left side has not given
    up. *)
Record open_pair (s : system) : Prop := {
  op_left : _active (conn (left s)) = true;
  op_right : _active (conn (right s)) = true;
  op_acked_left : 0 < acked (_sender (conn (left s)));
  op_acked_right : 0 < acked (_sender (conn (right s)));
  op_open : ended (right s) = false;
  op_room : 0 < TCPReceiver._capacity (_receiver (conn (right s)));
  op_tries : consecutive_retransmissions (_sender (conn (left s))) < MAX_RETX_ATTEMPTS
}.

Definition on_left (s : system) (e : endpoint) (out : list TCPSegment) : system :=
  {| left := e; right := right s; to_right := to_right s ++ out; to_left := to_left s |}.
Definition on_right (s : system) (e : endpoint) (out : list TCPSegment) : system :=
  {| left := left s; right := e; to_right := to_right s; to_left := to_left s ++ out |}.

Lemma step_on_left s e out :
  known s -> local_step (to_left s) (left s) e out -> written e = written (left s) ->
  known (on_left s e out) /\ system_step s (on_left s e out).
Proof. intros Hk Hl Hw. assert (Hs := step_left s e out Hl). split; [by eapply known_step|done]. Qed.

Lemma step_on_right s e out :
  known s -> local_step (to_right s) (right s) e out -> written e = written (right s) ->
  known (on_right s e out) /\ system_step s (on_right s e out).
Proof. intros Hk Hl Hw. assert (Hs := step_right s e out Hl). split; [by eapply known_step|done]. Qed.

(** While the right side has not ended, the left inbound stream is open. *)
Lemma left_inbound_open s :
  known s -> ended (right s) = false -> ByteStream.input_ended (inbound_stream (conn (left s))) = false.
Proof.
  intros [[Hl _] _ _ _] He. destruct (side_delivers _ _ _ Hl) as [_ H].
  destruct (ByteStream.input_ended _); [|done]. destruct (H eq_refl). congruence.
Qed.

(** The senders of a known state are well-formed and at rest. *)
Lemma known_left s :
  known s ->
  TCPSender.wf (_sender (conn (left s))) /\ settled (_sender (conn (left s))) /\
  sends (written (left s)) (_sender (conn (left s))) /\ keeps (written (left s)) (_sender (conn (left s))) /\
  acked (_sender (conn (left s))) <= expected (_receiver (conn (right s))) <= next_of (left s).
Proof.
  intros [[Il Ir] [Al Ar] [[Pl _] [Pr _]] _]. pose proof (si_conn _ _ _ Il) as Hl. pose proof (si_conn _ _ _ Ir) as Hr.
  pose proof (snd_wf _ _ (ci_sends _ _ _ _ _ _ _ Hl)) as Hwf. split_and!; try done.
  - apply Pl.
  - apply Hl.
  - apply Al.
  - apply Al.
  - eapply upto_expected; [apply Hr|apply Pr|]. pose proof (wf_flight _ Hwf). unfold next_of. lia.
Qed.

(** The application on the right reads all there is. *)
Definition read_all (e : endpoint) : endpoint :=
  let n := ByteStream.buffer_size (inbound_stream (conn e)) in
  {| conn := on_inbound_stream (fun s => snd (ByteStream.read s n)) (conn e);
     written := written e;
     got := got e ++ fst (ByteStream.read (inbound_stream (conn e)) n) |}.

Lemma read_all_step inbox e : local_step inbox e (read_all e) [].
Proof. apply local_read; [apply zlen_nonneg|done]. Qed.

Lemma read_all_empties W isn e :
  receives W isn (_receiver (conn e)) ->
  ByteStream._buff (inbound_stream (conn (read_all e))) = [] /\
  ByteStream.bytes_read (inbound_stream (conn (read_all e))) = ByteStream.bytes_written (inbound_stream (conn e)).
Proof.
  intros Hr. set (st := inbound_stream (conn e)).
  change (inbound_stream (conn (read_all e))) with (snd (ByteStream.read st (ByteStream.buffer_size st))).
  pose proof (wf_written _ (fol_wf _ _ (rcv_follows _ _ _ Hr))) as (H0 & Hw & Hc).
  pose proof (wf_room _ (fol_wf _ _ (rcv_follows _ _ _ Hr))) as Hroom.
  change (_output (_reassembler (_receiver (conn e)))) with st in *.
  pose proof (wf_output _ (fol_wf _ _ (rcv_follows _ _ _ Hr))) as Hws.
  change (_output (_reassembler (_receiver (conn e)))) with st in *.
  pose proof (zlen_nonneg (ByteStream._buff st)) as Hb. unfold ByteStream.buffer_size in *.
  destruct (ByteStream.read_spec st (zlen (ByteStream._buff st)) Hb) as [Hf Hd].
  rewrite ByteStream.bytes_read_read by (unfold ByteStream.buffer_size; done || lia).
  rewrite Hf, Hd. unfold zlen. rewrite Nat2Z.id, drop_all, firstn_all. split; [done|]. unfold zlen in Hw. lia.
Qed.

(** The left side's timer expires and its queue goes out. *)
Lemma resend_left s k seg l :
  known s -> open_pair s -> _segments_outgoing (_sender (conn (left s))) = (k, seg) :: l ->
  exists s' r0, rtc system_step s s' /\ known s' /\ right s' = right s /\
    stamp r0 seg ∈ to_right s' /\ _active (conn (left s')) = true /\
    acked (_sender (conn (left s'))) = acked (_sender (conn (left s))) /\
    _segments_outgoing (_sender (conn (left s'))) = (k, seg) :: l /\
    written (left s') = written (left s) /\ ended (left s') = ended (left s).
Proof.
  intros K0 [O1 O2 O3 O4 O5 O6 O7] Hog. pose proof (known_left s K0) as (Wl & _).
  pose proof (left_inbound_open s K0 O5) as Il.
  destruct (timeout_resends (conn (left s)) k seg l Wl O1 Il Hog O7) as (T1 & T2 & T3 & T4 & T5 & T6).
  set (ms := 2 ^ 32 - 1 - _) in *. set (c1 := tick _ _) in *.
  destruct (step_on_left s (with_conn (left s) c1) [] K0 (local_tick _ _ ms) eq_refl) as [K1 S1].
  set (s1 := on_left _ _ _) in *.
  destruct (step_on_left s1 _ _ K1 (local_transmit _ _) eq_refl) as [K2 S2]. set (s2 := on_left s1 _ _) in *.
  exists s2, (_receiver (conn (left s))). split; [by eapply (rtc_l _ _ s1); [|apply rtc_once]|]. split_and!; try done.
  - apply elem_of_app. by right.
  - cbn. congruence.
  - pose proof (tick_inv _ _ _ _ _ _ (conn (left s)) ms (si_conn _ _ _ (proj1 (known_inv _ K0)))) as Ht.
    exact (ci_ended _ _ _ _ _ _ _ Ht).
Qed.

(** The right side gets a segment and its answer goes out. *)
Lemma deliver_right s seg :
  known s -> seg ∈ to_right s -> rst (header seg) = false -> 0 < length_in_sequence_space seg ->
  0 <= win (header seg) < 2 ^ 16 -> _active (conn (right s)) = true ->
  0 < acked (_sender (conn (right s))) -> ended (right s) = false ->
  exists s' s0, rtc system_step s s' /\ known s' /\ left s' = left s /\
    TCPReceiver.segment_received (_receiver (conn (right s))) seg = Ok (_receiver (conn (right s'))) /\
    stamp (_receiver (conn (right s'))) (empty_segment s0) ∈ to_left s' /\
    _active (conn (right s')) = true /\ 0 < acked (_sender (conn (right s'))) /\ ended (right s') = false /\
    TCPReceiver._capacity (_receiver (conn (right s'))) = TCPReceiver._capacity (_receiver (conn (right s))).
Proof.
  intros K0 Hin Hr Hl Hw Ha Hk He. pose proof (known_inv _ K0) as [IL IR].
  pose proof (si_net _ _ _ IL) as Hem. rewrite Forall_forall in Hem.
  destruct (segment_received_inv _ _ _ _ _ _ (si_small _ _ _ IL) (si_isn _ _ _ IL) seg _ (Hem _ Hin) (si_conn _ _ _ IR))
    as (c1 & Hc & _).
  pose proof (snd_wf _ _ (ci_sends _ _ _ _ _ _ _ (si_conn _ _ _ IR))) as Wr.
  destruct (established_replies (conn (right s)) seg c1 Wr Hw Ha Hk He Hr Hl Hc) as (E1 & E2 & E3 & E4 & s0 & E5).
  destruct (step_on_right s (with_conn (right s) c1) [] K0 (local_receive _ _ seg c1 Hin Hc) eq_refl) as [K1 S1].
  set (s1 := on_right _ _ _) in *.
  destruct (step_on_right s1 _ _ K1 (local_transmit _ _) eq_refl) as [K2 S2]. set (s2 := on_right s1 _ _) in *.
  exists s2, s0. split; [by eapply (rtc_l _ _ s1); [|apply rtc_once]|]. split_and!; try done.
  - apply elem_of_app. by right.
  - cbn. lia.
  - destruct (Hem _ Hin) as [?|Hsent]; [congruence|]. pose proof (sent_seg_of _ _ _ _ (si_small _ _ _ IL) Hsent) as Hof.
    pose proof (si_small _ _ _ IL). pose proof (ci_receives _ _ _ _ _ _ _ (si_conn _ _ _ IR)) as Hrc.
    destruct (segment_received_receives (written (left s)) _ _ _ (si_isn _ _ _ IL) ltac:(lia) Hrc Hof) as (r1 & Er & _ & Hcap & _).
    rewrite E1 in Er. injection Er as <-. done.
Qed.

(** What an answer carries. *)
Lemma answer_fields W isn r s0 :
  receives W isn r -> wi_wf isn -> TCPReceiver._syn r = true ->
  let a := stamp r (empty_segment s0) in
  rst (header a) = false /\ fin (header a) = false /\ ack (header a) = true /\
  TCPHeader.ackno (header a) = wrap (expected r) isn /\ 0 <= win (header a) < 2 ^ 16.
Proof.
  intros Hr Hi Hs a. unfold a, stamp, expected. rewrite ackno_eq, Hs by apply Hr.
  do 3 (split; [done|]). split; [|apply u16_range]. cbn. f_equal. apply wrapping_eq. cbn.
  rewrite (rcv_isn _ _ _ Hr Hs). by apply u32_small.
Qed.

(** What a repeated segment carries. *)
Lemma resent_fields r seg :
  unstamped seg -> 0 <= win (header seg) < 2 ^ 16 ->
  rst (header (stamp r seg)) = false /\
  length_in_sequence_space (stamp r seg) = length_in_sequence_space seg /\
  0 <= win (header (stamp r seg)) < 2 ^ 16.
Proof.
  intros (_ & _ & Hr) Hw. unfold stamp. destruct (TCPReceiver.ackno r); [|done].
  split; [done|]. split; [done|apply u16_range].
Qed.

(** The answer reaches the left side. *)
Lemma deliver_left s s0 k seg l :
  known s -> stamp (_receiver (conn (right s))) (empty_segment s0) ∈ to_left s ->
  _active (conn (left s)) = true -> 0 < acked (_sender (conn (left s))) -> ended (right s) = false ->
  _segments_outgoing (_sender (conn (left s))) = (k, seg) :: l ->
  exists s', rtc system_step s s' /\ known s' /\ right s' = right s /\
    _active (conn (left s')) = true /\ written (left s') = written (left s) /\ ended (left s') = ended (left s) /\
    consecutive_retransmissions (_sender (conn (left s'))) = 0 /\
    acked (_sender (conn (left s))) <= acked (_sender (conn (left s'))) /\
    (k + length_in_sequence_space seg <= expected (_receiver (conn (right s))) ->
     acked (_sender (conn (left s))) < acked (_sender (conn (left s')))).
Proof.
  intros K0 Hin Ha Hk He Hog. pose proof (known_left s K0) as (Wl & Sl & _ & _ & Hx).
  pose proof (known_inv _ K0) as [IL IR]. pose proof (si_conn _ _ _ IL) as CL.
  pose proof (ci_receives _ _ _ _ _ _ _ (si_conn _ _ _ IR)) as Hr.
  assert (Hsy : TCPReceiver._syn (_receiver (conn (right s))) = true).
  { unfold expected in Hx. destruct (TCPReceiver._syn _); [done|lia]. }
  destruct (answer_fields _ _ _ s0 Hr (si_isn _ _ _ IL) Hsy) as (F1 & F2 & F3 & F4 & F5). set (a := stamp _ _) in *.
  pose proof (si_net _ _ _ IR) as Hem. rewrite Forall_forall in Hem.
  destruct (segment_received_inv _ _ _ _ _ _ (si_small _ _ _ IR) (si_isn _ _ _ IR) a _ (Hem _ Hin) CL) as (c1 & Hc & Hc1 & _).
  destruct (step_on_left s (with_conn (left s) c1) [] K0 (local_receive _ _ a c1 Hin Hc) eq_refl) as [K1 S1].
  set (s1 := on_left _ _ _) in *.
  assert (Hfl : 0 < TCPSender.bytes_in_flight (_sender (conn (left s)))).
  { pose proof (wf_chain _ Wl) as Hch. rewrite Hog in Hch. destruct Hch as (_ & Hl & Hch). apply chain_le in Hch.
    unfold TCPSender.bytes_in_flight. lia. }
  destruct (ack_processed (conn (left s)) a c1 Wl F5 Ha Hk Hfl (left_inbound_open s K0 He) (left_inbound_open s1 K1 He) F1 F2 F3 Hc)
    as (P1 & P2 & P3).
  rewrite F4 in P2, P3. change (isn_of (left s)) with (TCPSender._isn (_sender (conn (left s)))) in P2, P3.
  destruct (ack_moves _ k seg l (expected (_receiver (conn (right s)))) (win (header a)) Wl Sl Hog) as (M1 & M2 & M3); [done|done|].
  exists s1. split; [by apply rtc_once|]. cbn [s1 on_left left right with_conn conn written].
  rewrite P2, P3. split_and!; try done. exact (ci_ended _ _ _ _ _ _ _ Hc1).
Qed.

(** The four together. *)
Lemma round s k seg l :
  known s -> open_pair s -> _segments_outgoing (_sender (conn (left s))) = (k, seg) :: l ->
  exists s', rtc system_step s s' /\ known s' /\ open_pair s' /\
    written (left s') = written (left s) /\ ended (left s') = ended (left s) /\
    acked (_sender (conn (left s))) + expected (_receiver (conn (right s))) <
    acked (_sender (conn (left s'))) + expected (_receiver (conn (right s'))).
Proof.
  intros K0 O0 Hog. pose proof (si_conn _ _ _ (proj2 (known_inv _ K0))) as CR.
  destruct (read_all_empties _ _ _ (ci_receives _ _ _ _ _ _ _ CR)) as [B1 R1].
  destruct (step_on_right s _ _ K0 (read_all_step _ _) eq_refl) as [K1 S1]. set (s1 := on_right _ _ _) in *.
  assert (O1 : open_pair s1) by by destruct O0.
  destruct (resend_left s1 k seg l K1 O1 Hog) as (s2 & r0 & S2 & K2 & Er2 & Hin2 & A2 & Ak2 & Og2 & W2 & D2).
  pose proof (known_left s2 K2) as (Wf2 & _ & Sn2 & Kp2 & Ex2). pose proof (known_inv _ K2) as [IL2 IR2].
  pose proof (ci_receives _ _ _ _ _ _ _ (si_conn _ _ _ IR2)) as Rc2. destruct O1 as [_ P2 P3 P4 P5 P6 _].
  pose proof (wf_chain _ Wf2) as Hch. rewrite Og2 in Hch. destruct Hch as (Hk & Hl & _).
  fold (acked (_sender (conn (left s2)))) in Hk. unfold keeps in Kp2. rewrite Og2 in Kp2. apply Forall_cons in Kp2 as [Hkept _].
  change (_next_seqno (_sender (conn (left s2))) - _outgoing_bytes (_sender (conn (left s2)))) with (acked (_sender (conn (left s2)))) in Hk.
  pose proof (ai_plain _ _ _ _ _ _ _ _ (sa_conn _ _ _ (proj1 (known_acks _ K2)))) as Hun.
  apply emits_outgoing in Hun. rewrite Og2 in Hun. apply Forall_cons in Hun as [Hun _].
  pose proof (resent_fields r0 seg Hun (proj1 (proj1 Hkept))) as Hst.
  destruct Hst as (F1 & F2 & F3). rewrite <- Er2 in P2, P4, P5, P6.
  destruct (deliver_right s2 _ K2 Hin2 F1 ltac:(lia) F3 P2 P4 P5)
    as (s3 & s0 & S3 & K3 & El3 & Rv3 & Hin3 & A3 & Ak3 & D3 & C3).
  destruct (receiver_takes _ _ _ k seg _ r0 _ (si_isn _ _ _ IL2) (si_small _ _ _ IL2) Rc2 Hkept Hl ltac:(lia) Rv3) as [Hm Ht].
  rewrite <- El3 in A2, Og2. 
  destruct (deliver_left s3 s0 k seg l K3 Hin3 A2 ltac:(rewrite El3; lia) D3 Og2)
    as (s4 & S4 & K4 & Er4 & A4 & W4 & D4 & N4 & M4 & M4').
  assert (Hx : expected (_receiver (conn (right s2))) = expected (_receiver (conn (right s)))) by by rewrite Er2.
  assert (Ha : acked (_sender (conn (left s3))) = acked (_sender (conn (left s)))) by (rewrite El3; done).
  exists s4. split; [|split; [done|split; [|split; [|split]]]].
  - eapply rtc_l; [exact S1|]. by etrans; [exact S2|]; etrans; [exact S3|].
  - destruct O0. constructor; rewrite ?Er4, ?N4; try done; try lia.
  - by rewrite W4, El3, W2.
  - by rewrite D4, El3, D2.
  - rewrite Er4, <- Ha, <- Hx. destruct Ht as [Ht|[He Ht]]; [specialize (M4' Ht); lia|].
    enough (expected (_receiver (conn (right s2))) < expected (_receiver (conn (right s3)))) by lia.
    rewrite Er2 in *. change (inbound_stream (conn (read_all (right s)))) with (TCPReceiver.stream_out (_receiver (conn (right s1)))) in R1.
    rewrite R1 in Ht. unfold expected at 1. unfold next_expected. rewrite He.
    destruct (TCPReceiver._syn (_receiver (conn (right s1)))) eqn:Es.
    + change (TCPReceiver.stream_out (_receiver (conn (right s)))) with (inbound_stream (conn (right s))) in *.
      change (ByteStream.bytes_written (TCPReceiver.stream_out (_receiver (conn (right s1)))))
        with (ByteStream.bytes_written (inbound_stream (conn (right s)))). lia.
    + unfold expected in Ex2. rewrite Es in Ex2. lia.
Qed.

(** ** Rounds until everything is there *)

(** With nothing outstanding, everything is sent. *)
Lemma all_sent s :
  known s -> _segments_outgoing (_sender (conn (left s))) = [] -> 0 < acked (_sender (conn (left s))) ->
  expected (_receiver (conn (right s))) = zlen (written (left s)) + 1 + b1 (ended (left s)).
Proof.
  intros K0 Hog Hpos. pose proof (known_left s K0) as (Wf & [_ Hs] & Sn & _ & Hx). unfold ended, stream_in.
  set (snd := _sender (conn (left s))) in *.
  pose proof (wf_chain _ Wf) as Hc. rewrite Hog in Hc. cbn [chain] in Hc. pose proof (wf_next _ Wf) as Hn.
  change (next_of (left s)) with (_next_seqno snd) in Hx. unfold acked, next_seqno_absolute, TCPSender.bytes_in_flight in *.
  pose proof (effective_window_range _ Wf). pose proof (wf_syn _ Wf) as Hsy.
  destruct (_syn snd).
  2: { destruct (Hsy eq_refl) as [E1 E2]. rewrite E1, E2 in Hn. cbn [b1] in Hn. lia. }
  destruct (Hs eq_refl) as [?|(Hb & _ & Hf)]; [lia|]. rewrite (snd_buff _ _ Sn) in Hb.
  pose proof (snd_read _ _ Sn). apply (f_equal zlen) in Hb. rewrite zlen_drop, (@zlen_nil byte) in Hb.
  pose proof (wf_fin _ Wf) as He. unfold ByteStream.eof in He.
  pose proof (ByteStream.wf_totout _ (wf_stream _ Wf)) as Ht.
  change (ByteStream._totout (_stream snd)) with (ByteStream.bytes_read (_stream snd)) in Ht.
  destruct (ByteStream.input_ended (_stream snd)).
  - rewrite Hf in Hn by done. cbn [b1] in *. lia.
  - destruct (_fin snd); [by specialize (He eq_refl)|]. cbn [b1] in *. lia.
Qed.

Lemma rounds n s :
  known s -> open_pair s ->
  2 * (zlen (written (left s)) + 2) - acked (_sender (conn (left s))) - expected (_receiver (conn (right s))) <= Z.of_nat n ->
  exists s', rtc system_step s s' /\ known s' /\ open_pair s' /\
    written (left s') = written (left s) /\ ended (left s') = ended (left s) /\
    expected (_receiver (conn (right s'))) = zlen (written (left s)) + 1 + b1 (ended (left s)).
Proof.
  revert s. induction n as [|n IH]; intros s K0 O0 Hn;
    (destruct (_segments_outgoing (_sender (conn (left s)))) as [|[k seg] l] eqn:Hog;
     [exists s; split_and!; try done; apply all_sent; [done..|apply O0]|]).
  - pose proof (known_left s K0) as (_ & _ & _ & _ & Hx). pose proof (known_inv _ K0) as [_ IR].
    destruct (round s k seg l K0 O0 Hog) as (s' & _ & K1 & O1 & W1 & D1 & Hm).
    pose proof (known_left s' K1) as (_ & _ & _ & _ & Hx'). pose proof (known_inv _ K1) as [_ IR'].
    pose proof (expected_bound _ _ _ (ci_receives _ _ _ _ _ _ _ (si_conn _ _ _ IR'))) as Hb. rewrite W1 in Hb. lia.
  - destruct (round s k seg l K0 O0 Hog) as (s1 & S1 & K1 & O1 & W1 & D1 & Hm).
    destruct (IH s1 K1 O1) as (s2 & S2 & K2 & O2 & W2 & D2 & E2); [rewrite W1; lia|].
    exists s2. rewrite W2, D2, W1, D1 in *. split; [by etrans|done].
Qed.

(** What the last number means. *)
Lemma all_there s :
  known s -> expected (_receiver (conn (right s))) = zlen (written (left s)) + 1 + b1 (ended (left s)) ->
  ByteStream.bytes_written (inbound_stream (conn (right s))) = zlen (written (left s)) /\
  ByteStream.input_ended (inbound_stream (conn (right s))) = ended (left s).
Proof.
  intros K0 E. pose proof (known_inv _ K0) as [_ IR]. destruct (side_delivers _ _ _ IR) as [_ He].
  pose proof (fol_written _ _ (rcv_follows _ _ _ (ci_receives _ _ _ _ _ _ _ (si_conn _ _ _ IR)))) as Hw.
  pose proof (zlen_nonneg (written (left s))). unfold expected, next_expected in E. unfold inbound_stream in *.
  change (_output (_reassembler (_receiver (conn (right s))))) with (TCPReceiver.stream_out (_receiver (conn (right s)))) in *.
  destruct (TCPReceiver._syn _); [|destruct (ended (left s)); cbn [b1] in *; lia].
  destruct (ByteStream.input_ended _).
  - destruct (He eq_refl) as [_ Hl]. rewrite Hl in *. cbn [b1] in E. split; [lia|done].
  - destruct (ended (left s)); cbn [b1] in E; [lia|]. split; [lia|done].
Qed.

(** Everything on its way is lost. *)
Definition lose_all (s : system) : system :=
  {| left := left s; right := right s; to_right := []; to_left := [] |}.

Lemma known_lose s : known s -> known (lose_all s).
Proof.
  intros [[Il Ir] [Al Ar] [Pl Pr] Hu].
  constructor; [split; [destruct Il|destruct Ir]|split; [destruct Al|destruct Ar]|split; [destruct Pl|destruct Pr]|done];
    constructor; try done; apply Forall_nil_2.
Qed.

(** ** Properties *)

(** C9: Delivery stays possible. Take any state two endpoints can reach, as long
    as the sequence numbers of their streams have not passed zero ([unwrapped]),
    in which both SYNs are acknowledged and both sides are active, the right
    one has not ended its own stream and has room in its window, and the left
    one has a retransmission left ([open_pair]); and lose everything that is on
    its way. The system can still go on so that the right application has read
    everything the left one has written, and sees the end if the left one has
    ended its stream. *)
Theorem delivery_possible cfgL cfgR rndL rndR s :
  cfg_ok cfgL -> cfg_ok cfgR -> rtc system_step (start cfgL cfgR rndL rndR) s -> unwrapped s ->
  open_pair s ->
  exists s', rtc system_step (lose_all s) s' /\ written (left s') = written (left s) /\
    got (right s') = written (left s) /\
    (ended (left s) = true -> ByteStream.eof (inbound_stream (conn (right s'))) = true).
Proof.
  intros HL HR Hs Hu O0. pose proof (known_lose _ (reachable_known _ _ _ _ _ HL HR Hs Hu)) as K0.
  assert (O0' : open_pair (lose_all s)) by by destruct O0.
  destruct (rounds (Z.to_nat (2 * (zlen (written (left s)) + 2) - acked (_sender (conn (left s))) -
    expected (_receiver (conn (right s))))) (lose_all s) K0 O0') as (s1 & S1 & K1 & O1 & W1 & D1 & E1); [cbn; lia|].
  change (left (lose_all s)) with (left s) in *.
  pose proof (ci_receives _ _ _ _ _ _ _ (si_conn _ _ _ (proj2 (known_inv _ K1)))) as Hr.
  destruct (read_all_empties _ _ _ Hr) as [B1 _].
  destruct (step_on_right s1 _ _ K1 (read_all_step _ _) eq_refl) as [K2 S2]. set (s2 := on_right _ _ _) in *.
  exists s2. split; [by etrans; [exact S1|apply rtc_once]|]. split; [done|].
  destruct (side_delivers _ _ _ (proj2 (known_inv _ K2))) as [Hd He].
  assert (E2 : expected (_receiver (conn (right s2))) = zlen (written (left s2)) + 1 + b1 (ended (left s2))).
  { change (expected (_receiver (conn (right s2)))) with (expected (_receiver (conn (right s1)))).
    change (left s2) with (left s1). by rewrite E1, W1, D1. }
  destruct (all_there s2 K2 E2) as [Hw Hi]. change (right s2) with (read_all (right s1)) in *.
  change (left s2) with (left s1) in *. rewrite B1, app_nil_r in Hd. split.
  - rewrite Hd, Hw, W1. unfold zlen. by rewrite Nat2Z.id, firstn_all.
  - intros E. unfold ByteStream.eof, ByteStream.buffer_empty. by rewrite Hi, B1, D1, E.
Qed.

(** An open connection on which the data and the end of the stream are lost. *)
Definition example_losses : system :=
  fold_left exec
    [(true, Connect); (true, Transmit); (false, Receive 0); (false, Transmit); (true, Receive 0);
     (true, Transmit); (false, Receive 1); (true, Write [Byte.x61; Byte.x62; Byte.x63]);
     (true, End); (true, Transmit); (true, Tick 1000)]
    (start test_config test_config 0 0).

Lemma delivery_possible_witness :
  exists s', rtc system_step (lose_all example_losses) s' /\
    got (right s') = [Byte.x61; Byte.x62; Byte.x63] /\
    ByteStream.eof (inbound_stream (conn (right s'))) = true.
Proof.
  destruct (delivery_possible test_config test_config 0 0 example_losses) as (s' & H1 & _ & H2 & H3).
  - exact test_config_ok.
  - exact test_config_ok.
  - apply exec_reach.
  - split; vm_compute; auto.
  - constructor; vm_compute; reflexivity.
  - exists s'. split; [exact H1|]. split; [exact H2|]. apply H3. vm_compute. reflexivity.
Defined.

(** Both streams have ended and everything has arrived, but the right side's
    last two acknowledgments are lost; the left side had sent its byte and its
    FIN in two segments. *)
Definition lost_last_acks : system :=
  fold_left exec
    [(true, Connect); (true, Transmit); (false, Receive 0); (false, Transmit); (true, Receive 0);
     (true, Transmit); (false, Receive 1); (false, End); (false, Transmit); (true, Receive 1);
     (true, Transmit); (false, Receive 2); (true, Write [Byte.x61]); (true, End); (true, Transmit);
     (false, Receive 3); (false, Receive 4); (false, Transmit)]
    (start test_config test_config 0 0).

(** The left side repeats its byte until it gives up; every repetition and
    every answer is delivered. *)
Definition repeat_and_deliver (s : system) (i : nat) : system :=
  fold_left exec [(true, Tick 1000000); (true, Transmit); (false, Receive (5 + i)); (false, Transmit)] s.

Lemma time_wait_silent c seg :
  lingering c -> next_seqno_absolute (_sender c) = u64 (ByteStream.bytes_written (stream_in (_sender c)) + 2) ->
  0 < next_seqno_absolute (_sender c) ->
  rst (header seg) = false -> fin (header seg) = false ->
  segment_received c seg = Ok (set_time c 0).
Proof.
  intros [L1 L2 L3 L4 L5 _ _] Hn Hpos Hr Hf. unfold segment_received. rewrite L1, Hr, Hf. cbn [negb]. cbn zeta.
  cbn [_sender set_time _receiver]. rewrite L5, L3, L2, <- Hn.
  rewrite (proj2 (Z.eqb_neq (next_seqno_absolute (_sender c)) 0)) by lia. rewrite Z.eqb_refl. cbn [andb negb].
  by rewrite andb_false_r.
Qed.

(** TIME_WAIT does not answer repeated data. A connection that waits in
    TIME_WAIT leaves a segment with neither RST nor FIN unanswered: only its
    clock is reset. A peer whose acknowledgments were lost, and whose data and
    FIN went in different segments, repeats the data (only the oldest segment is
    ever repeated) until it gives up and resets both ends: so in the state
    above, in which nothing but two acknowledgments was lost. *)
Theorem time_wait_ignores_data :
  (forall c seg, lingering c ->
    next_seqno_absolute (_sender c) = u64 (ByteStream.bytes_written (stream_in (_sender c)) + 2) ->
    0 < next_seqno_absolute (_sender c) -> rst (header seg) = false -> fin (header seg) = false ->
    segment_received c seg = Ok (set_time c 0)) /\
  lingering (conn (right lost_last_acks)) /\
  let s := fold_left repeat_and_deliver (seq 0 9) lost_last_acks in
  length (to_left s) = length (to_left lost_last_acks) /\
  ByteStream.error (inbound_stream (conn (left s))) = true /\
  ByteStream.error (inbound_stream (conn (right s))) = true.
Proof.
  split; [apply time_wait_silent|]. split; [constructor; vm_compute; congruence|]. vm_compute. split_and!; reflexivity.
Qed.
