(* ===== verification/Benchmark.v ===== *)
(** * The throughput benchmark

    [src/apps/tcp_benchmark.cc]: two [TCPConnection]s in one process; the
    segments of each are handed straight to the other, in order or reversed.
    Every turn of its loop is a run of the two-endpoint system of [Transport],
    so its two checks, that a write takes what fits and that the strings match,
    never fail. [BenchmarkEnds] proves that the loops end. *)

From S2P Require Import Prelude WrappingIntegers ByteStream StreamReassembler ReassemblerProps Buffer TCPHeader TCPSegment TCPReceiver TCPSender TCPState TCPConnection Transport CommandLine.

(** ** The program *)

(** The variables that [loop] captures. *)
Record bench := {
  x : TCPConnection;
  y : TCPConnection;
  bytes_to_send : Buffer;
  x_closed : bool;
  string_received : list byte
}.

(** The calls of [segment_received] over the vector. *)
Fixpoint receive_all (c : TCPConnection) (segments : list TCPSegment) : result TCPConnection :=
  match segments with
  | [] => Ok c
  | seg :: rest => c ← TCPConnection.segment_received c seg; receive_all c rest
  end.

(** The vector is empty at every call and cleared at the end. *)
Definition move_segments (a b : TCPConnection) (reorder : bool)
    : result (TCPConnection * TCPConnection) :=
  let segments := TCPConnection.segments_out a in
  let a := set_segments_out a [] in
  b ← receive_all b (if reorder then rev segments else segments);
  Ok (a, b).

(** The loop that writes; every turn takes at least one byte from the buffer. *)
Fixpoint write_loop (fuel : nat) (c : TCPConnection) (bytes : Buffer)
    : result (TCPConnection * Buffer) :=
  match fuel with
  | O => Throw (undefined "write loop")
  | S fuel =>
      if (0 <? buf_length bytes) && (0 <? remaining_outbound_capacity c) then
        let want := Z.min (remaining_outbound_capacity c) (buf_length bytes) in
        data ← substr (str bytes) 0 want;
        let '(written, c) := TCPConnection.write c data in
        if negb (want =? written) then Throw (runtime_error "want != written")
        else bytes ← Buffer.remove_prefix bytes written; write_loop fuel c bytes
      else Ok (c, bytes)
  end.

Definition write_fuel (bytes : Buffer) : nat := S (Z.to_nat (buf_length bytes)).

Definition loop (reorder : bool) (s : bench) : result bench :=
  '(x, bytes) ← write_loop (write_fuel (bytes_to_send s)) (x s) (bytes_to_send s);
  let '(x, x_closed) :=
    if (buf_length bytes =? 0) && negb (x_closed s) then (TCPConnection.end_input_stream x, true)
    else (x, x_closed s) in
  '(x, y) ← move_segments x (y s) reorder;
  '(y, x) ← move_segments y x false;
  let available_output := ByteStream.buffer_size (inbound_stream y) in
  let '(y, string_received) :=
    if 0 <? available_output
    then (on_inbound_stream (fun st => snd (ByteStream.read st available_output)) y,
          string_received s ++ fst (ByteStream.read (inbound_stream y) available_output))
    else (y, string_received s) in
  Ok {| x := TCPConnection.tick x 1000; y := TCPConnection.tick y 1000; bytes_to_send := bytes;
        x_closed := x_closed; string_received := string_received |}.

(** The state the loops start in; [rnd_x] and [rnd_y] are what the random
    device gives the two connections. *)
Definition bench_init (config : TCPConfig) (rnd_x rnd_y : Z) (string_to_send : list byte) : bench :=
  {| x := TCPConnection.connect (new_TCPConnection config rnd_x);
     y := TCPConnection.end_input_stream (new_TCPConnection config rnd_y);
     bytes_to_send := new_Buffer string_to_send; x_closed := false; string_received := [] |}.

(** The two [while] loops; [None] when the turns run out. *)
Fixpoint run_until (fuel : nat) (stop : bench -> bool) (reorder : bool) (s : bench)
    : result (option bench) :=
  if stop s then Ok (Some s)
  else match fuel with
       | O => Ok None
       | S fuel => s ← loop reorder s; run_until fuel stop reorder s
       end.

Definition main_loop (fuel : nat) (reorder : bool) (rnd_x rnd_y : Z) (string_to_send : list byte)
    : result (option bench) :=
  r ← run_until fuel (fun s => ByteStream.eof (inbound_stream (y s))) reorder
        (bench_init default_TCPConfig rnd_x rnd_y string_to_send);
  match r with
  | None => Ok None
  | Some s =>
      if negb (bool_decide (string_received s = string_to_send))
      then Throw (runtime_error "strings sent vs. received don't match")
      else run_until fuel (fun s => negb (active (x s) || active (y s))) reorder s
  end.

(** [len], the length of the strings. *)
Definition len : Z := 100 * 1024 * 1024.

(** [main]: its status, or [None] when the turns run out. The two strings and
    the numbers drawn for the two runs are parameters. *)
Definition benchmark_main (fuel : nat) (rnd_x rnd_y rnd_x' rnd_y' : Z) (string_to_send string_to_send' : list byte)
    : option Z :=
  match main_loop fuel false rnd_x rnd_y string_to_send with
  | Throw _ => Some EXIT_FAILURE
  | Ok None => None
  | Ok (Some _) =>
      match main_loop fuel true rnd_x' rnd_y' string_to_send' with
      | Throw _ => Some EXIT_FAILURE
      | Ok None => None
      | Ok (Some _) => Some EXIT_SUCCESS
      end
  end.

(** Three thousand bytes, in order and reversed. *)
Example benchmark_runs :
  let data := repeat Byte.x61 3000 in
  let ends r := match r with Ok (Some s) => bool_decide (string_received s = data) | _ => false end in
  ends (main_loop 30 false 5 99 data) = true /\ ends (main_loop 30 true 5 99 data) = true.
Proof. vm_compute. split; reflexivity. Qed.

(** ** The loop as a run of two endpoints *)

(** [s] is the system that the variables [b] show; [data] is what is sent. *)
Record shows (data : list byte) (s : system) (b : bench) : Prop := {
  shows_inv : system_inv s;
  shows_x : conn (left s) = x b;
  shows_y : conn (right s) = y b;
  shows_got : got (right s) = string_received b;
  shows_buffer : wf_Buffer (bytes_to_send b);
  shows_sent : written (left s) ++ str (bytes_to_send b) = data;
  shows_closed : ended (left s) = x_closed b;
  shows_done : x_closed b = true -> str (bytes_to_send b) = []
}.

Lemma run_inv s s' : rtc system_step s s' -> system_inv s -> system_inv s'.
Proof. induction 1 as [|a b c Hab _ IH]; [done|]. intros H. apply IH. by eapply system_step_inv. Qed.

(** The system seen from the other side. *)
Definition flip (s : system) : system :=
  {| left := right s; right := left s; to_right := to_left s; to_left := to_right s |}.

Lemma flip_inv s : system_inv s -> system_inv (flip s).
Proof. by intros [? ?]. Qed.

Lemma flip_run s s' : rtc system_step s s' -> rtc system_step (flip s) (flip s').
Proof.
  induction 1 as [|a b c Hab _ IH]; [done|]. eapply rtc_l; [|exact IH].
  destruct Hab as [a e out Hl|a e out Hl]; [by apply (step_right (flip a))|by apply (step_left (flip a))].
Qed.

(** Segments of the network delivered one after the other. *)
Lemma receive_all_run segs s :
  system_inv s -> Forall (fun seg => seg ∈ to_right s) segs ->
  exists c s', receive_all (conn (right s)) segs = Ok c /\ rtc system_step s s' /\
    left s' = left s /\ right s' = with_conn (right s) c /\ ended (right s') = ended (right s).
Proof.
  revert s. induction segs as [|seg segs IH]; intros s Hi Hs.
  { exists (conn (right s)), s. split_and!; try done. by destruct (right s). }
  apply Forall_cons in Hs as [Hin Hs]. pose proof Hi as [IL IR].
  pose proof (si_net _ _ _ IL) as Hem. rewrite Forall_forall in Hem.
  destruct (segment_received_inv _ _ _ _ _ _ (si_small _ _ _ IL) (si_isn _ _ _ IL) seg _ (Hem _ Hin) (si_conn _ _ _ IR))
    as (c1 & Hc & Hc1 & _).
  pose proof (step_right s _ _ (local_receive _ _ seg c1 Hin Hc)) as Hst. set (s1 := Build_system _ _ _ _) in Hst.
  destruct (IH s1 (system_step_inv _ _ Hst Hi) Hs) as (c & s2 & E & S2 & L2 & R2 & D2).
  exists c, s2. cbn [receive_all]. rewrite Hc. cbn [mbind result_bind]. split; [done|].
  split; [by eapply rtc_l|]. split; [done|]. split; [done|]. rewrite D2. exact (ci_ended _ _ _ _ _ _ _ Hc1).
Qed.

(** [move_segments] hands over the queue of the left side and delivers it. *)
Lemma move_segments_run reorder s :
  system_inv s ->
  exists a b s', move_segments (conn (left s)) (conn (right s)) reorder = Ok (a, b) /\
    rtc system_step s s' /\ left s' = with_conn (left s) a /\ right s' = with_conn (right s) b /\
    ended (left s') = ended (left s) /\ ended (right s') = ended (right s).
Proof.
  intros Hi. pose proof (step_left s _ _ (local_transmit _ _)) as Hst. set (s1 := Build_system _ _ _ _) in Hst.
  destruct (receive_all_run (if reorder then rev (TCPConnection.segments_out (conn (left s)))
    else TCPConnection.segments_out (conn (left s))) s1 (system_step_inv _ _ Hst Hi)) as (c & s2 & E & S2 & L2 & R2 & D2).
  { apply Forall_forall. intros seg Hin. cbn. apply elem_of_app. right. destruct reorder; [|done].
    apply list_elem_of_In. apply list_elem_of_In in Hin. by apply in_rev. }
  eexists _, c, s2. unfold move_segments. cbn [s1 right] in E. rewrite E. cbn [mbind result_bind].
  split; [done|]. split; [by eapply rtc_l|]. rewrite L2. split_and!; try done.
Qed.

(** A write that fits is taken. *)
Lemma write_takes c data :
  TCPSender.wf (_sender c) -> zlen data <= remaining_outbound_capacity c ->
  exists c', TCPConnection.write c data = (zlen data, c').
Proof.
  intros Hwf Hd. unfold TCPConnection.write. destruct data as [|b data]; [by eexists|].
  unfold remaining_outbound_capacity in Hd. rewrite remaining_capacity_eq in Hd by apply Hwf.
  rewrite write_fits by (apply Hwf || done). by eexists.
Qed.

(** The loop that writes takes what fits, and ends. *)
Lemma write_loop_run fuel s bytes :
  system_inv s -> wf_Buffer bytes -> zlen (str bytes) < Z.of_nat fuel ->
  (str bytes <> [] -> ended (left s) = false) ->
  zlen (written (left s)) + zlen (str bytes) + 2 < 2 ^ 32 ->
  exists c bytes' s', write_loop fuel (conn (left s)) bytes = Ok (c, bytes') /\
    rtc system_step s s' /\ conn (left s') = c /\ right s' = right s /\
    ended (left s') = ended (left s) /\ wf_Buffer bytes' /\
    written (left s') ++ str bytes' = written (left s) ++ str bytes /\
    zlen (str bytes') <= zlen (str bytes).
Proof.
  revert s bytes. induction fuel as [|fuel IH]; intros s bytes Hi Hb Hf He Hl.
  { pose proof (zlen_nonneg (str bytes)). lia. }
  cbn [write_loop]. unfold buf_length. destruct (Z.ltb_spec 0 (zlen (str bytes))) as [Hp|Hp]; cbn [andb].
  2: { exists (conn (left s)), bytes, s. split_and!; done. }
  destruct (Z.ltb_spec 0 (remaining_outbound_capacity (conn (left s)))) as [Hc|Hc].
  2: { exists (conn (left s)), bytes, s. split_and!; done. }
  set (want := Z.min _ _). rewrite substr_ok by lia. cbn [mbind result_bind].
  assert (Hw : 0 < want <= zlen (str bytes)) by lia.
  assert (Hz : zlen (sub (str bytes) 0 want) = want) by (rewrite zlen_sub; lia).
  pose proof Hi as [IL _]. pose proof (snd_wf _ _ (ci_sends _ _ _ _ _ _ _ (si_conn _ _ _ IL))) as Hwf.
  assert (Ho : ended (left s) = false) by (apply He; intros E; rewrite E, (@zlen_nil byte) in Hp; lia).
  destruct (write_takes (conn (left s)) (sub (str bytes) 0 want) Hwf) as [c1 Ew]; [lia|]. rewrite Ew, Hz, Z.eqb_refl.
  cbn [negb]. destruct (remove_prefix_spec bytes want Hb ltac:(lia)) as (bytes1 & -> & Hs1 & Hb1). cbn [mbind result_bind].
  rewrite Hz in Ew. assert (Hlw : zlen (written (left s)) + zlen (sub (str bytes) 0 want) + 2 < 2 ^ 32) by lia.
  pose proof (step_left s _ _ (local_write (to_left s) _ _ _ _ Ho Hlw Ew)) as Hst. set (s1 := Build_system _ _ _ _) in Hst.
  assert (Ho1 : ended (left s1) = false).
  { pose proof (si_conn _ _ _ IL) as Hc0. rewrite Ho in Hc0.
    destruct (write_inv _ _ _ _ _ _ _ _ _ Hc0 Hlw Ew) as [Hc1 _]. exact (ci_ended _ _ _ _ _ _ _ Hc1). }
  assert (Ht : take (Z.to_nat want) (sub (str bytes) 0 want) = take (Z.to_nat want) (str bytes)).
  { unfold sub. rewrite drop_0, take_take. f_equal. lia. }
  destruct (IH s1 bytes1 (system_step_inv _ _ Hst Hi) Hb1) as (c & b2 & s2 & E2 & S2 & C2 & R2 & D2 & W2 & A2 & Z2).
  - rewrite Hs1, zlen_drop. lia.
  - done.
  - cbn [s1 left written]. rewrite zlen_app, Ht, Hs1, zlen_take, zlen_drop. lia.
  - exists c, b2, s2. split; [exact E2|]. split; [by eapply rtc_l|]. split; [done|]. split; [done|].
    split; [by rewrite D2, Ho1, Ho|]. split; [done|]. split.
    + rewrite A2. cbn [s1 left written]. rewrite Ht, Hs1, <- app_assoc. by rewrite take_drop.
    + rewrite Hs1, zlen_drop in Z2. lia.
Qed.

(** ** One turn *)

(** A call on one side that keeps its application's streams. *)
Lemma tick_run s : system_inv s ->
  let s' := {| left := with_conn (left s) (TCPConnection.tick (conn (left s)) 1000);
               right := with_conn (right s) (TCPConnection.tick (conn (right s)) 1000);
               to_right := to_right s ++ []; to_left := to_left s ++ [] |} in
  rtc system_step s s' /\ ended (left s') = ended (left s) /\ ended (right s') = ended (right s).
Proof.
  intros [IL IR] s'. split.
  - eapply rtc_l; [apply (step_left s _ _ (local_tick _ _ 1000))|]. eapply rtc_once.
    match goal with |- system_step ?a _ => apply (step_right a _ _ (local_tick _ _ 1000)) end.
  - split; [exact (ci_ended _ _ _ _ _ _ _ (tick_inv _ _ _ _ _ _ _ 1000 (si_conn _ _ _ IL)))|].
    exact (ci_ended _ _ _ _ _ _ _ (tick_inv _ _ _ _ _ _ _ 1000 (si_conn _ _ _ IR))).
Qed.

(** The end of the stream, once everything is written. *)
Lemma close_run s (bytes : Buffer) (closed : bool) :
  system_inv s -> ended (left s) = closed -> (closed = true -> str bytes = []) ->
  exists c closed' s',
    (if (buf_length bytes =? 0) && negb closed then (TCPConnection.end_input_stream (conn (left s)), true)
     else (conn (left s), closed)) = (c, closed') /\
    rtc system_step s s' /\ left s' = with_conn (left s) c /\ right s' = right s /\
    ended (left s') = closed' /\ (closed' = true -> str bytes = []).
Proof.
  intros Hi He Hc. unfold buf_length. destruct (Z.eqb_spec (zlen (str bytes)) 0) as [Hz|Hz]; cbn [andb];
    [|exists (conn (left s)), closed, s; split_and!; try done; by destruct (left s)].
  destruct closed; cbn [negb]; [exists (conn (left s)), true, s; split_and!; try done; by destruct (left s)|].
  pose proof (step_left s _ _ (local_end (to_left s) _)) as Hst. pose proof Hi as [IL _].
  eexists _, true, _. split; [done|]. split; [by eapply rtc_once|]. split_and!; try done.
  - exact (ci_ended _ _ _ _ _ _ _ (end_inv _ _ _ _ _ _ _ (si_conn _ _ _ IL))).
  - intros _. destruct (str bytes) as [|z l]; [done|]. rewrite zlen_cons in Hz. pose proof (zlen_nonneg l). lia.
Qed.

(** What the receiving side reads. *)
Lemma read_run s (received : list byte) :
  system_inv s -> got (right s) = received ->
  let n := ByteStream.buffer_size (inbound_stream (conn (right s))) in
  exists c received' s',
    (if 0 <? n
     then (on_inbound_stream (fun st => snd (ByteStream.read st n)) (conn (right s)),
           received ++ fst (ByteStream.read (inbound_stream (conn (right s))) n))
     else (conn (right s), received)) = (c, received') /\
    rtc system_step s s' /\ left s' = left s /\ conn (right s') = c /\ got (right s') = received'.
Proof.
  intros Hi <- n. destruct (0 <? n); [|by exists (conn (right s)), (got (right s)), s].
  pose proof (step_right s _ _ (local_read (to_right s) _ n _ (zlen_nonneg _) eq_refl)) as Hst.
  eexists _, _, _. split; [done|]. split; [by eapply rtc_once|]. done.
Qed.

(** The two calls of [move_segments]. *)
Lemma exchange_run reorder s :
  system_inv s ->
  exists a b d c s', move_segments (conn (left s)) (conn (right s)) reorder = Ok (a, b) /\
    move_segments b a false = Ok (d, c) /\ rtc system_step s s' /\
    left s' = with_conn (left s) c /\ right s' = with_conn (right s) d /\ ended (left s') = ended (left s).
Proof.
  intros I0. destruct (move_segments_run reorder s I0) as (a & b & s1 & E1 & S1 & X1 & Y1 & D1 & _).
  destruct (move_segments_run false (flip s1) (flip_inv _ (run_inv _ _ S1 I0))) as (d & c & s2 & E2 & S2 & Y2 & X2 & _ & D2).
  cbn [flip left right] in E2, Y2, X2, D2. rewrite Y1 in E2, Y2. rewrite X1 in E2, X2. cbn [with_conn conn] in E2.
  exists a, b, d, c, (flip s2). cbn [flip left right]. split_and!; try done; [|congruence].
  apply flip_run in S2. change (flip (flip s1)) with (Build_system (left s1) (right s1) (to_right s1) (to_left s1)) in S2.
  etrans; [exact S1|]. by destruct s1.
Qed.

Lemma loop_shows reorder data s b :
  zlen data + 2 < 2 ^ 32 -> shows data s b ->
  exists b' s', loop reorder b = Ok b' /\ rtc system_step s s' /\ shows data s' b'.
Proof.
  intros Hd [I0 X0 Y0 G0 B0 W0 C0 D0]. unfold loop. rewrite <- X0, <- Y0.
  assert (Hlen : zlen (written (left s)) + zlen (str (bytes_to_send b)) + 2 < 2 ^ 32) by (rewrite <- W0, zlen_app in Hd; lia).
  destruct (write_loop_run (write_fuel (bytes_to_send b)) s (bytes_to_send b) I0 B0)
    as (c1 & bytes & s1 & -> & S1 & X1 & Y1 & E1 & B1 & W1 & Z1).
  { unfold write_fuel, buf_length. pose proof (zlen_nonneg (str (bytes_to_send b))). lia. }
  { intros Hne. rewrite C0. destruct (x_closed b); [by rewrite D0 in Hne|done]. }
  { done. }
  cbn [mbind result_bind]. pose proof (run_inv _ _ S1 I0) as I1. rewrite <- X1.
  destruct (close_run s1 bytes (x_closed b) I1) as (c2 & closed & s2 & -> & S2 & X2 & Y2 & E2 & D2).
  { congruence. }
  { intros Hc. specialize (D0 Hc). rewrite D0, (@zlen_nil byte) in Z1. destruct (str bytes) as [|z l]; [done|].
    rewrite zlen_cons in Z1. pose proof (zlen_nonneg l). lia. }
  pose proof (run_inv _ _ S2 I1) as I2.
  assert (Ec2 : c2 = conn (left s2)) by by rewrite X2. assert (Ey2 : conn (right s) = conn (right s2)) by congruence.
  rewrite Ec2, Ey2. destruct (exchange_run reorder s2 I2) as (a3 & b3 & d3 & c3 & s3 & -> & E3 & S3 & X3 & Y3 & F3).
  cbn [mbind result_bind]. rewrite E3. cbn [mbind result_bind]. pose proof (run_inv _ _ S3 I2) as I3.
  assert (Ed3 : d3 = conn (right s3)) by by rewrite Y3. rewrite Ed3.
  destruct (read_run s3 (string_received b) I3) as (d4 & got4 & s4 & -> & S4 & X4 & Y4 & G4).
  { rewrite Y3. cbn. congruence. }
  pose proof (run_inv _ _ S4 I3) as I4. destruct (tick_run s4 I4) as (S5 & F5 & _). set (s5 := Build_system _ _ _ _) in *.
  eexists _, s5. split; [done|]. split; [by etrans; [exact S1|]; etrans; [exact S2|]; etrans; [exact S3|]; etrans; [exact S4|]|].
  constructor; cbn [x y bytes_to_send x_closed string_received s5 left right with_conn conn got written]; try done.
  - by apply (run_inv s4).
  - by rewrite X4, X3.
  - by rewrite Y4.
  - rewrite X4, X3. cbn [with_conn written]. rewrite X2. cbn [with_conn written]. congruence.
  - rewrite <- E2, <- F3, <- X4. exact F5.
Qed.

(** The state before the first turn. *)
Lemma init_shows cfg rnd_x rnd_y data :
  cfg_ok cfg -> zlen data + 2 < 2 ^ 32 ->
  exists s, rtc system_step (start cfg cfg rnd_x rnd_y) s /\ shows data s (bench_init cfg rnd_x rnd_y data).
Proof.
  intros Hc Hd. assert (I0 : system_inv (start cfg cfg rnd_x rnd_y)) by (split; by apply new_side).
  pose proof (step_left (start cfg cfg rnd_x rnd_y) _ _ (local_connect _ _)) as S1. set (s1 := Build_system _ _ _ _) in S1.
  pose proof (step_right s1 _ _ (local_end _ _)) as S2. set (s2 := Build_system _ _ _ _) in S2.
  exists s2. assert (S : rtc system_step (start cfg cfg rnd_x rnd_y) s2) by by eapply (rtc_l _ _ s1); [|apply rtc_once].
  split; [done|]. pose proof (run_inv _ _ S I0) as I2. constructor; try done.
  apply wf_new_Buffer. lia.
Qed.

Lemma run_until_shows fuel stop reorder data s b :
  zlen data + 2 < 2 ^ 32 -> shows data s b ->
  exists r, run_until fuel stop reorder b = Ok r /\
    (forall b', r = Some b' -> stop b' = true /\ exists s', rtc system_step s s' /\ shows data s' b').
Proof.
  intros Hd. revert s b. induction fuel as [|fuel IH]; intros s b Hs; cbn [run_until].
  - destruct (stop b) eqn:E; eexists; (split; [done|]); intros b' [= <-]; eauto using rtc_refl.
  - destruct (stop b) eqn:E; [eexists; split; [done|]; intros b' [= <-]; eauto using rtc_refl|].
    destruct (loop_shows reorder data s b Hd Hs) as (b1 & s1 & -> & S1 & H1). cbn [mbind result_bind].
    destruct (IH s1 b1 H1) as (r & -> & Hr). exists r. split; [done|]. intros b' Hb.
    destruct (Hr b' Hb) as (Hst & s' & S' & H'). split; [done|]. exists s'. split; [by etrans|done].
Qed.

(** When the receiving side reports the end, it has the string. *)
Lemma eof_received data s b :
  shows data s b -> ByteStream.eof (inbound_stream (y b)) = true -> string_received b = data.
Proof.
  intros [I0 X0 Y0 G0 B0 W0 C0 D0] He. apply eof_iff in He as [He Hb]. rewrite <- Y0 in He, Hb.
  destruct (side_delivers _ _ _ (proj2 I0)) as [_ H]. destruct (H He) as [H1 H2].
  rewrite Hb, app_nil_r, G0 in H1. rewrite H1, <- W0, D0, app_nil_r; [done|]. congruence.
Qed.

(** What has been read is never taken back. *)
Lemma got_grows s s' : rtc system_step s s' -> got (right s) `prefix_of` got (right s').
Proof.
  induction 1 as [|a b c Hab _ IH]; [done|]. etrans; [|exact IH].
  destruct Hab as [a e out Hl|a e out Hl]; [done|]. cbn. destruct Hl; try done. by apply prefix_app_r.
Qed.

(** ** A whole run *)

Lemma default_config_ok : cfg_ok default_TCPConfig.
Proof. split_and!; cbn; try lia; done. Qed.

(** One of the two runs. *)
Lemma main_loop_ok fuel reorder rnd_x rnd_y data :
  zlen data + 2 < 2 ^ 32 ->
  exists r, main_loop fuel reorder rnd_x rnd_y data = Ok r /\
    (forall b, r = Some b -> string_received b = data /\ active (x b) || active (y b) = false).
Proof.
  intros Hd. unfold main_loop.
  destruct (init_shows default_TCPConfig rnd_x rnd_y data default_config_ok Hd) as (s0 & _ & H0).
  destruct (run_until_shows fuel (fun s => ByteStream.eof (inbound_stream (y s))) reorder data s0 _ Hd H0) as (r1 & -> & Hr1).
  cbn [mbind result_bind]. destruct r1 as [b1|]; [|by eexists]. destruct (Hr1 b1 eq_refl) as (He & s1 & S1 & H1).
  pose proof (eof_received data s1 b1 H1 He) as Hrec. rewrite bool_decide_eq_true_2 by done. cbn [negb].
  destruct (run_until_shows fuel (fun s => negb (active (x s) || active (y s))) reorder data s1 b1 Hd H1) as (r2 & -> & Hr2).
  exists r2. split; [done|]. intros b Hb. destruct (Hr2 b Hb) as (Hst & s2 & S2 & [I2 _ _ G2 _ W2 _ _]).
  split; [|by apply negb_true_iff in Hst].
  apply (anti_symm prefix).
  - rewrite <- G2. destruct (side_delivers _ _ _ (proj2 I2)) as [Hdl _]. rewrite <- W2.
    etrans; [|apply prefix_app_r; reflexivity]. etrans; [|apply (prefix_take _ (Z.to_nat (ByteStream.bytes_written (inbound_stream (conn (right s2))))))].
    rewrite <- Hdl. by apply prefix_app_r.
  - rewrite <- Hrec, <- (shows_got _ _ _ H1), <- G2. by apply got_grows.
Qed.
