(* ===== verification/Lockstep.v ===== *)
(** * Two connections in lockstep

    What the throughput benchmark relies on: two [TCPConnection]s in one program
    whose segments are handed over directly. [linked] collects the invariants
    of [Transport], [Acknowledgment] and [Progress] for a pair with nothing on
    its way; the rest says what one batch of segments does to a connection that
    is sending ([busy]) and to one that has sent its FIN ([waiting]), and to the
    timer of a sender. *)

From S2P Require Import Prelude WrappingIntegers ByteStream StreamReassembler ReassemblerProps Buffer TCPHeader TCPSegment TCPReceiver TCPSender TCPState TCPConnection Transport Emission Acknowledgment Progress Benchmark.

(** ** A pair *)

Record half (a b : endpoint) : Prop := {
  half_inv : side_inv a b [];
  half_acks : side_acks a b [];
  half_prog : side_prog a b []
}.

Definition linked (a b : endpoint) : Prop := half a b /\ half b a.

Lemma linked_sym a b : linked a b -> linked b a.
Proof. by intros []. Qed.

(** A segment on its way from [a] to [b]. *)
Record flying (a b : endpoint) (seg : TCPSegment) : Prop := {
  fl_emitted : emitted (written a) (ended a) (isn_of a) seg;
  fl_acks : acks_upto (isn_of b) (expected (_receiver (conn a))) seg;
  fl_ends : ends_by (written a) (ended a) (isn_of a) (next_of a) seg
}.

Lemma half_net a b net :
  half a b -> Forall (flying a b) net -> side_inv a b net /\ side_acks a b net /\ side_prog a b net.
Proof.
  intros [[] [] []] Hn. split_and!; constructor; try done; eapply Forall_impl; try exact Hn; by intros ? [].
Qed.

Lemma half_drop a b net : side_inv a b net -> side_acks a b net -> side_prog a b net -> half a b.
Proof. intros [] [] []. constructor; constructor; try done; apply Forall_nil_2. Qed.

(** A call on one side; [inbox] is what the other side sends it. *)
Lemma linked_step a b inbox a' out :
  linked a b -> Forall (flying b a) inbox -> Forall (unambiguous (isn_of a) (zlen (written a))) inbox ->
  local_step inbox a a' out ->
  linked a' b /\ isn_of a' = isn_of a /\ expected (_receiver (conn a)) <= expected (_receiver (conn a')) /\
  next_of a <= next_of a'.
Proof.
  intros [HA HB] Hf Hu Hst. destruct (half_net b a inbox HB Hf) as (B1 & B2 & B3). destruct HA as [A1 A2 A3].
  destruct (local_step_inv _ _ _ _ _ _ Hst A1 (si_net _ _ _ B1) (si_small _ _ _ B1) (si_isn _ _ _ B1)) as (H1 & H2 & H3).
  destruct (local_step_acks _ _ _ _ _ _ Hst A1 B1 A2 (sa_net _ _ _ B2) Hu) as [H4 H5].
  destruct (local_step_prog _ _ _ _ _ _ Hst A1 B1 B2 A3 B3 Hu) as [H6 H7].
  split; [|done]. split; [by eapply half_drop|].
  pose proof (si_small _ _ _ A1) as Hs.
  eapply half_drop; [by eapply side_inv_peer|by eapply side_acks_peer|by eapply side_prog_peer].
Qed.

(** What a side has queued is on its way once it is handed over. *)
Lemma linked_queue a b : linked a b -> Forall (flying a b) (segments_out (conn a)).
Proof.
  intros [[A1 A2 A3] _]. pose proof (ci_out _ _ _ _ _ _ _ (si_conn _ _ _ A1)) as H1.
  pose proof (ai_out _ _ _ _ _ _ _ _ (sa_conn _ _ _ A2)) as H2. pose proof (pi_out _ _ _ _ _ _ _ _ _ (sp_conn _ _ _ A3)) as H3.
  rewrite Forall_forall in H1, H2, H3 |- *. intros seg Hin. constructor; [by apply H1|by apply H2|by apply H3].
Qed.

Lemma linked_own a b a' out :
  linked a b -> local_step [] a a' out ->
  linked a' b /\ isn_of a' = isn_of a /\ expected (_receiver (conn a)) <= expected (_receiver (conn a')) /\
  next_of a <= next_of a'.
Proof. intros H. by apply linked_step; [|apply Forall_nil_2..]. Qed.

(** A segment with an acknowledgment arrives. *)
Lemma linked_receive a b seg :
  linked a b -> flying b a seg -> ack (header seg) = true ->
  exists c, segment_received (conn a) seg = Ok c /\ linked (with_conn a c) b /\
    isn_of (with_conn a c) = isn_of a /\ expected (_receiver (conn a)) <= expected (_receiver c) /\
    next_of a <= _next_seqno (_sender c) /\ ended (with_conn a c) = ended a.
Proof.
  intros Hl Hf Ha. pose proof Hl as [[A1 _ _] [B1 _ _]].
  destruct (segment_received_inv _ _ _ _ _ _ (si_small _ _ _ B1) (si_isn _ _ _ B1) seg _ (fl_emitted _ _ _ Hf) (si_conn _ _ _ A1))
    as (c & Hc & Hi & _). exists c. split; [done|].
  destruct (linked_step a b [seg] (with_conn a c) []) as (H1 & H2 & H3 & H4);
    [done|by apply Forall_singleton|apply Forall_singleton; by left|apply (local_receive _ _ seg); [by apply list_elem_of_singleton|done]|].
  split_and!; try done. exact (ci_ended _ _ _ _ _ _ _ Hi).
Qed.

(** A change of the connection that keeps the invariant. *)
Lemma linked_conn a b c :
  linked a b ->
  prog_inv (written a) (ended a) (isn_of a) (written b) (ended b) (isn_of b)
    (expected (_receiver (conn b))) (next_of b) c ->
  ByteStream.bytes_read (inbound_stream c) = ByteStream.bytes_read (inbound_stream (conn a)) ->
  expected (_receiver (conn a)) <= expected (_receiver c) -> next_of a <= _next_seqno (_sender c) ->
  linked (with_conn a c) b.
Proof.
  intros [[A1 A2 A3] [B1 B2 B3]] Hp Hr He Hn. pose proof (pi_acks _ _ _ _ _ _ _ _ _ Hp) as Ha.
  pose proof (ai_conn _ _ _ _ _ _ _ _ Ha) as Hc. pose proof (si_small _ _ _ A1) as Hs.
  destruct (side_same a b [] [] c A1 ltac:(apply Forall_nil_2) Hc Hr) as (S1 & S2 & S3).
  destruct (side_acks_new a (with_conn a c) b [] [] (ended a) A2 Ha He ltac:(apply Forall_nil_2)) as [S4 _].
  destruct (side_prog_new a (with_conn a c) b [] [] (ended a) A3 S3 Hp Hn ltac:(apply Forall_nil_2)) as [S5 _].
  split; [by constructor|].
  constructor; [by eapply side_inv_peer|by eapply side_acks_peer|by eapply side_prog_peer].
Qed.

(** What is known of one side. *)
Lemma linked_facts a b :
  linked a b ->
  TCPSender.wf (_sender (conn a)) /\ settled (_sender (conn a)) /\ sends (written a) (_sender (conn a)) /\
  keeps (written a) (_sender (conn a)) /\ snd_emits unstamped (_sender (conn a)) /\
  receives (written b) (isn_of b) (_receiver (conn a)) /\
  acked (_sender (conn a)) <= expected (_receiver (conn b)) <= next_of a.
Proof.
  intros [[A1 A2 A3] [B1 B2 B3]]. pose proof (si_conn _ _ _ A1) as Ha. pose proof (si_conn _ _ _ B1) as Hb.
  pose proof (snd_wf _ _ (ci_sends _ _ _ _ _ _ _ Ha)) as Hwf. split_and!; try done.
  - apply (sp_conn _ _ _ A3).
  - apply Ha.
  - apply (sa_conn _ _ _ A2).
  - apply (sa_conn _ _ _ A2).
  - apply Ha.
  - apply (sa_conn _ _ _ A2).
  - eapply upto_expected; [apply Hb|apply (sp_conn _ _ _ B3)|]. pose proof (wf_flight _ Hwf). unfold next_of. lia.
Qed.

(** ** The timer and the oldest segment *)

(** The timer of a sender with something outstanding has just been started. *)
Definition fresh (s : TCPSender) : Prop :=
  _segments_outgoing s = [] \/
  (_retransmission_timecount s = 0 /\ _retransmission_timeout s = _initial_retransmission_timeout s).

(** What filling the window does to the outstanding segments and the timer. *)
Record more_outstanding (s s' : TCPSender) : Prop := {
  mo_capacity : ByteStream._capacity (_stream s') = ByteStream._capacity (_stream s);
  mo_initial : _initial_retransmission_timeout s' = _initial_retransmission_timeout s;
  mo_outgoing : exists l, _segments_outgoing s' = _segments_outgoing s ++ l;
  mo_fresh : fresh s -> fresh s'
}.

Lemma fill_outstanding s : TCPSender.wf s -> more_outstanding s (fill_window s).
Proof.
  intros Hwf. pose proof (effective_window_range s Hwf). destruct (fill_window_spec s Hwf) as (_ & Hf & _).
  apply (fills_ind_wf (more_outstanding s)) in Hf as [_ ?]; [done|lia| |done|].
  - intros s1 seg st W1 [M0 M1 [l M2] M3] Ho Hb Hl _.
    pose proof (build_segment_spec (effective_window s) s1 W1 Ho ltac:(lia)) as Hbs. rewrite Hb in Hbs. destruct Hbs as (Hst & _).
    pose proof (push_segment_wf (effective_window s) s1 W1 Ho ltac:(lia)) as Hp. rewrite Hb in Hp.
    destruct (Hp Hl) as (_ & _ & _ & Hmap). constructor.
    + rewrite <- M0. cbn [push_segment _stream]. by rewrite Hst.
    + done.
    + rewrite Hmap, M2. rewrite <- app_assoc. by eexists.
    + intros Hfr. right. specialize (M3 Hfr). cbn [push_segment _retransmission_timecount _retransmission_timeout
        _initial_retransmission_timeout]. destruct (_segments_outgoing s1) eqn:Eo; [done|]. destruct M3 as [M3|M3]; [congruence|done].
  - constructor; [done|done| |done]. exists []. by rewrite app_nil_r.
Qed.

(** An acknowledgment moves the sender on, or leaves its oldest segment. *)
Lemma ack_outstanding s n w :
  TCPSender.wf s -> 0 <= w < 2 ^ 16 ->
  let s' := ack_received s n w in
  ByteStream._capacity (_stream s') = ByteStream._capacity (_stream s) /\
  _initial_retransmission_timeout s' = _initial_retransmission_timeout s /\
  (fresh s -> fresh s') /\ (acked s < acked s' -> fresh s') /\
  (consecutive_retransmissions s' = 0 \/ s' = s) /\
  (forall p l, _segments_outgoing s = p :: l -> acked s < acked s' \/ exists l', _segments_outgoing s' = p :: l').
Proof.
  intros Hwf Hw s'. destruct (ack_received_eq s n w Hwf Hw) as [[_ E]|(_ & o & E & Hwf' & Ho & _)].
  { unfold s'. rewrite E. split_and!; try done; [lia|by right|]. intros p l ->. right. by eexists. }
  set (a := unwrap n _ _) in *. set (s1 := ack_state _ _ _ _) in *. fold s' in E.
  destruct (fill_outstanding s1 Hwf') as [M0 M1 [l M2] M3]. rewrite <- E in *.
  assert (Ha : acked s' = _next_seqno s - o) by (rewrite E, acked_fill by done; done).
  assert (Hs : acked s = _next_seqno s - _outgoing_bytes s) by done.
  assert (Hdrop : o < _outgoing_bytes s -> fresh s1).
  { intros Hlt. right. cbn [s1 ack_state _retransmission_timecount _retransmission_timeout _initial_retransmission_timeout].
    by rewrite (proj2 (Z.ltb_lt _ _) Hlt). }
  split; [done|]. split; [done|]. split; [|split; [|split]].
  - intros Hf. apply M3. destruct (Z.eq_dec o (_outgoing_bytes s)) as [->|]; [|apply Hdrop; lia].
    destruct Hf as [Hf|Hf]; [left|right]; cbn [s1 ack_state _segments_outgoing _retransmission_timecount
      _retransmission_timeout _initial_retransmission_timeout]; [by rewrite Hf|by rewrite Z.ltb_irrefl].
  - intros Hlt. apply M3, Hdrop. lia.
  - left. rewrite E. destruct (fill_window_more s1 Hwf') as (segs & [] & _). unfold consecutive_retransmissions. by rewrite more_consecutive.
  - intros [k seg] l0 Hog. destruct (Z.eq_dec o (_outgoing_bytes s)) as [->|]; [right|left; lia].
    pose proof (wf_chain _ Hwf') as Hc'. pose proof (wf_chain _ Hwf) as Hc.
    cbn [s1 ack_state _segments_outgoing _next_seqno _outgoing_bytes] in Hc'.
    pose proof (unacked_prefix _ _ _ _ Hc Hc') as Hp. rewrite M2. cbn [s1 ack_state _segments_outgoing].
    rewrite Hp, Hog. cbn. by eexists.
Qed.

(** ** A connection that sends, and has got the end of its peer's stream *)

Record busy (c : TCPConnection) : Prop := {
  bz_active : _active c = true;
  bz_linger : _linger_after_streams_finish c = false;
  bz_syn : TCPReceiver._syn (_receiver c) = true;
  bz_in : ByteStream.input_ended (inbound_stream c) = true;
  bz_queue : TCPSender._segments_out (_sender c) = [];
  bz_next : 0 < next_seqno_absolute (_sender c);
  bz_open : ByteStream.eof (stream_in (_sender c)) = true -> 0 < TCPSender.bytes_in_flight (_sender c)
}.

(** Everything it had to send is acknowledged. *)
Record finished (c : TCPConnection) : Prop := {
  fi_active : _active c = false;
  fi_syn : TCPReceiver._syn (_receiver c) = true;
  fi_in : ByteStream.input_ended (inbound_stream c) = true;
  fi_eof : ByteStream.eof (stream_in (_sender c)) = true;
  fi_flight : TCPSender.bytes_in_flight (_sender c) = 0
}.

(** [send_segments] decides between the two. *)
Lemma busy_send c :
  TCPSender.wf (_sender c) -> _active c = true -> _linger_after_streams_finish c = false \/ ByteStream.eof (stream_in (_sender c)) = false ->
  TCPReceiver._syn (_receiver c) = true -> ByteStream.input_ended (inbound_stream c) = true ->
  0 < next_seqno_absolute (_sender c) ->
  busy (send_segments c) \/ finished (send_segments c).
Proof.
  intros Hwf Ha Hl Hs Hi Hn. pose proof (wf_flight _ Hwf) as Hf. unfold inbound_stream in Hi.
  unfold send_segments. cbn zeta. cbn [_receiver set_sender set_segments_out _sender _linger_after_streams_finish].
  change (stream_in (clear_segments_out (_sender c))) with (stream_in (_sender c)).
  change (TCPSender.bytes_in_flight (clear_segments_out (_sender c))) with (TCPSender.bytes_in_flight (_sender c)).
  rewrite Hi. destruct (ByteStream.eof (stream_in (_sender c))) eqn:Ee; cbn [negb].
  - destruct Hl as [Hl|?]; [|done]. rewrite Hl. cbn [negb orb]. unfold TCPSender.bytes_in_flight.
    destruct (Z.eqb_spec (_outgoing_bytes (_sender c)) 0); [by right|left]. constructor; try done.
    intros _. unfold TCPSender.bytes_in_flight. cbn. lia.
  - left. constructor; try done. intros Hx. exfalso. unfold stream_in in *. cbn in Hx. congruence.
Qed.

Lemma busy_receives c seg c' :
  TCPSender.wf (_sender c) -> TCPReceiver.wf (_receiver c) -> 0 <= win (header seg) < 2 ^ 16 -> busy c ->
  rst (header seg) = false -> segment_received c seg = Ok c' ->
  let s := ack_received (_sender c) (TCPHeader.ackno (header seg)) (win (header seg)) in
  (exists s1, (s1 = s \/ s1 = send_empty_segment s) /\ _sender c' = clear_segments_out (fill_window s1) /\
    segments_out c' = segments_out c ++ map (stamp (_receiver c')) (TCPSender.segments_out (fill_window s1))) /\
  (busy c' \/ finished c').
Proof.
  intros Hwf Hrw Hw [B1 B2 B3 B4 _ B5 B6] Hr. unfold segment_received. rewrite B1, Hr. cbn [negb]. cbn zeta.
  pose proof (wf_flight _ Hwf) as Hfl. unfold next_seqno_absolute, TCPSender.bytes_in_flight, inbound_stream in *.
  cbn [_sender set_time _receiver]. unfold has_ackno. rewrite ackno_eq, B3, B4 by done.
  rewrite (proj2 (Z.eqb_neq (_next_seqno (_sender c)) 0)) by lia. cbn [negb]. rewrite !andb_false_r.
  assert (Hthen : forall k, (forall c0, exists s1, (s1 = _sender c0 \/ s1 = send_empty_segment (_sender c0)) /\
      k c0 = send_segments (on_sender (fun _ => fill_window s1) c0)) ->
    (c0 ← receiver_segment seg (sender_ack seg (set_time c 0)); Ok (k c0)) = Ok c' ->
    (exists s1, (s1 = ack_received (_sender c) (TCPHeader.ackno (header seg)) (win (header seg)) \/
        s1 = send_empty_segment (ack_received (_sender c) (TCPHeader.ackno (header seg)) (win (header seg)))) /\
      _sender c' = clear_segments_out (fill_window s1) /\
      segments_out c' = segments_out c ++ map (stamp (_receiver c')) (TCPSender.segments_out (fill_window s1))) /\
    (busy c' \/ finished c')).
  { intros k Hk. unfold receiver_segment. cbn [_receiver sender_ack on_sender set_sender set_time].
    destruct (TCPReceiver.segment_received _ _) as [r|] eqn:Er; [|done]. cbn [mbind result_bind]. intros [= <-].
    set (c0 := set_receiver _ _). destruct (Hk c0) as (s1 & Hs1 & ->).
    assert (H1 : TCPSender.wf s1).
    { assert (TCPSender.wf (_sender c0)) by (by apply ack_received_wf). destruct Hs1 as [->| ->]; [done|by apply send_empty_segment_wf]. }
    set (c2 := on_sender _ c0). destruct (send_segments_parts c2) as (P1 & P2 & P3 & _).
    split; [exists s1; rewrite P1, P2; by unfold segments_out; rewrite P3|].
    destruct (receiver_keeps_flags _ _ _ Er) as (K1 & _ & K2).
    apply busy_send; try done; [by apply fill_window_wf|by left|by apply K2|by apply K1|].
    assert (Hn : _next_seqno (_sender c) <= _next_seqno s1).
    { pose proof (ack_next (_sender c) (TCPHeader.ackno (header seg)) (win (header seg)) Hwf Hw).
      destruct Hs1 as [->| ->]; [done|]. done. }
    pose proof (fill_next s1 H1). change (0 < _next_seqno (fill_window s1)). lia. }
  destruct (ByteStream.eof (stream_in (_sender c))) eqn:Ee; cbn [negb andb].
  - specialize (B6 eq_refl). rewrite (proj2 (Z.eqb_neq (_outgoing_bytes (_sender c)) 0)) by lia.
    rewrite ?andb_false_r. cbn [andb]. apply Hthen. intros c0. exists (_sender c0). split; [by left|done].
  - rewrite andb_true_r. destruct (_ <? _).
    + apply (Hthen (fun c0 => send_segments (on_sender fill_window
        (if 0 <? length_in_sequence_space seg then on_sender send_empty_segment c0 else c0)))).
      intros c0. destruct (0 <? _); [exists (send_empty_segment (_sender c0))|exists (_sender c0)]; (split; [auto|done]).
    + apply Hthen. intros c0. exists (_sender c0). split; [by left|done].
Qed.

(** What segments do to a sender, one after the other. *)
Record advances (s s' : TCPSender) : Prop := {
  adv_capacity : ByteStream._capacity (_stream s') = ByteStream._capacity (_stream s);
  adv_initial : _initial_retransmission_timeout s' = _initial_retransmission_timeout s;
  adv_acked : acked s <= acked s';
  adv_fresh : fresh s -> fresh s';
  adv_moved : acked s < acked s' -> fresh s';
  adv_oldest p l : _segments_outgoing s = p :: l -> acked s < acked s' \/ exists l', _segments_outgoing s' = p :: l';
  adv_count : consecutive_retransmissions s' = 0 \/ consecutive_retransmissions s' = consecutive_retransmissions s
}.

#[export] Instance advances_preorder : PreOrder advances.
Proof.
  split.
  - intros s. constructor; try done; [lia| |by right]. intros p l ->. right. by eexists.
  - intros s1 s2 s3 [A0 A1 A2 A3 A4 A5 A6] [B0 B1 B2 B3 B4 B5 B6]. constructor.
    + congruence.
    + congruence.
    + lia.
    + auto.
    + intros H. destruct (Z.eq_dec (acked s1) (acked s2)); [apply B4; lia|apply B3, A4; lia].
    + intros p l H. destruct (A5 p l H) as [?|[l' H']]; [left; lia|]. destruct (B5 p l' H') as [?|?]; [left; lia|by right].
    + destruct B6 as [?|B6]; [by left|]. destruct A6 as [A6|A6]; [left|right]; congruence.
Qed.

Lemma advances_fill s : TCPSender.wf s -> advances s (fill_window s).
Proof.
  intros H. destruct (fill_outstanding s H) as [M0 M1 [l M2] M3]. pose proof (acked_fill s H) as Ha.
  destruct (fill_window_more s H) as (segs & [] & _). constructor; try done; [lia|lia| |].
  - intros p l0 E. right. rewrite M2, E. by eexists.
  - right. unfold consecutive_retransmissions. congruence.
Qed.

Lemma advances_ack s n w : TCPSender.wf s -> 0 <= w < 2 ^ 16 -> advances s (ack_received s n w).
Proof.
  intros H Hw. destruct (ack_outstanding s n w H Hw) as (A0 & A1 & A2 & A3 & A4 & A5).
  destruct (acked_ack s n w H Hw) as [A6 _]. constructor; try done. destruct A4 as [?| ->]; [by left|by right].
Qed.

Lemma advances_same s s' :
  ByteStream._capacity (_stream s') = ByteStream._capacity (_stream s) ->
  _initial_retransmission_timeout s' = _initial_retransmission_timeout s -> _next_seqno s' = _next_seqno s ->
  _outgoing_bytes s' = _outgoing_bytes s -> _segments_outgoing s' = _segments_outgoing s ->
  _retransmission_timecount s' = _retransmission_timecount s ->
  _retransmission_timeout s' = _retransmission_timeout s ->
  _consecutive_retransmissions s' = _consecutive_retransmissions s -> advances s s'.
Proof.
  intros H0 H1 H2 H3 H4 H5 H6 H7.
  constructor; unfold fresh, acked, next_seqno_absolute, TCPSender.bytes_in_flight, consecutive_retransmissions;
    rewrite ?H1, ?H2, ?H3, ?H4, ?H5, ?H6, ?H7; try done; try lia. intros p l E. right. by eexists.
Qed.

(** ** Segments with an acknowledgment *)

Definition replying (seg : TCPSegment) : Prop := rst (header seg) = false /\ ack (header seg) = true.

(** [seg] acknowledges the number [n] of the stream that starts at [isn]. *)
Definition acking (n : Z) (isn : WrappingInt32) (seg : TCPSegment) : Prop :=
  replying seg /\ TCPHeader.ackno (header seg) = wrap n isn.

Lemma stamp_acking W isn r seg :
  receives W isn r -> wi_wf isn -> TCPReceiver._syn r = true -> rst (header seg) = false ->
  acking (expected r) isn (stamp r seg).
Proof.
  intros Hr Hi Hs Hrst. unfold acking, replying, stamp, expected. rewrite ackno_eq, Hs by apply Hr.
  split; [done|]. cbn. f_equal. apply wrapping_eq. cbn. rewrite (rcv_isn _ _ _ Hr Hs). by apply u32_small.
Qed.

(** A stream that has ended is all there. *)
Lemma ended_expected W isn r :
  receives W isn r -> TCPReceiver._syn r = true -> ByteStream.input_ended (TCPReceiver.stream_out r) = true ->
  expected r = zlen W + 2.
Proof.
  intros Hr Hs He. unfold expected, next_expected. rewrite Hs, He.
  destruct (fol_ended _ _ (rcv_follows _ _ _ Hr) He) as [Hw _].
  unfold TCPReceiver.stream_out, StreamReassembler.stream_out. lia.
Qed.

Lemma flying_win a b seg : flying a b seg -> rst (header seg) = false -> 0 <= win (header seg) < 2 ^ 16.
Proof. intros [[?|Hs] _ _] Hr; [congruence|apply Hs]. Qed.

(** ** A batch of answers reaches the sending side *)

(** What one or more segments make of the busy side [a]. *)
Record answered (a b : endpoint) (c : TCPConnection) : Prop := {
  an_linked : linked (with_conn a c) b;
  an_isn : isn_of (with_conn a c) = isn_of a;
  an_ended : ended (with_conn a c) = ended a;
  an_state : busy c \/ finished c;
  an_advances : advances (_sender (conn a)) (_sender c);
  an_queue : Forall (acking (zlen (written b) + 2) (isn_of b)) (segments_out (conn a)) ->
    Forall (acking (zlen (written b) + 2) (isn_of b)) (segments_out c)
}.

Lemma state_inbound c :
  busy c \/ finished c -> TCPReceiver._syn (_receiver c) = true /\ ByteStream.input_ended (inbound_stream c) = true.
Proof. by intros [[]|[]]. Qed.

Lemma busy_one a b seg :
  linked a b -> busy (conn a) -> flying b a seg -> replying seg ->
  exists c, segment_received (conn a) seg = Ok c /\ answered a b c /\
    advances (ack_received (_sender (conn a)) (TCPHeader.ackno (header seg)) (win (header seg))) (_sender c).
Proof.
  intros Hl Hb Hf [Hr Ha]. destruct (linked_receive a b seg Hl Hf Ha) as (c & Hc & Hl' & Hi & _ & _ & He).
  destruct (linked_facts a b Hl) as (Wf & _ & _ & _ & Em & Rc & _). pose proof (flying_win _ _ _ Hf Hr) as Hw.
  destruct (busy_receives (conn a) seg c Wf (rcv_wf _ _ _ Rc) Hw Hb Hr Hc) as [(s1 & Hs1 & Es & Eq) Hst].
  set (s := ack_received _ _ _) in *. assert (Wa : TCPSender.wf s) by by apply ack_received_wf.
  assert (Ea : snd_emits unstamped s) by (by apply ack_received_emits; [apply _|]).
  assert (H1 : TCPSender.wf s1 /\ snd_emits unstamped s1 /\ advances s s1).
  { destruct Hs1 as [->| ->]; [done|]. split_and!; [by apply send_empty_segment_wf|by apply send_empty_emits; [apply _|]|by apply advances_same]. }
  destruct H1 as (W1 & E1 & V1).
  assert (Hadv : advances s (_sender c)).
  { rewrite Es. transitivity s1; [done|]. transitivity (fill_window s1); [by apply advances_fill|by apply advances_same]. }
  destruct (linked_facts _ _ Hl') as (_ & _ & _ & _ & _ & Rc' & _). cbn [with_conn conn] in *.
  pose proof Hl as [_ [B1 _ _]].
  exists c. split; [done|]. split; [|done]. constructor; try done; [etrans; [by apply advances_ack|exact Hadv]|].
  intros Hq. rewrite Eq. apply Forall_app. split; [done|]. apply Forall_fmap.
  destruct (state_inbound c Hst) as [Hsy Hie]. rewrite <- (ended_expected _ _ _ Rc' Hsy Hie).
  eapply Forall_impl; [apply (emits_queue unstamped), fill_window_emits; [apply _|exact E1]|].
  intros x (_ & _ & Hx). eapply stamp_acking; [exact Rc'|apply (si_isn _ _ _ B1)|done|done].
Qed.

(** An inactive connection ignores what it gets. *)
Lemma receive_all_inactive c q : _active c = false -> receive_all c q = Ok c.
Proof.
  intros H. induction q as [|seg q IH]; [done|]. cbn [receive_all]. unfold segment_received. rewrite H. exact IH.
Qed.

Lemma receive_all_app c q1 q2 : receive_all c (q1 ++ q2) = (c ← receive_all c q1; receive_all c q2).
Proof.
  revert c. induction q1 as [|seg q1 IH]; intros c; [done|]. cbn [app receive_all].
  destruct (segment_received c seg); [|done]. cbn [mbind result_bind]. apply IH.
Qed.

(** What is on its way stays so. *)
Lemma flying_same a b b' seg : isn_of b' = isn_of b -> flying a b seg -> flying a b' seg.
Proof. intros H []. constructor; try done. by rewrite H. Qed.

Lemma answered_refl a b : linked a b -> busy (conn a) \/ finished (conn a) -> answered a b (conn a).
Proof. intros. constructor; try done. by destruct a. Qed.

Lemma answered_trans a b c c' : answered a b c -> answered (with_conn a c) b c' -> answered a b c'.
Proof.
  intros [A1 A2 A3 A4 A5 A6] [B1 B2 B3 B4 B5 B6].
  constructor; [done|by rewrite <- A2|by rewrite <- A3|done|by etrans|auto].
Qed.

Lemma busy_batch q a b :
  linked a b -> busy (conn a) \/ finished (conn a) -> Forall (flying b a) q -> Forall replying q ->
  exists c, receive_all (conn a) q = Ok c /\ answered a b c.
Proof.
  revert a. induction q as [|seg q IH]; intros a Hl Hst Hf Hp.
  { exists (conn a). split; [done|]. by apply answered_refl. }
  destruct Hst as [Hb|Hfi].
  2: { exists (conn a). split; [apply receive_all_inactive, Hfi|]. apply answered_refl; auto. }
  apply Forall_cons in Hf as [Hf Hfs]. apply Forall_cons in Hp as [Hp Hps].
  destruct (busy_one a b seg Hl Hb Hf Hp) as (c1 & E1 & A1 & _).
  destruct (IH (with_conn a c1)) as (c2 & E2 & A2); [apply A1|apply A1| |done|].
  { eapply Forall_impl; [exact Hfs|]. intros x. apply flying_same, A1. }
  exists c2. cbn [receive_all]. rewrite E1. split; [exact E2|]. by eapply answered_trans.
Qed.

(** The answer with the number that the peer expects. *)
Lemma busy_current a b seg :
  linked a b -> busy (conn a) -> flying b a seg -> acking (expected (_receiver (conn b))) (isn_of a) seg ->
  exists c, segment_received (conn a) seg = Ok c /\ answered a b c /\
    consecutive_retransmissions (_sender c) = 0 /\
    (forall k x l, _segments_outgoing (_sender (conn a)) = (k, x) :: l ->
       k + length_in_sequence_space x <= expected (_receiver (conn b)) ->
       acked (_sender (conn a)) < acked (_sender c)) /\
    (expected (_receiver (conn b)) = zlen (written a) + 2 -> finished c).
Proof.
  intros Hl Hb Hf [Hp Hn]. destruct (busy_one a b seg Hl Hb Hf Hp) as (c & Hc & Ha & Hadv).
  destruct (linked_facts a b Hl) as (Wf & St & Sn & _ & _ & _ & Hx). pose proof (flying_win _ _ _ Hf (proj1 Hp)) as Hw.
  rewrite Hn in Hadv. change (isn_of a) with (TCPSender._isn (_sender (conn a))) in Hadv.
  set (E := expected (_receiver (conn b))) in *. change (next_of a) with (_next_seqno (_sender (conn a))) in Hx.
  pose proof (next_seqno_small _ Wf) as Hns.
  assert (Hu : unwrap (wrap E (TCPSender._isn (_sender (conn a)))) (TCPSender._isn (_sender (conn a))) (_next_seqno (_sender (conn a))) = E).
  { destruct St as [Ho _]. unfold acked, next_seqno_absolute, TCPSender.bytes_in_flight in Hx.
    pose proof (wf_flight _ Wf). apply unwrap_wrap_lem; [apply Wf|lia..]. }
  exists c. split; [done|]. split; [done|]. split; [|split].
  - destruct (ack_received_eq (_sender (conn a)) (wrap E (TCPSender._isn (_sender (conn a)))) (win (header seg)) Wf Hw)
      as [[Hgt _]|(_ & o & Heq & Hwf' & _)]; [lia|].
    assert (H0 : consecutive_retransmissions (ack_received (_sender (conn a)) (wrap E (TCPSender._isn (_sender (conn a)))) (win (header seg))) = 0).
    { rewrite Heq. destruct (fill_window_more _ Hwf') as (segs & [] & _). unfold consecutive_retransmissions. by rewrite more_consecutive. }
    destruct (adv_count _ _ Hadv); congruence.
  - intros k x l Hog Hk. destruct (ack_moves _ k x l E (win (header seg)) Wf St Hog ltac:(lia) Hw) as (_ & _ & Hm).
    pose proof (adv_acked _ _ Hadv). specialize (Hm Hk). lia.
  - intros HE. pose proof (wf_next _ Wf) as Hnx. pose proof (snd_read _ _ Sn) as Hrd.
    assert (Hfin : TCPSender._fin (_sender (conn a)) = true).
    { destruct (TCPSender._fin (_sender (conn a))); [done|]. destruct (TCPSender._syn (_sender (conn a))); cbn [b1] in Hnx; lia. }
    assert (HEn : E = _next_seqno (_sender (conn a))).
    { rewrite Hfin in Hnx. destruct (TCPSender._syn (_sender (conn a))); cbn [b1] in Hnx; lia. }
    destruct (an_state _ _ _ Ha) as [Hbz|?]; [|done]. exfalso.
    destruct (ack_everything (_sender (conn a)) (win (header seg)) Wf Hfin Hw) as (W' & F' & Fi' & _ & N' & _).
    unfold next_seqno in *. rewrite <- HEn in W', F', Fi', N'.
    pose proof (adv_acked _ _ Hadv) as Hac. destruct (linked_facts _ _ (an_linked _ _ _ Ha)) as (Wc & _ & Snc & _ & _ & _ & Hxc).
    cbn [with_conn conn written] in *. fold E in Hxc. change (next_of (with_conn a c)) with (_next_seqno (_sender c)) in Hxc.
    pose proof (wf_next _ Wc) as Hnc. pose proof (snd_read _ _ Snc) as Hrc. pose proof (wf_flight _ Wc) as Hfc.
    unfold acked, next_seqno_absolute, TCPSender.bytes_in_flight in *.
    assert (Hfc' : _outgoing_bytes (_sender c) = 0).
    { destruct (TCPSender._fin (_sender c)), (TCPSender._syn (_sender c)); cbn [b1] in Hnc; lia. }
    assert (Hfin' : TCPSender._fin (_sender c) = true).
    { destruct (TCPSender._fin (_sender c)); [done|]. destruct (TCPSender._syn (_sender c)); cbn [b1] in Hnc; lia. }
    pose proof (bz_open _ Hbz (wf_fin _ Wc Hfin')) as Hop. unfold TCPSender.bytes_in_flight in Hop. lia.
Qed.

(** A batch that contains it. *)
Lemma busy_answers q a b seg :
  linked a b -> busy (conn a) -> Forall (flying b a) q -> Forall replying q ->
  seg ∈ q -> acking (expected (_receiver (conn b))) (isn_of a) seg ->
  exists c, receive_all (conn a) q = Ok c /\ answered a b c /\
    (busy c -> consecutive_retransmissions (_sender c) = 0 /\
      expected (_receiver (conn b)) < zlen (written a) + 2 /\
      forall k x l, _segments_outgoing (_sender (conn a)) = (k, x) :: l ->
        k + length_in_sequence_space x <= expected (_receiver (conn b)) ->
        acked (_sender (conn a)) < acked (_sender c)).
Proof.
  intros Hl Hb Hf Hp Hin Hs. apply list_elem_of_split in Hin as (q1 & q2 & ->).
  apply Forall_app in Hf as [F1 F2]. apply Forall_cons in F2 as [Fs F2].
  apply Forall_app in Hp as [P1 P2]. apply Forall_cons in P2 as [Ps P2].
  destruct (busy_batch q1 a b Hl (or_introl Hb) F1 P1) as (c1 & E1 & A1).
  rewrite receive_all_app, E1. cbn [mbind result_bind].
  assert (Hfl : forall x, flying b a x -> flying b (with_conn a c1) x) by (intros x; apply flying_same, A1).
  destruct (an_state _ _ _ A1) as [B1|D1].
  2: { exists c1. rewrite receive_all_inactive by apply D1. split; [done|]. split; [done|]. intros [B1 _ _ _ _ _ _].
       destruct D1. congruence. }
  destruct (busy_current (with_conn a c1) b seg) as (c2 & E2 & A2 & C2 & M2 & D2); [apply A1|done|auto|by rewrite (an_isn _ _ _ A1)|].
  cbn [with_conn conn written] in *. cbn [receive_all]. rewrite E2. cbn [mbind result_bind].
  pose proof (answered_trans _ _ _ _ A1 A2) as A12.
  destruct (busy_batch q2 (with_conn a c2) b) as (c3 & E3 & A3); [apply A12|apply A12| |done|].
  { eapply Forall_impl; [exact F2|]. intros x. apply flying_same, A12. }
  exists c3. cbn [with_conn conn] in *. split; [done|]. pose proof (answered_trans _ _ _ _ A12 A3) as A13. split; [done|].
  intros B3. destruct (an_state _ _ _ A2) as [B2|F2'].
  2: { exfalso. rewrite receive_all_inactive in E3 by apply F2'. injection E3 as <-. destruct F2', B3. congruence. }
  pose proof (adv_acked _ _ (an_advances _ _ _ A1)) as G1. pose proof (adv_acked _ _ (an_advances _ _ _ A2)) as G2.
  pose proof (adv_acked _ _ (an_advances _ _ _ A3)) as G3. cbn [with_conn conn] in *. split; [|split].
  - destruct (adv_count _ _ (an_advances _ _ _ A3)) as [?|Hc]; [done|]. cbn [with_conn conn] in Hc. congruence.
  - destruct (linked_facts a b Hl) as (_ & _ & _ & _ & _ & _ & Hx). pose proof Hl as [_ [H1 _ _]].
    pose proof (expected_bound _ _ _ (ci_receives _ _ _ _ _ _ _ (si_conn _ _ _ H1))) as Hbd.
    destruct (Z.eq_dec (expected (_receiver (conn b))) (zlen (written a) + 2)) as [He|]; [|lia].
    destruct (D2 He), B2. congruence.
  - intros k x l Hog Hk. destruct (adv_oldest _ _ (an_advances _ _ _ A1) _ _ Hog) as [?|[l' Hog']]; [lia|].
    specialize (M2 k x l' Hog' Hk). lia.
Qed.

(** ** A connection whose FIN is acknowledged

    FIN_WAIT_2 while the peer's stream is open, TIME_WAIT after. *)

Record waiting (c : TCPConnection) : Prop := {
  wt_active : _active c = true;
  wt_linger : _linger_after_streams_finish c = true;
  wt_cfg : rt_timeout (_cfg c) = TIMEOUT_DFLT;
  wt_syn : TCPReceiver._syn (_receiver c) = true;
  wt_fin : TCPSender._fin (_sender c) = true;
  wt_flight : TCPSender.bytes_in_flight (_sender c) = 0;
  wt_queue : TCPSender._segments_out (_sender c) = [];
  wt_count : consecutive_retransmissions (_sender c) <= MAX_RETX_ATTEMPTS
}.

(** Once the FIN is sent, an acknowledgment queues nothing. *)
Lemma ack_after_fin s n w :
  TCPSender.wf s -> TCPSender._fin s = true -> 0 <= w < 2 ^ 16 ->
  let s' := ack_received s n w in
  TCPSender.wf s' /\ TCPSender._fin s' = true /\ 0 <= TCPSender.bytes_in_flight s' <= TCPSender.bytes_in_flight s /\
  TCPSender._segments_out s' = TCPSender._segments_out s /\
  (consecutive_retransmissions s' = 0 \/ s' = s) /\ _stream s' = _stream s /\ _next_seqno s' = _next_seqno s.
Proof.
  intros Hwf Hf Hw s'. assert (Hsyn : TCPSender._syn s = true).
  { destruct (TCPSender._syn s) eqn:E; [done|]. destruct (wf_syn s Hwf E). congruence. }
  destruct (ack_received_eq s n w Hwf Hw) as [[_ E]|(_ & o & E & Hwf' & Ho & _)].
  { unfold s'. rewrite E. pose proof (wf_flight s Hwf). unfold TCPSender.bytes_in_flight. split_and!; try done; [lia|by right]. }
  set (z := ack_state _ _ _ _) in *. assert (s' = z) as ->.
  { unfold s'. rewrite E. apply fill_window_filled; [done|]. right.
    pose proof (wf_fin s Hwf Hf) as He. apply eof_iff in He as [_ He]. by split_and!. }
  split_and!; try done; [| |by left]; unfold TCPSender.bytes_in_flight in *; cbn; lia.
Qed.

(** With nothing to send, an acknowledgment changes the window and a counter. *)
Lemma ack_nothing s n w :
  TCPSender.wf s -> TCPSender._fin s = true -> TCPSender.bytes_in_flight s = 0 -> 0 <= w < 2 ^ 16 ->
  let s' := ack_received s n w in
  TCPSender.wf s' /\ TCPSender._fin s' = true /\ TCPSender.bytes_in_flight s' = 0 /\
  TCPSender._segments_out s' = TCPSender._segments_out s /\
  (consecutive_retransmissions s' = 0 \/ s' = s) /\ _stream s' = _stream s /\ _next_seqno s' = _next_seqno s.
Proof.
  intros Hwf Hf H0 Hw s'. destruct (ack_after_fin s n w Hwf Hf Hw) as (H1 & H2 & H3 & H4).
  split; [done|]. split; [done|]. split; [unfold s'; lia|done].
Qed.

Lemma waiting_send c s0 :
  TCPSender.wf (_sender c) -> waiting c -> _time_since_last_segment_received c < 10 * TIMEOUT_DFLT ->
  let c' := send_segments (on_sender (fun _ => send_empty_segment s0) c) in
  s0 = _sender c -> waiting c' /\ _receiver c' = _receiver c /\
  _time_since_last_segment_received c' = _time_since_last_segment_received c /\
  segments_out c' = segments_out c ++ [stamp (_receiver c) (empty_segment s0)].
Proof.
  intros Hwf [W1 W2 W3 W4 W5 W6 W7 W8] Ht c' ->. set (c1 := on_sender _ c) in *.
  destruct (send_segments_parts c1) as (P1 & P2 & P3 & P4 & P5). fold c' in P1, P2, P3, P4, P5.
  assert (Hq : TCPSender.segments_out (_sender c1) = [empty_segment (_sender c)]).
  { change (TCPSender._segments_out (_sender c) ++ [empty_segment (_sender c)] = [empty_segment (_sender c)]). by rewrite W7. }
  rewrite Hq in P3.
  assert (Hal : _active c' = true /\ _linger_after_streams_finish c' = true).
  { unfold c', send_segments. cbn zeta. cbn [_receiver set_sender set_segments_out _sender c1 on_sender].
    destruct (ByteStream.input_ended _); [|done].
    change (stream_in (clear_segments_out (send_empty_segment (_sender c)))) with (stream_in (_sender c)).
    unfold stream_in. rewrite (wf_fin _ Hwf W5). cbn [negb].
    destruct (_ =? 0); [|done]. cbn [_linger_after_streams_finish _time_since_last_segment_received _cfg set_sender set_segments_out c1 on_sender].
    rewrite W2, W3, (proj2 (Z.leb_gt _ _)) by lia. done. }
  split; [|split; [by rewrite P1|split; [by rewrite P4|exact P3]]].
  constructor; rewrite ?P1, ?P2, ?P5; try done; apply Hal.
Qed.

Lemma waiting_receives c seg c' :
  TCPSender.wf (_sender c) -> 0 <= win (header seg) < 2 ^ 16 -> waiting c -> rst (header seg) = false ->
  segment_received c seg = Ok c' ->
  waiting c' /\ _time_since_last_segment_received c' = 0 /\
  (if ByteStream.input_ended (inbound_stream c) && negb (fin (header seg))
   then _receiver c' = _receiver c /\ segments_out c' = segments_out c
   else TCPReceiver.segment_received (_receiver c) seg = Ok (_receiver c') /\
     exists s0, segments_out c' = segments_out c ++ [stamp (_receiver c') (empty_segment s0)]).
Proof.
  intros Hwf Hw Hwt Hr. pose proof Hwt as [W1 W2 W3 W4 W5 W6 W7 W8]. unfold segment_received. rewrite W1, Hr. cbn [negb]. cbn zeta.
  assert (Hsyn : TCPSender._syn (_sender c) = true).
  { destruct (TCPSender._syn (_sender c)) eqn:E; [done|]. destruct (wf_syn _ Hwf E). congruence. }
  cbn [_sender set_time _receiver]. rewrite (fin_sent_eq _ Hwf Hsyn), W5, W6.
  pose proof (wf_next _ Hwf) as Hn. rewrite Hsyn, W5 in Hn. cbn [b1] in Hn.
  pose proof (ByteStream.wf_totout _ (wf_stream _ Hwf)) as Ht.
  change (ByteStream._totout (_stream (_sender c))) with (ByteStream.bytes_read (_stream (_sender c))) in Ht.
  unfold next_seqno_absolute. rewrite (proj2 (Z.eqb_neq (_next_seqno (_sender c)) 0)) by lia.
  unfold stream_in. rewrite (wf_fin _ Hwf W5). cbn [negb andb Z.eqb Z.ltb Z.compare]. rewrite !andb_false_r. cbn [andb].
  unfold inbound_stream.
  assert (Hthen : (c0 ← receiver_segment seg (sender_ack seg (set_time c 0)); Ok (send_segments (on_sender send_empty_segment c0))) = Ok c' ->
    waiting c' /\ _time_since_last_segment_received c' = 0 /\
    TCPReceiver.segment_received (_receiver c) seg = Ok (_receiver c') /\
    exists s0, segments_out c' = segments_out c ++ [stamp (_receiver c') (empty_segment s0)]).
  { unfold receiver_segment. cbn [_receiver sender_ack on_sender set_sender set_time].
    destruct (TCPReceiver.segment_received _ _) as [r|] eqn:Er; [|done]. cbn [mbind result_bind]. intros [= <-].
    destruct (receiver_keeps_flags _ _ _ Er) as (_ & _ & K2).
    destruct (ack_nothing (_sender c) (TCPHeader.ackno (header seg)) (win (header seg)) Hwf W5 W6 Hw) as (A1 & A2 & A3 & A4 & A5 & _).
    set (c0 := set_receiver _ r). destruct (waiting_send c0 (_sender c0)) as (S1 & S2 & S3 & S4).
    - done.
    - constructor; try done; [by apply K2|cbn; congruence|]. cbn. destruct A5 as [->| ->]; [done|exact W8].
    - done.
    - done.
    - split; [exact S1|]. split; [exact S3|].
      change (send_segments (on_sender send_empty_segment c0)) with (send_segments (on_sender (fun _ => send_empty_segment (_sender c0)) c0)).
      rewrite S2. split; [done|]. by exists (_sender c0). }
  destruct (ByteStream.input_ended (TCPReceiver.stream_out (_receiver c))); cbn [negb andb].
  - destruct (fin (header seg)); cbn [negb]; [exact Hthen|]. intros [= <-]. done.
  - exact Hthen.
Qed.

(** ** A batch of segments reaches the receiving side *)

(** What segments make of the waiting side [a]. *)
Record heard (a b : endpoint) (c : TCPConnection) : Prop := {
  hd_linked : linked (with_conn a c) b;
  hd_isn : isn_of (with_conn a c) = isn_of a;
  hd_ended : ended (with_conn a c) = ended a;
  hd_waiting : waiting c;
  hd_expected : expected (_receiver (conn a)) <= expected (_receiver c);
  hd_capacity : TCPReceiver._capacity (_receiver c) = TCPReceiver._capacity (_receiver (conn a));
  hd_read : ByteStream.bytes_read (inbound_stream c) = ByteStream.bytes_read (inbound_stream (conn a));
  hd_open : ByteStream.input_ended (inbound_stream (conn a)) = true -> ByteStream.input_ended (inbound_stream c) = true;
  hd_queue : exists new, segments_out c = segments_out (conn a) ++ new /\ Forall replying new
}.

Lemma heard_refl a b : linked a b -> waiting (conn a) -> heard a b (conn a).
Proof. intros. constructor; try done; [by destruct a|]. exists []. split; [by rewrite app_nil_r|apply Forall_nil_2]. Qed.

Lemma heard_trans a b c c' : heard a b c -> heard (with_conn a c) b c' -> heard a b c'.
Proof.
  intros [A1 A2 A3 A4 A5 A6 A7 A8 [n1 [A9 A10]]] [B1 B2 B3 B4 B5 B6 B7 B8 [n2 [B9 B10]]]. cbn [with_conn conn] in *.
  constructor; try done; try congruence; [by rewrite <- A2|by rewrite <- A3|lia|auto|].
  exists (n1 ++ n2). rewrite B9, A9, app_assoc. split; [done|]. by apply Forall_app.
Qed.

(** The side has queued an answer with the number it expects. *)
Definition answers (b : endpoint) (c : TCPConnection) : Prop :=
  exists seg, seg ∈ segments_out c /\ acking (expected (_receiver c)) (isn_of b) seg.

(** The segment [z] with the number [k], as [b] keeps it. *)
Definition kept_by (b : endpoint) (k : Z) (z : TCPSegment) : Prop :=
  kept_at (written b) (ended b) (isn_of b) (k, z) /\ 0 < length_in_sequence_space z.

Lemma waiting_one a b seg :
  linked a b -> waiting (conn a) -> flying b a seg -> replying seg ->
  exists c, segment_received (conn a) seg = Ok c /\ heard a b c /\ _time_since_last_segment_received c = 0 /\
    (ByteStream.input_ended (inbound_stream (conn a)) = false \/ fin (header seg) = true -> answers b c) /\
    (forall k z r0, kept_by b k z -> seg = stamp r0 z -> 0 < k <= expected (_receiver (conn a)) ->
       k + length_in_sequence_space z <= 1 + ByteStream.bytes_read (inbound_stream (conn a)) + TCPReceiver._capacity (_receiver (conn a)) ->
       k + length_in_sequence_space z <= expected (_receiver c)).
Proof.
  intros Hl Hwt Hf [Hr Ha]. destruct (linked_receive a b seg Hl Hf Ha) as (c & Hc & Hl' & Hi & Hx & _ & He).
  destruct (linked_facts a b Hl) as (Wf & _ & _ & _ & _ & Rc & _). pose proof (flying_win _ _ _ Hf Hr) as Hw.
  destruct (waiting_receives (conn a) seg c Wf Hw Hwt Hr Hc) as (Hwt' & Ht & Hcase).
  destruct (linked_facts _ _ Hl') as (_ & _ & _ & _ & _ & Rc' & _). cbn [with_conn conn] in *.
  pose proof Hl as [_ [B1 _ _]]. pose proof (si_isn _ _ _ B1) as Hbi. pose proof (si_small _ _ _ B1) as Hbs.
  destruct (fl_emitted _ _ _ Hf) as [?|Hsent]; [congruence|]. pose proof (sent_seg_of _ _ _ _ Hbs Hsent) as Hof.
  destruct (segment_received_receives (written b) (isn_of b) _ seg Hbi ltac:(lia) Rc Hof) as (r1 & Er & Rr & Ecap & _ & Erd & _).
  assert (Htake : forall k z r0, kept_by b k z -> seg = stamp r0 z -> 0 < k <= expected (_receiver (conn a)) ->
    k + length_in_sequence_space z <= expected r1 \/
    ByteStream.input_ended (TCPReceiver.stream_out (_receiver (conn a))) = false /\
    1 + ByteStream.bytes_read (TCPReceiver.stream_out (_receiver (conn a))) + TCPReceiver._capacity (_receiver (conn a)) <= expected r1).
  { intros k z r0 [Hk Hz] -> Hke. exact (proj2 (receiver_takes _ _ _ k z _ r0 r1 Hbi Hbs Rc Hk Hz Hke Er)). }
  exists c. split; [done|]. unfold inbound_stream in *.
  destruct (ByteStream.input_ended (TCPReceiver.stream_out (_receiver (conn a))) && negb (fin (header seg))) eqn:Eb.
  - destruct Hcase as [Hrv Hq]. apply andb_true_iff in Eb as [Ee Enf]. apply negb_true_iff in Enf.
    pose proof (ended_expected _ _ _ Rc (wt_syn _ Hwt) Ee) as Htot.
    split; [constructor; unfold inbound_stream; rewrite ?Hrv; try done; exists []; rewrite Hq, app_nil_r; split; [done|apply Forall_nil_2]|].
    split; [done|]. split; [intros [?|?]; congruence|]. intros k z r0 Hk Hs Hke _. rewrite Hrv, Htot.
    pose proof (expected_bound _ _ _ Rr). destruct (Htake k z r0 Hk Hs Hke) as [?|[? _]]; [lia|congruence].
  - destruct Hcase as [Erc [s0 Hq]]. rewrite Er in Erc. injection Erc as ->.
    pose proof (stamp_acking _ _ _ (empty_segment s0) Rc' Hbi (wt_syn _ Hwt') eq_refl) as Hak.
    split; [constructor; unfold inbound_stream; try done|].
    + intros He1. by apply (receiver_keeps_flags _ _ _ Er).
    + eexists. split; [exact Hq|]. apply Forall_singleton. apply Hak.
    + split; [done|]. split.
      * intros _. eexists. split; [|exact Hak]. rewrite Hq. apply elem_of_app. right. by apply list_elem_of_singleton.
      * intros k z r0 Hk Hs Hke Hroom. destruct (Htake k z r0 Hk Hs Hke) as [?|[_ ?]]; lia.
Qed.

(** Once the stream has ended its number stays. *)
Lemma answers_stay a b c c' :
  heard a b c -> heard (with_conn a c) b c' -> ByteStream.input_ended (inbound_stream c) = true ->
  answers b c -> answers b c'.
Proof.
  intros H1 H2 He (seg & Hin & Hs). destruct (linked_facts _ _ (hd_linked _ _ _ H1)) as (_ & _ & _ & _ & _ & R1 & _).
  destruct (linked_facts _ _ (hd_linked _ _ _ H2)) as (_ & _ & _ & _ & _ & R2 & _). cbn [with_conn conn] in *.
  exists seg. destruct (hd_queue _ _ _ H2) as (new & -> & _). split; [apply elem_of_app; by left|].
  rewrite (ended_expected _ _ _ R1 (wt_syn _ (hd_waiting _ _ _ H1)) He) in Hs.
  by rewrite (ended_expected _ _ _ R2 (wt_syn _ (hd_waiting _ _ _ H2)) (hd_open _ _ _ H2 He)).
Qed.

Lemma waiting_batch q a b :
  linked a b -> waiting (conn a) -> Forall (flying b a) q -> Forall replying q ->
  exists c, receive_all (conn a) q = Ok c /\ heard a b c /\ (q <> [] -> _time_since_last_segment_received c = 0) /\
    (ByteStream.input_ended (inbound_stream (conn a)) = false /\ q <> [] \/
     Exists (fun seg => fin (header seg) = true) q -> answers b c) /\
    (forall k z r0, kept_by b k z -> stamp r0 z ∈ q -> 0 < k <= expected (_receiver (conn a)) ->
       k + length_in_sequence_space z <= 1 + ByteStream.bytes_read (inbound_stream (conn a)) + TCPReceiver._capacity (_receiver (conn a)) ->
       k + length_in_sequence_space z <= expected (_receiver c)).
Proof.
  revert a. induction q as [|seg q IH]; intros a Hl Hwt Hf Hp.
  { exists (conn a). split; [done|]. split; [by apply heard_refl|]. split; [done|]. split.
    - intros [[_ ?]|He]; [done|]. by apply Exists_nil in He.
    - intros k z r0 _ Hin. by apply not_elem_of_nil in Hin. }
  apply Forall_cons in Hf as [Hf Hfs]. apply Forall_cons in Hp as [Hp Hps].
  destruct (waiting_one a b seg Hl Hwt Hf Hp) as (c1 & E1 & A1 & T1 & R1 & K1).
  destruct (IH (with_conn a c1)) as (c2 & E2 & A2 & T2 & R2 & K2); [apply A1|apply A1| |done|].
  { eapply Forall_impl; [exact Hfs|]. intros z. apply flying_same, A1. }
  cbn [with_conn conn] in *. pose proof (heard_trans _ _ _ _ A1 A2) as A12.
  exists c2. cbn [receive_all]. rewrite E1. split; [exact E2|]. split; [done|]. split; [|split].
  - intros _. destruct q; [by injection E2 as <-|by apply T2].
  - intros Hpre. destruct (decide (Exists (fun seg => fin (header seg) = true) q)) as [?|Hnf]; [auto|].
    assert (Hr : answers b c1).
    { apply R1. destruct Hpre as [[? _]|He]; [by left|right]. by apply Exists_cons in He as [?|?]. }
    destruct q as [|s2 q]; [by injection E2 as <-|].
    destruct (ByteStream.input_ended (inbound_stream c1)) eqn:Ee; [exact (answers_stay a b c1 c2 A1 A2 Ee Hr)|]. apply R2. by left.
  - intros k z r0 Hk Hin Hke Hroom. pose proof (hd_expected _ _ _ A1). pose proof (hd_expected _ _ _ A2). cbn [with_conn conn] in *.
    apply elem_of_cons in Hin as [Hs|Hin].
    + specialize (K1 k z r0 Hk (eq_sym Hs) Hke Hroom). lia.
    + apply (K2 k z r0 Hk Hin); [lia|]. rewrite (hd_read _ _ _ A1), (hd_capacity _ _ _ A1). done.
Qed.
