(* ===== verification/BenchmarkTurns.v ===== *)
(** * A turn of the throughput benchmark

    A turn of the loop of [src/apps/tcp_benchmark.cc] in the middle of the
    transfer acknowledges at least the oldest outstanding segment: it is in the
    queue, because the clock of the turn before has repeated it; the receiving
    side has been read empty, so it takes it; and its answer reaches the sending
    side in the same turn. The last answer closes the sending side. *)

From S2P Require Import Prelude WrappingIntegers ByteStream StreamReassembler ReassemblerProps Buffer TCPHeader TCPSegment TCPReceiver TCPSender TCPState TCPConnection Transport Emission Acknowledgment Progress CommandLine Benchmark Lockstep.

(** ** The sending side at the start of a turn *)

(** The oldest outstanding segment waits in the queue. *)
Definition queued (c : TCPConnection) : Prop :=
  forall k z l, _segments_outgoing (_sender c) = (k, z) :: l -> exists r0, stamp r0 z ∈ segments_out c.

(** [a] is the sending side, [b] the receiving one. *)
Record sending (a b : endpoint) : Prop := {
  sg_linked : linked a b;
  sg_busy : busy (conn a);
  sg_acked : 0 < acked (_sender (conn a));
  sg_queued : queued (conn a);
  sg_queue : Forall (acking (zlen (written b) + 2) (isn_of b)) (segments_out (conn a));
  sg_initial : _initial_retransmission_timeout (_sender (conn a)) = TIMEOUT_DFLT;
  sg_capacity : 0 < ByteStream._capacity (_stream (_sender (conn a)));
  sg_emits : conn_emits (conn a)
}.

(** Filling the window after a change of the stream. *)
Lemma refill_queued c s :
  TCPSender.wf s -> _segments_outgoing s = _segments_outgoing (_sender c) -> queued c ->
  queued (send_segments (on_sender (fun _ => fill_window s) c)).
Proof.
  intros Hwf Ho Hq k z l. set (c1 := on_sender _ c). destruct (send_segments_parts c1) as (_ & P2 & P3 & _).
  unfold segments_out. rewrite P2, P3. change (_segments_outgoing (clear_segments_out (_sender c1))) with (_segments_outgoing (fill_window s)).
  change (TCPSender.segments_out (_sender c1)) with (TCPSender._segments_out (fill_window s)).
  destruct (fill_outstanding s Hwf) as [_ _ [l2 Hl2] _]. destruct (fill_window_more s Hwf) as (segs & [] & _).
  rewrite Hl2, Ho in *. destruct (_segments_outgoing (_sender c)) as [|[k1 z1] l1] eqn:Eo.
  - cbn [app map] in *. intros ->. exists (_receiver c1). apply elem_of_app. right. apply list_elem_of_fmap_2.
    rewrite more_out, <- more_outgoing. apply elem_of_app. right. cbn. apply elem_of_cons. by left.
  - intros [= <- <- _]. destruct (Hq k1 z1 l1 Eo) as [r0 Hr]. exists r0. apply elem_of_app. by left.
Qed.

(** The window is filled after a change of the stream. *)
Definition refilled (c c' : TCPConnection) : Prop :=
  exists s, TCPSender.wf s /\ _segments_outgoing s = _segments_outgoing (_sender c) /\
    TCPSender._segments_out s = [] /\ c' = send_segments (on_sender (fun _ => fill_window s) c).

(** What the calls of the application leave of [sending]. *)
Lemma sending_refill a a' b s :
  sending a b -> linked a' b -> conn a' = send_segments (on_sender (fun _ => fill_window s) (conn a)) ->
  conn_emits (conn a') -> TCPSender.wf s -> snd_emits unstamped s ->
  _segments_outgoing s = _segments_outgoing (_sender (conn a)) -> _next_seqno s = _next_seqno (_sender (conn a)) ->
  _outgoing_bytes s = _outgoing_bytes (_sender (conn a)) ->
  _initial_retransmission_timeout s = _initial_retransmission_timeout (_sender (conn a)) ->
  ByteStream._capacity (_stream s) = ByteStream._capacity (_stream (_sender (conn a))) ->
  (finished (conn a') -> False) ->
  sending a' b /\ acked (_sender (conn a')) = acked (_sender (conn a)).
Proof.
  intros [S1 S2 S0 S3 S4 S5 S6 S7] Hl Hc Hem Hwf Hun H1 H2 H3 H4 H5 Hnf.
  set (c1 := on_sender _ (conn a)) in *. destruct (send_segments_parts c1) as (P1 & P2 & P3 & _).
  destruct (fill_outstanding s Hwf) as [M0 M1 _ _]. pose proof (acked_fill s Hwf) as Ha.
  pose proof S2 as [B1 B2 B3 B4 B5 B6 B7].
  assert (Hb : busy (conn a')).
  { destruct (busy_send c1) as [Hb|Hf]; try done.
    - by apply fill_window_wf.
    - by left.
    - change (0 < _next_seqno (fill_window s)). pose proof (fill_next s Hwf). unfold next_seqno_absolute in B6. lia.
    - by rewrite Hc.
    - exfalso. apply Hnf. by rewrite Hc. }
  assert (Hk : acked (_sender (conn a')) = acked (_sender (conn a))).
  { rewrite Hc, P2. change (acked (clear_segments_out (_sender c1))) with (acked (fill_window s)). rewrite Ha.
    unfold acked, next_seqno_absolute, TCPSender.bytes_in_flight. congruence. }
  split; [|done].
  - constructor; try done.
    + by rewrite Hk.
    + rewrite Hc. by apply refill_queued.
    + rewrite Hc. unfold segments_out. rewrite P3. apply Forall_app. split; [done|]. apply Forall_fmap.
      pose proof S1 as [[A1 _ _] [C1 _ _]]. destruct (linked_facts _ _ S1) as (_ & _ & _ & _ & _ & Rc & _).
      rewrite <- (ended_expected _ _ _ Rc B3 B4).
      eapply Forall_impl; [apply (emits_queue unstamped), fill_window_emits; [apply _|exact Hun]|].
      intros z (_ & _ & Hz). eapply stamp_acking; [exact Rc|apply (si_isn _ _ _ C1)|done|done].
    + rewrite Hc, P2. change (_initial_retransmission_timeout (fill_window s) = TIMEOUT_DFLT). congruence.
    + rewrite Hc, P2. change (0 < ByteStream._capacity (_stream (fill_window s))). by rewrite M0, H5.
Qed.

Lemma sending_write a b data n c :
  sending a b -> ended a = false -> zlen (written a) + zlen data + 2 < 2 ^ 32 -> data <> [] ->
  write (conn a) data = (n, c) ->
  let a' := {| conn := c; written := written a ++ take (Z.to_nat n) data; got := got a |} in
  sending a' b /\ ended a' = false /\ acked (_sender c) = acked (_sender (conn a)) /\ refilled (conn a) c /\
  isn_of a' = isn_of a.
Proof.
  intros Hs He Hl Hd Hw a'. destruct (linked_own a b a' [] (sg_linked _ _ Hs)) as (Hl' & Hi & _ & _); [by eapply local_write|].
  pose proof Hl' as [[A1 _ _] _]. pose proof Hs as [[[A0 _ _] _] _ _ _ _ _ _ _].
  pose proof (si_conn _ _ _ A0) as C0. rewrite He in C0. destruct (write_inv _ _ _ _ _ _ _ _ _ C0 Hl Hw) as [C1 _].
  assert (He' : ended a' = false) by exact (ci_ended _ _ _ _ _ _ _ C1).
  pose proof (write_emits (conn a) data (sg_emits _ _ Hs)) as Hem. rewrite Hw in Hem.
  revert Hw. unfold write. destruct data as [|d data]; [done|].
  destruct (ByteStream.write (stream_in (_sender (conn a))) (d :: data)) as [m st] eqn:Ew. intros [= <- Hc].
  destruct (linked_facts _ _ (sg_linked _ _ Hs)) as (_ & _ & _ & _ & Un & _).
  pose proof (stream_write_inv _ _ _ _ _ _ _ _ _ C0 Hl Ew) as C2.
  destruct (sending_refill a a' b (on_stream_in (fun _ => st) (_sender (conn a))) Hs Hl') as [H1 H2]; try done.
  - exact (snd_wf _ _ (ci_sends _ _ _ _ _ _ _ C2)).
  - by apply on_stream_emits.
  - cbn. unfold ByteStream.write in Ew. injection Ew as _ <-. done.
  - intros [_ _ _ Hf _]. apply eof_iff in Hf as [Hf _]. unfold ended in He'. congruence.
  - split_and!; try done. eexists. split; [exact (snd_wf _ _ (ci_sends _ _ _ _ _ _ _ C2))|].
    split; [done|]. split; [apply Hs|done].
Qed.

(** The end of the stream is sent, or waits for the window. *)
Lemma sending_end a b :
  sending a b -> ended a = false ->
  let a' := with_conn a (end_input_stream (conn a)) in
  sending a' b /\ ended a' = true /\ acked (_sender (conn a')) = acked (_sender (conn a)) /\ refilled (conn a) (conn a') /\
  isn_of a' = isn_of a.
Proof.
  intros Hs He a'. destruct (linked_own a b a' [] (sg_linked _ _ Hs)) as (Hl' & Hi & _ & _); [apply local_end|].
  destruct (linked_facts _ _ (sg_linked _ _ Hs)) as (Wf & _ & _ & _ & Un & _). pose proof Hs as [[[A0 _ _] _] _ _ _ _ _ _ _].
  assert (He' : ended a' = true) by exact (ci_ended _ _ _ _ _ _ _ (end_inv _ _ _ _ _ _ _ (si_conn _ _ _ A0))).
  destruct (linked_facts _ _ Hl') as (Wf' & [_ St'] & _ & _ & _ & _ & _).
  set (s := on_stream_in ByteStream.end_input (_sender (conn a))). assert (Ws : TCPSender.wf s) by by apply end_input_wf.
  destruct (send_segments_parts (on_sender fill_window (on_sender (on_stream_in ByteStream.end_input) (conn a)))) as (_ & P2 & _).
  assert (Es : _sender (conn a') = clear_segments_out (fill_window s)) by exact P2.
  destruct (sending_refill a a' b s Hs Hl') as [H1 H2]; try done.
  - by apply end_input_emits, Hs.
  - by apply on_stream_emits.
  - intros [_ _ _ Hf H0]. pose proof (wf_next _ Wf) as Hn. pose proof (wf_next _ Wf') as Hn'.
    destruct (sender_written _ Wf) as (R0 & Hw & _). destruct (sender_written _ Wf') as (_ & Hw' & _).
    assert (Hnf : TCPSender._fin (_sender (conn a)) = false).
    { destruct (TCPSender._fin (_sender (conn a))) eqn:Ef; [|done]. pose proof (wf_fin _ Wf Ef) as Hx.
      apply eof_iff in Hx as [Hx _]. unfold ended, stream_in in He. congruence. }
    pose proof (bz_next _ (sg_busy _ _ Hs)) as Hnz. unfold next_seqno_absolute in Hnz.
    destruct (fill_window_more s Ws) as (segs & Hm & _). pose proof (fill_next s Ws) as Hfn.
    apply eof_iff in Hf as [_ Hb]. rewrite Es in *. unfold TCPSender.bytes_in_flight, stream_in in *.
    cbn [clear_segments_out _stream _next_seqno _outgoing_bytes TCPSender._syn TCPSender._fin] in *.
    pose proof (more_flight _ _ _ Hm). pose proof (more_next _ _ _ Hm). pose proof (more_written _ _ _ Hm) as Hmw.
    change (ByteStream.bytes_written (_stream s)) with (ByteStream.bytes_written (_stream (_sender (conn a)))) in Hmw.
    change (_next_seqno s) with (_next_seqno (_sender (conn a))) in *. change (_outgoing_bytes s) with (_outgoing_bytes (_sender (conn a))) in *.
    pose proof (wf_flight _ Wf) as Hfl. unfold ByteStream.buffer_size in *. rewrite Hb, (@zlen_nil byte) in Hw'.
    pose proof (zlen_nonneg (ByteStream._buff (_stream (_sender (conn a))))).
    assert (Hsy : TCPSender._syn (_sender (conn a)) = true).
    { destruct (TCPSender._syn (_sender (conn a))) eqn:Ey; [done|]. destruct (wf_syn _ Wf Ey) as [E1 E2].
      rewrite E1, E2 in Hn. cbn [b1] in Hn. lia. }
    pose proof (more_syn _ _ _ Hm Hsy) as Hsy'.
    assert (Hf' : TCPSender._fin (fill_window s) = true).
    { pose proof (effective_window_range _ Ws) as Hew. destruct (fill_window_spec s Ws) as (_ & _ & [?|(_ & _ & Hx)]); [lia|].
      apply Hx. rewrite (more_ended _ _ _ Hm). done. }
    rewrite Hsy', Hf' in Hn'. rewrite Hsy, Hnf in Hn. cbn [b1] in *. lia.
  - split_and!; try done. exists s. split; [done|]. split; [done|]. split; [apply Hs|done].
Qed.

(** With everything written that there is room for, something is outstanding. *)
Lemma sending_outstanding a b :
  sending a b ->
  remaining_outbound_capacity (conn a) <= 0 \/ ended a = true ->
  _segments_outgoing (_sender (conn a)) <> [].
Proof.
  intros Hs Hx Hog. destruct (linked_facts _ _ (sg_linked _ _ Hs)) as (Wf & [_ St] & Sn & _).
  pose proof (wf_chain _ Wf) as Hc. rewrite Hog in Hc. cbn [chain] in Hc.
  pose proof (bz_next _ (sg_busy _ _ Hs)) as Hn. unfold next_seqno_absolute in Hn.
  assert (Hsy : TCPSender._syn (_sender (conn a)) = true).
  { destruct (TCPSender._syn (_sender (conn a))) eqn:Ey; [done|]. destruct (wf_syn _ Wf Ey) as [E1 E2].
    pose proof (wf_next _ Wf) as Hnx. rewrite Ey, E1, E2 in Hnx. cbn [b1] in Hnx. lia. }
  pose proof (effective_window_range _ Wf). destruct (St Hsy) as [?|(Hb & _ & Hf)]; [lia|].
  destruct Hx as [Hx|Hx].
  - unfold remaining_outbound_capacity in Hx. rewrite remaining_capacity_eq in Hx by apply Wf.
    unfold stream_in, ByteStream.buffer_size in Hx. rewrite Hb, (@zlen_nil byte) in Hx. pose proof (sg_capacity _ _ Hs). lia.
  - pose proof (bz_open _ (sg_busy _ _ Hs) (wf_fin _ Wf (Hf Hx))) as Ho. unfold TCPSender.bytes_in_flight in Ho. lia.
Qed.

(** The clock repeats the oldest segment. *)
Lemma busy_tick c :
  TCPSender.wf (_sender c) -> busy c -> fresh (_sender c) -> consecutive_retransmissions (_sender c) = 0 ->
  _initial_retransmission_timeout (_sender c) = TIMEOUT_DFLT ->
  let c' := tick c 1000 in
  busy c' /\ _receiver c' = _receiver c /\ acked (_sender c') = acked (_sender c) /\
  _segments_outgoing (_sender c') = _segments_outgoing (_sender c) /\
  _initial_retransmission_timeout (_sender c') = TIMEOUT_DFLT /\
  ByteStream._capacity (_stream (_sender c')) = ByteStream._capacity (_stream (_sender c)) /\
  segments_out c' = segments_out c ++
    match _segments_outgoing (_sender c) with [] => [] | (_, z) :: _ => [stamp (_receiver c) z] end.
Proof.
  intros Hwf Hb Hf H0 Hin c'. pose proof Hb as [B1 B2 B3 B4 B5 B6 B7].
  set (s := TCPSender.tick (_sender c) 1000). assert (Ws : TCPSender.wf s) by by apply tick_wf.
  assert (Hs : TCPSender._segments_out s = match _segments_outgoing (_sender c) with [] => [] | (_, z) :: _ => [z] end /\
    consecutive_retransmissions s <= 1 /\ acked s = acked (_sender c) /\ _segments_outgoing s = _segments_outgoing (_sender c) /\
    _initial_retransmission_timeout s = TIMEOUT_DFLT /\ _stream s = _stream (_sender c) /\
    _next_seqno s = _next_seqno (_sender c) /\ _outgoing_bytes s = _outgoing_bytes (_sender c)).
  { unfold s, TCPSender.tick. unfold consecutive_retransmissions in *. destruct Hf as [Hf|[Hf1 Hf2]].
    - rewrite Hf. cbn zeta. split_and!; try done. cbn. lia.
    - rewrite Hf1, Hf2, Hin. destruct (_segments_outgoing (_sender c)) as [|[k z] l]; cbn zeta.
      + split_and!; try done. cbn. lia.
      + change (TIMEOUT_DFLT <=? u32 (0 + 1000)) with true. cbn iota. rewrite H0. split_and!; try done.
        cbn. by rewrite B5. }
  destruct Hs as (Q1 & Q2 & Q3 & Q4 & Q5 & Q6 & Q7 & Q8).
  set (c1 := on_sender (fun s => TCPSender.tick s 1000) (set_time c (u64 (_time_since_last_segment_received c + 1000)))).
  assert (Ec : c' = send_segments c1).
  { unfold c', tick. rewrite B1. cbn [negb]. cbn zeta. fold c1. change (_sender c1) with s.
    rewrite (proj2 (Z.ltb_ge _ _)) by (unfold MAX_RETX_ATTEMPTS; lia). done. }
  destruct (send_segments_parts c1) as (P1 & P2 & P3 & _). rewrite <- Ec in P1, P2, P3. change (_sender c1) with s in *.
  split; [|unfold segments_out; rewrite P1, P2, P3; split_and!; try done].
  - rewrite Ec. destruct (busy_send c1) as [?|[_ _ _ Hfe Hff]]; try done.
    + by left.
    + unfold next_seqno_absolute in *. change (_sender c1) with s. lia.
    + exfalso. rewrite <- Ec, P2 in Hfe, Hff. unfold stream_in, TCPSender.bytes_in_flight in *. cbn [clear_segments_out _stream _outgoing_bytes] in *.
      rewrite Q6 in Hfe. specialize (B7 Hfe). lia.
  - cbn. by rewrite Q6.
  - change (TCPSender.segments_out s) with (TCPSender._segments_out s). rewrite Q1.
    by destruct (_segments_outgoing (_sender c)) as [|[k z] l].
Qed.

(** ** The receiving side *)

(** At the start of a turn: read empty, and the peer's stream is open. *)
Record listening (b : endpoint) : Prop := {
  ls_empty : ByteStream._buff (inbound_stream (conn b)) = [];
  ls_open : ByteStream.input_ended (inbound_stream (conn b)) = false;
  ls_capacity : TCPReceiver._capacity (_receiver (conn b)) = DEFAULT_CAPACITY;
  ls_queue : Forall replying (segments_out (conn b))
}.

(** The clock of a side that waits. *)
Lemma waiting_tick c :
  TCPSender.wf (_sender c) -> waiting c -> 0 <= _time_since_last_segment_received c ->
  _time_since_last_segment_received c + 1000 < 10 * TIMEOUT_DFLT ->
  let c' := tick c 1000 in
  waiting c' /\ _receiver c' = _receiver c /\ segments_out c' = segments_out c /\
  _time_since_last_segment_received c' = _time_since_last_segment_received c + 1000.
Proof.
  intros Hwf [W1 W2 W3 W4 W5 W6 W7 W8] Ht0 Ht c'. unfold TIMEOUT_DFLT in *.
  assert (Hog : _segments_outgoing (_sender c) = []).
  { pose proof (wf_chain _ Hwf) as Hc. destruct (_segments_outgoing (_sender c)) as [|[k z] l]; [done|].
    destruct Hc as (_ & Hl & Hc). apply chain_le in Hc. unfold TCPSender.bytes_in_flight in W6. lia. }
  set (c1 := on_sender (fun s => TCPSender.tick s 1000) (set_time c (u64 (_time_since_last_segment_received c + 1000)))).
  assert (Hs : TCPSender._segments_out (_sender c1) = [] /\ TCPSender._fin (_sender c1) = true /\
    TCPSender.bytes_in_flight (_sender c1) = 0 /\ consecutive_retransmissions (_sender c1) = consecutive_retransmissions (_sender c) /\
    _stream (_sender c1) = _stream (_sender c)).
  { unfold c1, TCPSender.tick. cbn [on_sender set_sender _sender set_time]. rewrite Hog. cbn zeta. by split_and!. }
  destruct Hs as (Q1 & Q2 & Q3 & Q4 & Q5).
  assert (Ec : c' = send_segments c1).
  { unfold c', tick. rewrite W1. cbn [negb]. cbn zeta. fold c1. rewrite Q4, (proj2 (Z.ltb_ge _ _)) by lia. done. }
  destruct (send_segments_parts c1) as (P1 & P2 & P3 & P4 & P5). rewrite <- Ec in *.
  assert (Hal : _active c' = true /\ _linger_after_streams_finish c' = true).
  { rewrite Ec. unfold send_segments. cbn zeta. cbn [_receiver set_sender set_segments_out _sender].
    destruct (ByteStream.input_ended _); [|done].
    change (stream_in (clear_segments_out (_sender c1))) with (_stream (_sender c1)). rewrite Q5, (wf_fin _ Hwf W5). cbn [negb].
    destruct (_ =? 0); [|done]. cbn [_linger_after_streams_finish _time_since_last_segment_received _cfg set_sender set_segments_out c1 on_sender set_time].
    rewrite W2, W3, u64_small, (proj2 (Z.leb_gt _ _)) by lia. done. }
  assert (Ho : segments_out c' = segments_out c).
  { unfold segments_out. rewrite P3. change (TCPSender.segments_out (_sender c1)) with (TCPSender._segments_out (_sender c1)).
    rewrite Q1. cbn. by rewrite app_nil_r. }
  split; [|split; [by rewrite P1|split; [done|rewrite P4; cbn; apply u64_small; lia]]].
  constructor; rewrite ?P1, ?P2, ?P5; try done; [apply Hal|apply Hal|]. change (consecutive_retransmissions (_sender c1) <= MAX_RETX_ATTEMPTS). lia.
Qed.

(** ** The sending side hands its queue over *)

Definition emptied (c : TCPConnection) : TCPConnection := set_segments_out c [].

Lemma move_segments_eq a b (reorder : bool) c :
  receive_all b (if reorder then rev (segments_out a) else segments_out a) = Ok c ->
  move_segments a b reorder = Ok (emptied a, c).
Proof. intros H. unfold move_segments. by rewrite H. Qed.

(** What the receiving side is after it got the queue of [a]. *)
Record delivered (a b : endpoint) (c : TCPConnection) : Prop := {
  dl_linked : linked (with_conn a (emptied (conn a))) (with_conn b c);
  dl_isn : isn_of (with_conn b c) = isn_of b;
  dl_ended : ended (with_conn b c) = ended b;
  dl_waiting : waiting c;
  dl_time : _time_since_last_segment_received c = 0;
  dl_capacity : TCPReceiver._capacity (_receiver c) = DEFAULT_CAPACITY;
  dl_queue : Forall replying (segments_out c);
  dl_answers : answers a c;
  dl_oldest k z l : _segments_outgoing (_sender (conn a)) = (k, z) :: l ->
    k + length_in_sequence_space z <= expected (_receiver c)
}.

Lemma hand_over a b :
  linked a b -> linked (with_conn a (emptied (conn a))) b /\ Forall (flying (with_conn a (emptied (conn a))) b) (segments_out (conn a)).
Proof.
  intros Hl. destruct (linked_own a b _ _ Hl (local_transmit _ _)) as (Hl' & _). split; [exact Hl'|].
  eapply Forall_impl; [by apply linked_queue|]. by intros z [].
Qed.

Lemma acking_replying n isn q : Forall (acking n isn) q -> Forall replying q.
Proof. intros H. eapply Forall_impl; [exact H|]. by intros z []. Qed.

Lemma Forall_order {A} (P : A -> Prop) (reorder : bool) q : Forall P q -> Forall P (if reorder then rev q else q).
Proof. destruct reorder; [|done]. rewrite !Forall_forall. intros H z Hz. apply H. by apply list_elem_of_In, in_rev, list_elem_of_In. Qed.

Lemma elem_order {A} (z : A) (reorder : bool) q : z ∈ q -> z ∈ (if reorder then rev q else q).
Proof. destruct reorder; [|done]. intros Hz. apply list_elem_of_In, in_rev. rewrite rev_involutive. by apply list_elem_of_In. Qed.

(** A segment that is kept is small. *)
Lemma kept_small a b k z l :
  sending a b -> _segments_outgoing (_sender (conn a)) = (k, z) :: l ->
  kept_by (with_conn a (emptied (conn a))) k z /\ length_in_sequence_space z <= MAX_PAYLOAD_SIZE + 2 /\ k = acked (_sender (conn a)).
Proof.
  intros Hs Hog. destruct (linked_facts _ _ (sg_linked _ _ Hs)) as (Wf & _ & _ & Kp & _).
  pose proof (wf_chain _ Wf) as Hc. rewrite Hog in Hc. destruct Hc as (Hk & Hl & _).
  unfold keeps in Kp. rewrite Hog in Kp. apply Forall_cons in Kp as [Kp _].
  pose proof (emits_outgoing _ _ (emits_sender _ (sg_emits _ _ Hs))) as He. rewrite Hog in He. apply Forall_cons in He as [(_ & _ & Hp) _].
  split; [by split|]. split; [|done]. cbn [snd] in Hp. unfold MAX_PAYLOAD_SIZE in *. pose proof (zlen_nonneg (str (payload z))).
  rewrite length_small by lia. destruct (TCPHeader.syn _), (TCPHeader.fin _); cbn [b1]; lia.
Qed.

Lemma listening_expected a b :
  linked b a -> waiting (conn b) -> listening b ->
  expected (_receiver (conn b)) = 1 + ByteStream.bytes_read (inbound_stream (conn b)).
Proof.
  intros Hl Hw [L1 L2 _ _]. destruct (linked_facts _ _ Hl) as (_ & _ & _ & _ & _ & Rc & _).
  pose proof (wf_written _ (fol_wf _ _ (rcv_follows _ _ _ Rc))) as (_ & Hx & _).
  unfold expected, next_expected. rewrite (wt_syn _ Hw). unfold inbound_stream in *. rewrite L2.
  change (_output (_reassembler (_receiver (conn b)))) with (TCPReceiver.stream_out (_receiver (conn b))) in Hx.
  unfold ByteStream.buffer_size in Hx. rewrite L1, (@zlen_nil byte) in Hx. lia.
Qed.

Lemma deliver_waiting reorder a b :
  sending a b -> _segments_outgoing (_sender (conn a)) <> [] -> waiting (conn b) -> listening b ->
  exists c, move_segments (conn a) (conn b) reorder = Ok (emptied (conn a), c) /\ delivered a b c.
Proof.
  intros Hs Ho Hw Hli. destruct (hand_over a b (sg_linked _ _ Hs)) as [Hl' Hf]. set (a' := with_conn a _) in *.
  set (q := segments_out (conn a)) in *. set (q' := if reorder then rev q else q).
  destruct (waiting_batch q' b a' (linked_sym _ _ Hl') Hw) as (c & E & Hh & Ht & Hr & Hk);
    [by apply Forall_order|apply Forall_order; eapply acking_replying, sg_queue, Hs|].
  assert (Hold : forall k z l, _segments_outgoing (_sender (conn a)) = (k, z) :: l -> exists r0, stamp r0 z ∈ q').
  { intros k z l Hog. destruct (sg_queued _ _ Hs k z l Hog) as [r0 Hin]. exists r0. by apply elem_order. }
  assert (Hne : q' <> []).
  { destruct (_segments_outgoing (_sender (conn a))) as [|[k z] l] eqn:Eo; [done|].
    destruct (Hold k z l eq_refl) as [r0 Hin]. intros ->. by apply not_elem_of_nil in Hin. }
  exists c. split; [by apply move_segments_eq|].
  constructor; try apply Hh.
  - apply linked_sym, Hh.
  - by apply Ht.
  - rewrite (hd_capacity _ _ _ Hh). apply Hli.
  - destruct (hd_queue _ _ _ Hh) as (new & -> & Hn). apply Forall_app. split; [apply Hli|done].
  - apply Hr. left. split; [apply Hli|done].
  - intros k z l Hog. destruct (Hold k z l Hog) as [r0 Hin]. destruct (kept_small a b k z l Hs Hog) as (Hkb & Hlen & ->).
    destruct (linked_facts _ _ (sg_linked _ _ Hs)) as (_ & _ & _ & _ & _ & _ & Hx).
    pose proof (listening_expected a' b (linked_sym _ _ Hl') Hw Hli) as He. pose proof (sg_acked _ _ Hs).
    apply (Hk _ z r0 Hkb Hin); [lia|]. rewrite (ls_capacity _ Hli). unfold DEFAULT_CAPACITY, MAX_PAYLOAD_SIZE in *. lia.
Qed.

(** ** The answers come back *)

Lemma receive_all_emits q c c' : receive_all c q = Ok c' -> conn_emits c -> conn_emits c'.
Proof.
  revert c. induction q as [|seg q IH]; intros c; cbn [receive_all]; [by intros [= <-]|].
  destruct (segment_received c seg) as [c1|] eqn:E; [|done]. intros H Hc. apply (IH c1 H). by eapply segment_received_emits.
Qed.

(** A finished side has had everything acknowledged. *)
Lemma finished_all a b :
  linked a b -> finished (conn a) -> 0 < acked (_sender (conn a)) ->
  ended a = true /\ expected (_receiver (conn b)) = zlen (written a) + 2 /\
  ByteStream.input_ended (inbound_stream (conn b)) = true.
Proof.
  intros Hl [_ _ _ Hf H0] Hk. destruct (linked_facts _ _ Hl) as (Wf & [_ St] & Sn & _ & _ & _ & Hx).
  destruct (linked_facts _ _ (linked_sym _ _ Hl)) as (_ & _ & _ & _ & _ & Rb & _).
  pose proof (expected_bound _ _ _ Rb) as Hb. apply eof_iff in Hf as [He Hbuf]. split; [exact He|].
  unfold acked, next_seqno_absolute, TCPSender.bytes_in_flight, stream_in in *.
  pose proof (wf_next _ Wf) as Hn. pose proof (effective_window_range _ Wf).
  assert (Hsy : TCPSender._syn (_sender (conn a)) = true).
  { destruct (TCPSender._syn (_sender (conn a))) eqn:Ey; [done|]. destruct (wf_syn _ Wf Ey) as [E1 E2].
    rewrite E1, E2 in Hn. cbn [b1] in Hn. lia. }
  destruct (St Hsy) as [?|(_ & _ & Hfin)]; [lia|]. rewrite Hsy, (Hfin He) in Hn. cbn [b1] in Hn.
  pose proof (snd_buff _ _ Sn) as Hd. pose proof (snd_read _ _ Sn) as Hrd. rewrite Hbuf in Hd.
  apply (f_equal zlen) in Hd. rewrite zlen_drop, (@zlen_nil byte) in Hd.
  pose proof (ByteStream.wf_totout _ (wf_stream _ Wf)) as Ht.
  change (ByteStream._totout (_stream (_sender (conn a)))) with (ByteStream.bytes_read (_stream (_sender (conn a)))) in Ht.
  assert (Htot : expected (_receiver (conn b)) = zlen (written a) + 2) by lia. split; [done|].
  unfold expected, next_expected, inbound_stream in *. pose proof (fol_written _ _ (rcv_follows _ _ _ Rb)) as Hw.
  change (_output (_reassembler (_receiver (conn b)))) with (TCPReceiver.stream_out (_receiver (conn b))) in Hw.
  pose proof (zlen_nonneg (written a)). destruct (TCPReceiver._syn (_receiver (conn b))); [|lia].
  destruct (ByteStream.input_ended (TCPReceiver.stream_out (_receiver (conn b)))); [done|lia].
Qed.

(** The answers of the receiving side [c], given to the sending side. *)
Record returned (a b : endpoint) (c ca : TCPConnection) : Prop := {
  rt_linked : linked (with_conn a ca) (with_conn b (emptied c));
  rt_isn : isn_of (with_conn a ca) = isn_of a;
  rt_ended : ended (with_conn a ca) = ended a;
  rt_queue : Forall (acking (zlen (written b) + 2) (isn_of b)) (segments_out ca);
  rt_initial : _initial_retransmission_timeout (_sender ca) = TIMEOUT_DFLT;
  rt_capacity : 0 < ByteStream._capacity (_stream (_sender ca));
  rt_emits : conn_emits ca;
  rt_state :
    finished ca /\ ended a = true /\ ByteStream.input_ended (inbound_stream c) = true \/
    busy ca /\ fresh (_sender ca) /\ consecutive_retransmissions (_sender ca) = 0 /\
    0 <= acked (_sender (conn a)) < acked (_sender ca) /\ ByteStream.input_ended (inbound_stream c) = false
}.

Lemma busy_emptied c : busy c -> busy (emptied c).
Proof. by intros []. Qed.

Lemma answer_back a b c k z l :
  sending a b -> _segments_outgoing (_sender (conn a)) = (k, z) :: l -> delivered a b c ->
  exists ca, move_segments c (emptied (conn a)) false = Ok (emptied c, ca) /\ returned a b c ca.
Proof.
  intros Hs Hog Hd. pose proof (dl_linked _ _ _ Hd) as Hl. set (a' := with_conn a _) in *. set (b1 := with_conn b c) in *.
  destruct (hand_over b1 a' (linked_sym _ _ Hl)) as [Hl2 Hf]. set (b2 := with_conn b1 _) in *. apply linked_sym in Hl2.
  destruct (dl_answers _ _ _ Hd) as (seg & Hin & Hak).
  destruct (busy_answers (segments_out c) a' b2 seg Hl2 (busy_emptied _ (sg_busy _ _ Hs)) Hf (dl_queue _ _ _ Hd) Hin Hak)
    as (ca & E & Ha & Hc).
  exists ca. split; [by apply move_segments_eq|].
  pose proof (an_advances _ _ _ Ha) as [V0 V1 V2 V3 V4 V5 V6]. cbn [a' with_conn conn emptied set_segments_out _sender] in V0, V1, V2, V3, V4, V5, V6.
  pose proof (an_linked _ _ _ Ha) as Hl3. pose proof (sg_acked _ _ Hs) as Hk0.
  constructor.
  - exact Hl3.
  - exact (an_isn _ _ _ Ha).
  - exact (an_ended _ _ _ Ha).
  - pose proof (an_queue _ _ _ Ha (Forall_nil_2 _)) as Hq. rewrite <- (dl_isn _ _ _ Hd). exact Hq.
  - rewrite V1. apply Hs.
  - rewrite V0. apply Hs.
  - eapply receive_all_emits; [exact E|]. destruct (sg_emits _ _ Hs). constructor; [done|apply Forall_nil_2].
  - destruct (an_state _ _ _ Ha) as [Hb|Hfi]; [right|left].
    + destruct (Hc Hb) as (C1 & C2 & C3). cbn [b2 b1 with_conn conn emptied set_segments_out _receiver a' written] in C2, C3.
      assert (Hm : acked (_sender (conn a)) < acked (_sender ca)) by (eapply C3; [exact Hog|by eapply dl_oldest]).
      split; [done|]. split; [auto|]. split; [done|]. split; [lia|].
      destruct (ByteStream.input_ended (inbound_stream c)) eqn:Ee; [|done]. exfalso.
      destruct (linked_facts _ _ (linked_sym _ _ Hl)) as (_ & _ & _ & _ & _ & Rc & _).
      pose proof (ended_expected _ _ _ Rc (wt_syn _ (dl_waiting _ _ _ Hd)) Ee) as Hx. cbn [b1 with_conn conn a' written] in Hx. lia.
    + destruct (finished_all _ _ Hl3 Hfi) as (F1 & _ & F3); [cbn [with_conn conn]; lia|].
      split; [done|]. split; [|exact F3]. rewrite <- F1. symmetry. exact (an_ended _ _ _ Ha).
Qed.

(** ** The application reads, and time passes *)

(** The receiving side after the answers, read empty. *)
Record emptied_by_reader (b b' : endpoint) : Prop := {
  er_buffer : ByteStream._buff (inbound_stream (conn b')) = [];
  er_same : exists st, conn b' = on_inbound_stream (fun _ => st) (conn b) /\
    ByteStream.input_ended st = ByteStream.input_ended (inbound_stream (conn b));
  er_written : written b' = written b
}.

Lemma reader_turn a b received :
  linked b a -> got b = received ->
  let n := ByteStream.buffer_size (inbound_stream (conn b)) in
  exists b', (if 0 <? n
     then (on_inbound_stream (fun st => snd (ByteStream.read st n)) (conn b),
           received ++ fst (ByteStream.read (inbound_stream (conn b)) n))
     else (conn b, received)) = (conn b', got b') /\
    linked b' a /\ emptied_by_reader b b' /\ isn_of b' = isn_of b.
Proof.
  intros Hl <- n. destruct (linked_facts _ _ Hl) as (_ & _ & _ & _ & _ & Rc & _).
  pose proof (zlen_nonneg (ByteStream._buff (inbound_stream (conn b)))) as Hz. unfold n, ByteStream.buffer_size in *.
  destruct (Z.ltb_spec 0 (zlen (ByteStream._buff (inbound_stream (conn b))))) as [Hn|Hn].
  - destruct (linked_own b a _ _ Hl (read_all_step _ b)) as (Hl' & Hi & _). exists (read_all b).
    split; [done|]. split; [done|]. split; [|done]. destruct (read_all_empties _ _ _ Rc) as [Hb _].
    constructor; [exact Hb| |done]. by eexists.
  - exists b. split; [done|]. split; [done|]. split; [|done]. constructor; [|by exists (inbound_stream (conn b)); destruct b as [[? ? ? [[] ? ? ? ? ?] ? ? ?] ? ?]|done].
    destruct (ByteStream._buff (inbound_stream (conn b))) as [|z l]; [done|]. rewrite zlen_cons in Hn. pose proof (zlen_nonneg l). lia.
Qed.

(** The sending side is done, the other one waits in TIME_WAIT. *)
Record closing (a b : endpoint) : Prop := {
  cl_linked : linked a b;
  cl_inactive : _active (conn a) = false;
  cl_ended : ended a = true;
  cl_queue : Forall replying (segments_out (conn a));
  cl_waiting : waiting (conn b);
  cl_in : ByteStream.input_ended (inbound_stream (conn b)) = true;
  cl_empty : ByteStream._buff (inbound_stream (conn b)) = [];
  cl_out : segments_out (conn b) = [];
  cl_time : 0 <= _time_since_last_segment_received (conn b) < 10 * TIMEOUT_DFLT
}.

(** A call of [tick] on one side. *)
Lemma linked_tick a b : linked a b -> linked (with_conn a (tick (conn a) 1000)) b /\ isn_of (with_conn a (tick (conn a) 1000)) = isn_of a.
Proof. intros H. destruct (linked_own a b _ _ H (local_tick _ _ 1000)) as (H1 & H2 & _). done. Qed.

(** The clock makes a busy side one that sends again. *)
Lemma sending_tick a b b' :
  linked a b -> busy (conn a) -> fresh (_sender (conn a)) -> consecutive_retransmissions (_sender (conn a)) = 0 ->
  0 < acked (_sender (conn a)) -> Forall (acking (zlen (written b) + 2) (isn_of b)) (segments_out (conn a)) ->
  _initial_retransmission_timeout (_sender (conn a)) = TIMEOUT_DFLT ->
  0 < ByteStream._capacity (_stream (_sender (conn a))) -> conn_emits (conn a) ->
  let a' := with_conn a (tick (conn a) 1000) in
  linked a' b' -> written b' = written b -> isn_of b' = isn_of b ->
  sending a' b' /\ acked (_sender (conn a')) = acked (_sender (conn a)).
Proof.
  intros Hl Hbz Hfr H0 Hk Hq Hin Hcap Hem a' Hl' Hwr Hi.
  destruct (linked_facts _ _ Hl) as (Wa & _ & _ & _ & Un & Ra & _).
  destruct (busy_tick (conn a) Wa Hbz Hfr H0 Hin) as (K1 & K2 & K3 & K4 & K5 & K6 & K7).
  split; [|exact K3]. constructor; cbn [a' with_conn conn]; try done.
  - by rewrite K3.
  - intros k z l. rewrite K4, K7. intros ->. eexists. apply elem_of_app. right. by apply list_elem_of_singleton.
  - rewrite K7, Hwr, Hi. apply Forall_app. split; [done|].
    pose proof (emits_outgoing _ _ Un) as Huo. destruct (_segments_outgoing (_sender (conn a))) as [|[k z] l]; [apply Forall_nil_2|].
    apply Forall_cons in Huo as [(_ & _ & Hz) _]. apply Forall_singleton. pose proof Hl as [_ [L1 _ _]].
    rewrite <- (ended_expected _ _ _ Ra (bz_syn _ Hbz) (bz_in _ Hbz)).
    eapply stamp_acking; [exact Ra|apply (si_isn _ _ _ L1)|apply Hbz|exact Hz].
  - by rewrite K6.
  - by apply conn_tick_emits.
Qed.

Lemma waiting_read c st : waiting c -> waiting (on_inbound_stream (fun _ => st) c).
Proof. by intros []. Qed.

Lemma rest_of_turn a b c ca b3 :
  delivered a b c -> returned a b c ca -> linked b3 (with_conn a ca) ->
  emptied_by_reader (with_conn b (emptied c)) b3 -> isn_of b3 = isn_of b ->
  let a4 := with_conn a (tick ca 1000) in
  let b4 := with_conn b3 (tick (conn b3) 1000) in
  sending a4 b4 /\ waiting (conn b4) /\ listening b4 /\ acked (_sender (conn a)) < acked (_sender (conn a4)) \/ closing a4 b4.
Proof.
  intros Hd Hr Hl [Hb (st & Ec & Est) Hwr] Hi a4 b4. cbn [with_conn conn] in Ec, Est.
  destruct (linked_tick _ _ Hl) as [Hl1 Hi1]. destruct (linked_tick _ _ (linked_sym _ _ Hl1)) as [Hl2 Hi2].
  change (linked a4 b4) in Hl2. fold b4 in Hi1.
  destruct (linked_facts _ _ Hl) as (Wb & _ & _ & _ & _ & Rb & _). destruct (linked_facts _ _ (linked_sym _ _ Hl)) as (Wa & _).
  assert (Hwb : waiting (conn b3)) by (rewrite Ec; apply waiting_read; by destruct (dl_waiting _ _ _ Hd)).
  assert (Ht : _time_since_last_segment_received (conn b3) = 0) by (rewrite Ec; apply Hd).
  assert (Ho : segments_out (conn b3) = []) by by rewrite Ec.
  destruct (waiting_tick (conn b3) Wb Hwb) as (T1 & T2 & T3 & T4); [lia|unfold TIMEOUT_DFLT; lia|].
  assert (Hin : ByteStream.input_ended (inbound_stream (conn b4)) = ByteStream.input_ended (inbound_stream c)).
  { unfold b4, inbound_stream. cbn [with_conn conn]. rewrite T2, Ec. exact Est. }
  assert (Hbuf : ByteStream._buff (inbound_stream (conn b4)) = []) by (unfold b4, inbound_stream; cbn [with_conn conn]; by rewrite T2).
  destruct (rt_state _ _ _ _ Hr) as [(Hf & He & Hc)|(Hbz & Hfr & H0 & Hm & Hc)]; [right|left].
  - assert (Etk : tick ca 1000 = ca) by (unfold tick; by rewrite (fi_active _ Hf)).
    constructor; try done.
    + cbn [a4 with_conn conn]. rewrite Etk. apply Hf.
    + unfold a4. rewrite Etk, (rt_ended _ _ _ _ Hr). done.
    + cbn [a4 with_conn conn]. rewrite Etk. eapply acking_replying, rt_queue, Hr.
    + congruence.
    + cbn [b4 with_conn conn]. congruence.
    + cbn [b4 with_conn conn]. rewrite T4, Ht. unfold TIMEOUT_DFLT. lia.
  - assert (Hib : isn_of b4 = isn_of b) by (rewrite Hi1; exact Hi).
    destruct (sending_tick (with_conn a ca) b3 b4 (linked_sym _ _ Hl)) as [Hs Hk]; cbn [with_conn conn]; try done.
    + lia.
    + rewrite Hwr, Hi. apply Hr.
    + apply Hr.
    + apply Hr.
    + apply Hr.
    + split; [exact Hs|]. split; [done|]. split; [|cbn [with_conn conn] in Hk; cbn [a4 with_conn conn]; lia].
      constructor; try done.
      * congruence.
      * cbn [b4 with_conn conn]. rewrite T2, Ec. apply Hd.
      * cbn [b4 with_conn conn]. rewrite T3, Ho. apply Forall_nil_2.
Qed.

(** ** The program's variables *)

(** The variables [s] of the program show the pair; [data] is what is sent. *)
Record holds (data : list byte) (a b : endpoint) (s : bench) : Prop := {
  ho_x : conn a = x s;
  ho_y : conn b = y s;
  ho_got : got b = string_received s;
  ho_buffer : wf_Buffer (bytes_to_send s);
  ho_sent : written a ++ str (bytes_to_send s) = data;
  ho_closed : ended a = x_closed s;
  ho_done : x_closed s = true -> str (bytes_to_send s) = [];
  ho_small : zlen data + 2 < 2 ^ 32
}.

(** The loop that writes, and what it keeps: [P] is what each write keeps. *)
Section writing.
Context (P : endpoint -> Prop).
Context (P_wf : forall a, P a -> TCPSender.wf (_sender (conn a))).
Context (P_write : forall a data n c,
  P a -> ended a = false -> zlen (written a) + zlen data + 2 < 2 ^ 32 -> data <> [] -> write (conn a) data = (n, c) ->
  let a' := {| conn := c; written := written a ++ take (Z.to_nat n) data; got := got a |} in P a' /\ ended a' = false).

Lemma writes_keep fuel a bytes :
  P a -> wf_Buffer bytes -> zlen (str bytes) < Z.of_nat fuel -> (str bytes <> [] -> ended a = false) ->
  zlen (written a) + zlen (str bytes) + 2 < 2 ^ 32 ->
  exists a' bytes', write_loop fuel (conn a) bytes = Ok (conn a', bytes') /\ P a' /\ ended a' = ended a /\
    wf_Buffer bytes' /\ written a' ++ str bytes' = written a ++ str bytes /\
    (str bytes' = [] \/ remaining_outbound_capacity (conn a') <= 0) /\ (str bytes = [] -> str bytes' = []).
Proof.
  revert a bytes. induction fuel as [|fuel IH]; intros a bytes Ha Hb Hf He Hl.
  { pose proof (zlen_nonneg (str bytes)). lia. }
  cbn [write_loop]. unfold buf_length. destruct (Z.ltb_spec 0 (zlen (str bytes))) as [Hp|Hp]; cbn [andb].
  2: { exists a, bytes. assert (str bytes = []) by (destruct (str bytes) as [|z l]; [done|]; rewrite zlen_cons in Hp; pose proof (zlen_nonneg l); lia).
       split_and!; try done. by left. }
  destruct (Z.ltb_spec 0 (remaining_outbound_capacity (conn a))) as [Hc|Hc].
  2: { exists a, bytes. split_and!; try done. by right. }
  set (want := Z.min _ _). rewrite substr_ok by lia. cbn [mbind result_bind].
  assert (Hw : 0 < want <= zlen (str bytes)) by lia.
  assert (Hz : zlen (sub (str bytes) 0 want) = want) by (rewrite zlen_sub; lia).
  assert (Ho : ended a = false) by (apply He; intros E; rewrite E, (@zlen_nil byte) in Hp; lia).
  destruct (write_takes (conn a) (sub (str bytes) 0 want) (P_wf a Ha)) as [c1 Ew]; [lia|]. rewrite Ew, Hz, Z.eqb_refl.
  cbn [negb]. destruct (remove_prefix_spec bytes want Hb ltac:(lia)) as (bytes1 & -> & Hs1 & Hb1). cbn [mbind result_bind].
  rewrite Hz in Ew.
  destruct (P_write a (sub (str bytes) 0 want) want c1 Ha Ho) as [Ha1 Ho1]; [lia| |exact Ew|].
  { intros E. rewrite E, (@zlen_nil byte) in Hz. lia. }
  set (a1 := Build_endpoint _ _ _) in *.
  assert (Ht : take (Z.to_nat want) (sub (str bytes) 0 want) = take (Z.to_nat want) (str bytes)).
  { unfold sub. rewrite drop_0, take_take. f_equal. lia. }
  destruct (IH a1 bytes1 Ha1 Hb1) as (a2 & b2 & E2 & Q1 & Q2 & Q3 & Q4 & Q5 & _).
  - rewrite Hs1, zlen_drop. lia.
  - done.
  - cbn [a1 written]. rewrite zlen_app, Ht, Hs1, zlen_take, zlen_drop. lia.
  - exists a2, b2. split; [exact E2|]. split; [done|]. split; [congruence|]. split; [done|]. split; [|split; [done|]].
    + rewrite Q4. cbn [a1 written]. rewrite Ht, Hs1, <- app_assoc. by rewrite take_drop.
    + intros E. rewrite E, (@zlen_nil byte) in Hp. lia.
Qed.
End writing.

(** The sending side before its queue is handed over. *)
Lemma fill_up a b s data :
  sending a b -> holds data a b s ->
  exists a' bytes c, write_loop (write_fuel (bytes_to_send s)) (x s) (bytes_to_send s) = Ok (c, bytes) /\
    (if (buf_length bytes =? 0) && negb (x_closed s) then (TCPConnection.end_input_stream c, true) else (c, x_closed s)) =
      (conn a', ended a') /\
    sending a' b /\ acked (_sender (conn a')) = acked (_sender (conn a)) /\
    _segments_outgoing (_sender (conn a')) <> [] /\ wf_Buffer bytes /\ written a' ++ str bytes = data /\
    (ended a' = true -> str bytes = []) /\ rtc refilled (conn a) (conn a') /\ isn_of a' = isn_of a /\
    zlen (written a) <= zlen (written a').
Proof.
  intros Hs [H1 H2 H3 H4 H5 H6 H7 H8].
  destruct (writes_keep (fun e => sending e b /\ acked (_sender (conn e)) = acked (_sender (conn a)) /\ rtc refilled (conn a) (conn e) /\
      isn_of e = isn_of a /\ zlen (written a) <= zlen (written e)))
    with (fuel := write_fuel (bytes_to_send s)) (a := a) (bytes := bytes_to_send s)
    as (a1 & bytes & E & (Ha1 & Hk1 & Hr1 & Hi1 & Hl1) & He1 & Hb1 & Hw1 & Hfull & Hnil).
  - intros e (He & _). by apply (linked_facts _ _ (sg_linked _ _ He)).
  - intros e d n c (He & Hk & Hr & Hi & Hle) Ho Hl Hd Hw. destruct (sending_write e b d n c He Ho Hl Hd Hw) as (W1 & W2 & W3 & W4 & W5).
    split; [split; [done|]|done]. cbn [conn]. split; [congruence|]. split; [by eapply rtc_r|].
    split; [congruence|]. cbn [written]. rewrite zlen_app. pose proof (zlen_nonneg (take (Z.to_nat n) d)). lia.
  - done.
  - done.
  - unfold write_fuel, buf_length. pose proof (zlen_nonneg (str (bytes_to_send s))). lia.
  - intros Hne. rewrite H6. destruct (x_closed s); [by rewrite H7 in Hne|done].
  - rewrite <- H5, zlen_app in H8. lia.
  - rewrite H1 in E. unfold buf_length. rewrite H5 in Hw1.
    assert (Hz : (zlen (str bytes) =? 0) = bool_decide (str bytes = [])).
    { destruct (str bytes) as [|z l]; [done|]. rewrite zlen_cons. pose proof (zlen_nonneg l). rewrite bool_decide_eq_false_2 by done. apply Z.eqb_neq. lia. }
    destruct (bool_decide_reflect (str bytes = [])) as [Hb|Hb].
    + destruct (x_closed s) eqn:Ex.
      * exists a1, bytes, (conn a1). rewrite Hz, He1, H6. split_and!; try done. apply (sending_outstanding _ b); [done|right; congruence].
      * destruct (sending_end a1 b Ha1 ltac:(congruence)) as (S1 & S2 & S3 & S4 & S5). set (a2 := with_conn a1 _) in *.
        exists a2, bytes, (conn a1). rewrite Hz, S2. split_and!; try done; [congruence| |by eapply rtc_r|congruence]. apply (sending_outstanding _ b); [done|by right].
    + exists a1, bytes, (conn a1). rewrite Hz, He1, H6. split_and!; try done.
      * apply (sending_outstanding _ b); [done|]. left. by destruct Hfull.
      * intros Hx. exfalso. apply Hb, Hnil, H7. congruence.
Qed.

(** ** A turn *)

(** A pair in the middle of the transfer. *)
Record steady (a b : endpoint) : Prop := {
  sd_sending : sending a b;
  sd_waiting : waiting (conn b);
  sd_listening : listening b
}.

(** From the delivery of the queue of [a1] on. *)
Lemma turn_end reorder data a1 b c s bytes :
  sending a1 b -> _segments_outgoing (_sender (conn a1)) <> [] -> got b = string_received s ->
  move_segments (conn a1) (conn b) reorder = Ok (emptied (conn a1), c) -> delivered a1 b c ->
  wf_Buffer bytes -> written a1 ++ str bytes = data -> (ended a1 = true -> str bytes = []) -> zlen data + 2 < 2 ^ 32 ->
  exists s' a' b',
    ('(x, y) ← move_segments (conn a1) (conn b) reorder;
     '(y, x) ← move_segments y x false;
     let available_output := ByteStream.buffer_size (inbound_stream y) in
     let '(y, string_received) :=
       if 0 <? available_output
       then (on_inbound_stream (fun st => snd (ByteStream.read st available_output)) y,
             string_received s ++ fst (ByteStream.read (inbound_stream y) available_output))
       else (y, string_received s) in
     Ok {| x := TCPConnection.tick x 1000; y := TCPConnection.tick y 1000; bytes_to_send := bytes;
           x_closed := ended a1; string_received := string_received |}) = Ok s' /\
    holds data a' b' s' /\
    (steady a' b' /\ acked (_sender (conn a1)) < acked (_sender (conn a')) \/ closing a' b').
Proof.
  intros Hs Ho Hg Em Hd Hb Hw Hn Hsm. destruct (_segments_outgoing (_sender (conn a1))) as [|[k z] l] eqn:Eo; [done|].
  destruct (answer_back a1 b c k z l Hs Eo Hd) as (ca & Eb & Hr). rewrite Em. cbn [mbind result_bind]. rewrite Eb. cbn [mbind result_bind].
  destruct (reader_turn (with_conn a1 ca) (with_conn b (emptied c)) (string_received s) (linked_sym _ _ (rt_linked _ _ _ _ Hr)) Hg)
    as (b3 & E3 & Hl3 & Hrd & Hi3). cbn [with_conn conn] in E3. cbn zeta. rewrite E3.
  assert (Hib : isn_of b3 = isn_of b) by (rewrite Hi3; exact (dl_isn _ _ _ Hd)).
  pose proof (rest_of_turn a1 b c ca b3 Hd Hr Hl3 Hrd Hib) as Hrest. cbn zeta in Hrest.
  destruct (linked_tick _ _ (linked_sym _ _ Hl3)) as [[[T1 _ _] _] _]. pose proof (rt_ended _ _ _ _ Hr) as He.
  eexists _, (with_conn a1 (tick ca 1000)), (with_conn b3 (tick (conn b3) 1000)). split; [done|]. split.
  - constructor; cbn [x y string_received bytes_to_send x_closed with_conn conn got written]; try done.
    rewrite <- He. pose proof (linked_sym _ _ Hl3) as [[L1 _ _] _].
    exact (ci_ended _ _ _ _ _ _ _ (tick_inv _ _ _ _ _ _ ca 1000 (si_conn _ _ _ L1))).
  - destruct Hrest as [(R1 & R2 & R3 & R4)|?]; [left|by right]. by split.
Qed.

(** A turn in the middle of the transfer. *)
Lemma turn_steady reorder data a b s :
  steady a b -> holds data a b s ->
  exists s' a' b', loop reorder s = Ok s' /\ holds data a' b' s' /\
    (steady a' b' /\ acked (_sender (conn a)) < acked (_sender (conn a')) \/ closing a' b').
Proof.
  intros [Hs Hw Hli] Hh. destruct (fill_up a b s data Hs Hh) as (a1 & bytes & c1 & E1 & E2 & S1 & K1 & O1 & B1 & W1 & N1 & _ & _ & _).
  unfold loop. rewrite E1. cbn [mbind result_bind]. rewrite E2, <- (ho_y _ _ _ _ Hh).
  destruct (deliver_waiting reorder a1 b S1 O1 Hw Hli) as (c & Em & Hd). rewrite <- K1.
  by apply (turn_end reorder data a1 b c s bytes); [..|apply Hh|done|done|done|done|done|apply Hh].
Qed.
