(* ===== verification/BenchmarkOpening.v ===== *)
(** * The opening turns of the throughput benchmark

    The first two turns of the loop of [src/apps/tcp_benchmark.cc]: in the first
    the two SYNs cross, because [y] has ended its stream, and so sent its SYN
    and its FIN, before [x] connects; in the second [x]'s queue acknowledges
    both, whichever of its segments comes first, and [y] is from then on a side
    that waits. *)

From S2P Require Import Prelude WrappingIntegers ByteStream StreamReassembler ReassemblerProps Buffer TCPHeader TCPSegment TCPReceiver TCPSender TCPState TCPConnection Transport Emission Acknowledgment Progress CommandLine Benchmark Lockstep BenchmarkTurns.

(** ** The receiving side before its SYN is acknowledged *)

(** It has sent SYN and FIN and has got the SYN of a peer with the number [isn]. *)
Record half_open (isn : WrappingInt32) (c : TCPConnection) : Prop := {
  hf_active : _active c = true;
  hf_linger : _linger_after_streams_finish c = true;
  hf_cfg : rt_timeout (_cfg c) = TIMEOUT_DFLT;
  hf_fin : TCPSender._fin (_sender c) = true;
  hf_next : next_seqno_absolute (_sender c) = 2;
  hf_flight : TCPSender.bytes_in_flight (_sender c) = 2;
  hf_queue : TCPSender._segments_out (_sender c) = [];
  hf_receiver : _receiver c = syn_received DEFAULT_CAPACITY isn
}.

(** The first acknowledgment is taken without an answer. *)
Lemma half_open_receives a b seg :
  linked b a -> half_open (isn_of a) (conn b) -> flying a b seg -> acking 2 (isn_of b) seg ->
  exists c, segment_received (conn b) seg = Ok c /\ heard b a c /\ _time_since_last_segment_received c = 0 /\
    segments_out c = segments_out (conn b) /\
    TCPReceiver.segment_received (_receiver (conn b)) seg = Ok (_receiver c).
Proof.
  intros Hl [H1 H2 H3 H4 H5 H6 H7 H8] Hf [[Hr Ha] Hn].
  destruct (linked_receive b a seg Hl Hf Ha) as (c & Hc & Hl' & Hi & Hx & _ & He).
  destruct (linked_facts b a Hl) as (Wf & _ & _ & _ & _ & Rc & _). pose proof (flying_win _ _ _ Hf Hr) as Hw.
  assert (Er : TCPReceiver.segment_received (_receiver (conn b)) seg = Ok (_receiver c) /\
    c = set_receiver (sender_ack seg (set_time (conn b) 0)) (_receiver c)).
  { revert Hc. unfold segment_received. rewrite H1, Hr. cbn [negb]. cbn zeta. cbn [_sender set_time _receiver].
    rewrite H5, H6, H8. cbn [Z.eqb Pos.eqb andb negb has_ackno TCPReceiver.ackno]. unfold receiver_segment.
    cbn [_receiver sender_ack on_sender set_sender set_time].
    rewrite H8. change (has_ackno (syn_received DEFAULT_CAPACITY (isn_of a))) with true.
    change (ByteStream.input_ended (TCPReceiver.stream_out (syn_received DEFAULT_CAPACITY (isn_of a)))) with false. cbn [andb negb].
    destruct (TCPReceiver.segment_received _ _) as [r|]; [|done]. cbn [mbind result_bind]. by intros [= <-]. }
  destruct Er as [Er Ec].
  assert (E2 : next_seqno (_sender (conn b)) = wrap 2 (isn_of b)) by (unfold next_seqno, isn_of; by rewrite <- H5).
  destruct (ack_everything (_sender (conn b)) (win (header seg)) Wf H4 Hw) as (A1 & A2 & A3 & _).
  destruct (ack_after_fin (_sender (conn b)) (wrap 2 (isn_of b)) (win (header seg)) Wf H4 Hw) as (_ & _ & _ & A4 & A5 & _).
  rewrite E2, <- Hn in *. set (s := ack_received _ _ _) in *. assert (Es : _sender c = s) by by rewrite Ec.
  destruct (receiver_keeps_flags _ _ _ Er) as (K1 & _ & K2). pose proof Hl as [_ [B1 _ _]].
  destruct (fl_emitted _ _ _ Hf) as [?|Hsent]; [congruence|].
  destruct (segment_received_receives (written a) (isn_of a) _ seg (si_isn _ _ _ B1) ltac:(pose proof (si_small _ _ _ B1); lia) Rc
    (sent_seg_of _ _ _ _ (si_small _ _ _ B1) Hsent)) as (r1 & Er1 & _ & Ecap & _ & Erd & _).
  rewrite Er in Er1. injection Er1 as <-.
  assert (Eq : segments_out c = segments_out (conn b)) by by rewrite Ec.
  exists c. split; [done|]. split; [|split; [by rewrite Ec|done]].
  constructor; try done.
  - constructor; rewrite ?Es; try done; try (rewrite Ec; done).
    + apply K2. by rewrite H8.
    + congruence.
    + destruct A5 as [->|Hs]; [done|]. rewrite Hs in A2. congruence.
  - exists []. rewrite app_nil_r. split; [done|apply Forall_nil_2].
Qed.

(** A segment that ends the stream at once starts it. *)
Lemma ends_at_once W isn cap seg r :
  wi_wf isn -> 0 < zlen W < 2 ^ 63 -> receives W isn (syn_received cap isn) -> seg_of W isn seg ->
  TCPReceiver.segment_received (syn_received cap isn) seg = Ok r ->
  ByteStream.input_ended (TCPReceiver.stream_out r) = true ->
  fin (header seg) = true /\ position (raw_value isn) seg = 0.
Proof.
  intros Hi HW Hr Hseg E He.
  destruct (segment_received_receives W isn _ seg Hi ltac:(lia) Hr Hseg) as (r1 & E1 & Hr1 & _). rewrite E in E1. injection E1 as <-.
  destruct (segment_received_pushed W isn _ seg r Hi ltac:(lia) Hr Hseg E) as [[_ ->]|(t & _ & _ & _ & Hpu)]; [done|].
  destruct (fol_ended _ _ (rcv_follows _ _ _ Hr1) He) as [Hw _].
  pose proof (pushed_written _ _ _ _ _ _ Hpu) as Ht. pose proof (pushed_ended _ _ _ _ _ _ Hpu) as Hend.
  pose proof (pushed_get _ _ _ _ _ _ Hpu 0) as Hg. pose proof (position_range (raw_value isn) seg) as Hpos.
  change (_output (_reassembler r)) with (TCPReceiver.stream_out r) in *. rewrite He in Hend.
  change (ByteStream.input_ended (_output (_reassembler (syn_received cap isn)))) with false in Hend.
  change (ByteStream.bytes_written (_output (_reassembler (syn_received cap isn)))) with 0 in Ht, Hg.
  cbn [orb] in Hend. symmetry in Hend. apply Z.eqb_eq in Hend. split.
  - unfold new_eof in Hend. destruct (fin (header seg)); [done|].
    change (_posEOF (_reassembler (syn_received cap isn))) with ULONG_LONG_MAX in Hend. unfold ULONG_LONG_MAX in Hend. lia.
  - rewrite (proj2 (Z.ltb_lt _ _)) in Hg by lia. unfold incoming in Hg.
    change (buf_get (_unassembledBuffer (_reassembler (syn_received cap isn))) 0) with (@None byte) in Hg.
    destruct t as [|b t]; [rewrite (@zlen_nil byte) in Ht; lia|]. cbn in Hg.
    destruct (0 <? _); [|done]. change (zget (b :: t) (0 - 0)) with (Some b) in Hg. apply zget_Some in Hg as [? _]. lia.
Qed.

(** ** The queue that acknowledges it *)

(** The oldest outstanding segment is neither first nor last in the queue, and
    a FIN in the queue is that of an outstanding segment. *)
Record surrounded (c : TCPConnection) : Prop := {
  sr_oldest : exists k z l r0 q1 q2, _segments_outgoing (_sender c) = (k, z) :: l /\
    segments_out c = q1 ++ stamp r0 z :: q2 /\ q1 <> [] /\ q2 <> [];
  sr_kept : Forall (fun seg => fin (header seg) = true -> exists r0 k z, seg = stamp r0 z /\ (k, z) ∈ _segments_outgoing (_sender c))
    (segments_out c)
}.

Lemma refilled_surrounded c c' : refilled c c' -> surrounded c -> surrounded c'.
Proof.
  intros (s & Hwf & Ho & Hq & ->) [(k & z & l & r0 & q1 & q2 & H1 & H2 & H3 & H4) H5].
  set (c1 := on_sender _ c). destruct (send_segments_parts c1) as (_ & P2 & P3 & _).
  destruct (fill_outstanding s Hwf) as [_ _ [l2 Hl2] _]. destruct (fill_window_more s Hwf) as (segs & [] & _).
  rewrite Hq in more_out. rewrite Hl2, Ho in *. rewrite map_app in more_outgoing. apply app_inv_head in more_outgoing.
  assert (Eo : _segments_outgoing (_sender (send_segments c1)) = _segments_outgoing (_sender c) ++ l2) by by rewrite P2.
  assert (Eq : segments_out (send_segments c1) = segments_out c ++ map (stamp (_receiver c1)) segs).
  { unfold segments_out. rewrite P3. change (TCPSender.segments_out (_sender c1)) with (TCPSender._segments_out (fill_window s)). by rewrite more_out. }
  constructor.
  - exists k, z, (l ++ l2), r0, q1, (q2 ++ map (stamp (_receiver c1)) segs). rewrite Eo, Eq, H1, H2, <- app_assoc.
    split_and!; try done. by destruct q2.
  - rewrite Eo, Eq. apply Forall_app. split.
    + eapply Forall_impl; [exact H5|]. intros seg Hs Hf. destruct (Hs Hf) as (r1 & k1 & z1 & E1 & Hin).
      exists r1, k1, z1. split; [done|]. apply elem_of_app. by left.
    + rewrite <- more_outgoing. apply Forall_forall. intros seg Hin _. apply list_elem_of_fmap in Hin as (z1 & -> & Hin). apply list_elem_of_fmap in Hin as ([k1 z2] & -> & Hin).
      exists (_receiver c1), k1, z2. split; [done|]. apply elem_of_app. by right.
Qed.

(** The queue has a first segment, and the oldest one comes after it. *)
Lemma surrounded_order (reorder : bool) c :
  surrounded c ->
  exists f rest k z l r0, (if reorder then rev (segments_out c) else segments_out c) = f :: rest /\ f ∈ segments_out c /\
    _segments_outgoing (_sender c) = (k, z) :: l /\ stamp r0 z ∈ rest.
Proof.
  intros [(k & z & l & r0 & q1 & q2 & H1 & H2 & H3 & H4) _].
  assert (Hs : exists f q1' q2', (if reorder then rev (segments_out c) else segments_out c) = f :: q1' ++ stamp r0 z :: q2').
  { rewrite H2. destruct reorder.
    - rewrite rev_app_distr. cbn [rev]. destruct (rev q2) as [|f q2'] eqn:E2.
      + apply (f_equal (@rev TCPSegment)) in E2. by rewrite rev_involutive in E2.
      + exists f, q2', (rev q1). cbn. by rewrite <- app_assoc.
    - destruct q1 as [|f q1]; [done|]. by exists f, q1, q2. }
  destruct Hs as (f & q1' & q2' & E). exists f, (q1' ++ stamp r0 z :: q2'), k, z, l, r0. split; [done|]. split.
  - assert (Hf : f ∈ (if reorder then rev (segments_out c) else segments_out c)) by (rewrite E; apply elem_of_cons; by left).
    destruct reorder; [|done]. by apply list_elem_of_In, in_rev, list_elem_of_In.
  - split; [done|]. apply elem_of_app. right. apply elem_of_cons. by left.
Qed.

(** An outstanding segment at the start of the stream is the oldest. *)
Lemma starts_oldest a b r0 k z k1 z1 l :
  sending a b -> _segments_outgoing (_sender (conn a)) = (k, z) :: l -> (k1, z1) ∈ (k, z) :: l ->
  position (raw_value (isn_of a)) (stamp r0 z1) = 0 -> z1 = z.
Proof.
  intros Hs Ho Hin Hp. destruct (linked_facts _ _ (sg_linked _ _ Hs)) as (Wf & _ & _ & Kp & _).
  pose proof (sg_linked _ _ Hs) as [[A1 _ _] _]. pose proof (si_small _ _ _ A1) as Hsm. pose proof (si_isn _ _ _ A1) as Hi.
  unfold keeps in Kp. rewrite Ho in Kp. pose proof (proj1 (Forall_forall _ _) Kp _ Hin) as [Hat Hsy]. cbn [fst snd] in Hat, Hsy.
  pose proof (wf_chain _ Wf) as Hc. rewrite Ho in Hc. pose proof (sg_acked _ _ Hs) as Hk.
  unfold acked, next_seqno_absolute, TCPSender.bytes_in_flight in Hk. destruct Hc as (Hk0 & Hl0 & Hc).
  assert (Hk1 : 0 < k1 -> k1 = 1).
  { intros Hpos. assert (Hat' : sent_at (written a) (ended a) (isn_of a) k1 (stamp r0 z1)).
    { destruct Hat as (Hw & H). unfold stamp. destruct (TCPReceiver.ackno r0); [|by split]. split; [apply u16_range|done]. }
    rewrite (position_at _ _ _ _ _ Hi Hsm Hat') in Hp. rewrite (proj2 (Z.eqb_neq k1 0)) in Hsy by lia.
    replace (syn (header (stamp r0 z1))) with false in Hp by (unfold stamp; by destruct (TCPReceiver.ackno r0)).
    destruct Hat as (_ & _ & Hq & _). rewrite u64_small in Hp by lia. lia. }
  apply elem_of_cons in Hin as [[= _ ->]|Hin]; [done|]. exfalso.
  pose proof (chain_keys _ _ _ _ Hc (proj1 (list_elem_of_In _ _) Hin)) as Hge. cbn [fst] in Hge. cbn [fst snd] in *. lia.
Qed.

(** If the first segment ends the stream, its repetition is answered. *)
Lemma repeated_fin a b c f k z l r0 rest :
  sending a b -> half_open (isn_of a) (conn b) -> surrounded (conn a) -> 0 < zlen (written a) ->
  f ∈ segments_out (conn a) -> rst (header f) = false ->
  TCPReceiver.segment_received (_receiver (conn b)) f = Ok (_receiver c) ->
  ByteStream.input_ended (inbound_stream c) = true ->
  _segments_outgoing (_sender (conn a)) = (k, z) :: l -> stamp r0 z ∈ rest ->
  Exists (fun seg => fin (header seg) = true) rest.
Proof.
  intros Hs Hho Hsu Hpos Hin Hrst Er He Hog Hold. pose proof (sg_linked _ _ Hs) as Hl. pose proof Hl as [[A1 _ _] _].
  pose proof (si_small _ _ _ A1) as Hsm. pose proof (si_isn _ _ _ A1) as Hi.
  destruct (linked_facts _ _ (linked_sym _ _ Hl)) as (_ & _ & _ & _ & _ & Rb & _). rewrite (hf_receiver _ _ Hho) in Rb, Er.
  pose proof (proj1 (Forall_forall _ _) (linked_queue a b Hl) f Hin) as Hf.
  destruct (fl_emitted _ _ _ Hf) as [?|Hsent]; [congruence|]. pose proof (sent_seg_of _ _ _ _ Hsm Hsent) as Hof.
  destruct (ends_at_once (written a) (isn_of a) _ f (_receiver c) Hi ltac:(lia) Rb Hof Er He) as [Hfin Hp].
  destruct (proj1 (Forall_forall _ _) (sr_kept _ Hsu) f Hin Hfin) as (r1 & k1 & z1 & -> & Hin1).
  rewrite Hog in Hin1. pose proof (starts_oldest a b r1 k z k1 z1 l Hs Hog Hin1 Hp) as ->.
  apply Exists_exists. exists (stamp r0 z). split; [done|].
  revert Hfin. unfold stamp. by destruct (TCPReceiver.ackno r1), (TCPReceiver.ackno r0).
Qed.

Lemma deliver_half_open reorder a b :
  sending a b -> half_open (isn_of a) (conn b) -> surrounded (conn a) -> written b = [] -> 0 < zlen (written a) ->
  Forall replying (segments_out (conn b)) ->
  exists c, move_segments (conn a) (conn b) reorder = Ok (emptied (conn a), c) /\ delivered a b c.
Proof.
  intros Hs Hho Hsu Hwb Hpos Hrq. destruct (hand_over a b (sg_linked _ _ Hs)) as [Hl' Hf]. set (a' := with_conn a _) in *.
  pose proof (sg_queue _ _ Hs) as Hq. rewrite Hwb in Hq. change (zlen (@nil byte) + 2) with 2 in Hq.
  destruct (surrounded_order reorder _ Hsu) as (f & rest & k & z & l & r0 & Eq & Hfin & Hog & Hold).
  pose proof (Forall_order _ reorder _ Hf) as Hf'. rewrite Eq in Hf'. apply Forall_cons in Hf' as [Hf1 Hf2].
  pose proof (Forall_order _ reorder _ Hq) as Hq'. rewrite Eq in Hq'. apply Forall_cons in Hq' as [Hq1 Hq2].
  destruct (half_open_receives a' b f (linked_sym _ _ Hl') Hho Hf1 Hq1) as (c1 & E1 & H1 & T1 & O1 & R1).
  destruct (waiting_batch rest (with_conn b c1) a' (hd_linked _ _ _ H1) (hd_waiting _ _ _ H1)) as (c & E & H2 & Ht & Hr & Hk);
    [eapply Forall_impl; [exact Hf2|]; intros seg; apply flying_same, H1|by eapply acking_replying|].
  cbn [with_conn conn] in *. pose proof (heard_trans _ _ _ _ H1 H2) as H12.
  assert (Hne : rest <> []) by (intros ->; by apply not_elem_of_nil in Hold).
  exists c. split; [apply move_segments_eq; rewrite Eq; cbn [receive_all]; rewrite E1; exact E|].
  pose proof (hf_receiver _ _ Hho) as Hrv.
  constructor; try apply H12.
  - apply linked_sym, H12.
  - by apply Ht.
  - rewrite (hd_capacity _ _ _ H12), Hrv. done.
  - destruct (hd_queue _ _ _ H12) as (new & -> & Hn). by apply Forall_app.
  - apply Hr. destruct (ByteStream.input_ended (inbound_stream c1)) eqn:Ee; [right|by left].
    by apply (repeated_fin a b c1 f k z l r0 rest); [..|apply Hq1| | | |].
  - intros k' z' l' Hog'. rewrite Hog in Hog'. injection Hog' as <- <- _.
    destruct (kept_small a b k z l Hs Hog) as (Hkb & Hlen & ->).
    destruct (linked_facts _ _ (sg_linked _ _ Hs)) as (_ & _ & _ & _ & _ & _ & Hx).
    pose proof (sg_acked _ _ Hs). pose proof (hd_expected _ _ _ H1) as Hex.
    apply (Hk _ z r0 Hkb Hold); [lia|]. rewrite (hd_read _ _ _ H1), (hd_capacity _ _ _ H1).
    unfold inbound_stream in *. rewrite Hrv in *. change (expected (syn_received DEFAULT_CAPACITY (isn_of a))) with 1 in Hx.
    change (ByteStream.bytes_read (TCPReceiver.stream_out (syn_received DEFAULT_CAPACITY (isn_of a)))) with 0.
    change (TCPReceiver._capacity (syn_received DEFAULT_CAPACITY (isn_of a))) with DEFAULT_CAPACITY.
    unfold DEFAULT_CAPACITY, MAX_PAYLOAD_SIZE in *. lia.
Qed.

(** The second turn. *)
Record second (a b : endpoint) : Prop := {
  sc_sending : sending a b;
  sc_half_open : half_open (isn_of a) (conn b);
  sc_surrounded : surrounded (conn a);
  sc_written : written b = [];
  sc_queue : Forall replying (segments_out (conn b));
  sc_some : 0 < zlen (written a)
}.

Lemma turn_second reorder data a b s :
  second a b -> holds data a b s ->
  exists s' a' b', loop reorder s = Ok s' /\ holds data a' b' s' /\
    (steady a' b' /\ acked (_sender (conn a)) < acked (_sender (conn a')) \/ closing a' b').
Proof.
  intros [Hs Hho Hsu Hwb Hrq Hpos] Hh.
  destruct (fill_up a b s data Hs Hh) as (a1 & bytes & c1 & E1 & E2 & S1 & K1 & O1 & B1 & W1 & N1 & R1 & I1 & L1).
  unfold loop. rewrite E1. cbn [mbind result_bind]. rewrite E2, <- (ho_y _ _ _ _ Hh).
  assert (Hsu1 : surrounded (conn a1)).
  { clear -R1 Hsu. revert Hsu. induction R1 as [|u v w Huv _ IH]; [done|]. intros. apply IH. by eapply refilled_surrounded. }
  destruct (deliver_half_open reorder a1 b S1) as (c & Em & Hd); [by rewrite I1|done|done|lia|done|]. rewrite <- K1.
  by apply (turn_end reorder data a1 b c s bytes); [..|apply Hh|done|done|done|done|done|apply Hh].
Qed.

(** ** The two sides before the first turn *)

(** [y]: SYN and FIN in one segment. *)
Definition segment_of_syn_fin (isn : WrappingInt32) : TCPSegment :=
  {| _header := set_fin (set_seqno (set_syn default_TCPHeader) (wrap 0 isn)); _payload := new_Buffer [] |}.

Definition syn_fin_sender (isn : WrappingInt32) (consecutive timeout : Z) : TCPSender :=
  {| TCPSender._isn := isn; TCPSender._segments_out := [];
     _initial_retransmission_timeout := TIMEOUT_DFLT; _stream := ByteStream.end_input (new_ByteStream DEFAULT_CAPACITY);
     _next_seqno := 2; _retransmission_timeout := timeout; _retransmission_timecount := 0;
     _consecutive_retransmissions := consecutive; _segments_outgoing := [(0, segment_of_syn_fin isn)];
     _outgoing_bytes := 2; TCPSender._syn := true; TCPSender._fin := true; _win_size := 1 |}.

Lemma end_new rnd :
  end_input_stream (new_TCPConnection default_TCPConfig rnd) =
  opening default_TCPConfig (new_TCPReceiver DEFAULT_CAPACITY) (syn_fin_sender (wrapping_int32 rnd) 0 TIMEOUT_DFLT)
    [segment_of_syn_fin (wrapping_int32 rnd)].
Proof. reflexivity. Qed.

(** [x]: the SYN, and the stream that the application writes. *)
Definition syn_sent (isn : WrappingInt32) (st : ByteStream) : TCPConnection :=
  opening default_TCPConfig (new_TCPReceiver DEFAULT_CAPACITY)
    (on_stream_in (fun _ => st) (syn_sent_sender DEFAULT_CAPACITY TIMEOUT_DFLT isn [])) [segment_of_syn isn].

Lemma connect_syn_sent rnd :
  connect (new_TCPConnection default_TCPConfig rnd) = syn_sent (wrapping_int32 rnd) (new_ByteStream DEFAULT_CAPACITY).
Proof. apply connect_new. Qed.

(** The window of one is full: nothing more is sent. *)
Lemma syn_sent_full isn st st' :
  TCPSender.wf (on_stream_in (fun _ => st') (_sender (syn_sent isn st))) ->
  send_segments (on_sender fill_window (on_sender (on_stream_in (fun _ => st')) (syn_sent isn st))) = syn_sent isn st'.
Proof.
  intros Hwf. unfold on_sender at 1. cbn [_sender set_sender on_sender]. rewrite fill_window_filled; [done|exact Hwf|].
  left. vm_compute. done.
Qed.

(** [a] has sent its SYN; [b] is any peer. *)
Record connecting (a b : endpoint) : Prop := {
  cn_linked : linked a b;
  cn_conn : exists st, conn a = syn_sent (isn_of a) st /\ ByteStream._capacity st = DEFAULT_CAPACITY;
  cn_emits : conn_emits (conn a)
}.

Lemma connecting_write a b data n c :
  connecting a b -> ended a = false -> zlen (written a) + zlen data + 2 < 2 ^ 32 -> data <> [] ->
  write (conn a) data = (n, c) ->
  let a' := {| conn := c; written := written a ++ take (Z.to_nat n) data; got := got a |} in
  connecting a' b /\ ended a' = false /\ isn_of a' = isn_of a.
Proof.
  intros [Hl (st & Hc & Hcap) Hem] He Hs Hd Hw a'. destruct (linked_own a b a' [] Hl) as (Hl' & Hi & _); [by eapply local_write|].
  pose proof Hl as [[A0 _ _] _]. pose proof (si_conn _ _ _ A0) as C0. rewrite He in C0.
  destruct (write_inv _ _ _ _ _ _ _ _ _ C0 Hs Hw) as [C1 _].
  split; [|split; [exact (ci_ended _ _ _ _ _ _ _ C1)|done]].
  pose proof (write_emits (conn a) data Hem) as Hem'. rewrite Hw in Hem'. constructor; [done| |exact Hem'].
  rewrite Hi. cbn [a' conn]. clear a' Hl' Hi C1 Hem'.
  revert Hw. unfold write. destruct data as [|d data]; [done|].
  destruct (ByteStream.write (stream_in (_sender (conn a))) (d :: data)) as [m st'] eqn:Ew. intros [= <- <-].
  pose proof (snd_wf _ _ (ci_sends _ _ _ _ _ _ _ (stream_write_inv _ _ _ _ _ _ _ _ _ C0 Hs Ew))) as Hwf.
  exists st'. rewrite Hc in *. split; [by apply syn_sent_full|].
  unfold ByteStream.write in Ew. injection Ew as _ <-. done.
Qed.

Lemma connecting_end a b :
  connecting a b ->
  let a' := with_conn a (end_input_stream (conn a)) in
  connecting a' b /\ ended a' = true /\ isn_of a' = isn_of a.
Proof.
  intros [Hl (st & Hc & Hcap) Hem] a'. destruct (linked_own a b a' [] Hl) as (Hl' & Hi & _); [apply local_end|].
  pose proof Hl as [[A0 _ _] _]. destruct (linked_facts _ _ Hl) as (Wf & _).
  split; [|split; [exact (ci_ended _ _ _ _ _ _ _ (end_inv _ _ _ _ _ _ _ (si_conn _ _ _ A0)))|done]].
  constructor; [done| |by apply end_input_emits]. rewrite Hi. cbn [a' with_conn conn]. exists (ByteStream.end_input st).
  split; [|done]. rewrite Hc in Wf |- *. apply (syn_sent_full _ st (ByteStream.end_input st)). exact (end_input_wf _ Wf).
Qed.

(** Something has been written. *)
Lemma connecting_some a b :
  connecting a b -> remaining_outbound_capacity (conn a) <= 0 -> 0 < zlen (written a).
Proof.
  intros [Hl (st & Hc & Hcap) _] Hr. destruct (linked_facts _ _ Hl) as (Wf & _ & Sn & _).
  pose proof (snd_buff _ _ Sn) as Hb. unfold remaining_outbound_capacity in Hr. rewrite remaining_capacity_eq in Hr by apply Wf.
  unfold stream_in, ByteStream.buffer_size in Hr. rewrite Hb, zlen_drop in Hr.
  replace (ByteStream._capacity (_stream (_sender (conn a)))) with DEFAULT_CAPACITY in Hr by by rewrite Hc.
  unfold DEFAULT_CAPACITY in Hr. lia.
Qed.

Lemma first_fill a b s data :
  connecting a b -> holds data a b s -> data <> [] ->
  exists a' bytes c, write_loop (write_fuel (bytes_to_send s)) (x s) (bytes_to_send s) = Ok (c, bytes) /\
    (if (buf_length bytes =? 0) && negb (x_closed s) then (TCPConnection.end_input_stream c, true) else (c, x_closed s)) =
      (conn a', ended a') /\
    connecting a' b /\ isn_of a' = isn_of a /\ 0 < zlen (written a') /\ wf_Buffer bytes /\ written a' ++ str bytes = data /\
    (ended a' = true -> str bytes = []).
Proof.
  intros Hs [H1 H2 H3 H4 H5 H6 H7 H8] Hne.
  destruct (writes_keep (fun e => connecting e b /\ isn_of e = isn_of a))
    with (fuel := write_fuel (bytes_to_send s)) (a := a) (bytes := bytes_to_send s)
    as (a1 & bytes & E & (Ha1 & Hi1) & He1 & Hb1 & Hw1 & Hfull & Hnil).
  - intros e (He & _). by apply (linked_facts _ _ (cn_linked _ _ He)).
  - intros e d n c (He & Hi) Ho Hl Hd Hw. destruct (connecting_write e b d n c He Ho Hl Hd Hw) as (W1 & W2 & W3).
    split; [split; [done|congruence]|done].
  - done.
  - done.
  - unfold write_fuel, buf_length. pose proof (zlen_nonneg (str (bytes_to_send s))). lia.
  - intros Hnn. rewrite H6. destruct (x_closed s); [by rewrite H7 in Hnn|done].
  - rewrite <- H5, zlen_app in H8. lia.
  - rewrite H1 in E. unfold buf_length. rewrite H5 in Hw1.
    assert (Hsome : 0 < zlen (written a1)).
    { destruct Hfull as [Hf|Hf]; [|by eapply connecting_some]. rewrite Hf, app_nil_r in Hw1. rewrite Hw1.
      destruct data as [|d l]; [done|]. rewrite zlen_cons. pose proof (zlen_nonneg l). lia. }
    destruct ((zlen (str bytes) =? 0) && negb (x_closed s)) eqn:Ec.
    + pose proof Ec as [Ez _]%andb_true_iff. apply Z.eqb_eq in Ez.
      destruct (connecting_end a1 b Ha1) as (S1 & S2 & S3). set (a2 := with_conn a1 _) in *.
      exists a2, bytes, (conn a1). rewrite Ec, S2. split_and!; try done; [congruence|].
      intros _. destruct (str bytes) as [|z l]; [done|]. rewrite zlen_cons in Ez. pose proof (zlen_nonneg l). lia.
    + exists a1, bytes, (conn a1). rewrite Ec, He1, H6. split_and!; try done. intros Hx. by apply Hnil, H7.
Qed.

(** ** The SYNs cross *)

(** What both sides do with a SYN that acknowledges nothing. *)
Definition take_syn (c : TCPConnection) (r : TCPReceiver) : TCPConnection :=
  send_segments (on_sender send_empty_segment (set_receiver (set_time c 0) r)).

Lemma linked_syn a b seg r :
  linked a b -> flying b a seg -> rst (header seg) = false ->
  TCPReceiver.segment_received (_receiver (conn a)) seg = Ok r ->
  let c := take_syn (conn a) r in
  linked (with_conn a c) b /\ isn_of (with_conn a c) = isn_of a /\ ended (with_conn a c) = ended a.
Proof.
  intros Hl [F1 F2 F3] Hr Er c. unfold take_syn in c. pose proof Hl as [[A1 A2 A3] [B1 B2 B3]].
  destruct F1 as [?|F1]; [congruence|]. pose proof (si_small _ _ _ B1) as Hbs. pose proof (si_isn _ _ _ B1) as Hbi.
  set (c1 := set_receiver (set_time (conn a) 0) r) in *. set (c2 := on_sender send_empty_segment c1) in *.
  destruct (send_segments_parts c2) as (P1 & P2 & _). fold c in P1, P2.
  pose proof (sp_conn _ _ _ A3) as Hp. pose proof (pi_acks _ _ _ _ _ _ _ _ _ Hp) as Ha.
  destruct (linked_facts _ _ Hl) as (_ & _ & _ & _ & _ & Rc & _).
  destruct (segment_received_receives (written b) (isn_of b) _ seg Hbi ltac:(lia) Rc (sent_seg_of _ _ _ _ Hbs F1)) as (r1 & Er1 & _ & _ & _ & Erd & _).
  rewrite Er in Er1. injection Er1 as <-.
  assert (Hi : isn_of (with_conn a c) = isn_of a) by (unfold isn_of; cbn [with_conn conn]; by rewrite P2).
  assert (He : ended (with_conn a c) = ended a) by (unfold ended; cbn [with_conn conn]; by rewrite P2).
  assert (Ha0 : acks_inv (written a) (ended a) (isn_of a) (written b) (ended b) (isn_of b) (expected (_receiver (conn b))) (set_time (conn a) 0)).
  { destruct Ha as [Hc H2 H3 H4 H5]. constructor; try done. by destruct Hc. }
  assert (Er0 : receiver_segment seg (set_time (conn a) 0) = Ok c1).
  { unfold receiver_segment. cbn [set_time _receiver]. by rewrite Er. }
  destruct (acks_inv_receiver _ _ _ _ _ _ Hbs Hbi _ seg _ c1 F1 Ha0 Er0) as [Ha1 Hx].
  split; [|by split]. apply linked_conn; [done| | | |].
  - apply prog_send; [done|]. apply prog_empty. destruct Hp as [_ H2 H3 H4 H5]. constructor; try done.
    cbn [c1 set_receiver _receiver]. by eapply upto_receive.
  - unfold inbound_stream. rewrite P1. exact Erd.
  - rewrite P1. exact Hx.
  - rewrite P2. done.
Qed.

(** [y] takes the SYN of [x]. *)
Lemma syn_to_half_open isn isn_y :
  wi_wf isn ->
  let c := opening default_TCPConfig (new_TCPReceiver DEFAULT_CAPACITY) (syn_fin_sender isn_y 0 TIMEOUT_DFLT) [segment_of_syn_fin isn_y] in
  let r := syn_received DEFAULT_CAPACITY isn in
  TCPReceiver.segment_received (_receiver c) (segment_of_syn isn) = Ok r /\
  segment_received c (segment_of_syn isn) = Ok (take_syn c r) /\
  take_syn c r = opening default_TCPConfig r (syn_fin_sender isn_y 0 TIMEOUT_DFLT)
    [segment_of_syn_fin isn_y; stamp r (empty_segment (syn_fin_sender isn_y 0 TIMEOUT_DFLT))].
Proof.
  intros Hi c r. assert (Er : TCPReceiver.segment_received (_receiver c) (segment_of_syn isn) = Ok r) by (by apply receive_syn).
  split; [done|]. split; [|done].
  transitivity (c0 ← receiver_segment (segment_of_syn isn) (set_time c 0); Ok (send_segments (on_sender send_empty_segment c0))); [done|].
  unfold receiver_segment. cbn [set_time _receiver]. by rewrite Er.
Qed.

(** [x] takes the SYN and the FIN of [y]: its inbound stream ends at once. *)
Definition syn_fin_received (cap : Z) (isn : WrappingInt32) : TCPReceiver :=
  {| _reassembler := check_end (with_eof (new_StreamReassembler cap) 0);
     TCPReceiver._capacity := cap; TCPReceiver._isn := raw_value isn; _checkpoint := 0;
     TCPReceiver._syn := true; TCPReceiver._fin := true |}.

Lemma syn_fin_taken isn isn_y st :
  wi_wf isn_y ->
  let c := emptied (syn_sent isn st) in
  let r := syn_fin_received DEFAULT_CAPACITY isn_y in
  TCPReceiver.segment_received (_receiver c) (segment_of_syn_fin isn_y) = Ok r /\
  segment_received c (segment_of_syn_fin isn_y) = Ok (take_syn c r).
Proof.
  intros Hi c r.
  assert (Er : TCPReceiver.segment_received (_receiver c) (segment_of_syn_fin isn_y) = Ok r).
  { unfold TCPReceiver.segment_received, copy. cbn -[wrap]. rewrite raw_wrap, Z.add_0_l, Z.mod_small by apply Hi. done. }
  split; [done|].
  transitivity (c0 ← receiver_segment (segment_of_syn_fin isn_y) (set_time c 0); Ok (send_segments (on_sender send_empty_segment c0))); [done|].
  unfold receiver_segment. cbn [set_time _receiver]. by rewrite Er.
Qed.

Lemma syn_fin_to_busy isn isn_y st :
  TCPSender.wf (_sender (syn_sent isn st)) -> ByteStream.eof st = false ->
  let c := take_syn (emptied (syn_sent isn st)) (syn_fin_received DEFAULT_CAPACITY isn_y) in
  busy c /\ _sender c = _sender (syn_sent isn st) /\
  segments_out c = [stamp (syn_fin_received DEFAULT_CAPACITY isn_y) (empty_segment (_sender (syn_sent isn st)))].
Proof.
  intros Hwf He. unfold take_syn. set (c1 := on_sender send_empty_segment _). cbn zeta.
  destruct (send_segments_parts c1) as (_ & P2 & P3 & _).
  split; [|split; [by rewrite P2|unfold segments_out; by rewrite P3]].
  destruct (busy_send c1) as [Hb|[_ _ _ Hf _]]; try done.
  - exact (send_empty_segment_wf _ Hwf).
  - by right.
  - rewrite P2 in Hf. exfalso.
    change (ByteStream.eof st = true) in Hf. congruence.
Qed.

(** ** The acknowledgment of the SYN lets the data go *)

(** Everything outstanding is in the queue, and every FIN in the queue is outstanding. *)
Record queue_outstanding (s : TCPSender) : Prop := {
  qo_all k z : (k, z) ∈ _segments_outgoing s -> z ∈ TCPSender._segments_out s;
  qo_fin z : z ∈ TCPSender._segments_out s -> fin (header z) = true -> exists k, (k, z) ∈ _segments_outgoing s
}.

Lemma queue_outstanding_fill s : TCPSender.wf s -> queue_outstanding s -> queue_outstanding (fill_window s).
Proof.
  intros Hwf [H1 H2]. destruct (fill_outstanding s Hwf) as [_ _ [l Hl] _]. destruct (fill_window_more s Hwf) as (segs & [] & _).
  rewrite Hl, map_app in more_outgoing. apply app_inv_head in more_outgoing. constructor; rewrite Hl, more_out, <- more_outgoing.
  - intros k z [Hin|Hin]%elem_of_app; apply elem_of_app; [left; by eapply H1|right]. apply list_elem_of_fmap. by exists (k, z).
  - intros z [Hin|Hin]%elem_of_app Hf.
    + destruct (H2 z Hin Hf) as [k Hk]. exists k. apply elem_of_app. by left.
    + apply list_elem_of_fmap in Hin as ([k z1] & -> & Hin). exists k. apply elem_of_app. by right.
Qed.

Lemma queue_outstanding_empty s : queue_outstanding s -> queue_outstanding (send_empty_segment s).
Proof.
  intros [H1 H2].
  assert (E : TCPSender._segments_out (send_empty_segment s) = TCPSender._segments_out s ++ [empty_segment s]) by done.
  constructor; rewrite E.
  - intros k z Hin. apply elem_of_app. left. by eapply H1.
  - intros z [Hin|Hin]%elem_of_app Hf; [by apply H2|]. apply list_elem_of_singleton in Hin as ->. done.
Qed.

Lemma queue_outstanding_ack isn st w :
  TCPSender.wf (_sender (syn_sent isn st)) -> 0 <= w < 2 ^ 16 ->
  queue_outstanding (ack_received (_sender (syn_sent isn st)) (wrap 1 isn) w).
Proof.
  intros Hwf Hw. set (s := _sender (syn_sent isn st)) in *.
  assert (Hu : unwrap (wrap 1 isn) (TCPSender._isn s) (_next_seqno s) = 1) by (apply unwrap_wrap_lem; [apply Hwf|cbn; lia..]).
  destruct (ack_received_eq s (wrap 1 isn) w Hwf Hw) as [[Hgt _]|(_ & o & Heq & Hwf' & Ho & _)]; rewrite Hu in *; [cbn in Hgt; lia|].
  rewrite Heq. apply queue_outstanding_fill; [done|].
  constructor; [intros k z Hin|intros z Hin _]; by apply not_elem_of_nil in Hin.
Qed.

(** The sending side [c] after its SYN has been acknowledged: a plain
    acknowledgment is queued, and the first window of data after it. *)
Record opened (a b : endpoint) (c : TCPConnection) : Prop := {
  on_isn : isn_of (with_conn a c) = isn_of a;
  on_ended : ended (with_conn a c) = ended a;
  on_busy : busy c;
  on_fresh : fresh (_sender c);
  on_count : consecutive_retransmissions (_sender c) = 0;
  on_acked : 0 < acked (_sender c);
  on_queue : Forall (acking 2 (isn_of b)) (segments_out c);
  on_initial : _initial_retransmission_timeout (_sender c) = TIMEOUT_DFLT;
  on_capacity : 0 < ByteStream._capacity (_stream (_sender c));
  on_emits : conn_emits c;
  on_some : _segments_outgoing (_sender c) <> [];
  on_first : exists e q r0, segments_out c = e :: map (stamp r0) q /\ fin (header e) = false /\
    (forall k z, (k, z) ∈ _segments_outgoing (_sender c) -> z ∈ q) /\
    (forall z, z ∈ q -> fin (header z) = true -> exists k, (k, z) ∈ _segments_outgoing (_sender c))
}.

(** The stream that [x] has been given is not used up. *)
Lemma connecting_open a b st :
  connecting a b -> conn a = syn_sent (isn_of a) st -> 0 < zlen (written a) -> ByteStream.eof st = false.
Proof.
  intros [Hl _ _] Hc Hpos. destruct (linked_facts _ _ Hl) as (Wf & _ & Sn & _).
  pose proof (snd_buff _ _ Sn) as Hb. pose proof (wf_next _ Wf) as Hn. rewrite Hc in Hb, Hn.
  change (1 = ByteStream.bytes_read st + 1 + 0) in Hn. change (ByteStream._buff st = drop (Z.to_nat (ByteStream.bytes_read st)) (written a)) in Hb.
  destruct (ByteStream.eof st) eqn:E; [|done]. apply eof_iff in E as [_ E].
  apply (f_equal zlen) in Hb. rewrite E, zlen_drop, (@zlen_nil byte) in Hb. lia.
Qed.

(** With data written and only the SYN acknowledged, something is outstanding. *)
Lemma opened_outstanding a b :
  linked a b -> 0 < zlen (written a) -> acked (_sender (conn a)) = 1 -> _segments_outgoing (_sender (conn a)) <> [].
Proof.
  intros Hl Hpos Hk Hog. destruct (linked_facts _ _ Hl) as (Wf & [_ St] & Sn & _).
  pose proof (wf_chain _ Wf) as Hc. rewrite Hog in Hc. cbn [chain] in Hc.
  pose proof (wf_next _ Wf) as Hn. pose proof (snd_buff _ _ Sn) as Hb. pose proof (effective_window_range _ Wf).
  unfold acked, next_seqno_absolute, TCPSender.bytes_in_flight in Hk.
  assert (Hsy : TCPSender._syn (_sender (conn a)) = true).
  { destruct (TCPSender._syn (_sender (conn a))) eqn:Ey; [done|]. destruct (wf_syn _ Wf Ey) as [E1 E2].
    rewrite E1, E2 in Hn. cbn [b1] in Hn. lia. }
  destruct (St Hsy) as [?|(Hbuf & _ & _)]; [lia|]. rewrite Hsy in Hn. cbn [b1] in Hn.
  rewrite Hbuf in Hb. apply (f_equal zlen) in Hb. rewrite zlen_drop, (@zlen_nil byte) in Hb.
  pose proof (ByteStream.wf_totout _ (wf_stream _ Wf)) as Ht.
  change (ByteStream._totout (_stream (_sender (conn a)))) with (ByteStream.bytes_read (_stream (_sender (conn a)))) in Ht.
  destruct (TCPSender._fin (_sender (conn a))); cbn [b1] in Hn; lia.
Qed.

Lemma first_answer a b st seg :
  linked a b -> TCPSender.wf (_sender (syn_sent (isn_of a) st)) ->
  conn a = take_syn (emptied (syn_sent (isn_of a) st)) (syn_fin_received DEFAULT_CAPACITY (isn_of b)) ->
  ByteStream.eof st = false -> ByteStream._capacity st = DEFAULT_CAPACITY -> conn_emits (conn a) ->
  0 < zlen (written a) -> written b = [] -> expected (_receiver (conn b)) = 1 -> flying b a seg -> acking 1 (isn_of a) seg ->
  exists c, segment_received (conn a) seg = Ok c /\ linked (with_conn a c) b /\ opened a b c.
Proof.
  intros Hl Hwf Hc Heof Hcap Hem Hpos Hwb Hex Hf Hak.
  destruct (syn_fin_to_busy (isn_of a) (isn_of b) st Hwf Heof) as (Hbz & Es & Eq). rewrite <- Hc in Hbz, Es, Eq.
  destruct (busy_current a b seg Hl Hbz Hf) as (c & Ec & Ha & H0 & Hm & _); [by rewrite Hex|].
  pose proof Hak as [[Hr _] Hn]. pose proof (flying_win _ _ _ Hf Hr) as Hw.
  destruct (linked_facts _ _ Hl) as (Wf & _ & _ & _ & _ & Rc & _).
  destruct (busy_receives (conn a) seg c Wf (rcv_wf _ _ _ Rc) Hw Hbz Hr Ec) as [(s1 & Hs1 & Es1 & Eq1) _].
  pose proof (an_linked _ _ _ Ha) as Hl'. destruct (linked_facts _ _ Hl') as (Wc & _ & _ & _ & _ & _ & Hx). rewrite Hex in Hx. cbn [with_conn conn] in Wc, Hx.
  assert (Hk : acked (_sender (conn a)) < acked (_sender c)).
  { eapply Hm; [by rewrite Es|]. rewrite Hex. done. }
  assert (Hz : acked (_sender (conn a)) = 0) by by rewrite Es.
  assert (Hq : queue_outstanding (fill_window s1)).
  { rewrite Hn, Es in Hs1. pose proof (queue_outstanding_ack (isn_of a) st (win (header seg)) Hwf Hw) as Hqo.
    pose proof (ack_received_wf _ (wrap 1 (isn_of a)) _ Hwf Hw) as Hwa.
    destruct Hs1 as [->| ->]; apply queue_outstanding_fill; try done; [by apply send_empty_segment_wf|by apply queue_outstanding_empty]. }
  pose proof (an_advances _ _ _ Ha) as [V0 V1 V2 V3 V4 V5 V6].
  assert (Hb : busy c).
  { destruct (an_state _ _ _ Ha) as [?|Hfi]; [done|]. destruct (finished_all _ _ Hl' Hfi) as (_ & F & _); [cbn [with_conn conn]; lia|].
    rewrite Hex in F. cbn [with_conn written] in F. lia. }
  exists c. split; [done|]. split; [done|]. constructor; try done.
  - exact (an_isn _ _ _ Ha).
  - exact (an_ended _ _ _ Ha).
  - apply V4. lia.
  - lia.
  - pose proof (an_queue _ _ _ Ha) as Hqq. rewrite Hwb in Hqq. apply Hqq. rewrite Eq. apply Forall_singleton.
    pose proof (ended_expected _ _ _ Rc (bz_syn _ Hbz) (bz_in _ Hbz)) as He2. rewrite Hwb in He2. change (zlen (@nil byte) + 2) with 2 in *.
    pose proof Hl as [_ [B1 _ _]].
    rewrite <- He2. replace (syn_fin_received DEFAULT_CAPACITY (isn_of b)) with (_receiver (conn a)).
    + eapply stamp_acking; [exact Rc|apply (si_isn _ _ _ B1)|apply Hbz|done].
    + rewrite Hc. unfold take_syn. by rewrite parts_receiver.
  - by rewrite V1, Es.
  - rewrite V0, Es. change (0 < ByteStream._capacity st). by rewrite Hcap.
  - by eapply segment_received_emits.
  - apply (opened_outstanding (with_conn a c) b); [done|done|]. cbn [with_conn conn]. lia.
  - eexists _, _, (_receiver c). rewrite Eq1, Eq. split; [done|]. split; [done|]. destruct Hq as [Q1 Q2]. rewrite Es1.
    change (_segments_outgoing (clear_segments_out (fill_window s1))) with (_segments_outgoing (fill_window s1)).
    change (TCPSender.segments_out (fill_window s1)) with (TCPSender._segments_out (fill_window s1)).
    by split.
Qed.

(** The receiving side before the first turn. *)
Definition syn_fin_sent (isn : WrappingInt32) : TCPConnection :=
  opening default_TCPConfig (new_TCPReceiver DEFAULT_CAPACITY) (syn_fin_sender isn 0 TIMEOUT_DFLT) [segment_of_syn_fin isn].

(** And once the queues have been handed over. *)
Definition syn_heard (isn isn_y : WrappingInt32) (out : list TCPSegment) : TCPConnection :=
  opening default_TCPConfig (syn_received DEFAULT_CAPACITY isn) (syn_fin_sender isn_y 0 TIMEOUT_DFLT) out.

Lemma receive_two c seg1 c1 seg2 c2 :
  segment_received c seg1 = Ok c1 -> segment_received c1 seg2 = Ok c2 -> receive_all c [seg1; seg2] = Ok c2.
Proof. intros H1 H2. cbn [receive_all]. rewrite H1. cbn [mbind result_bind]. by rewrite H2. Qed.

Lemma exchange_first reorder a b :
  connecting a b -> conn b = syn_fin_sent (isn_of b) -> written b = [] -> 0 < zlen (written a) ->
  exists q c, let cb := syn_heard (isn_of a) (isn_of b) q in
    move_segments (conn a) (conn b) reorder = Ok (emptied (conn a), cb) /\
    move_segments cb (emptied (conn a)) false = Ok (emptied cb, c) /\
    linked (with_conn a c) (with_conn b (emptied cb)) /\ opened a b c.
Proof.
  intros Hcn Hb Hwb Hpos. pose proof Hcn as [Hl (st & Hc & Hcap) Hem].
  pose proof (connecting_open a b st Hcn Hc Hpos) as Heof. destruct (linked_facts _ _ Hl) as (Wf & _).
  pose proof Hl as [[A1 _ _] [B1 _ _]]. pose proof (si_isn _ _ _ A1) as Hia. pose proof (si_isn _ _ _ B1) as Hib.
  destruct (hand_over a b Hl) as [Hl1 Hf1]. set (a' := with_conn a (emptied (conn a))) in *.
  assert (Eqa : segments_out (conn a) = [segment_of_syn (isn_of a)]) by by rewrite Hc.
  rewrite Eqa in Hf1. apply Forall_cons in Hf1 as [Hf1 _].
  destruct (syn_to_half_open (isn_of a) (isn_of b) Hia) as (Ery & Ey & Sy). fold (syn_fin_sent (isn_of b)) in Ery, Ey, Sy.
  rewrite <- Hb in Ery, Ey, Sy. set (r := syn_received DEFAULT_CAPACITY (isn_of a)) in *.
  destruct (linked_syn b a' _ r (linked_sym _ _ Hl1) Hf1 eq_refl Ery) as (Hl2 & Hi2 & _).
  set (q := [segment_of_syn_fin (isn_of b); stamp r (empty_segment (syn_fin_sender (isn_of b) 0 TIMEOUT_DFLT))]) in *.
  set (cb := syn_heard (isn_of a) (isn_of b) q) in *. change (take_syn (conn b) r = cb) in Sy. rewrite Sy in *.
  set (b1 := with_conn b cb) in *. destruct (hand_over b1 a' Hl2) as [Hl3 Hf3]. set (b2 := with_conn b1 (emptied (conn b1))) in *.
  change (segments_out (conn b1)) with q in Hf3. apply Forall_cons in Hf3 as [Hf3 [Hf4 _]%Forall_cons].
  destruct (syn_fin_taken (isn_of a) (isn_of b) st Hib) as [Erx Ex]. rewrite <- Hc in Erx, Ex. change (emptied (conn a)) with (conn a') in Erx, Ex.
  destruct (linked_syn a' b2 _ _ (linked_sym _ _ Hl3) Hf3 eq_refl Erx) as (Hl4 & Hi4 & He4).
  set (a2 := with_conn a' (take_syn (conn a') (syn_fin_received DEFAULT_CAPACITY (isn_of b)))) in *.
  assert (Hia2 : isn_of a2 = isn_of a) by by rewrite Hi4.
  assert (Hib2 : isn_of b2 = isn_of b) by done.
  destruct (linked_facts _ _ (linked_sym _ _ Hl4)) as (_ & _ & _ & _ & _ & Rb & _).
  destruct (first_answer a2 b2 st (stamp r (empty_segment (syn_fin_sender (isn_of b) 0 TIMEOUT_DFLT)))) as (c & Ec & Hlc & Ho).
  - done.
  - rewrite Hia2, <- Hc. exact Wf.
  - rewrite Hia2, Hib2. unfold a2. cbn [with_conn conn a']. by rewrite <- Hc.
  - done.
  - done.
  - eapply segment_received_emits; [|exact Ex]. destruct Hem. constructor; [done|apply Forall_nil_2].
  - exact Hpos.
  - exact Hwb.
  - done.
  - eapply flying_same; [exact Hi4|exact Hf4].
  - rewrite Hia2. apply (stamp_acking (written a2) (isn_of a) r); [by rewrite <- Hia2|done|done|done].
  - exists q, c. split; [|split; [|split]].
    + apply move_segments_eq. rewrite Eqa.
      replace (if reorder then rev [segment_of_syn (isn_of a)] else [segment_of_syn (isn_of a)]) with [segment_of_syn (isn_of a)] by by destruct reorder.
      cbn [receive_all]. rewrite Ey. done.
    + apply move_segments_eq. exact (receive_two _ _ _ _ _ Ex Ec).
    + exact Hlc.
    + destruct Ho. constructor; try done; [by rewrite <- Hia2|by transitivity (ended a2)].
Qed.

(** The clock repeats the SYN and the FIN of [y], now with an acknowledgment. *)
Lemma half_open_tick isn isn_y q :
  let c := tick (emptied (syn_heard isn isn_y q)) 1000 in
  half_open isn c /\ Forall replying (segments_out c).
Proof.
  intros c. assert (Hc : c = {| _time_since_last_segment_received := 1000; _active := true; _cfg := default_TCPConfig;
    _receiver := syn_received DEFAULT_CAPACITY isn; _sender := syn_fin_sender isn_y 1 2000;
    _segments_out := [stamp (syn_received DEFAULT_CAPACITY isn) (segment_of_syn_fin isn_y)];
    _linger_after_streams_finish := true |}) by reflexivity.
  rewrite Hc. split; [by constructor|]. by apply Forall_singleton.
Qed.

(** The clock of [x] puts the oldest segment in the middle of the queue. *)
Lemma opened_tick a b c :
  opened a b c -> TCPSender.wf (_sender c) -> surrounded (tick c 1000).
Proof.
  intros Ho Hwf. destruct (busy_tick c Hwf (on_busy _ _ _ Ho) (on_fresh _ _ _ Ho) (on_count _ _ _ Ho) (on_initial _ _ _ Ho))
    as (_ & _ & _ & K4 & _ & _ & K7).
  destruct (on_first _ _ _ Ho) as (e & q & r0 & Eq & Hfe & Hall & Hfin). pose proof (on_some _ _ _ Ho) as Hsome.
  destruct (_segments_outgoing (_sender c)) as [|[k z] l] eqn:Eo; [done|]. clear Hsome.
  assert (Hz : z ∈ q) by (apply (Hall k); apply elem_of_cons; by left).
  rewrite Eq in K7. constructor.
  - apply list_elem_of_split in Hz as (q1 & q2 & ->).
    exists k, z, l, r0, (e :: map (stamp r0) q1), (map (stamp r0) q2 ++ [stamp (_receiver c) z]).
    rewrite K4, K7, map_app. cbn [app map]. rewrite <- app_assoc. split_and!; try done. by destruct (map (stamp r0) q2).
  - rewrite K4, K7. apply Forall_forall. intros seg [Hin|Hin]%elem_of_app Hf.
    + apply elem_of_cons in Hin as [->|Hin]; [congruence|]. apply list_elem_of_fmap in Hin as (z1 & -> & Hin).
      assert (Hf1 : fin (header z1) = true) by (revert Hf; unfold stamp; by destruct (TCPReceiver.ackno r0)).
      destruct (Hfin z1 Hin Hf1) as [k1 Hk1]. by exists r0, k1, z1.
    + apply list_elem_of_singleton in Hin as ->. exists (_receiver c), k, z. split; [done|]. apply elem_of_cons. by left.
Qed.

(** The first turn. *)
Lemma turn_first reorder data a b s :
  connecting a b -> conn b = syn_fin_sent (isn_of b) -> written b = [] -> holds data a b s -> data <> [] ->
  exists s' a' b', loop reorder s = Ok s' /\ holds data a' b' s' /\ second a' b'.
Proof.
  intros Hcn Hb Hwb Hh Hne.
  destruct (first_fill a b s data Hcn Hh Hne) as (a1 & bytes & c1 & E1 & E2 & S1 & I1 & P1 & B1 & W1 & N1).
  unfold loop. rewrite E1. cbn [mbind result_bind]. rewrite E2, <- (ho_y _ _ _ _ Hh).
  destruct (exchange_first reorder a1 b S1 Hb Hwb P1) as (q & c & Em & Eb & Hl & Ho). rewrite Em. cbn [mbind result_bind].
  rewrite Eb. cbn [mbind result_bind]. set (cb := syn_heard (isn_of a1) (isn_of b) q) in *.
  change (ByteStream.buffer_size (inbound_stream (emptied cb))) with 0. cbn [Z.ltb Z.compare]. cbn iota. cbn zeta.
  destruct (linked_tick _ _ Hl) as [Hl1 Hi1]. destruct (linked_tick _ _ (linked_sym _ _ Hl1)) as [Hl2 Hi2]. apply linked_sym in Hl2.
  set (a2 := with_conn (with_conn a1 c) (tick (conn (with_conn a1 c)) 1000)) in *.
  set (b2 := with_conn (with_conn b (emptied cb)) (tick (conn (with_conn b (emptied cb))) 1000)) in *.
  destruct (half_open_tick (isn_of a1) (isn_of b) q) as [Hho Hrq]. fold cb in Hho, Hrq.
  destruct (linked_facts _ _ Hl) as (Wc & _).
  assert (Ia : isn_of a2 = isn_of a1) by (rewrite Hi1; apply Ho).
  assert (Ea : ended a2 = ended a1).
  { rewrite <- (on_ended _ _ _ Ho). pose proof Hl as [[L1 _ _] _].
    exact (ci_ended _ _ _ _ _ _ _ (tick_inv _ _ _ _ _ _ c 1000 (si_conn _ _ _ L1))). }
  eexists _, a2, b2. split; [done|]. split.
  - destruct Hh. constructor; try done.
  - destruct (sending_tick (with_conn a1 c) (with_conn b (emptied cb)) b2 Hl) as [Hs _]; try apply Ho; try done.
    + cbn [with_conn written]. rewrite Hwb. apply Ho.
    + constructor; try done; [by rewrite Ia|by eapply opened_tick].
Qed.
