(* ===== verification/BenchmarkEnds.v ===== *)
(** * The throughput benchmark ends

    Both loops of [src/apps/tcp_benchmark.cc] end, whatever the string, the
    random numbers and the order in which segments are handed over: after the
    two opening turns every turn acknowledges more of the string, until the
    last answer closes the sending side; the receiving side then waits its ten
    seconds. *)

From S2P Require Import Prelude WrappingIntegers ByteStream StreamReassembler ReassemblerProps Buffer TCPHeader TCPSegment TCPReceiver TCPSender TCPState TCPConnection Transport Emission Acknowledgment Progress CommandLine Benchmark Lockstep BenchmarkTurns BenchmarkOpening.

(** ** The start *)

Lemma start_pair rnd_x rnd_y data :
  zlen data + 2 < 2 ^ 32 ->
  exists a b, connecting a b /\ conn b = syn_fin_sent (isn_of b) /\ written b = [] /\
    holds data a b (bench_init default_TCPConfig rnd_x rnd_y data).
Proof.
  intros Hd. pose proof default_config_ok as Hc. set (a0 := new_endpoint default_TCPConfig rnd_x). set (b0 := new_endpoint default_TCPConfig rnd_y).
  assert (Hl : linked a0 b0) by (split; constructor; by (apply new_side || apply new_side_acks || apply new_side_prog)).
  destruct (linked_own a0 b0 _ _ Hl (local_connect _ _)) as (Hl1 & _). set (a := with_conn a0 _) in Hl1.
  destruct (linked_own b0 a _ _ (linked_sym _ _ Hl1) (local_end _ _)) as (Hl2 & _). set (b := with_conn b0 _) in Hl2.
  exists a, b. split; [|split; [exact (end_new rnd_y)|split; [done|]]].
  - constructor; [by apply linked_sym| |apply connect_emits, new_emits]. eexists. split; [exact (connect_syn_sent rnd_x)|done].
  - constructor; try done. apply wf_new_Buffer. lia.
Qed.

(** ** The receiving side waits *)

(** The last turn of the clock. *)
Lemma waiting_expires c :
  TCPSender.wf (_sender c) -> waiting c -> ByteStream.input_ended (inbound_stream c) = true ->
  0 <= _time_since_last_segment_received c < 10 * TIMEOUT_DFLT ->
  10 * TIMEOUT_DFLT <= _time_since_last_segment_received c + 1000 -> _active (tick c 1000) = false.
Proof.
  intros Hwf [W1 W2 W3 W4 W5 W6 W7 W8] Hin Ht0 Ht. unfold TIMEOUT_DFLT in *.
  assert (Hog : _segments_outgoing (_sender c) = []).
  { pose proof (wf_chain _ Hwf) as Hc. destruct (_segments_outgoing (_sender c)) as [|[k z] l]; [done|].
    destruct Hc as (_ & Hl & Hc). apply chain_le in Hc. unfold TCPSender.bytes_in_flight in W6. lia. }
  assert (Hlg : lingering c) by (constructor; try done; exact (wf_fin _ Hwf W5)).
  destruct (lingering_tick c 1000 Hlg) as (_ & _ & H); [lia|lia|lia|]. rewrite W3 in H.
  rewrite (proj2 (Z.ltb_ge _ _)) in H by lia. done.
Qed.

(** Both connections are done. *)
Definition both_done (s : bench) : Prop := active (x s) = false /\ active (y s) = false.

(** How long the receiving side has waited when it is given the queue of [a]. *)
Definition waited (a b : endpoint) : Z :=
  if bool_decide (segments_out (conn a) = []) then _time_since_last_segment_received (conn b) else 0.

(** The two calls of [move_segments] once the sending side is done. *)
Lemma exchange_closing reorder a b :
  closing a b ->
  let a1 := with_conn a (emptied (conn a)) in
  exists c, move_segments (conn a) (conn b) reorder = Ok (emptied (conn a), c) /\
    move_segments c (emptied (conn a)) false = Ok (emptied c, emptied (conn a)) /\
    linked a1 (with_conn b (emptied c)) /\ waiting c /\ ByteStream.input_ended (inbound_stream c) = true /\
    _time_since_last_segment_received c = waited a b.
Proof.
  intros [C1 C2 C3 C4 C5 C6 C7 C8 C9] a1. destruct (hand_over a b C1) as [Hl1 Hf1]. fold a1 in Hl1, Hf1.
  set (q := if reorder then rev (segments_out (conn a)) else segments_out (conn a)).
  destruct (waiting_batch q b a1 (linked_sym _ _ Hl1) C5) as (c & Ec & Hhd & Htm & _);
    [by apply Forall_order|by apply Forall_order|].
  exists c. split; [by apply move_segments_eq|]. split; [apply move_segments_eq; by rewrite receive_all_inactive|].
  split. { destruct (hand_over _ _ (hd_linked _ _ _ Hhd)) as [Hl2 _]. exact (linked_sym _ _ Hl2). }
  split; [apply Hhd|]. split; [exact (hd_open _ _ _ Hhd C6)|]. unfold waited.
  destruct (bool_decide_reflect (segments_out (conn a) = [])) as [Eq|Nq].
  - assert (q = []) as Eq0 by (unfold q; rewrite Eq; by destruct reorder). rewrite Eq0 in Ec. by injection Ec as <-.
  - apply Htm. unfold q. destruct reorder; [|done]. intros E. apply Nq. by rewrite <- (rev_involutive (segments_out (conn a))), E.
Qed.

(** The clock of the receiving side, then. *)
Lemma closing_tick a b :
  linked a b -> _active (conn a) = false -> ended a = true -> segments_out (conn a) = [] -> waiting (conn b) ->
  ByteStream.input_ended (inbound_stream (conn b)) = true -> ByteStream._buff (inbound_stream (conn b)) = [] ->
  segments_out (conn b) = [] -> 0 <= _time_since_last_segment_received (conn b) < 10 * TIMEOUT_DFLT ->
  let b' := with_conn b (tick (conn b) 1000) in
  closing a b' /\ _time_since_last_segment_received (conn b') = _time_since_last_segment_received (conn b) + 1000 \/
  _active (conn b') = false.
Proof.
  intros Hl Ha He Hq Hw Hi Hb Ho Ht b'. destruct (linked_tick _ _ (linked_sym _ _ Hl)) as [Hl' _].
  destruct (linked_facts _ _ (linked_sym _ _ Hl)) as (Wb & _).
  destruct (Z.lt_ge_cases (_time_since_last_segment_received (conn b) + 1000) (10 * TIMEOUT_DFLT)) as [Hlt|Hge].
  - left. destruct (waiting_tick (conn b) Wb Hw) as (T1 & T2 & T3 & T4); [lia|done|]. split; [|exact T4].
    constructor; try done; cbn [b' with_conn conn]; unfold inbound_stream; rewrite ?T2, ?T3, ?T4; try done; [by apply linked_sym| |lia].
    rewrite Hq. apply Forall_nil_2.
  - right. by apply waiting_expires.
Qed.

(** A turn after the sending side is done: the receiving side takes what is left
    in the queue, which restarts its wait, or waits on. *)
Lemma turn_closing reorder data a b s :
  closing a b -> holds data a b s ->
  exists s' a' b', loop reorder s = Ok s' /\ holds data a' b' s' /\
    (closing a' b' /\ segments_out (conn a') = [] /\ _time_since_last_segment_received (conn b') = waited a b + 1000 \/ both_done s').
Proof.
  intros Hc Hh. pose proof Hh as [H1 H2 H3 H4 H5 H6 H7 H8].
  assert (Hx : x_closed s = true) by (rewrite <- H6; apply Hc). specialize (H7 Hx).
  unfold loop, write_fuel. cbn [write_loop]. unfold buf_length. rewrite H7, Hx, <- H1, <- H2.
  change (zlen (@nil byte)) with 0. cbn [Z.ltb Z.compare andb Z.eqb negb mbind result_bind]. rewrite andb_false_r.
  destruct (exchange_closing reorder a b Hc) as (c & Em & Eb & Hl & Hw & Hi & Ht). set (a1 := with_conn a _) in *.
  rewrite Em. cbn [mbind result_bind]. rewrite Eb. cbn [mbind result_bind].
  destruct (reader_turn a1 (with_conn b (emptied c)) (string_received s) (linked_sym _ _ Hl) H3)
    as (b3 & E3 & Hl3 & [Hbf (st & Ecb & Est) Hwr] & _).
  cbn [with_conn conn] in E3, Ecb, Est. cbn zeta. rewrite E3.
  assert (Ex : tick (emptied (conn a)) 1000 = emptied (conn a)) by (unfold tick; cbn [emptied set_segments_out _active]; by rewrite (cl_inactive _ _ Hc)).
  assert (Ht3 : _time_since_last_segment_received (conn b3) = waited a b) by by rewrite Ecb.
  eexists _, a1, (with_conn b3 (tick (conn b3) 1000)). split; [done|]. rewrite Ex. split; [constructor; try done; apply Hc|].
  destruct (closing_tick a1 b3 (linked_sym _ _ Hl3)) as [[T1 T2]|T]; try done.
  - apply Hc.
  - apply Hc.
  - rewrite Ecb. apply waiting_read. by destruct Hw.
  - rewrite Ecb. change (ByteStream.input_ended st = true). by rewrite Est.
  - by rewrite Ecb.
  - rewrite Ht3. unfold waited. destruct (bool_decide _); [apply Hc|]. unfold TIMEOUT_DFLT. lia.
  - left. by rewrite T2, Ht3.
  - right. split; [exact (cl_inactive _ _ Hc)|exact T].
Qed.

(** ** The two loops *)

Lemma run_stop fuel stop reorder s : stop s = true -> run_until fuel stop reorder s = Ok (Some s).
Proof. intros H. by destruct fuel; cbn [run_until]; rewrite H. Qed.

Lemma run_step fuel stop reorder s s' :
  stop s = false -> loop reorder s = Ok s' -> run_until (S fuel) stop reorder s = run_until fuel stop reorder s'.
Proof. intros H1 H2. cbn [run_until]. by rewrite H1, H2. Qed.

(** The conditions of the two loops. *)
Abbreviation transferred := (fun s => ByteStream.eof (inbound_stream (y s))).
Abbreviation stopped := (fun s => negb (active (x s) || active (y s))).

Lemma open_not_transferred data a b s :
  holds data a b s -> ByteStream.input_ended (inbound_stream (conn b)) = false -> transferred s = false.
Proof. intros [_ H _ _ _ _ _ _] Ho. rewrite <- H. destruct (ByteStream.eof _) eqn:E; [|done]. apply eof_iff in E as [E _]. congruence. Qed.

Lemma closing_transferred data a b s : closing a b -> holds data a b s -> transferred s = true.
Proof. intros Hc [_ H _ _ _ _ _ _]. rewrite <- H. apply eof_iff. split; [exact (cl_in _ _ Hc)|exact (cl_empty _ _ Hc)]. Qed.

(** What is acknowledged while the transfer goes on. *)
Lemma steady_acked data a b s : steady a b -> holds data a b s -> acked (_sender (conn a)) <= zlen data + 1.
Proof.
  intros [Hs Hw Hli] [_ _ _ _ H5 _ _ _]. destruct (linked_facts _ _ (sg_linked _ _ Hs)) as (_ & _ & _ & _ & _ & _ & Hx).
  destruct (linked_facts _ _ (linked_sym _ _ (sg_linked _ _ Hs))) as (_ & _ & _ & _ & _ & Rb & _).
  pose proof (listening_expected a b (linked_sym _ _ (sg_linked _ _ Hs)) Hw Hli) as He.
  pose proof (fol_written _ _ (rcv_follows _ _ _ Rb)) as Hf. pose proof (wf_written _ (fol_wf _ _ (rcv_follows _ _ _ Rb))) as (_ & Hww & _).
  pose proof (zlen_nonneg (ByteStream._buff (_output (_reassembler (_receiver (conn b)))))).
  unfold inbound_stream, TCPReceiver.stream_out, StreamReassembler.stream_out, ByteStream.buffer_size in *.
  rewrite <- H5, zlen_app. pose proof (zlen_nonneg (str (bytes_to_send s))). lia.
Qed.

(** The transfer: every turn acknowledges more. *)
Lemma run_steady reorder data n a b s fuel :
  steady a b -> holds data a b s -> zlen data + 2 - acked (_sender (conn a)) <= Z.of_nat n -> (n <= fuel)%nat ->
  exists s' a' b', run_until fuel transferred reorder s = Ok (Some s') /\ closing a' b' /\ holds data a' b' s'.
Proof.
  revert a b s fuel. induction n as [|n IH]; intros a b s fuel Hs Hh Hn Hf; pose proof (steady_acked _ _ _ _ Hs Hh); [lia|].
  destruct fuel as [|fuel]; [lia|].
  destruct (turn_steady reorder data a b s Hs Hh) as (s1 & a1 & b1 & E & H1 & Hnext).
  rewrite (run_step _ _ _ _ s1); [|eapply open_not_transferred; [exact Hh|apply Hs]|done].
  destruct Hnext as [[Hs1 Hk]|Hc1].
  - apply (IH a1 b1 s1 fuel Hs1 H1); lia.
  - exists s1, a1, b1. split; [|done]. apply run_stop. by eapply closing_transferred.
Qed.

Lemma run_transfer reorder rnd_x rnd_y data fuel :
  0 < zlen data -> zlen data + 2 < 2 ^ 32 -> zlen data + 4 <= Z.of_nat fuel ->
  exists s a b, run_until fuel transferred reorder (bench_init default_TCPConfig rnd_x rnd_y data) = Ok (Some s) /\
    closing a b /\ holds data a b s.
Proof.
  intros Hpos Hd Hf. destruct (start_pair rnd_x rnd_y data Hd) as (a0 & b0 & Hc0 & Hb0 & Hw0 & Hh0).
  destruct fuel as [|[|fuel]]; [lia|lia|].
  assert (Hne : data <> []) by (intros ->; rewrite (@zlen_nil byte) in Hpos; lia).
  destruct (turn_first reorder data a0 b0 _ Hc0 Hb0 Hw0 Hh0 Hne) as (s1 & a1 & b1 & E1 & Hh1 & Hs1).
  rewrite (run_step _ _ _ _ s1); [|eapply open_not_transferred; [exact Hh0|by rewrite Hb0]|done].
  destruct (turn_second reorder data a1 b1 s1 Hs1 Hh1) as (s2 & a2 & b2 & E2 & Hh2 & Hnext).
  rewrite (run_step _ _ _ _ s2); [|eapply open_not_transferred; [exact Hh1|by unfold inbound_stream; rewrite (hf_receiver _ _ (sc_half_open _ _ Hs1))]|done].
  pose proof (sg_acked _ _ (sc_sending _ _ Hs1)) as Hk.
  destruct Hnext as [[Hs2 Hm]|Hc2].
  - apply (run_steady reorder data (Z.to_nat (zlen data + 2)) a2 b2 s2 fuel Hs2 Hh2); lia.
  - exists s2, a2, b2. split; [|done]. apply run_stop. by eapply closing_transferred.
Qed.

(** The wait: ten turns after the last segment. *)
Lemma closing_running data a b s : closing a b -> holds data a b s -> stopped s = false.
Proof.
  intros Hc [H1 H2 _ _ _ _ _ _]. unfold active. rewrite <- H2, (wt_active _ (cl_waiting _ _ Hc)), orb_true_r. done.
Qed.

Lemma done_stopped s : both_done s -> stopped s = true.
Proof. intros [H1 H2]. by rewrite H1, H2. Qed.

Lemma run_closing reorder data n a b s fuel :
  closing a b -> holds data a b s -> segments_out (conn a) = [] ->
  10 * TIMEOUT_DFLT - _time_since_last_segment_received (conn b) <= 1000 * Z.of_nat n -> (n <= fuel)%nat ->
  exists s', run_until fuel stopped reorder s = Ok (Some s').
Proof.
  revert a b s fuel. induction n as [|n IH]; intros a b s fuel Hc Hh Hq Ht Hf; pose proof (cl_time _ _ Hc); [lia|].
  destruct fuel as [|fuel]; [lia|].
  destruct (turn_closing reorder data a b s Hc Hh) as (s1 & a1 & b1 & E & H1 & Hnext).
  rewrite (run_step _ _ _ _ s1); [|by eapply closing_running|done].
  destruct Hnext as [(Hc1 & Hq1 & Ht1)|Hd]; [|exists s1; by apply run_stop, done_stopped].
  unfold waited in Ht1. rewrite Hq, bool_decide_eq_true_2 in Ht1 by done. apply (IH a1 b1 s1 fuel Hc1 H1 Hq1); lia.
Qed.

Lemma run_wait reorder data a b s fuel :
  closing a b -> holds data a b s -> (12 <= fuel)%nat -> exists s', run_until fuel stopped reorder s = Ok (Some s').
Proof.
  intros Hc Hh Hf. destruct fuel as [|fuel]; [lia|].
  destruct (turn_closing reorder data a b s Hc Hh) as (s1 & a1 & b1 & E & H1 & Hnext).
  rewrite (run_step _ _ _ _ s1); [|by eapply closing_running|done].
  destruct Hnext as [(Hc1 & Hq1 & _)|Hd]; [|exists s1; by apply run_stop, done_stopped].
  pose proof (cl_time _ _ Hc1). apply (run_closing reorder data 10 a1 b1 s1 fuel Hc1 H1 Hq1); unfold TIMEOUT_DFLT in *; lia.
Qed.

Lemma main_loop_ends fuel reorder rnd_x rnd_y data :
  0 < zlen data -> zlen data + 2 < 2 ^ 32 -> zlen data + 12 <= Z.of_nat fuel ->
  exists b, main_loop fuel reorder rnd_x rnd_y data = Ok (Some b).
Proof.
  intros Hpos Hd Hf. destruct (main_loop_ok fuel reorder rnd_x rnd_y data Hd) as (r & Hr & _). revert Hr. unfold main_loop.
  destruct (run_transfer reorder rnd_x rnd_y data fuel Hpos Hd ltac:(lia)) as (s & a & b & -> & Hc & Hh).
  cbn [mbind result_bind]. destruct (negb _); [done|].
  destruct (run_wait reorder data a b s fuel Hc Hh ltac:(lia)) as (s' & ->). intros _. by eexists.
Qed.

(** ** Properties *)

(** Turns that are enough for either loop. *)
Definition turns_enough (length : Z) (fuel : nat) : bool := length + 12 <=? Z.of_nat fuel.

(** C25: The benchmark succeeds. For any string that is not empty and fits the
    numbering, any random numbers, and with or without the reversal, both loops
    of a run end, in at most as many turns as the string has bytes and twelve
    more; nothing throws, the string has arrived, and both connections are
    closed. So for two strings of [len] bytes [main] returns [EXIT_SUCCESS]. And
    however many turns a run is given, also for the empty string, it throws
    nothing. *)
Theorem benchmark_ends fuel reorder rnd_x rnd_y data :
  zlen data + 2 < 2 ^ 32 ->
  (exists r, main_loop fuel reorder rnd_x rnd_y data = Ok r) /\
  (0 < zlen data -> turns_enough (zlen data) fuel = true ->
   exists b, main_loop fuel reorder rnd_x rnd_y data = Ok (Some b) /\
     string_received b = data /\ active (x b) = false /\ active (y b) = false) /\
  (forall r1 r2 r3 r4 s1 s2, zlen s1 = len -> zlen s2 = len -> turns_enough len fuel = true ->
   benchmark_main fuel r1 r2 r3 r4 s1 s2 = Some EXIT_SUCCESS).
Proof.
  unfold turns_enough. intros Hd. destruct (main_loop_ok fuel reorder rnd_x rnd_y data Hd) as (r & Hr & Hok).
  split; [by exists r|]. setoid_rewrite Z.leb_le. split.
  - intros Hpos Hf. destruct (main_loop_ends fuel reorder rnd_x rnd_y data Hpos Hd Hf) as [b Hb].
    rewrite Hb in Hr. injection Hr as <-. destruct (Hok b eq_refl) as [H1 [H2 H3]%orb_false_iff]. by exists b.
  - intros r1 r2 r3 r4 s1 s2 H1 H2 Hf. unfold benchmark_main, len in *.
    destruct (main_loop_ends fuel false r1 r2 s1) as [b1 ->]; [lia..|].
    by destruct (main_loop_ends fuel true r3 r4 s2) as [b2 ->]; [lia..|].
Qed.

Lemma benchmark_ends_witness :
  exists b, main_loop 100 true 5 99 (repeat Byte.x61 40) = Ok (Some b) /\
    string_received b = repeat Byte.x61 40 /\ active (x b) = false /\ active (y b) = false.
Proof. apply (benchmark_ends 100 true 5 99 (repeat Byte.x61 40)); vm_compute; reflexivity. Defined.
