(* ===== verification/WireSystem.v ===== *)
(** * Two endpoints over datagrams

    The system of [Transport] on the wire: each connection has an adapter
    ([FdAdapter], [TCPOverIP], with or without [LossyFdAdapter]) that turns its
    segments into datagrams, and the network carries bytes. It loses, repeats
    and reorders datagrams, and carries those of others too. The adapters are
    used through an interface; what it promises makes every run a run of
    [Transport]. *)

From S2P Require Import Prelude WrappingIntegers ByteStream StreamReassembler ReassemblerProps Buffer Parser InternetChecksum TCPHeader TCPSegment TCPReceiver TCPSender TCPState TCPConnection Transport IPv4Header IPv4Datagram FdAdapter TCPOverIP Emission AdapterIO.

(** ** Segments that a connection cannot tell apart *)

(** Equal up to ports, checksum and the place of the payload in memory. *)
Record same_segment (seg seg' : TCPSegment) : Prop := {
  same_seqno : seqno (TCPSegment.header seg') = seqno (TCPSegment.header seg);
  same_ackno : TCPHeader.ackno (TCPSegment.header seg') = TCPHeader.ackno (TCPSegment.header seg);
  same_flags : (ack (TCPSegment.header seg'), rst (TCPSegment.header seg'), syn (TCPSegment.header seg'), fin (TCPSegment.header seg')) =
               (ack (TCPSegment.header seg), rst (TCPSegment.header seg), syn (TCPSegment.header seg), fin (TCPSegment.header seg));
  same_win : win (TCPSegment.header seg') = win (TCPSegment.header seg);
  same_payload : str (TCPSegment.payload seg') = str (TCPSegment.payload seg)
}.

Lemma readdressed_same seg s d c p :
  str p = str (TCPSegment.payload seg) ->
  same_segment seg {| TCPSegment._header := TCPHeader.set_cksum (set_ports (TCPSegment.header seg) s d) c; TCPSegment._payload := p |}.
Proof. by constructor. Qed.

Lemma receiver_segment_same seg seg' c :
  same_segment seg seg' -> receiver_segment seg' c = receiver_segment seg c.
Proof.
  intros [H1 _ [= _ _ H2 H3] _ H4]. unfold receiver_segment, TCPReceiver.segment_received, copy. cbn zeta.
  by rewrite H1, H2, H3, H4.
Qed.

Lemma segment_received_same seg seg' c :
  same_segment seg seg' -> segment_received c seg' = segment_received c seg.
Proof.
  intros H. pose proof (fun c => receiver_segment_same seg seg' c H) as Hr.
  destruct H as [H1 H2 [= H3 H4 H5 H6] H7 H8]. unfold segment_received, sender_ack, length_in_sequence_space.
  cbn zeta. rewrite H2, H3, H4, H5, H6, H7, H8. repeat case_match; rewrite ?Hr; done.
Qed.

(** ** The interface to the wire *)

(** [In] is what arrives at a descriptor and [Out] what is written to it.
    [base] is the state of the adapter without a generator of losses; [carry]
    is what the peer's descriptor yields for what was written by a socket at an
    address; [comes_from] whether a datagram claims to come from there, [opens]
    whether it asks a listening adapter for a connection. [knows b x] says
    that [b] listens or is connected to [x]; [located a x] that datagrams of
    [a] bear [x] as far as the adapter writes it. *)
Class Medium (A Address In Out : Type) := {
  base : A -> FdAdapterBase Address;
  m_read : A -> In -> result (option TCPSegment * A);
  m_write : A -> TCPSegment -> result (option Out * A);
  carry : Address -> Out -> In;
  comes_from : Address -> In -> bool;
  opens : In -> bool;
  knows : FdAdapterBase Address -> Address -> Prop;
  located : FdAdapterBase Address -> Address -> Prop
}.

(** What an adapter promises. A segment can be written. Its datagram is read
    as that segment, up to what a connection does not look at, or dropped; it
    does not change who a connected adapter talks to, and makes a listening one
    know the sender. Other datagrams are dropped. *)
Class MediumLaws (A Address In Out : Type) `{Medium A Address In Out} `{Wire In} := {
  m_write_law : forall a seg, sendable seg -> exists o a', m_write a seg = Ok (o, a') /\ base a' = base a;
  m_read_law : forall a seg out a1 x b, sendable seg -> m_write a seg = Ok (Some out, a1) ->
    exists o b', m_read b (carry x out) = Ok (o, b') /\
      (forall seg', o = Some seg' -> same_segment seg seg') /\
      (listening (base b) = false -> base b' = base b) /\
      (located (base a) x -> knows (base b) x -> knows (base b') x);
  m_drop_law : forall b x d, zlen (wire_bytes d) < 2 ^ 32 -> knows (base b) x -> comes_from x d = false ->
    (listening (base b) = true -> opens d = false) ->
    exists b', m_read b d = Ok (None, b') /\ base b' = base b
}.

(** ** UDP *)

(** A segment in a UDP datagram, if its checksum is right. *)
Definition udp_segment (bytes : list byte) : option TCPSegment :=
  match TCPSegment.parse default_TCPSegment (new_Buffer bytes) 0 with
  | Ok (NoError, seg) => Some seg
  | _ => None
  end.

Definition asks (o : option TCPSegment) : bool :=
  match o with Some seg => syn (TCPSegment.header seg) && negb (rst (TCPSegment.header seg)) | None => false end.

Section media.
Context {Address : Type} `{AddressLib Address}.

#[export] Instance udp_medium :
  Medium (FdAdapterBase Address) Address (received_datagram Address) (Address * BufferList) := {
  base := fun a => a;
  m_read := udp_read;
  m_write := fun a seg => out ← udp_write a seg; Ok (Some out, a);
  carry := fun x out => {| source_address := x; datagram_payload := bl_concatenate out.2 |};
  comes_from := fun x d => address_eqb (source_address d) x;
  opens := fun d => asks (udp_segment (datagram_payload d));
  knows := fun b x => listening b = true \/ destination (config b) = x;
  located := fun _ _ => True
}.

(** ** IPv4 through a TUN device *)

(** Header and segment of a datagram. *)
Definition tun_segment (bytes : list byte) : option (IPv4Header * TCPSegment) :=
  match IPv4Datagram.parse default_IPv4Datagram (new_Buffer bytes) with
  | Ok (NoError, d) =>
      match bl_to_Buffer (IPv4Datagram.payload d) with
      | Ok buf =>
          match TCPSegment.parse default_TCPSegment buf (pseudo_cksum (IPv4Datagram.header d)) with
          | Ok (NoError, seg) => Some (IPv4Datagram.header d, seg)
          | _ => None
          end
      | _ => None
      end
  | _ => None
  end.

#[export] Instance tun_medium : Medium (FdAdapterBase Address) Address (list byte) BufferList := {
  base := fun a => a;
  m_read := tun_read;
  m_write := fun a seg => out ← tun_write a seg; Ok (Some out, a);
  carry := fun _ out => bl_concatenate out;
  comes_from := fun x d =>
    match tun_segment d with
    | Some (h, seg) => (src h =? ipv4_numeric x) && (sport (TCPSegment.header seg) =? port x)
    | None => false
    end;
  opens := fun d => asks (option_map snd (tun_segment d));
  knows := fun b x => listening b = true \/
    (ipv4_numeric (destination (config b)) = ipv4_numeric x /\ port (destination (config b)) = port x);
  located := fun a x => ipv4_numeric (source (config a)) = ipv4_numeric x /\ port (source (config a)) = port x
}.

End media.

(** ** Losses *)

Definition lossy_medium {A Address In Out R} `{FdAdapter A Address In Out} (M : Medium A Address In Out)
    (rand : R -> Z * R) : Medium (@LossyFdAdapter A R) Address In Out := {|
  base := fun l => base (_adapter l);
  m_read := lossy_read rand;
  m_write := lossy_write rand;
  carry := carry;
  comes_from := comes_from;
  opens := opens;
  knows := knows;
  located := located
|}.

(** ** The laws hold *)

Section laws.
Context {Address : Type} `{AddressLaws Address}.

Lemma sendable_small seg : sendable seg ->
  wf_TCPHeader (TCPSegment.header seg) /\ zlen (str (TCPSegment.payload seg)) <= 65495 /\ fits seg.
Proof. intros (Hw & Hd & Hp). unfold fits, MAX_PAYLOAD_SIZE in *. split; [done|]. lia. Qed.

(** What [udp_write] writes can be parsed. *)
Lemma udp_write_parses a seg :
  sendable seg -> exists bl c p, udp_write a seg = Ok (destination (config a), bl) /\
    TCPSegment.parse default_TCPSegment (new_Buffer (bl_concatenate bl)) 0 =
      Ok (NoError, {| TCPSegment._header := TCPHeader.set_cksum (TCPSegment.header (address_segment a seg)) c; TCPSegment._payload := p |}) /\
    str p = str (TCPSegment.payload seg).
Proof.
  intros Hs. destruct Hs as (Hw & Hd & Hp). unfold MAX_PAYLOAD_SIZE in Hp.
  destruct (segment_roundtrip_lem (address_segment a seg) default_TCPSegment 0) as (bl & c & Hser & Hl & Hparse);
    [by apply wf_address_segment|lia|change (zlen (str (TCPSegment.payload seg)) <= 65495); lia|].
  change (doff (TCPSegment._header (address_segment a seg))) with (doff (TCPSegment.header seg)) in Hl.
  change (TCPSegment._payload (address_segment a seg)) with (TCPSegment.payload seg) in Hl.
  destruct (Hparse (new_Buffer (bl_concatenate bl))) as (p & Hpa & Hstr); [apply wf_new_Buffer; lia|apply str_new|].
  exists bl, c, p. unfold udp_write. by rewrite Hser.
Qed.

#[export] Instance udp_medium_laws :
  MediumLaws (FdAdapterBase Address) Address (received_datagram Address) (Address * BufferList).
Proof.
  split; cbn [base m_read m_write carry comes_from opens knows located udp_medium].
  - intros a seg Hs. destruct (udp_write_parses a seg Hs) as (bl & c & p & -> & _). by eexists _, _.
  - intros a seg out a1 x b Hs Hw. destruct (udp_write_parses a seg Hs) as (bl & c & p & Hwr & Hpa & Hst).
    rewrite Hwr in Hw. injection Hw as <- <-. cbn [snd]. unfold udp_read. cbn [source_address datagram_payload].
    destruct (negb (listening b) && _) eqn:E; [by eexists None, b|]. rewrite Hpa. cbn [mbind result_bind].
    rewrite bool_decide_eq_true_2 by done. cbn [negb].
    pose proof (readdressed_same seg (port (source (config a))) (port (destination (config a))) c p Hst) as Hsame.
    destruct (listening b) eqn:El; [destruct (syn _ && _); [|eexists None, b; split_and!; [done..|by left]]|].
    + eexists _, _. split; [done|]. split; [by intros ? [= <-]|]. split; [done|]. intros _ _. by right.
    + eexists _, _. split; [done|]. split; [by intros ? [= <-]|by rewrite El].
  - intros b x [from bytes] Hl Hk Hf Ho. unfold udp_segment, wire_bytes, datagram_wire in *. cbn [source_address datagram_payload] in *.
    exists b. split; [|done]. unfold udp_read. cbn [source_address datagram_payload].
    destruct (listening b) eqn:El; cbn [negb andb].
    + specialize (Ho eq_refl). destruct (segment_parse_total default_TCPSegment (new_Buffer bytes) 0) as (r & seg & E & _);
        [apply wf_new_Buffer; lia|]. rewrite E in *. cbn [mbind result_bind]. destruct r; try done.
      rewrite bool_decide_eq_true_2 by done. cbn [negb asks] in *. by rewrite Ho.
    + destruct Hk as [?|<-]; [done|]. by rewrite Hf.
Qed.

(** ** TUN *)

(** The datagram that [tun_write] writes. *)
Lemma tun_write_segment a seg :
  sendable seg -> exists bl h buf c p, tun_write a seg = Ok bl /\
    IPv4Datagram.parse default_IPv4Datagram (new_Buffer (bl_concatenate bl)) =
      Ok (NoError, {| IPv4Datagram._header := h; IPv4Datagram._payload := [buf] |}) /\
    TCPSegment.parse default_TCPSegment buf (pseudo_cksum h) =
      Ok (NoError, {| TCPSegment._header := TCPHeader.set_cksum (TCPSegment.header (address_segment a seg)) c; TCPSegment._payload := p |}) /\
    str p = str (TCPSegment.payload seg) /\ src h = ipv4_numeric (source (config a)).
Proof.
  intros (Hw & _ & Hfit)%sendable_small.
  destruct (tun_write_parses a seg Hw Hfit) as (bl & ci & buf & c & p & Hwr & _ & Hd & Hp & Hs).
  by exists bl, (set_cksum (wrap_header a (address_segment a seg)) ci), buf, c, p.
Qed.

(** What becomes of a parsed datagram: nothing, or its segment; and who is
    talked to afterwards. *)
Record unwrapped (b : FdAdapterBase Address) (h : IPv4Header) (seg : TCPSegment)
    (o : option TCPSegment) (b' : FdAdapterBase Address) : Prop := {
  uw_segment : o = None \/ o = Some seg;
  uw_connected : listening b = false -> b' = b;
  uw_unasked : listening b = true -> asks (Some seg) = false -> o = None /\ b' = b;
  uw_asked : listening b = true -> b' = b \/ destination (config b') = make (src h) (sport (TCPSegment.header seg));
  uw_known : o = Some seg -> listening b = false ->
    src h = ipv4_numeric (destination (config b)) /\ sport (TCPSegment.header seg) = port (destination (config b))
}.

Lemma unwrapped_none b h seg : unwrapped b h seg None b.
Proof. constructor; auto; done. Qed.

Lemma unwrap_outcome (b : FdAdapterBase Address) h buf seg :
  TCPSegment.parse default_TCPSegment buf (pseudo_cksum h) = Ok (NoError, seg) ->
  exists o b', unwrap_tcp_in_ip b {| IPv4Datagram._header := h; IPv4Datagram._payload := [buf] |} = Ok (o, b') /\
    unwrapped b h seg o b'.
Proof.
  intros Hp. unfold unwrap_tcp_in_ip. cbn [IPv4Datagram.header IPv4Datagram._header IPv4Datagram.payload IPv4Datagram._payload bl_to_Buffer].
  assert (Hn : exists o b', Ok (None, b) = Ok (o, b') /\ unwrapped b h seg o b') by eauto using unwrapped_none.
  destruct (negb (listening b) && negb (dst h =? _)); [done|].
  destruct (negb (listening b) && negb (src h =? _)) eqn:Es; [done|]. destruct (negb (proto h =? _)); [done|].
  cbn [mbind result_bind]. rewrite Hp. cbn [mbind result_bind]. rewrite bool_decide_eq_true_2 by done. cbn [negb].
  destruct (negb (dport _ =? _)); [done|]. destruct (listening b) eqn:El; cbn [andb negb] in *.
  - destruct (syn _ && _) eqn:Ea; cbn [negb]; [|done].
    destruct (negb (sport _ =? _)); eexists _, _; (split; [done|]); constructor; cbn [asks]; rewrite ?El, ?Ea; auto; done.
  - destruct (Z.eqb_spec (src h) (ipv4_numeric (destination (config b)))) as [E1|]; [|done].
    destruct (Z.eqb_spec (sport (TCPSegment.header seg)) (port (destination (config b)))) as [E2|]; cbn [negb]; [|done].
    eexists _, _. split; [done|]. constructor; rewrite ?El; auto; done.
Qed.

(** Any other bytes are dropped. *)
Lemma tun_read_none b bytes :
  zlen bytes < 2 ^ 32 -> tun_segment bytes = None -> tun_read b bytes = Ok (None, b).
Proof.
  intros Hl. unfold tun_segment, tun_read.
  destruct (datagram_parse_total default_IPv4Datagram (new_Buffer bytes)) as (r & h & buf & -> & Hb & _);
    [apply wf_new_Buffer; lia|]. cbn [mbind result_bind].
  destruct (decide (r = NoError)) as [->|Hr]; [|by rewrite bool_decide_eq_false_2].
  rewrite bool_decide_eq_true_2 by done.
  unfold unwrap_tcp_in_ip. cbn [negb IPv4Datagram.header IPv4Datagram._header IPv4Datagram.payload IPv4Datagram._payload bl_to_Buffer].
  destruct (segment_parse_total default_TCPSegment buf (pseudo_cksum h) Hb) as (r & seg & E & _). rewrite E. intros Hs.
  destruct (negb (listening b) && _); [done|]. destruct (negb (listening b) && _); [done|].
  destruct (negb _); [done|]. cbn [mbind result_bind]. rewrite E. cbn [mbind result_bind].
  destruct r; [done|..]; by rewrite bool_decide_eq_false_2.
Qed.

(** The others are unwrapped. *)
Lemma tun_read_some b bytes h seg :
  zlen bytes < 2 ^ 32 -> tun_segment bytes = Some (h, seg) ->
  exists o b', tun_read b bytes = Ok (o, b') /\ unwrapped b h seg o b'.
Proof.
  intros Hl. unfold tun_segment, tun_read.
  destruct (datagram_parse_total default_IPv4Datagram (new_Buffer bytes)) as (r & h' & buf & -> & Hb & _);
    [apply wf_new_Buffer; lia|]. cbn [mbind result_bind]. destruct r; try done.
  cbn [negb IPv4Datagram.header IPv4Datagram._header IPv4Datagram.payload IPv4Datagram._payload bl_to_Buffer].
  destruct (segment_parse_total default_TCPSegment buf (pseudo_cksum h') Hb) as (r & seg' & E & _). rewrite E.
  destruct r; try done. intros [= -> ->]. rewrite bool_decide_eq_true_2 by done. by apply unwrap_outcome with (buf := buf).
Qed.

Lemma tun_medium_laws : @MediumLaws (FdAdapterBase Address) Address (list byte) BufferList tun_medium _.
Proof.
  split; cbn [base m_read m_write carry comes_from opens knows located tun_medium].
  - intros a seg Hs. destruct (tun_write_segment a seg Hs) as (bl & h & buf & c & p & -> & _). by eexists _, _.
  - intros a seg out a1 x b Hs Hw. destruct (tun_write_segment a seg Hs) as (bl & h & buf & c & p & Hwr & Hd & Hp & Hst & Hsrc).
    rewrite Hwr in Hw. injection Hw as <- <-. unfold tun_read. rewrite Hd. cbn [mbind result_bind].
    rewrite bool_decide_eq_true_2 by done. cbn [negb].
    destruct (unwrap_outcome b h buf _ Hp) as (o & b' & -> & [U1 U2 U3 U4 U5]).
    exists o, b'. split; [done|]. split.
    { intros seg' ->. destruct U1 as [?|U1]; [done|]. injection U1 as ->. by apply readdressed_same. }
    split; [done|]. intros [L1 L2] Hk. destruct (listening b) eqn:El.
    + destruct (U4 eq_refl) as [->|U]; [by left|]. right. rewrite U, Hsrc, L1.
      pose proof (port_range x). pose proof (ipv4_range x).
      change (sport _) with (port (source (config a))). rewrite L2, ipv4_make, port_make by done. done.
    + rewrite U2 by done. rewrite El. done.
  - intros b x d Hl Hk Hf Ho. unfold wire_bytes, bytes_wire in Hl. exists b. split; [|done].
    destruct (tun_segment d) as [[h seg]|] eqn:E; [|by apply tun_read_none].
    destruct (tun_read_some b d h seg Hl E) as (o & b' & -> & [U1 U2 U3 U4 U5]).
    destruct (listening b) eqn:El; [destruct (U3 eq_refl (Ho eq_refl)) as [-> ->]; done|].
    rewrite U2 by done. destruct U1 as [->| ->]; [done|]. destruct (U5 eq_refl eq_refl) as [V1 V2].
    destruct Hk as [?|[V3 V4]]; [done|]. by rewrite V1, V2, V3, V4, !Z.eqb_refl in Hf.
Qed.

End laws.

(** Losing segments on the way out or in keeps the laws. *)
Section lossy.
Context {A Address In Out R : Type} `{F : FdAdapter A Address In Out} (M : Medium A Address In Out).
Context `{Wire In} `{!MediumLaws A Address In Out} (rand : R -> Z * R).
(** The medium is that of the adapter. *)
Context (Hread : forall a d, m_read a d = adapter_read a d).
Context (Hwrite : forall a seg, m_write a seg = out ← adapter_write a seg; Ok (Some out, a)).

Lemma lossy_medium_laws : @MediumLaws _ Address In Out (lossy_medium M rand) _.
Proof.
  split; cbn [base m_read m_write carry comes_from opens knows located lossy_medium].
  - intros l seg Hs. destruct (m_write_law (_adapter l) seg Hs) as (o & a' & E & _). rewrite Hwrite in E.
    unfold lossy_write. destruct (should_drop_spec rand l true) as [Ha _].
    destruct (_should_drop rand l true) as [[] l']; cbn [snd] in Ha; [by eexists None, l'; rewrite Ha|].
    rewrite Ha. destruct (adapter_write (_adapter l) seg) as [out|]; [|done]. eexists _, _. by rewrite Ha.
  - intros l seg out l1 x b Hs Hw.
    assert (Ew : m_write (_adapter l) seg = Ok (Some out, _adapter l)).
    { rewrite Hwrite. revert Hw. unfold lossy_write. destruct (should_drop_spec rand l true) as [Ha _].
      destruct (_should_drop rand l true) as [[] l']; [done|]. cbn [snd] in Ha. rewrite Ha.
      destruct (adapter_write (_adapter l) seg) as [out'|]; [|done]. by intros [= -> _]. }
    destruct (m_read_law (_adapter l) seg out _ x (_adapter b) Hs Ew) as (o & b' & E & H1 & H2 & H3).
    unfold lossy_read. rewrite <- Hread, E. cbn [mbind result_bind].
    destruct (should_drop_spec rand {| _rand := _rand b; _adapter := b' |} false) as [Ha _].
    destruct (_should_drop rand _ false) as [dr l']. cbn [snd _adapter] in Ha. eexists _, l'. rewrite Ha.
    split; [done|]. split; [|done]. destruct dr; [done|exact H1].
  - intros b x d Hl Hk Hf Ho. destruct (m_drop_law (_adapter b) x d Hl Hk Hf Ho) as (b' & E & Hb).
    unfold lossy_read. rewrite <- Hread, E. cbn [mbind result_bind].
    destruct (should_drop_spec rand {| _rand := _rand b; _adapter := b' |} false) as [Ha _].
    destruct (_should_drop rand _ false) as [dr l']. cbn [snd _adapter] in Ha. exists l'. rewrite Ha. by destruct dr.
Qed.
End lossy.

(** ** The system *)

Section system.
Context {A Address In Out : Type} `{MediumLaws A Address In Out}.

(** Receiving a datagram, as the first rule of [TCPSpongeSocket] does. *)
Definition deliver (e : endpoint) (a : A) (d : In) : result (endpoint * A) :=
  '(o, a) ← m_read a d;
  match o with
  | Some seg => c ← segment_received (conn e) seg; Ok (with_conn e c, a)
  | None => Ok (e, a)
  end.

(** Writing the queue of segments, as its last rule does. *)
Fixpoint write_all (a : A) (segs : list TCPSegment) : result (list Out * A) :=
  match segs with
  | [] => Ok ([], a)
  | seg :: segs =>
      '(o, a) ← m_write a seg;
      '(outs, a) ← write_all a segs;
      Ok (match o with Some out => out :: outs | None => outs end, a)
  end.

(** A datagram of somebody else, who does not forge the peer's address and does
    not open a connection before the peer. *)
Definition noise (peer : Address) (a : A) (d : In) : bool :=
  (zlen (wire_bytes d) <? 2 ^ 32) && negb (comes_from peer d) && (negb (listening (base a)) || negb (opens d)).

(** [node_step self peer inbox e a e' a' out]: a step of one endpoint at address
    [self]: a call of its application or timer, a datagram from the network, of
    the peer or of somebody else, or the queue is written. *)
Inductive node_step (self peer : Address) (inbox : list In) (e : endpoint) (a : A)
    : endpoint -> A -> list In -> Prop :=
| node_call e' : local_step [] e e' [] -> node_step self peer inbox e a e' a []
| node_deliver d e' a' :
    d ∈ inbox \/ noise peer a d = true -> deliver e a d = Ok (e', a') ->
    node_step self peer inbox e a e' a' []
| node_send outs a' :
    write_all a (segments_out (conn e)) = Ok (outs, a') ->
    node_step self peer inbox e a (with_conn e (set_segments_out (conn e) [])) a' (map (carry self) outs).

(** The client knows the server's address, the server may be listening. The
    network keeps every datagram that was ever sent. *)
Record wire := {
  client : endpoint;
  client_adapter : A;
  server : endpoint;
  server_adapter : A;
  to_server : list In;
  to_client : list In
}.

Context (xc xs : Address).

Inductive wire_step : wire -> wire -> Prop :=
| wire_client w e a out :
    node_step xc xs (to_client w) (client w) (client_adapter w) e a out ->
    wire_step w {| client := e; client_adapter := a; server := server w; server_adapter := server_adapter w;
                   to_server := to_server w ++ out; to_client := to_client w |}
| wire_server w e a out :
    node_step xs xc (to_server w) (server w) (server_adapter w) e a out ->
    wire_step w {| client := client w; client_adapter := client_adapter w; server := e; server_adapter := a;
                   to_server := to_server w; to_client := to_client w ++ out |}.

Definition wire_start (cfgC cfgS : TCPConfig) (rndC rndS : Z) (ac a_s : A) : wire :=
  {| client := new_endpoint cfgC rndC; client_adapter := ac; server := new_endpoint cfgS rndS;
     server_adapter := a_s; to_server := []; to_client := [] |}.

(** ** Every run is a run of [Transport] *)

(** [d] was written for a segment of [net] by an adapter with [P]. *)
Definition written_for (x : Address) (P : FdAdapterBase Address -> Prop) (net : list TCPSegment) (d : In) : Prop :=
  exists a seg out a1, P (base a) /\ seg ∈ net /\ sendable seg /\ m_write a seg = Ok (Some out, a1) /\ d = carry x out.

Lemma written_for_more x P Q net net' d :
  (forall b, P b -> Q b) -> (forall seg, seg ∈ net -> seg ∈ net') -> written_for x P net d -> written_for x Q net' d.
Proof. intros HP Hn (a & seg & out & a1 & ? & ? & ?). exists a, seg, out, a1. auto. Qed.

Lemma write_all_ok a segs :
  Forall sendable segs -> exists outs a', write_all a segs = Ok (outs, a') /\ base a' = base a /\
    forall x, Forall (written_for x (eq (base a)) segs) (map (carry x) outs).
Proof.
  intros Hs. revert a. induction Hs as [|seg segs Hseg Hs IH]; intros a; [by exists [], a|]. cbn [write_all].
  destruct (m_write_law a seg Hseg) as (o & a1 & E & Hb). rewrite E. cbn [mbind result_bind].
  destruct (IH a1) as (outs & a2 & -> & Hb2 & Hf). cbn [mbind result_bind]. eexists _, a2. split; [done|].
  split; [congruence|]. intros x.
  assert (Ht : Forall (written_for x (eq (base a)) (seg :: segs)) (map (carry x) outs)).
  { eapply Forall_impl; [apply Hf|]. intros d. apply written_for_more; [congruence|set_solver]. }
  destruct o as [out|]; [|done]. constructor; [|done]. exists a, seg, out, a1. split; [done|]. split; [set_solver|done].
Qed.

Lemma local_step_inbox inbox e e' out : local_step [] e e' out -> local_step inbox e e' out.
Proof.
  destruct 1 as [|data n c He Hb Hw| |ms|n bs Hn Hbs|seg c Hin|]; [apply local_connect|by eapply local_write|apply local_end|
    apply local_tick|by apply local_read|by apply not_elem_of_nil in Hin|apply local_transmit].
Qed.

Lemma local_step_emits inbox e e' out : local_step inbox e e' out -> conn_emits (conn e) -> conn_emits (conn e').
Proof.
  intros Hst Hc. destruct Hst as [|data n c He Hb Hwr| | | | |]; cbn [conn with_conn]; eauto using connect_emits, end_input_emits, conn_tick_emits,
    segment_received_emits, set_receiver_emits, set_segments_out_emits.
  pose proof (write_emits (conn e) data Hc) as Hw. by rewrite Hwr in Hw.
Qed.

(** A datagram of the peer or of somebody else does what a segment does, or
    nothing. *)
Lemma deliver_spec peer P net e a d :
  conn_emits (conn e) -> knows (base a) peer -> (listening (base a) = true -> forall b, P b -> located b peer) ->
  written_for peer P net d \/ noise peer a d = true ->
  exists o a', m_read a d = Ok (o, a') /\
    (forall seg', o = Some seg' -> exists seg, seg ∈ net /\ same_segment seg seg') /\
    (listening (base a) = false -> base a' = base a) /\ knows (base a') peer.
Proof.
  intros Hc Hk HP [(a0 & seg & out & a1 & Hb & Hin & Hs & Hw & ->)|Hn].
  - destruct (m_read_law a0 seg out a1 peer a Hs Hw) as (o & a' & E & R1 & R2 & R3). exists o, a'. split; [done|].
    split; [eauto|]. split; [done|]. destruct (listening (base a)) eqn:El; [auto|by rewrite R2].
  - apply andb_prop in Hn as [[Hl%Z.ltb_lt Hf%negb_true_iff]%andb_prop Ho].
    destruct (m_drop_law a peer d Hl Hk Hf) as (a' & E & Hb).
    { intros Ho'. rewrite Ho' in Ho. by apply negb_true_iff. }
    exists None, a'. rewrite Hb. done.
Qed.

Lemma node_step_refines self peer P net inbox e a e' a' out :
  node_step self peer inbox e a e' a' out -> Forall (written_for peer P net) inbox ->
  conn_emits (conn e) -> knows (base a) peer -> (listening (base a) = true -> forall b, P b -> located b peer) ->
  exists sent, (local_step net e e' sent \/ e' = e /\ sent = []) /\ conn_emits (conn e') /\
    Forall (written_for self (eq (base a)) sent) out /\
    (listening (base a) = false -> base a' = base a) /\ knows (base a') peer.
Proof.
  intros Hst Hin Hc Hk HP. destruct Hst as [e' Hl|d e' a' Hd E|outs a' E].
  - exists []. split; [left; by apply local_step_inbox|]. split; [by eapply local_step_emits|done].
  - exists []. assert (Hd' : written_for peer P net d \/ noise peer a d = true).
    { rewrite Forall_forall in Hin. destruct Hd; auto. }
    destruct (deliver_spec peer P net e a d Hc Hk HP Hd') as (o & a1 & Er & Ho & Hb & Hk').
    unfold deliver in E. rewrite Er in E. cbn [mbind result_bind] in E. destruct o as [seg'|].
    + destruct (Ho seg' eq_refl) as (seg & Hseg & Hsame). destruct (segment_received (conn e) seg') as [c|] eqn:Es; [|done].
      injection E as <- <-. split; [|split; [by eapply segment_received_emits|done]].
      left. eapply local_receive; [exact Hseg|]. by rewrite <- (segment_received_same seg seg').
    + injection E as <- <-. split; [by right|done].
  - destruct (write_all_ok a _ (emits_out _ Hc)) as (outs' & a1 & E' & Hb & Hf).
    unfold segments_out in E. rewrite E' in E. injection E as <- <-. exists (segments_out (conn e)).
    split; [left; apply local_transmit|]. split; [by apply set_segments_out_emits|]. rewrite Hb. split; [apply Hf|done].
Qed.

(** The endpoints are the same, and every datagram was written for a segment
    that is in the network of [Transport]. *)
Record refines (w : wire) (s : system) : Prop := {
  rf_left : left s = client w;
  rf_right : right s = server w;
  rf_to_right : Forall (written_for xc (fun b => located b xc) (to_right s)) (to_server w);
  rf_to_left : Forall (written_for xs (fun _ => True) (to_left s)) (to_client w);
  rf_client : conn_emits (conn (client w));
  rf_server : conn_emits (conn (server w));
  rf_calls : listening (base (client_adapter w)) = false /\ located (base (client_adapter w)) xc /\
             knows (base (client_adapter w)) xs;
  rf_hears : knows (base (server_adapter w)) xc
}.

Lemma written_for_app x P Q net sent inbox out :
  (forall b, Q b -> P b) -> Forall (written_for x P net) inbox -> Forall (written_for x Q sent) out ->
  Forall (written_for x P (net ++ sent)) (inbox ++ out).
Proof.
  intros HQ Hi Ho. apply Forall_app. split; (eapply Forall_impl; [done|]); intros d;
    apply written_for_more; auto; set_solver.
Qed.

Lemma wire_step_refines w w' s :
  wire_step w w' -> refines w s -> exists s', rtc system_step s s' /\ refines w' s'.
Proof.
  intros Hst [R1 R2 R3 R4 R5 R6 (R7 & R8 & R9) R10]. destruct Hst as [w e a out Hn|w e a out Hn].
  - destruct (node_step_refines _ _ (fun _ => True) (to_left s) _ _ _ _ _ _ Hn R4 R5 R9) as (sent & Hl & Hc & Ho & Hb & Hk);
      [by rewrite R7|]. specialize (Hb R7).
    exists {| left := e; right := right s; to_right := to_right s ++ sent; to_left := to_left s |}. split.
    + destruct Hl as [Hl|[-> ->]]; [apply rtc_once, step_left; by rewrite R1|].
      rewrite app_nil_r, <- R1. by destruct s.
    + constructor; try done; cbn [client_adapter client server to_server]; [|by rewrite Hb].
      eapply written_for_app; [|done..]. by intros ? <-.
  - destruct (node_step_refines _ _ (fun b => located b xc) (to_right s) _ _ _ _ _ _ Hn R3 R6 R10)
      as (sent & Hl & Hc & Ho & Hb & Hk); [done|].
    exists {| left := left s; right := e; to_right := to_right s; to_left := to_left s ++ sent |}. split.
    + destruct Hl as [Hl|[-> ->]]; [apply rtc_once, step_right; by rewrite R2|].
      rewrite app_nil_r, <- R2. by destruct s.
    + constructor; try done. eapply written_for_app; [|done..]. done.
Qed.

(** What the two ends need to know of each other at the start. *)
Definition introduced (ac a_s : A) : Prop :=
  listening (base ac) = false /\ located (base ac) xc /\ knows (base ac) xs /\ knows (base a_s) xc.

Lemma wire_reaches cfgC cfgS rndC rndS ac a_s w :
  introduced ac a_s -> rtc wire_step (wire_start cfgC cfgS rndC rndS ac a_s) w ->
  exists s, rtc system_step (start cfgC cfgS rndC rndS) s /\ refines w s.
Proof.
  intros (I1 & I2 & I3 & I4) Hw.
  assert (H0' : refines (wire_start cfgC cfgS rndC rndS ac a_s) (start cfgC cfgS rndC rndS))
    by (constructor; try done; apply new_emits).
  revert H0'. generalize (start cfgC cfgS rndC rndS). induction Hw as [|x y z Hs _ IH]; intros s Hr; [by exists s|].
  destruct (wire_step_refines _ _ _ Hs Hr) as (s1 & Hs1 & Hr1). destruct (IH s1 Hr1) as (s2 & Hs2 & Hr2).
  exists s2. split; [by etrans|done].
Qed.

(** Nothing that arrives throws, and the queue can be written. *)
Definition serves (peer : Address) (inbox : list In) (e : endpoint) (a : A) : Prop :=
  (forall d, d ∈ inbox \/ noise peer a d = true -> exists r, deliver e a d = Ok r) /\
  exists r, write_all a (segments_out (conn e)) = Ok r.

Lemma node_serves peer P net inbox e a :
  Forall (written_for peer P net) inbox -> conn_emits (conn e) -> knows (base a) peer ->
  (listening (base a) = true -> forall b, P b -> located b peer) ->
  (forall seg, seg ∈ net -> exists c, segment_received (conn e) seg = Ok c) -> serves peer inbox e a.
Proof.
  intros Hin Hc Hk HP Hseg. split.
  - intros d Hd. assert (Hd' : written_for peer P net d \/ noise peer a d = true).
    { rewrite Forall_forall in Hin. destruct Hd; auto. }
    destruct (deliver_spec peer P net e a d Hc Hk HP Hd') as (o & a1 & Er & Ho & _). unfold deliver. rewrite Er.
    cbn [mbind result_bind]. destruct o as [seg'|]; [|eauto]. destruct (Ho seg' eq_refl) as (seg & Hs & Hsame).
    destruct (Hseg seg Hs) as [c Ec]. rewrite (segment_received_same seg seg') by done. rewrite Ec. cbn. eauto.
  - destruct (write_all_ok a _ (emits_out _ Hc)) as (outs & a1 & E & _). by exists (outs, a1).
Qed.

(** ** Running the system *)

Inductive wire_command :=
| Call (cmd : command) | Deliver (i : nat) | Noise (d : In) | Send.

Definition wire_local (self peer : Address) (inbox : list In) (e : endpoint) (a : A) (cmd : wire_command)
    : endpoint * A * list In :=
  match cmd with
  | Call Transmit => (e, a, [])
  | Call cmd => ((exec_local [] e cmd).1, a, [])
  | Deliver i =>
      match inbox !! i with
      | Some d => match deliver e a d with Ok (e, a) => (e, a, []) | Throw _ => (e, a, []) end
      | None => (e, a, [])
      end
  | Noise d =>
      if noise peer a d then match deliver e a d with Ok (e, a) => (e, a, []) | Throw _ => (e, a, []) end
      else (e, a, [])
  | Send =>
      match write_all a (segments_out (conn e)) with
      | Ok (outs, a) => (with_conn e (set_segments_out (conn e) []), a, map (carry self) outs)
      | Throw _ => (e, a, [])
      end
  end.

Definition wire_exec (w : wire) (cmd : bool * wire_command) : wire :=
  if cmd.1 then
    let '(e, a, out) := wire_local xc xs (to_client w) (client w) (client_adapter w) cmd.2 in
    {| client := e; client_adapter := a; server := server w; server_adapter := server_adapter w;
       to_server := to_server w ++ out; to_client := to_client w |}
  else
    let '(e, a, out) := wire_local xs xc (to_server w) (server w) (server_adapter w) cmd.2 in
    {| client := client w; client_adapter := client_adapter w; server := e; server_adapter := a;
       to_server := to_server w; to_client := to_client w ++ out |}.

Lemma exec_local_call e cmd : cmd <> Transmit -> (exec_local [] e cmd).2 = [].
Proof.
  intros Hc. destruct cmd; try done; cbn [exec_local].
  - destruct (_ && _); [|done]. by destruct (write _ _).
  - by destruct (0 <=? _).
Qed.

Lemma wire_local_step self peer inbox e a cmd :
  let '(e', a', out) := wire_local self peer inbox e a cmd in
  node_step self peer inbox e a e' a' out \/ (e', a', out) = (e, a, []).
Proof.
  destruct cmd as [cmd|i|d|]; cbn [wire_local].
  - assert (Hd : cmd = Transmit \/ cmd <> Transmit) by (destruct cmd; auto; by right).
    destruct Hd as [->|Hd]; [by right|]. pose proof (exec_local_call e cmd Hd) as Ho.
    assert (Hcase : node_step self peer inbox e a (exec_local [] e cmd).1 a [] \/ ((exec_local [] e cmd).1, a, []) = (e, a, @nil In)).
    { destruct (exec_local_step [] e cmd) as [Hs|E]; [left; rewrite Ho in Hs; by apply node_call|right; by rewrite E]. }
    by destruct cmd.
  - destruct (inbox !! i) as [d|] eqn:Ed; [|by right]. destruct (deliver e a d) as [[e' a']|] eqn:E; [|by right].
    left. eapply node_deliver; [|done]. left. by eapply list_elem_of_lookup_2.
  - destruct (noise peer a d) eqn:En; [|by right]. destruct (deliver e a d) as [[e' a']|] eqn:E; [|by right].
    left. eapply node_deliver; [by right|done].
  - destruct (write_all a (segments_out (conn e))) as [[outs a']|] eqn:E; [|by right]. left. by apply node_send.
Qed.

Lemma wire_exec_reach cmds w : rtc wire_step w (fold_left wire_exec cmds w).
Proof.
  revert w. induction cmds as [|[b cmd] cmds IH]; intros w; [constructor|]. cbn [fold_left].
  assert (Hs : rtc wire_step w (wire_exec w (b, cmd))); [|by etrans]. unfold wire_exec. cbn [fst snd]. destruct b.
  - pose proof (wire_local_step xc xs (to_client w) (client w) (client_adapter w) cmd) as Hl.
    destruct (wire_local _ _ _ _ _ _) as [[e a] out]. destruct Hl as [Hl|[= -> -> ->]]; [by apply rtc_once, wire_client|].
    rewrite app_nil_r. by destruct w.
  - pose proof (wire_local_step xs xc (to_server w) (server w) (server_adapter w) cmd) as Hl.
    destruct (wire_local _ _ _ _ _ _) as [[e a] out]. destruct Hl as [Hl|[= -> -> ->]]; [by apply rtc_once, wire_server|].
    rewrite app_nil_r. by destruct w.
Qed.

End system.

Arguments wire : clear implicits.
Arguments wire_command : clear implicits.

(** ** Property *)

(** C7: Reliable delivery over datagrams. A client and a server, each a
    [TCPConnection] behind an adapter that keeps the laws (TCP over UDP or over
    IPv4 through a TUN device, with or without random losses), talk over a
    network that loses, repeats and reorders datagrams and also hands over any
    bytes of others; the server may start out listening. In every reachable
    state, what an application has read followed by what is buffered for it is
    a prefix of what the other has written, and all of it once the stream
    reports its end; no datagram that can arrive raises an exception, and the
    segments that are queued can be written. *)
Theorem wire_safe {A Address In Out} `{MediumLaws A Address In Out} (xc xs : Address)
    cfgC cfgS rndC rndS (ac a_s : A) w :
  cfg_ok cfgC -> cfg_ok cfgS -> introduced xc xs ac a_s ->
  rtc (wire_step xc xs) (wire_start cfgC cfgS rndC rndS ac a_s) w ->
  let delivered x := got x ++ ByteStream._buff (inbound_stream (conn x)) in
  let finished x := ByteStream.input_ended (inbound_stream (conn x)) in
  (delivered (server w) `prefix_of` written (client w) /\
   (finished (server w) = true -> delivered (server w) = written (client w) /\ ended (client w) = true)) /\
  (delivered (client w) `prefix_of` written (server w) /\
   (finished (client w) = true -> delivered (client w) = written (server w) /\ ended (server w) = true)) /\
  serves xs (to_client w) (client w) (client_adapter w) /\ serves xc (to_server w) (server w) (server_adapter w).
Proof.
  intros HC HS Hi Hw. destruct (wire_reaches xc xs _ _ _ _ _ _ _ Hi Hw) as (s & Hs & [R1 R2 R3 R4 R5 R6 (R7 & R8 & R9) R10]).
  pose proof (reachable_inv _ _ _ _ _ HC HS Hs) as [HL HR].
  destruct (side_delivers _ _ _ HL) as [L1 L2]. destruct (side_delivers _ _ _ HR) as [S1 S2].
  assert (Hx : forall seg, (seg ∈ to_right s -> exists c, segment_received (conn (right s)) seg = Ok c) /\
                           (seg ∈ to_left s -> exists c, segment_received (conn (left s)) seg = Ok c))
    by exact (fun seg => transport_no_exception _ _ _ _ _ seg HC HS Hs).
  rewrite R1, R2 in *. cbn zeta. split; [split; [rewrite S1; apply prefix_take|done]|].
  split; [split; [rewrite L1; apply prefix_take|done]|]. split.
  - eapply node_serves; [done..|by rewrite R7|]. intros seg. apply Hx.
  - eapply node_serves; [done..|]. intros seg. apply Hx.
Qed.

(** A client and a listening server over lossy UDP adapters, whose generator
    drops every third datagram that is written; a stranger's bytes arrive at
    the server, before and after it has accepted the client. *)
#[local] Instance example_medium :
  Medium (@LossyFdAdapter (FdAdapterBase (Z * Z)) Z) (Z * Z) (received_datagram (Z * Z)) ((Z * Z) * BufferList) :=
  lossy_medium udp_medium (fun r => (if r mod 3 =? 2 then 0 else 9, r + 1)).

#[local] Instance example_medium_laws :
  MediumLaws (@LossyFdAdapter (FdAdapterBase (Z * Z)) Z) (Z * Z) (received_datagram (Z * Z)) ((Z * Z) * BufferList).
Proof. apply (lossy_medium_laws udp_medium); reflexivity. Qed.

Definition example_client : @LossyFdAdapter (FdAdapterBase (Z * Z)) Z :=
  {| _rand := 0; _adapter := set_config new_FdAdapterBase
       {| source := (5, 1234); destination := (7, 80); loss_rate_dn := 0; loss_rate_up := 5 |} |}.
Definition example_server : @LossyFdAdapter (FdAdapterBase (Z * Z)) Z :=
  {| _rand := 0; _adapter := set_listening (set_source new_FdAdapterBase (7, 80)) true |}.

Definition stranger : received_datagram (Z * Z) :=
  {| source_address := (9, 9); datagram_payload := [Byte.x62; Byte.x79; Byte.x65] |}.

Definition example_wire : wire (@LossyFdAdapter (FdAdapterBase (Z * Z)) Z) (received_datagram (Z * Z)) :=
  fold_left (wire_exec (5, 1234) (7, 80))
    [(true, Call Connect); (true, Send); (false, Noise stranger); (false, Deliver 0); (false, Send);
     (true, Deliver 0); (true, Call (Write [Byte.x68; Byte.x69])); (true, Call End); (true, Send);
     (true, Call (Tick 1000)); (true, Send); (false, Noise stranger); (false, Deliver 1); (false, Deliver 2);
     (false, Deliver 3); (false, Deliver 3); (false, Call (Read 1))]
    (wire_start test_config test_config 0 0 example_client example_server).

Lemma wire_safe_witness :
  got (server example_wire) ++ ByteStream._buff (inbound_stream (conn (server example_wire))) =
    written (client example_wire) /\
  written (client example_wire) = [Byte.x68; Byte.x69].
Proof.
  split; [|vm_compute; reflexivity].
  apply (wire_safe (5, 1234) (7, 80) test_config test_config 0 0 example_client example_server example_wire).
  - exact test_config_ok.
  - exact test_config_ok.
  - split; [reflexivity|]. split; [exact I|]. split; [right; reflexivity|left; reflexivity].
  - apply wire_exec_reach.
  - vm_compute. reflexivity.
Defined.
