(* ===== verification/SocketPair.v ===== *)
(** * Two sockets

    Two [TCPSpongeSocket]s, each with its kernel, its owner and its adapter, on a
    network of datagrams ([src/libsponge/tcp_helpers/tcp_sponge_socket.cc] on top
    of everything below it). One connects, the other connects or listens; their
    threads run their event loops. What the owner of one socket reads is what
    the owner of the other has written. *)

From S2P Require Import Prelude WrappingIntegers ByteStream StreamReassembler ReassemblerProps Buffer Parser InternetChecksum TCPHeader TCPSegment TCPReceiver TCPSender TCPState TCPConnection Transport IPv4Header IPv4Datagram FdAdapter TCPOverIP FileDescriptor Socket EventLoop Emission AdapterIO ExampleKernel TCPSpongeSocket WireSystem.

(** ** The kernel and the network *)

(** The datagrams that a descriptor may still yield, and the bytes of those
    that were written to it. *)
Class NetKernel (K In : Type) := {
  arrivals : K -> Z -> list In;
  posted : K -> Z -> list (list byte)
}.

(** Nothing was sent, and nothing new can arrive. *)
Definition quiet {K In} `{NetKernel K In} (fd : Z) (k k' : K) : Prop :=
  (forall d, d ∈ arrivals k' fd -> d ∈ arrivals k fd) /\ posted k' fd = posted k fd.

(** What the kernel promises of datagrams: a receiving call yields one that has
    arrived, a sending call posts its bytes whole, and calls on other
    descriptors do neither. *)
Class NetLaws (K Address In Out : Type) `{Kernel K} `{SocketKernel K Address} `{PollKernel K} `{Device K In Out}
    `{Wire Out} `{NetKernel K In} := {
  receive_net : forall w k i w' k', receive w k = Ok (i, w', k') -> i ∈ arrivals k (_fd w) /\ quiet (_fd w) k k';
  transmit_net : forall w k out w' k', transmit w k out = Ok (w', k') ->
    (forall d, d ∈ arrivals k' (_fd w) -> d ∈ arrivals k (_fd w)) /\
    posted k' (_fd w) = posted k (_fd w) ++ [wire_bytes out];
  sys_read_net : forall k fd n r e data k' f, sys_read k fd n = (r, e, data, k') -> f <> fd -> quiet f k k';
  sys_writev_net : forall k fd iov r e k' f, sys_writev k fd iov = (r, e, k') -> f <> fd -> quiet f k k';
  sys_close_net : forall k fd r e k' f, sys_close k fd = (r, e, k') -> quiet f k k';
  sys_getfl_net : forall k fd r e k' f, sys_getfl k fd = (r, e, k') -> quiet f k k';
  sys_setfl_net : forall k fd n r e k' f, sys_setfl k fd n = (r, e, k') -> quiet f k k';
  sys_shutdown_net : forall k fd how r e k' f, sys_shutdown k fd how = (r, e, k') -> quiet f k k';
  kernel_poll_net : forall k ps t r e ps' k' f, kernel_poll k ps t = (r, e, ps', k') -> quiet f k k'
}.

(** A medium whose datagrams are bytes with the address of the sender's socket,
    and the adapter of a socket that works on it. *)
Class Framed (A Address K In Out : Type) `{Medium A Address In Out} `{Wire Out} `{Device K In Out}
    `{AdaptT A Address K} := {
  frame : Address -> list byte -> In;
  carry_frame : forall x out, carry x out = frame x (wire_bytes out);
  at_read_medium : forall a w k, at_read a w k =
    '(i, w, k) ← receive w k; '(o, a) ← m_read a i; Ok (o, a, w, k);
  at_write_medium : forall a w k seg, at_write a w k seg =
    '(o, a) ← m_write a seg;
    match o with Some out => '(w, k) ← transmit w k out; Ok (a, w, k) | None => Ok (a, w, k) end;
  at_tick_base : forall a ms, base (at_tick a ms) = base a
}.

(** ** One socket of the pair *)

(** The system of [Transport] with [e] on one side. *)
Definition sys (b : bool) (e y : endpoint) (mine yours : list TCPSegment) : system :=
  if b then {| left := e; right := y; to_right := mine; to_left := yours |}
  else {| left := y; right := e; to_right := yours; to_left := mine |}.

Lemma sys_step b e y mine yours e' out :
  local_step yours e e' out -> system_step (sys b e y mine yours) (sys b e' y (mine ++ out) yours).
Proof. intros Hl. destruct b; [exact (step_left (sys true e y mine yours) _ _ Hl)|exact (step_right (sys false e y mine yours) _ _ Hl)]. Qed.

Section pair.
Context {A Address K In Out : Type} `{!Kernel K} `{!SocketKernel K Address} `{!PollKernel K} `{!Device K In Out}.
Context `{!Wire In} `{!Wire Out} `{!NetKernel K In} `{!NetLaws K Address In Out}.
Context `{!Medium A Address In Out} `{!MediumLaws A Address In Out} `{!AdaptT A Address K} `{!Framed A Address K In Out}.
Context `{!Streams K} `{!KernelLaws K} `{!SocketLaws K Address} `{!AdaptLaws A Address K} `{!PollKernelLaws K}.

Abbreviation socket := (TCPSpongeSocket A K).
Abbreviation rules := (list (Rule socket socket_fd)).

Definition socket_arrivals (s : socket) : list In := arrivals (kernel s) (_fd (adapter_fd s)).
Definition socket_posted (s : socket) : list (list byte) := posted (kernel s) (_fd (adapter_fd s)).

(** What is known of an adapter that calls: its address. *)
Definition placed (calls : bool) (x : Address) (b : FdAdapterBase Address) : Prop :=
  if calls then located b x else True.

Lemma quiet_trans f (k1 k2 k3 : K) : quiet (In := In) f k1 k2 -> quiet f k2 k3 -> quiet f k1 k3.
Proof. intros [H1 H2] [H3 H4]. split; [auto|congruence]. Qed.

(** A socket at address [self], with what it has to do with its endpoint [e] in
    [Transport]: the connection is the same, what the endpoint has written is
    what was taken from the owner, what it has got is what the owner can read;
    what may arrive was written for the peer's segments or is noise, what was
    posted was written for its own. *)
Record host_rel (calls : bool) (self peer : Address) (S : list byte) (mine yours : list TCPSegment)
    (s : socket) (e : endpoint) : Prop := {
  h_conn : forall c, _tcp s = Some c -> c = conn e;
  h_in : Transport.written e ++ thread_input s = S;
  h_out : thread_output s = got e;
  h_knows : knows (base (_datagram_adapter s)) peer;
  h_calls : calls = true -> listening (base (_datagram_adapter s)) = false /\ located (base (_datagram_adapter s)) self;
  h_arrivals : forall d, d ∈ socket_arrivals s ->
    written_for (A := A) peer (placed (negb calls) peer) yours d \/ noise peer (_datagram_adapter s) d = true;
  h_posted : forall bs, bs ∈ socket_posted s -> written_for (A := A) self (placed calls self) mine (frame self bs)
}.

Section host.
Context (calls : bool) (self peer : Address) (S : list byte) (HS : zlen S + 2 < 2 ^ 32).
Abbreviation host := (host_rel calls self peer S).

(** The parts that a host depends on. *)
Lemma host_same mine yours s s' e :
  host mine yours s e -> (forall c, _tcp s' = Some c -> c = conn e) ->
  thread_input s' = thread_input s -> thread_output s' = thread_output s ->
  base (_datagram_adapter s') = base (_datagram_adapter s) ->
  (forall d, d ∈ socket_arrivals s' -> d ∈ socket_arrivals s) -> socket_posted s' = socket_posted s ->
  host mine yours s' e.
Proof.
  intros [H1 H3 H4 H5 H6 H7 H8] E1 E3 E4 E5 E6 E7.
  constructor; rewrite ?E3, ?E4, ?E5, ?E7; auto. intros d Hd. destruct (H7 d (E6 d Hd)) as [?|Hn]; [by left|right].
  revert Hn. unfold noise. by rewrite E5.
Qed.

(** [Transport] runs on, and the segments only grow. *)
Definition continues (b : bool) (y : endpoint) (yours : list TCPSegment) (e : endpoint) (mine : list TCPSegment)
    (e' : endpoint) (mine' : list TCPSegment) : Prop :=
  rtc system_step (sys b e y mine yours) (sys b e' y mine' yours) /\ (forall seg, seg ∈ mine -> seg ∈ mine').

Lemma continues_refl b y yours e mine : continues b y yours e mine e mine.
Proof. by split. Qed.

Lemma continues_step b y yours e mine e' out : local_step yours e e' out -> continues b y yours e mine e' (mine ++ out).
Proof. intros Hl. split; [by apply rtc_once, sys_step|set_solver]. Qed.

Lemma continues_trans b y yours e1 m1 e2 m2 e3 m3 :
  continues b y yours e1 m1 e2 m2 -> continues b y yours e2 m2 e3 m3 -> continues b y yours e1 m1 e3 m3.
Proof. intros [H1 H2] [H3 H4]. split; [by etrans|auto]. Qed.

Context (b : bool) (y : endpoint) (yours : list TCPSegment).
Abbreviation leads := (continues b y yours).

(** ** The rules *)

Lemma datagram_in_host mine s e s' :
  inv S s -> host mine yours s e -> datagram_in s = Ok s' -> exists e', leads e mine e' mine /\ host mine yours s' e'.
Proof.
  intros [Hd (c & W & b0 & Hc & Hg & _)] Hh E. pose proof (h_conn _ _ _ _ _ _ _ _ Hh c Hc) as ->.
  unfold datagram_in in E. rewrite at_read_medium in E.
  pose proof (at_read_law (_datagram_adapter s) (adapter_fd s) (kernel s)) as Hlaw. rewrite at_read_medium in Hlaw.
  destruct (receive (adapter_fd s) (kernel s)) as [[[i w] k]|] eqn:Er; [|done]. cbn [mbind result_bind] in E, Hlaw.
  destruct (receive_net _ _ _ _ _ Er) as [Hi [Hq1 Hq2]].
  assert (Hi' := h_arrivals _ _ _ _ _ _ _ _ Hh i Hi).
  destruct (deliver_spec (Out := Out) peer (placed (negb calls) peer) yours e (_datagram_adapter s) i (good_emits _ _ _ Hg)
    (h_knows _ _ _ _ _ _ _ _ Hh)) as (o & a & Ea & Ho & Hb & Hk); [|done|].
  { intros Hl b1 Hb1. destruct calls; [|done]. destruct (h_calls _ _ _ _ _ _ _ _ Hh eq_refl). congruence. }
  rewrite Ea in E, Hlaw. cbn [mbind result_bind] in E, Hlaw. destruct Hlaw as (_ & [Hfd _] & _ & Hu).
  unfold on_tcp in E. cbn [_tcp set_adapter] in E. rewrite Hc in E.
  destruct (Hu (_fd (_thread_data s)) Hd) as [Hu1 Hu2].
  assert (Hrest : forall c' e' acked, conn e' = c' -> Transport.written e' = Transport.written e -> got e' = got e ->
    host mine yours (set_flags (set_tcp (set_adapter s a w k) (Some c')) (_inbound_shutdown s) (_outbound_shutdown s) acked) e').
  { intros c' e' acked Hce Hwe Hge. destruct Hh as [H1 H3 H4 H5 H6 H7 H8].
    constructor; cbn [_tcp _outbound_shutdown _datagram_adapter set_flags set_tcp set_adapter].
    - by intros ? [= <-].
    - unfold thread_input in *. cbn. by rewrite Hu1, Hwe.
    - unfold thread_output in *. cbn. by rewrite Hu2, Hge.
    - done.
    - intros Hcl. destruct (H6 Hcl) as [L1 L2]. by rewrite (Hb L1).
    - unfold socket_arrivals in *. cbn. rewrite Hfd. intros d Hin. destruct (H7 d (Hq1 d Hin)) as [?|Hn]; [by left|right].
      revert Hn. unfold noise. destruct (listening (base (_datagram_adapter s))) eqn:El; [|by rewrite (Hb eq_refl), El].
      cbn [negb orb]. intros [Hn1 Hn2]%andb_prop. rewrite Hn1, Hn2. by rewrite orb_true_r.
    - unfold socket_posted in *. cbn. by rewrite Hfd, Hq2. }
  destruct o as [seg'|].
  - destruct (Ho seg' eq_refl) as (seg & Hseg & Hsame). rewrite (segment_received_same seg seg') in E by done.
    destruct (TCPConnection.segment_received (conn e) seg) as [c'|] eqn:Es; [|done]. cbn [mbind result_bind] in E. injection E as <-.
    exists (with_conn e c'). split.
    + pose proof (continues_step b y yours e mine _ _ (local_receive yours e seg c' Hseg Es)) as Hl. by rewrite app_nil_r in Hl.
    + by apply Hrest.
  - cbn [mbind result_bind] in E. injection E as <-. exists e. split; [apply continues_refl|]. apply Hrest; try done.
Qed.

Lemma read_quiet w (k : K) n data w' k' f :
  FileDescriptor.read w k n = Ok (data, w', k') -> f <> _fd w -> quiet (In := In) f k k'.
Proof.
  unfold FileDescriptor.read. destruct (sys_read _ _ _) as [[[r e] d] k1] eqn:E. destruct (SystemCall _ _ _ _); [|done].
  cbn [mbind result_bind]. destruct (_ <? _); [done|]. intros [= _ _ <-]. by apply (sys_read_net _ _ _ _ _ _ _ _ E).
Qed.

Lemma write_quiet w (k : K) bv all n w' k' f :
  FileDescriptor.write w k bv all = Ok (n, w', k') -> f <> _fd w -> quiet (In := In) f k k'.
Proof.
  unfold FileDescriptor.write. generalize (Datatypes.S (Z.to_nat (bvl_size bv))) 0. intros fuel t. revert w k bv t.
  induction fuel as [|fuel IH]; intros w k bv t; cbn [write_loop]; [done|].
  destruct (sys_writev _ _ _) as [[r e] k1] eqn:E. destruct (SystemCall _ _ _ _) as [m|]; [|done]. cbn [mbind result_bind].
  destruct (_ && _); [done|]. destruct (_ <? m); [done|]. destruct (bvl_remove_prefix _ _) as [b'|]; [|done].
  cbn [mbind result_bind]. intros Hw Hf. pose proof (sys_writev_net _ _ _ _ _ _ _ E Hf) as Hq. destruct (_ && _).
  - eapply quiet_trans; [exact Hq|]. by eapply IH.
  - by injection Hw as _ _ <-.
Qed.

Lemma shutdown_quiet w (k : K) how w' k' f :
  shutdown (Address := Address) w k how = Ok (w', k') -> quiet (In := In) f k k'.
Proof.
  unfold shutdown. destruct (sys_shutdown _ _ _) as [[r e] k1] eqn:E. destruct (SystemCall _ _ _ _); [|done].
  cbn [mbind result_bind]. pose proof (sys_shutdown_net _ _ _ _ _ _ f E) as Hq.
  destruct (_ =? _); [by intros [= _ <-]|]. destruct (_ =? _); [by intros [= _ <-]|]. destruct (_ =? _); [by intros [= _ <-]|done].
Qed.

(** The rest of a host when the owner's descriptor was used. *)
Lemma host_owner mine s s' e e' :
  inv S s -> host mine yours s e -> (forall c, _tcp s' = Some c -> c = conn e') ->
  Transport.written e' ++ thread_input s' = S -> thread_output s' = got e' ->
  _datagram_adapter s' = _datagram_adapter s -> adapter_fd s' = adapter_fd s ->
  quiet (In := In) (_fd (adapter_fd s)) (kernel s) (kernel s') -> host mine yours s' e'.
Proof.
  intros [Hd _] [H1 H3 H4 H5 H6 H7 H8] E1 E2 E3 E4 E5 [Hq1 Hq2].
  constructor; rewrite ?E4; try done; unfold socket_arrivals, socket_posted in *; rewrite E5; [auto|by rewrite Hq2].
Qed.

Lemma outbound_in_host mine s e s' :
  inv S s -> _outbound_shutdown s = false -> host mine yours s e -> outbound_in s = Ok s' ->
  exists e', leads e mine e' mine /\ host mine yours s' e'.
Proof.
  intros Hinv Hsh Hh E. pose proof Hinv as [Hd (c & W & b0 & Hc & Hg & Ho & _)]. rewrite (Ho Hsh) in Hg.
  pose proof (h_conn _ _ _ _ _ _ _ _ Hh c Hc) as ->. pose proof (good_ended _ _ _ Hg) as Hopen.
  pose proof (h_in _ _ _ _ _ _ _ _ Hh) as Hin. unfold outbound_in, on_tcp in E. rewrite Hc in E.
  destruct (fd_read_spec (_thread_data s) (kernel s) (remaining_outbound_capacity (conn e)))
    as [[code Er]|(data & w1 & k' & Er & _ & Hi & Hw & _ & Hw1)]; [apply u64_range|by rewrite Er in E|].
  rewrite Er in E. cbn [mbind result_bind] in E.
  pose proof (read_quiet _ _ _ _ _ _ (_fd (adapter_fd s)) Er (not_eq_sym Hd)) as Hq.
  assert (Hfd : _fd (register_read w1) = _fd (_thread_data s)) by (destruct ((_ <? _) && _); by subst w1).
  unfold thread_input in Hin. rewrite Hi in Hin.
  assert (Hlen : zlen (Transport.written e) + zlen data + 2 < 2 ^ 32).
  { rewrite <- Hin, !zlen_app in HS. pose proof (zlen_nonneg (input k' (_fd (_thread_data s)))). lia. }
  destruct (TCPConnection.write (conn e) data) as [n c'] eqn:Ew.
  pose proof (local_write yours e data n c' Hopen Hlen Ew) as Hl.
  destruct (Z.eqb_spec n (zlen data)) as [->|]; [cbn [negb] in E|done].
  rewrite take_ge in Hl by (unfold zlen; lia). set (e1 := Build_endpoint _ _ _) in Hl.
  pose proof (continues_step b y yours e mine _ _ Hl) as Hl1. rewrite app_nil_r in Hl1.
  assert (Hout : FileDescriptor.written k' (_fd (_thread_data s)) = got e) by (rewrite Hw; apply Hh).
  destruct (_eof (register_read w1)); injection E as <-.
  - exists (with_conn e1 (end_input_stream c')). split.
    + eapply continues_trans; [exact Hl1|].
      pose proof (continues_step b y yours e1 mine _ _ (local_end yours e1)) as Hl2. by rewrite app_nil_r in Hl2.
    + eapply host_owner; [done|exact Hh|by intros ? [= <-]| | |done|done|done];
        unfold thread_input, thread_output; cbn; cbn in Hfd; rewrite Hfd; [|done]. by rewrite <- app_assoc.
  - exists e1. split; [done|]. eapply host_owner; [done|exact Hh|by intros ? [= <-]| | |done|done|done];
      unfold thread_input, thread_output; cbn; cbn in Hfd; rewrite Hfd; [|done]. by rewrite <- app_assoc.
Qed.

Lemma outbound_cancel_host mine s e s' :
  inv S s -> host mine yours s e -> outbound_in_cancel s = Ok s' ->
  exists e', leads e mine e' mine /\ host mine yours s' e'.
Proof.
  intros Hinv Hh E. pose proof Hinv as [_ (c & W & b0 & Hc & _)]. pose proof (h_conn _ _ _ _ _ _ _ _ Hh c Hc) as ->.
  unfold outbound_in_cancel, on_tcp in E. rewrite Hc in E. injection E as <-.
  exists (with_conn e (end_input_stream (conn e))). split.
  - pose proof (continues_step b y yours e mine _ _ (local_end yours e)) as Hl. by rewrite app_nil_r in Hl.
  - eapply host_owner; [done|exact Hh|by intros ? [= <-]|apply Hh|apply Hh|done|done|by split].
Qed.

Lemma inbound_out_host mine s e s' :
  inv S s -> host mine yours s e -> inbound_out (Address := Address) s = Ok s' ->
  exists e', leads e mine e' mine /\ host mine yours s' e'.
Proof.
  intros Hinv Hh E. pose proof Hinv as [Hd (c & W & b0 & Hc & _)]. pose proof (h_conn _ _ _ _ _ _ _ _ Hh c Hc) as ->.
  pose proof (inbound_out_spec (Address := Address) s (conn e) Hc) as Hs. rewrite E in Hs.
  destruct Hs as (n & c' & -> & Hn & Hc' & Hout & Hin & _ & Hfd & _).
  set (bs := fst (ByteStream.read (inbound_stream (conn e)) n)).
  assert (Ebs : bs = take (Z.to_nat n) (ByteStream._buff (inbound_stream (conn e)))).
  { unfold bs, ByteStream.read. cbn [fst]. apply ByteStream.peek_output_take. lia. }
  assert (Ec : on_inbound_stream (fun i => ByteStream.pop_output i n) (conn e) =
               on_inbound_stream (fun s => snd (ByteStream.read s n)) (conn e)).
  { unfold on_inbound_stream, on_stream_out, ByteStream.read. cbn [snd]. by rewrite ByteStream.pop_peek by lia. }
  pose proof (continues_step b y yours e mine _ _ (local_read yours e n bs ltac:(lia) eq_refl)) as Hl. rewrite app_nil_r in Hl.
  eexists. split; [exact Hl|]. eapply host_owner; [done|exact Hh| | | | |done|].
  - intros c0. rewrite Hc'. intros [= <-]. exact Ec.
  - cbn. rewrite Hin. apply Hh.
  - rewrite Hout, (h_out _ _ _ _ _ _ _ _ Hh), <- Ebs. done.
  - revert E. unfold inbound_out, on_tcp. rewrite Hc. destruct (FileDescriptor.write _ _ _ _) as [[[m td] k]|]; [|done].
    cbn [mbind result_bind]. destruct (_ || _); [|by intros [= <-]]. destruct (shutdown _ _ _) as [[td' k']|]; [|done].
    by intros [= <-].
  - revert E. unfold inbound_out, on_tcp. rewrite Hc. destruct (FileDescriptor.write _ _ _ _) as [[[m td] k]|] eqn:Ew; [|done].
    cbn [mbind result_bind]. pose proof (write_quiet _ _ _ _ _ _ _ (_fd (adapter_fd s)) Ew (not_eq_sym Hd)) as Hq.
    destruct (_ || _); [|by intros [= <-]]. destruct (shutdown _ _ _) as [[td' k']|] eqn:Es; [|done].
    intros [= <-]. cbn. eapply quiet_trans; [exact Hq|]. by eapply shutdown_quiet.
Qed.

(** Every datagram that [send_all] posts was written for a segment. *)
Lemma send_all_posts segs a fd (k : K) a' fd' k' :
  Forall sendable segs -> send_all a fd k segs = Ok (a', fd', k') ->
  base a' = base a /\ _fd fd' = _fd fd /\
  (forall d : In, d ∈ arrivals k' (_fd fd) -> d ∈ arrivals k (_fd fd)) /\
  forall bs x, bs ∈ posted (In := In) k' (_fd fd) -> bs ∈ posted (In := In) k (_fd fd) \/
    written_for (A := A) x (eq (base a)) segs (frame x bs).
Proof.
  intros Hs. revert a fd k. induction Hs as [|seg segs Hseg Hs IH]; intros a fd k; cbn [send_all].
  { intros [= <- <- <-]. split_and!; auto. }
  pose proof (at_write_law a fd k seg Hseg) as Hlaw. rewrite at_write_medium in *.
  destruct (m_write_law a seg Hseg) as (o & a1 & Ew & Hb). rewrite Ew in *. cbn [mbind result_bind] in *.
  assert (Hrest : forall fd1 k1, send_all a1 fd1 k1 segs = Ok (a', fd', k') -> _fd fd1 = _fd fd ->
    (forall d : In, d ∈ arrivals k1 (_fd fd) -> d ∈ arrivals k (_fd fd)) ->
    (forall bs x, bs ∈ posted (In := In) k1 (_fd fd) -> bs ∈ posted (In := In) k (_fd fd) \/
      written_for (A := A) x (eq (base a)) (seg :: segs) (frame x bs)) ->
    base a' = base a /\ _fd fd' = _fd fd /\
    (forall d : In, d ∈ arrivals k' (_fd fd) -> d ∈ arrivals k (_fd fd)) /\
    forall bs x, bs ∈ posted (In := In) k' (_fd fd) -> bs ∈ posted (In := In) k (_fd fd) \/
      written_for (A := A) x (eq (base a)) (seg :: segs) (frame x bs)).
  { intros fd1 k1 E Hfd Ha Hp. destruct (IH a1 fd1 k1 E) as (I1 & I2 & I3 & I4). rewrite Hfd in *.
    split; [congruence|]. split; [done|]. split; [auto|]. intros bs x Hbs. destruct (I4 bs x Hbs) as [?|Hw]; [auto|right].
    eapply written_for_more; [| |exact Hw]; [congruence|]. intros ? ?. by apply list_elem_of_further. }
  destruct o as [out|]; [|intros E; apply (Hrest fd k E); auto].
  destruct (transmit fd k out) as [[fd1 k1]|] eqn:Et; [|done]. cbn [mbind result_bind] in *. intros E.
  destruct (transmit_net _ _ _ _ _ Et) as [T1 T2]. destruct Hlaw as [[Hfd _] _].
  apply (Hrest fd1 k1 E Hfd T1). rewrite T2. intros bs x [Hbs|Hbs]%elem_of_app; [by left|right].
  apply list_elem_of_singleton in Hbs as ->. exists a, seg, out, a1. rewrite carry_frame. split_and!; try done. apply list_elem_of_here.
Qed.

Lemma send_all_streams segs a fd (k : K) a' fd' k' f :
  Forall sendable segs -> send_all a fd k segs = Ok (a', fd', k') -> f <> _fd fd -> untouched f k k'.
Proof. intros Hs E Hf. pose proof (send_all_spec segs a fd k Hs) as H. rewrite E in H. by apply H. Qed.

Lemma datagram_out_host mine s e s' :
  inv S s -> host mine yours s e -> datagram_out s = Ok s' ->
  exists e' mine', leads e mine e' mine' /\ host mine' yours s' e'.
Proof.
  intros Hinv Hh E. pose proof Hinv as [Hd (c & W & b0 & Hc & Hg & _)]. pose proof (h_conn _ _ _ _ _ _ _ _ Hh c Hc) as ->.
  unfold datagram_out, on_tcp in E. rewrite Hc in E. pose proof (emits_out _ (good_emits _ _ _ Hg)) as Hs.
  destruct (send_all (_datagram_adapter s) (adapter_fd s) (kernel s) (TCPConnection.segments_out (conn e)))
    as [[[a fd] k]|] eqn:Es; [|done]. cbn [mbind result_bind] in E. injection E as <-.
  destruct (send_all_posts _ _ _ _ _ _ _ Hs Es) as (P1 & P2 & P3 & P4).
  destruct (send_all_streams _ _ _ _ _ _ _ (_fd (_thread_data s)) Hs Es Hd) as [U1 U2].
  eexists _, _. split; [apply continues_step, local_transmit|].
  destruct Hh as [H1 H3 H4 H5 H6 H7 H8]. constructor; cbn [_tcp _datagram_adapter set_tcp set_adapter]; rewrite ?P1; try done.
  - by intros c [= <-].
  - unfold thread_input in *. cbn. by rewrite U1.
  - unfold thread_output in *. cbn. by rewrite U2.
  - unfold socket_arrivals in *. cbn. rewrite P2. intros d Hd'. destruct (H7 d (P3 d Hd')) as [?|Hn]; [by left|right].
    revert Hn. unfold noise. by rewrite P1.
  - unfold socket_posted in *. cbn. rewrite P2. intros bs Hbs. destruct (P4 bs self Hbs) as [Ho|Ho].
    + eapply written_for_more; [| |by apply H8]; [done|]. intros ? ?. apply elem_of_app. by left.
    + eapply written_for_more; [| |exact Ho]; [|intros ? ?; apply elem_of_app; by right].
      intros b1 <-. unfold placed. destruct calls; [|done]. by apply H6.
Qed.

Lemma tick_host mine s e ms :
  inv S s -> host mine yours s e -> exists e', leads e mine e' mine /\ host mine yours (tick_all s ms) e'.
Proof.
  intros Hinv Hh. pose proof Hinv as [Hd (c & W & b0 & Hc & _)]. pose proof (h_conn _ _ _ _ _ _ _ _ Hh c Hc) as ->.
  exists (with_conn e (TCPConnection.tick (conn e) ms)). split.
  - pose proof (continues_step b y yours e mine _ _ (local_tick yours e ms)) as Hl. by rewrite app_nil_r in Hl.
  - unfold tick_all. rewrite Hc. destruct Hh as [H1 H3 H4 H5 H6 H7 H8].
    constructor; cbn [_tcp _datagram_adapter set_tcp set_adapter]; rewrite ?at_tick_base; try done; [by intros c [= <-]|].
    intros d Hd'. destruct (H7 d Hd') as [?|Hn]; [by left|right]. revert Hn. unfold noise. by rewrite at_tick_base.
Qed.

(** ** The event loop *)

Definition on_course (mine : list TCPSegment) (e : endpoint) (s : socket) : Prop :=
  exists e' mine', leads e mine e' mine' /\ host mine' yours s e'.

Lemma on_course_step mine e s s' :
  on_course mine e s ->
  (forall e1 m1, host m1 yours s e1 -> exists e2 m2, leads e1 m1 e2 m2 /\ host m2 yours s' e2) -> on_course mine e s'.
Proof.
  intros (e1 & m1 & Hl & Hh) Hn. destruct (Hn e1 m1 Hh) as (e2 & m2 & Hl2 & Hh2). exists e2, m2.
  split; [by eapply continues_trans|done].
Qed.

Section loop.
Context (mine : list TCPSegment) (e : endpoint).
Definition both (s : socket) : Prop := inv S s /\ on_course mine e s.

Lemma rules_served : Forall (served both need io_error) (socket_rules (Address := Address)).
Proof.
  assert (HS62 : zlen S < 2 ^ 62) by lia. pose proof (socket_rules_served (Address := Address) S HS62) as Hs.
  rewrite Forall_forall in Hs. unfold socket_rules in *. repeat apply Forall_cons_2; [..|apply Forall_nil_2];
    (apply served_both; [apply Hs; set_solver|cbn..]);
    try (by intros ? ? ? ? [= <-]); intros s s' Hi Hc.
  - intros _ E. eapply on_course_step; [exact Hc|]. intros e1 m1 Hh.
    destruct (datagram_in_host m1 s e1 s' Hi Hh E) as (e2 & ? & ?). by exists e2, m1.
  - intros E. eapply on_course_step; [exact Hc|]. intros e1 m1 Hh.
    destruct (outbound_cancel_host m1 s e1 s' Hi Hh E) as (e2 & ? & ?). by exists e2, m1.
  - intros Hn E. eapply on_course_step; [exact Hc|]. intros e1 m1 Hh.
    destruct (outbound_in_host m1 s e1 s' Hi Hn Hh E) as (e2 & ? & ?). by exists e2, m1.
  - intros _ E. eapply on_course_step; [exact Hc|]. intros e1 m1 Hh.
    destruct (inbound_out_host m1 s e1 s' Hi Hh E) as (e2 & ? & ?). by exists e2, m1.
  - intros _ E. eapply on_course_step; [exact Hc|]. intros e1 m1 Hh.
    by apply (datagram_out_host m1 s e1 s' Hi Hh).
Qed.

Lemma poll_respected rs : poll_respects both need rs.
Proof.
  intros s ps t r code ps' s' E [Hi Hc]. assert (HS62 : zlen S < 2 ^ 62) by lia.
  destruct (socket_poll_respects S rs s ps t r code ps' s' E Hi) as [Hi' Hn].
  split; [|done]. split; [done|]. eapply on_course_step; [exact Hc|]. intros e1 m1 Hh. exists e1, m1.
  split; [apply continues_refl|]. revert E. cbn. destruct (kernel_poll _ _ _) as [[[r0 e0] ps0] k0] eqn:E. intros [= _ _ _ <-].
  destruct (kernel_poll_net _ _ _ _ _ _ _ (_fd (adapter_fd s)) E) as [Hq1 Hq2].
  destruct (kpoll_streams _ _ _ _ _ _ _ (_fd (_thread_data s)) E) as [Hu1 Hu2].
  eapply host_same; [exact Hh|apply Hh|exact Hu1|exact Hu2|done|exact Hq1|exact Hq2].
Qed.

Lemma loop_on_course condition base_time env rs s :
  sublist rs (socket_rules (Address := Address)) -> both s ->
  match _tcp_loop condition base_time env rs s with
  | Throw e => socket_error e
  | Ok (_, rs', s') => sublist rs' (socket_rules (Address := Address)) /\ both s'
  end.
Proof.
  assert (HS62 : zlen S < 2 ^ 62) by lia.
  revert base_time rs s. induction env as [|[abort now] env IH]; intros base_time rs s Hrs Hs; cbn [_tcp_loop]; [done|].
  destruct (negb (condition s)); [done|].
  pose proof (wait_next_event_lem both need io_error rs TCP_TICK_MS s
    (served_sublist _ _ _ _ _ Hrs rules_served)
    (respectful_sublist _ _ _ _ Hrs (respectful_both _ _ _ _ (socket_rules_respectful (Address := Address) S))) (poll_respected rs) Hs) as Hw.
  destruct (wait_next_event rs TCP_TICK_MS s) as [[[ret rs1] s1]|]; [|done]. cbn [mbind result_bind].
  destruct Hw as [Hs1 Hrs1]. assert (Hrs' : sublist rs1 (socket_rules (Address := Address))) by by etransitivity.
  destruct (_ || abort); [done|]. pose proof Hs1 as [Hi1 Hc1]. destruct (inv_conn S s1 Hi1) as (c & _ & _ & -> & _).
  destruct (active c); [|by apply IH]. apply IH; [done|]. split; [by apply tick_all_inv|].
  eapply on_course_step; [exact Hc1|]. intros e1 m1 Hh. destruct (tick_host m1 s1 e1 (u64 (now - base_time)) Hi1 Hh) as (e2 & ? & ?).
  by exists e2, m1.
Qed.
End loop.

Lemma main_on_course mine e base_time env rs s :
  sublist rs (socket_rules (Address := Address)) -> both mine e s ->
  match _tcp_main (Address := Address) s rs base_time env with
  | Throw e => socket_error e
  | Ok (_, rs', s') => on_course mine e s' /\
      (_tcp s' <> None -> inv S s' /\ sublist rs' (socket_rules (Address := Address)))
  end.
Proof.
  intros Hrs Hs. unfold _tcp_main. destruct (inv_conn S s (proj1 Hs)) as (c & _ & _ & -> & _).
  pose proof (loop_on_course mine e (fun _ => true) base_time env rs s Hrs Hs) as Hl.
  destruct (_tcp_loop _ _ _ _ _) as [[[fin rs'] s']|]; [|done]. cbn [mbind result_bind]. destruct Hl as [Hrs' [Hi Hc]].
  destruct fin; [|done]. destruct (shutdown (owner s') (kernel s') SHUT_RDWR) as [[w k]|x] eqn:Es; cbn [mbind result_bind].
  - split; [|done]. eapply on_course_step; [exact Hc|]. intros e1 m1 Hh. exists e1, m1. split; [apply continues_refl|].
    pose proof (shutdown_quiet _ _ _ _ _ (_fd (adapter_fd s')) Es) as [Hq1 Hq2].
    assert (Hu : untouched (_fd (_thread_data s')) (kernel s') k).
    { revert Es. unfold shutdown. destruct (sys_shutdown _ _ _) as [[r x] k1] eqn:E. destruct (SystemCall _ _ _ _); [|done].
      cbn. intros [= _ <-]. by apply (shutdown_law _ _ _ _ _ _ E). }
    destruct Hu as [Hu1 Hu2]. eapply host_same; [exact Hh|done|exact Hu1|exact Hu2|done|exact Hq1|exact Hq2].
  - destruct (shutdown_safe (Address := Address) (owner s') (kernel s') SHUT_RDWR) as [[code E]|(w & k & E)];
      [unfold SHUT_RDWR; lia| |congruence]. rewrite E in Es. injection Es as <-. left. left. eauto.
Qed.

(** ** A socket at work *)

(** What can happen to a socket and its rules: its thread makes a round of the
    loop, in [connect], [listen_and_accept] or [_tcp_main], or the network brings
    datagrams: those the peer has posted, again or for the first time, and
    those of others. *)
Inductive host_step (peer_posted : list (list byte)) : socket * rules -> socket * rules -> Prop :=
| host_round condition base_time abort now s rs fin rs' s' :
    _tcp s <> None -> _tcp_loop condition base_time [(abort, now)] rs s = Ok (fin, rs', s') ->
    host_step peer_posted (s, rs) (s', rs')
| host_main base_time abort now s rs fin rs' s' :
    _tcp_main (Address := Address) s rs base_time [(abort, now)] = Ok (fin, rs', s') ->
    host_step peer_posted (s, rs) (s', rs')
| host_network s rs k :
    (forall d, d ∈ arrivals k (_fd (adapter_fd s)) -> d ∈ socket_arrivals s \/
      (exists bs, bs ∈ peer_posted /\ d = frame peer bs) \/ noise peer (_datagram_adapter s) d = true) ->
    posted (In := In) k (_fd (adapter_fd s)) = socket_posted s -> untouched (_fd (_thread_data s)) (kernel s) k ->
    host_step peer_posted (s, rs) (set_thread_data s (_thread_data s) k, rs).

Record party (mine yours : list TCPSegment) (p : socket * rules) (e : endpoint) : Prop := {
  party_host : host mine yours p.1 e;
  party_inv : _tcp p.1 <> None -> inv S p.1 /\ sublist p.2 (socket_rules (Address := Address))
}.

Lemma host_step_party peer_posted p p' mine e :
  host_step peer_posted p p' -> party mine yours p e ->
  (forall bs, bs ∈ peer_posted -> written_for (A := A) peer (placed (negb calls) peer) yours (frame peer bs)) ->
  exists e' mine', leads e mine e' mine' /\ party mine' yours p' e'.
Proof.
  intros Hst [Hh Hi] Hp. destruct Hst as [cond bt abort now s rs fin rs' s' Hc E|bt abort now s rs fin rs' s' E|s rs k Ha Hpo Hu].
  - destruct (Hi Hc) as [Hi' Hrs]. pose proof (loop_on_course mine e cond bt [(abort, now)] rs s Hrs) as Hl.
    rewrite E in Hl. destruct Hl as [Hrs' [Hi1 (e1 & m1 & Hl1 & Hh1)]].
    { split; [done|]. exists e, mine. split; [apply continues_refl|done]. }
    exists e1, m1. split; [done|]. by constructor.
  - assert (Hc : _tcp s <> None) by (intros Hn; unfold _tcp_main in E; by rewrite Hn in E).
    destruct (Hi Hc) as [Hi' Hrs]. pose proof (main_on_course mine e bt [(abort, now)] rs s Hrs) as Hl.
    rewrite E in Hl. destruct Hl as [(e1 & m1 & Hl1 & Hh1) Hi1].
    { split; [done|]. exists e, mine. split; [apply continues_refl|done]. }
    exists e1, m1. split; [done|]. by constructor.
  - exists e, mine. split; [apply continues_refl|]. destruct Hu as [Hu1 Hu2]. destruct Hh as [H1 H3 H4 H5 H6 H7 H8]. constructor.
    + constructor; try done; cbn.
      * unfold thread_input in *. cbn. by rewrite Hu1.
      * unfold thread_output in *. cbn. by rewrite Hu2.
      * unfold socket_arrivals. cbn. intros d Hd. destruct (Ha d Hd) as [?|[(bs & Hbs & ->)|?]]; auto.
      * unfold socket_posted. cbn. by rewrite Hpo.
    + intros Hc. destruct (Hi Hc) as [[Hd (c & W & b0 & Hc0 & Hg & Ho & HW)] Hrs]. split; [|done].
      constructor; [done|]. exists c, W, b0. split_and!; try done. unfold thread_input in *. cbn. by rewrite Hu1.
Qed.
End host.

(** The peer's segments only grow. *)
Lemma party_more calls self peer S mine yours yours' p e :
  (forall seg, seg ∈ yours -> seg ∈ yours') -> party calls self peer S mine yours p e -> party calls self peer S mine yours' p e.
Proof.
  intros Hy [[H1 H3 H4 H5 H6 H7 H8] Hi]. constructor; [|done]. constructor; try done.
  intros d Hd. destruct (H7 d Hd) as [Hw|?]; [left|by right]. eapply written_for_more; [| |exact Hw]; [done|exact Hy].
Qed.

(** ** The pair *)

Record pair := {
  caller : socket * rules;
  callee : socket * rules
}.

(** The caller is at [xc], the callee at [xs]. *)
Inductive pair_step (xc xs : Address) : pair -> pair -> Prop :=
| caller_step p p' :
    host_step xs (socket_posted (callee p).1) (caller p) p' -> pair_step xc xs p {| caller := p'; callee := callee p |}
| callee_step p p' :
    host_step xc (socket_posted (caller p).1) (callee p) p' -> pair_step xc xs p {| caller := caller p; callee := p' |}.

(** Both sockets show a state of [Transport] that can be reached from [s0]. *)
Definition pair_inv (xc xs : Address) (SC SS : list byte) (s0 : system) (p : pair) : Prop :=
  exists ec es mc ms, rtc system_step s0 (sys true ec es mc ms) /\
    party true xc xs SC mc ms (caller p) ec /\ party false xs xc SS ms mc (callee p) es.

Lemma pair_step_inv xc xs SC SS s0 p p' :
  zlen SC + 2 < 2 ^ 32 -> zlen SS + 2 < 2 ^ 32 ->
  pair_step xc xs p p' -> pair_inv xc xs SC SS s0 p -> pair_inv xc xs SC SS s0 p'.
Proof.
  intros HC HS Hst (ec & es & mc & ms & Hr & Pc & Ps). destruct Hst as [p p' Hst|p p' Hst].
  - destruct (host_step_party true xc xs SC HC true es ms _ _ _ mc ec Hst Pc) as (e' & m' & [Hl Hm] & Hp).
    { apply (h_posted _ _ _ _ _ _ _ _ (party_host _ _ _ _ _ _ _ _ Ps)). }
    exists e', es, m', ms. split; [by etrans|]. split; [done|]. by eapply party_more.
  - destruct (host_step_party false xs xc SS HS false ec mc _ _ _ ms es Hst Ps) as (e' & m' & [Hl Hm] & Hp).
    { apply (h_posted _ _ _ _ _ _ _ _ (party_host _ _ _ _ _ _ _ _ Pc)). }
    exists ec, e', mc, m'. split; [by etrans|]. split; [by eapply party_more|done].
Qed.

Lemma pair_run_inv xc xs SC SS s0 p p' :
  zlen SC + 2 < 2 ^ 32 -> zlen SS + 2 < 2 ^ 32 ->
  rtc (pair_step xc xs) p p' -> pair_inv xc xs SC SS s0 p -> pair_inv xc xs SC SS s0 p'.
Proof. intros HC HS. induction 1 as [|x y z Hs _ IH]; [done|]. intros Hx. apply IH. by eapply pair_step_inv. Qed.

(** A socket before it is used: nothing has been sent, received or delivered;
    what its owner will write fits the numbering. *)
Definition unused (s : socket) : Prop :=
  _fd (_thread_data s) <> _fd (adapter_fd s) /\ zlen (thread_input s) + 2 < 2 ^ 32 /\
  thread_output s = [] /\ socket_arrivals s = [] /\ socket_posted s = [].

(** A socket that has been told to connect or to listen, before the first round
    of its loop. *)
Definition opened (s : socket) (c_tcp : TCPConfig) (c_ad : FdAdapterConfig Address) (random : Z)
    (listens : bool) (p : socket * rules) : Prop :=
  exists t fin, (if listens then listen_and_accept else connect) s [] c_tcp c_ad random t [] = Ok (fin, p.2, p.1).

Lemma opened_party calls self peer s cfg ad rnd listens p :
  opened s cfg ad rnd listens p -> unused s -> cfg_ok cfg ->
  knows (base (_datagram_adapter p.1)) peer ->
  (calls = true -> listening (base (_datagram_adapter p.1)) = false /\ located (base (_datagram_adapter p.1)) self) ->
  exists e, (local_step [] (new_endpoint cfg rnd) e [] \/ e = new_endpoint cfg rnd) /\
    party calls self peer (thread_input s) [] [] p e.
Proof.
  intros (t & fin & E) (U1 & U2 & U3 & U4 & U5) Hcfg Hk Hc. destruct p as [s1 rs]. cbn [fst snd] in *.
  set (e := if listens then new_endpoint cfg rnd else with_conn (new_endpoint cfg rnd) (TCPConnection.connect (new_TCPConnection cfg rnd))).
  exists e. assert (Hg : good [] false (conn e)).
  { unfold e. destruct listens; [by apply good_new|by apply (good_connect [] false), good_new]. }
  assert (Hs : rs = socket_rules (Address := Address) /\ _tcp s1 = Some (conn e) /\ thread_input s1 = thread_input s /\
    thread_output s1 = [] /\ _fd (_thread_data s1) <> _fd (adapter_fd s1) /\ socket_arrivals s1 = [] /\ socket_posted s1 = []).
  { revert E. unfold e. destruct listens; unfold connect, listen_and_accept; destruct (_tcp s) eqn:Et; try done; cbn [_initialize_TCP].
    - intros [= _ <- <-]. done.
    - cbn [_tcp set_adapter set_tcp]. rewrite connect_new. cbn [neqb_TCPState]. intros [= _ <- <-].
      split_and!; done. }
  destruct Hs as (-> & H2 & H3 & H4 & H5 & H6 & H7). split.
  - unfold e. destruct listens; [by right|left; apply local_connect].
  - constructor; cbn [fst snd].
    + constructor; try done.
      * rewrite H2. by intros c [= <-].
      * rewrite H3. by unfold e; destruct listens.
      * rewrite H4. by unfold e; destruct listens.
      * rewrite H6. by intros d ?%not_elem_of_nil.
      * rewrite H7. by intros d ?%not_elem_of_nil.
    + intros _. split; [|done]. by eapply fresh_inv.
Qed.

(** What the application on the other side of [s] has got of [W], and that it
    has all of it when the connection says so. *)
Definition has_got (W : list byte) (s : socket) : Prop :=
  thread_output s `prefix_of` W /\
  forall c, _tcp s = Some c -> ByteStream.eof (inbound_stream c) = true -> thread_output s = W.

Lemma host_gets calls self peer S mine yours s e y net :
  host_rel calls self peer S mine yours s e -> side_inv e y net -> has_got (Transport.written y) s.
Proof.
  intros [H1 _ H4 _ _ _ _] Hs. destruct (side_delivers _ _ _ Hs) as [D1 D2]. split.
  - rewrite H4. etrans; [|apply (prefix_take _ (Z.to_nat (ByteStream.bytes_written (inbound_stream (conn e)))))].
    rewrite <- D1. by apply prefix_app_r.
  - intros c Hc [He Hb]%eof_iff. rewrite (H1 c Hc) in *. destruct (D2 He) as [D3 _]. by rewrite Hb, app_nil_r, <- H4 in D3.
Qed.
End pair.
Arguments pair : clear implicits.

(** ** The adapters *)

Section framed.
Context {Address K : Type} `{AddressLib Address} `{Kernel K} `{SocketKernel K Address}.

#[export] Program Instance udp_framed :
  @Framed (FdAdapterBase Address) Address K _ _ udp_medium _ udp_device (plain_adapt (In := received_datagram Address)) := {
  frame := fun x bs => {| source_address := x; datagram_payload := bs |}
}.
Next Obligation. done. Qed.
Next Obligation. done. Qed.
Next Obligation. intros a w k seg. cbn. by destruct (udp_write a seg). Qed.
Next Obligation. done. Qed.

Program Definition tun_framed :
  @Framed (FdAdapterBase Address) Address K _ _ tun_medium _ tun_device
    (@plain_adapt (FdAdapterBase Address) Address (list byte) BufferList K tun_adapter tun_device) := {|
  frame := fun _ bs => bs
|}.
Next Obligation. done. Qed.
Next Obligation. done. Qed.
Next Obligation. intros a w k seg. cbn. by destruct (tun_write a seg). Qed.
Next Obligation. done. Qed.
End framed.

(** Losses do not change the form of datagrams. *)
Program Definition lossy_framed {A Address In Out K R : Type} `{FdAdapter A Address In Out} `{Device K In Out}
    (M : Medium A Address In Out) `{Wire Out} (rand : R -> Z * R) (Ftick : forall a ms, base (adapter_tick a ms) = base a)
    (Fr : @Framed A Address K In Out M _ _ plain_adapt) :
  @Framed (@LossyFdAdapter A R) Address K In Out (lossy_medium M rand) _ _ (lossy_adapt rand) := {|
  frame := @frame _ _ _ _ _ _ _ _ _ Fr
|}.
Next Obligation. intros. exact (@carry_frame _ _ _ _ _ M _ _ _ Fr x out). Qed.
Next Obligation. done. Qed.
Next Obligation. intros. cbn. by destruct (lossy_write rand a seg) as [[[out|] l]|]. Qed.
Next Obligation. intros. cbn. apply Ftick. Qed.

(** ** Property *)

(** C6: From owner to owner. One socket connects, the other listens or connects;
    each owner will write the bytes that its socket's thread finds to read. In
    every state that rounds of the two event loops and deliveries by the
    network can lead to, with any adapter, kernels and clocks, what the owner
    of one socket can read is a prefix of the bytes that the other socket has
    taken from its owner, which are the first bytes of what that owner writes;
    and once the connection reports the end of its inbound stream, it is all
    that was taken. *)
Theorem owner_to_owner {A Address K In Out : Type} `{!Kernel K} `{!SocketKernel K Address} `{!PollKernel K}
    `{!Device K In Out} `{!Wire In} `{!Wire Out} `{!NetKernel K In} `{!NetLaws K Address In Out}
    `{!Medium A Address In Out} `{!MediumLaws A Address In Out} `{!AdaptT A Address K} `{!Framed A Address K In Out}
    `{!Streams K} `{!KernelLaws K} `{!SocketLaws K Address} `{!AdaptLaws A Address K} `{!PollKernelLaws K}
    xc xs (sc ss : TCPSpongeSocket A K) cfgC cfgS adC adS rndC rndS listens pc ps p :
  cfg_ok cfgC -> cfg_ok cfgS -> unused sc -> unused ss ->
  opened sc cfgC adC rndC false pc -> opened ss cfgS adS rndS listens ps ->
  introduced xc xs (_datagram_adapter pc.1) (_datagram_adapter ps.1) ->
  rtc (pair_step xc xs) {| caller := pc; callee := ps |} p ->
  exists WC WS, WC ++ thread_input (caller p).1 = thread_input sc /\ WS ++ thread_input (callee p).1 = thread_input ss /\
    has_got WC (callee p).1 /\ has_got WS (caller p).1.
Proof.
  intros HC HS UC US OC OS (I1 & I2 & I3 & I4) Hr.
  destruct (opened_party true xc xs _ _ _ _ _ _ OC UC HC I3 (fun _ => conj I1 I2)) as (ec & Hec & Pc).
  destruct (opened_party false xs xc _ _ _ _ _ _ OS US HS I4 ltac:(done)) as (es & Hes & Ps).
  assert (Hp : pair_inv xc xs (thread_input sc) (thread_input ss) (start cfgC cfgS rndC rndS) {| caller := pc; callee := ps |}).
  { exists ec, es, [], []. split; [|done]. etrans; [|etrans; [|reflexivity]].
    - instantiate (1 := sys true ec (new_endpoint cfgS rndS) [] []).
      destruct Hec as [Hl| ->]; [|done]. exact (rtc_once _ _ (sys_step true _ _ [] [] _ _ Hl)).
    - destruct Hes as [Hl| ->]; [|done]. exact (rtc_once _ _ (sys_step false _ _ [] [] _ _ Hl)). }
  assert (Hp' : pair_inv xc xs (thread_input sc) (thread_input ss) (start cfgC cfgS rndC rndS) p).
  { eapply pair_run_inv; [apply UC|apply US|exact Hr|exact Hp]. }
  destruct Hp' as (ec' & es' & mc & ms & Hrun & [Hhc _] & [Hhs _]).
  destruct (reachable_inv _ _ _ _ _ HC HS Hrun) as [SL SR].
  exists (Transport.written ec'), (Transport.written es'). split; [apply Hhc|]. split; [apply Hhs|].
  split; [by eapply host_gets|by eapply host_gets].
Qed.

(** ** An example *)

#[local] Hint Extern 0 (AdaptT (FdAdapterBase (Z * Z)) (Z * Z) example_net) =>
  exact (plain_adapt (In := received_datagram (Z * Z))) : typeclass_instances.

#[export] Instance example_net_kernel : NetKernel example_net (received_datagram (Z * Z)) := {
  arrivals := queue;
  posted := fun k _ => map snd (mailbox k)
}.

#[export] Instance example_net_laws :
  NetLaws example_net (Z * Z) (received_datagram (Z * Z)) ((Z * Z) * BufferList).
Proof.
  split.
  - intros w k i w' k' E. cbn in E. destruct (recv_spec w k 65536) as [(e & Er & _)|(dg & k1 & e & Er & Es & _)];
      [lia|congruence|]. rewrite Er in E. injection E as <- _ <-. cbn in Es. unfold quiet. cbn.
    destruct (queue k (_fd w)) as [|d ds] eqn:Eq; [by injection Es as Ez _ _ _ _; pose proof (zlen_nonneg (datagram_payload dg)); lia|].
    destruct (_ <? _); [|injection Es as Ez _ _ _ _; pose proof (zlen_nonneg (datagram_payload dg)); lia].
    injection Es as E1 _ E2 E3 <-. rewrite take_ge in E2.
    + split; [|split; [|done]].
      * destruct d, dg. cbn in *. subst. apply list_elem_of_here.
      * intros d0. unfold queue. cbn. rewrite lookup_insert_eq. cbn. intros Hd. by apply list_elem_of_further.
    + apply (f_equal zlen) in E2. rewrite zlen_take in E2. unfold zlen in *. lia.
  - intros w k [dest bl] w' k' E. cbn in E. unfold sendto, sendmsg_helper in E. cbn in E. rewrite as_iovecs_concat in E.
    rewrite bvl_of_BufferList_concat in E. destruct (_ <? 65508); [|done]. cbn [mbind result_bind] in E.
    destruct (SystemCall _ _ _ _); [|done]. cbn [mbind result_bind] in E. destruct (negb _); [done|].
    injection E as _ <-. cbn. split; [done|]. by rewrite map_app.
  - intros k fd n r e data k' f (f' & _ & ->)%net_read _. by split.
  - intros k fd iov r e k' f (f' & _ & ->)%net_writev _. by split.
  - intros k fd r e k' f [= _ _ <-]. by split.
  - intros k fd r e k' f [= _ _ <-]. by split.
  - intros k fd n r e k' f [= _ _ <-]. by split.
  - intros k fd how r e k' f [= _ _ <-]. by split.
  - intros k ps t r e ps' k' f [= _ _ _ <-]. by split.
Qed.

Abbreviation example_host := (TCPSpongeSocket (FdAdapterBase (Z * Z)) example_net).
Abbreviation example_rules := (list (Rule example_host socket_fd)).

(** A socket whose owner will write [data]. *)
Definition idle (data : list byte) : example_host :=
  let w n := {| _fd := n; _eof := false; _closed := false; _read_count := 0; _write_count := 0 |} in
  {| owner := w 5; _thread_data := w 3; _datagram_adapter := new_FdAdapterBase; adapter_fd := w 4;
     _tcp := None; _inbound_shutdown := false; _outbound_shutdown := false; _fully_acked := false;
     kernel := {| files := <[3 := (data, [])]> ∅; mailbox := []; arriving := ∅ |} |}.

(** A datagram joins the queue. *)
Definition arrive (d : received_datagram (Z * Z)) (s : example_host) : example_host :=
  let k := kernel s in
  let fd := _fd (adapter_fd s) in
  set_thread_data s (_thread_data s)
    {| files := files k; mailbox := mailbox k; arriving := <[fd := queue k fd ++ [d]]> (arriving k) |}.

(** A round of the loop, or a datagram of the peer, or one of somebody else. *)
Inductive act := Go (now : Z) | Get (i : nat) | Other (d : received_datagram (Z * Z)).

Definition act_on (peer : Z * Z) (peer_posted : list (list byte)) (p : example_host * example_rules) (a : act)
    : example_host * example_rules :=
  match a with
  | Go now =>
      match _tcp p.1, _tcp_loop (Address := Z * Z) (fun _ => true) (now - 10) [(false, now)] p.2 p.1 with
      | Some _, Ok (_, rs, s) => (s, rs)
      | _, _ => p
      end
  | Get i => match peer_posted !! i with Some bs => (arrive (frame peer bs) p.1, p.2) | None => p end
  | Other d => if noise peer (_datagram_adapter p.1) d then (arrive d p.1, p.2) else p
  end.

Lemma arrive_step peer peer_posted (p : example_host * example_rules) d :
  (exists bs, bs ∈ peer_posted /\ d = frame peer bs) \/ noise peer (_datagram_adapter p.1) d = true ->
  host_step (Address := Z * Z) peer peer_posted p (arrive d p.1, p.2).
Proof.
  intros Hd. destruct p as [s rs]. apply host_network; [|done|done]. intros d'. cbn. unfold queue at 1. cbn.
  rewrite lookup_insert_eq. cbn. intros [?|Hd']%elem_of_app; [by left|]. apply list_elem_of_singleton in Hd' as ->. by right.
Qed.

Lemma act_on_step peer peer_posted p a :
  host_step (Address := Z * Z) peer peer_posted p (act_on peer peer_posted p a) \/ act_on peer peer_posted p a = p.
Proof.
  destruct a as [now|i|d]; cbn [act_on].
  - destruct (_tcp p.1) eqn:Ec; [|by right].
    destruct (_tcp_loop _ _ _ _ _) as [[[fin rs] s]|] eqn:E; [|by right]. left. destruct p as [s0 rs0].
    cbn [fst snd] in *. eapply host_round; [|exact E]. by rewrite Ec.
  - destruct (peer_posted !! i) as [bs|] eqn:E; [|by right]. left. apply arrive_step. left. exists bs.
    split; [by eapply list_elem_of_lookup_2|done].
  - destruct (noise peer (_datagram_adapter p.1) d) eqn:E; [|by right]. left. apply arrive_step. by right.
Qed.

(** [true] is the caller. *)
Definition pair_exec (xc xs : Z * Z) (p : pair (FdAdapterBase (Z * Z)) example_net) (a : bool * act)
    : pair (FdAdapterBase (Z * Z)) example_net :=
  if a.1 then {| caller := act_on xs (socket_posted (callee p).1) (caller p) a.2; callee := callee p |}
  else {| caller := caller p; callee := act_on xc (socket_posted (caller p).1) (callee p) a.2 |}.

Lemma pair_exec_reach xc xs acts p :
  rtc (pair_step (Address := Z * Z) xc xs) p (fold_left (pair_exec xc xs) acts p).
Proof.
  revert p. induction acts as [|[c a] acts IH]; intros p; [constructor|]. cbn [fold_left].
  assert (Hs : rtc (pair_step (Address := Z * Z) xc xs) p (pair_exec xc xs p (c, a))); [|by etrans].
  unfold pair_exec. cbn [fst snd]. destruct c.
  - destruct (act_on_step xs (socket_posted (callee p).1) (caller p) a) as [H|H]; [by apply rtc_once, caller_step|].
    rewrite H. by destruct p.
  - destruct (act_on_step xc (socket_posted (caller p).1) (callee p) a) as [H|H]; [by apply rtc_once, callee_step|].
    rewrite H. by destruct p.
Qed.

Definition open_pair (r : result (bool * example_rules * example_host)) (s : example_host) : example_host * example_rules :=
  match r with Ok (_, rs, s') => (s', rs) | Throw _ => (s, []) end.

Lemma open_pair_opened s cfg ad rnd (listens : bool) s0 :
  let r := (if listens then listen_and_accept else connect) s [] cfg ad rnd 0 [] in
  (if r is Ok _ then true else false) = true -> opened (Address := Z * Z) s cfg ad rnd listens (open_pair r s0).
Proof.
  intros r Hr. exists 0. fold r. destruct r as [[[fin rs] s']|]; [by exists fin|done].
Qed.

Definition example_caller : example_host * example_rules :=
  open_pair (connect (idle [Byte.x68; Byte.x69]) [] test_config
    {| source := (5, 1234); destination := (7, 80); loss_rate_dn := 0; loss_rate_up := 0 |} 0 0 []) (idle []).
Definition example_callee : example_host * example_rules :=
  open_pair (listen_and_accept (idle []) [] test_config
    {| source := (7, 80); destination := (0, 0); loss_rate_dn := 0; loss_rate_up := 0 |} 0 0 []) (idle []).

Definition example_pair : pair (FdAdapterBase (Z * Z)) example_net :=
  fold_left (pair_exec (5, 1234) (7, 80))
    [(true, Go 10); (false, Other stranger); (false, Get 0); (false, Go 20); (false, Go 30); (false, Go 40);
     (true, Get 0); (true, Go 50); (true, Go 60); (false, Get 2); (false, Get 1); (false, Go 70); (false, Go 80); (false, Go 90)]
    {| caller := example_caller; callee := example_callee |}.

Lemma owner_to_owner_witness :
  thread_output (callee example_pair).1 = [Byte.x68; Byte.x69] /\
  exists WC WS, WC ++ thread_input (caller example_pair).1 = thread_input (idle [Byte.x68; Byte.x69]) /\
    WS ++ thread_input (callee example_pair).1 = thread_input (idle []) /\
    has_got WC (callee example_pair).1 /\ has_got WS (caller example_pair).1.
Proof.
  split; [vm_compute; reflexivity|].
  apply (owner_to_owner (5, 1234) (7, 80) (idle [Byte.x68; Byte.x69]) (idle []) test_config test_config
    {| source := (5, 1234); destination := (7, 80); loss_rate_dn := 0; loss_rate_up := 0 |}
    {| source := (7, 80); destination := (0, 0); loss_rate_dn := 0; loss_rate_up := 0 |} 0 0 true
    example_caller example_callee example_pair).
  - exact test_config_ok.
  - exact test_config_ok.
  - split; [vm_compute; discriminate|]. split_and!; vm_compute; reflexivity.
  - split; [vm_compute; discriminate|]. split_and!; vm_compute; reflexivity.
  - apply (open_pair_opened _ _ _ _ false). vm_compute. reflexivity.
  - apply (open_pair_opened _ _ _ _ true). vm_compute. reflexivity.
  - split; [vm_compute; reflexivity|]. split; [exact I|]. split; [right; vm_compute; reflexivity|left; vm_compute; reflexivity].
  - apply pair_exec_reach.
Defined.
