(* ===== verification/SocketSetup.v ===== *)
(** * Setting up sockets and devices

    Models the parts of [Socket], [UDPSocket], [TCPSocket] and
    [LocalStreamSocket] ([src/libsponge/util/socket.hh] and [.cc]) that open,
    name, connect and accept; [TunTapFD] ([util/tun.hh] and [.cc]); the
    constructors of [TCPSpongeSocket] and the configuration of [CS144TCPSocket]
    ([tcp_helpers/tcp_sponge_socket.cc]); and the start of
    [apps/tcp_native.cc]. The system calls are a parameter, as in
    [FileDescriptor] and [Socket]; the addresses of datagrams ([Addr]) play no
    part here. *)

From S2P Require Import Prelude Text Buffer TCPSender FdAdapter Address FileDescriptor Socket CommandLine TCPSpongeSocket.

Definition SOL_SOCKET : Z := 1.
Definition SO_REUSEADDR : Z := 2.
Definition O_RDWR : Z := 2.
Definition IFNAMSIZ : nat := 16.
Definition IFF_TUN : Z := 1.
Definition IFF_TAP : Z := 2.
Definition IFF_NO_PI : Z := 4096.
Definition TUNSETIFF : Z := 1074025674.

(** Each call yields its value, [errno] and the new state; [sys_getname] (of
    the socket itself or of its peer) also the bytes and the length it stored,
    given the room there is; [sys_socketpair] the two descriptors. *)
Class SetupKernel (K : Type) := {
  sys_socket : K -> Z -> Z -> Z -> Z * Z * K;
  sys_socketpair : K -> Z -> Z -> Z -> Z * Z * (Z * Z) * K;
  sys_getname : bool -> K -> Z -> Z -> Z * Z * (list byte * Z) * K;
  sys_bind : K -> Z -> list byte -> Z -> Z * Z * K;
  sys_connect : K -> Z -> list byte -> Z -> Z * Z * K;
  sys_listen : K -> Z -> Z -> Z * Z * K;
  sys_accept : K -> Z -> Z * Z * K;
  sys_setsockopt : K -> Z -> Z -> Z -> list byte -> Z * Z * K;
  sys_open : K -> list byte -> Z -> Z * Z * K;
  sys_ioctl : K -> Z -> Z -> list byte -> Z * Z * K
}.

(** An [int] as the machine stores it. *)
Definition int_bytes (n : Z) : list byte := [z2b n; z2b (n / 2 ^ 8); z2b (n / 2 ^ 16); z2b (n / 2 ^ 24)].

Section setup.
Context {K Addr : Type} `{Kernel K} `{SocketKernel K Addr} `{SetupKernel K}.
Abbreviation Address := Address.Address.
Abbreviation new_Socket := (Socket.new_Socket (Address := Addr)).

Definition open_Socket (k : K) (domain type : Z) : result (FDWrapper * K) :=
  let '(ret, errno, k) := sys_socket k domain type 0 in
  fd ← SystemCall "socket" ret errno 0;
  w ← new_FDWrapper fd;
  Ok (w, k).

Definition UDPSocket (k : K) : result (FDWrapper * K) := open_Socket k AF_INET SOCK_DGRAM.
Definition TCPSocket (k : K) : result (FDWrapper * K) := open_Socket k AF_INET SOCK_STREAM.
Definition UDPSocket_of (w : FDWrapper) (k : K) : result (FDWrapper * K) := new_Socket w k AF_INET SOCK_DGRAM.
Definition TCPSocket_of (w : FDWrapper) (k : K) : result (FDWrapper * K) := new_Socket w k AF_INET SOCK_STREAM.
Definition LocalStreamSocket (w : FDWrapper) (k : K) : result (FDWrapper * K) := new_Socket w k AF_UNIX SOCK_STREAM.

(** What is stored replaces the front of the zeroed storage. *)
Definition get_address (name_of_function : string) (peer : bool) (w : FDWrapper) (k : K)
    : result (Address * K) :=
  let '(ret, errno, (stored, size), k) := sys_getname peer k (_fd w) sizeof_storage in
  _ ← SystemCall name_of_function ret errno 0;
  a ← of_sockaddr (overwrite new_Raw stored) size;
  Ok (a, k).

Definition local_address (w : FDWrapper) (k : K) : result (Address * K) :=
  get_address "getsockname" false w k.
Definition peer_address (w : FDWrapper) (k : K) : result (Address * K) :=
  get_address "getpeername" true w k.

Definition bind (w : FDWrapper) (k : K) (address : Address) : result K :=
  let '(ret, errno, k) := sys_bind k (_fd w) (_address address) (size address) in
  _ ← SystemCall "bind" ret errno 0; Ok k.

Definition connect (w : FDWrapper) (k : K) (address : Address) : result K :=
  let '(ret, errno, k) := sys_connect k (_fd w) (_address address) (size address) in
  _ ← SystemCall "connect" ret errno 0; Ok k.

Definition listen (w : FDWrapper) (k : K) (backlog : Z) : result K :=
  let '(ret, errno, k) := sys_listen k (_fd w) backlog in
  _ ← SystemCall "listen" ret errno 0; Ok k.

(** The default argument of [listen]. *)
Definition default_backlog : Z := 16.

(** Returns the listening socket, the new one and the kernel. *)
Definition accept (w : FDWrapper) (k : K) : result (FDWrapper * FDWrapper * K) :=
  let w := register_read w in
  let '(ret, errno, k) := sys_accept k (_fd w) in
  fd ← SystemCall "accept" ret errno 0;
  w' ← new_FDWrapper fd;
  '(w', k) ← TCPSocket_of w' k;
  Ok (w, w', k).

Definition setsockopt (w : FDWrapper) (k : K) (level option : Z) (option_value : list byte) : result K :=
  let '(ret, errno, k) := sys_setsockopt k (_fd w) level option option_value in
  _ ← SystemCall "setsockopt" ret errno 0; Ok k.

Definition set_reuseaddr (w : FDWrapper) (k : K) : result K :=
  setsockopt w k SOL_SOCKET SO_REUSEADDR (int_bytes 1).

(** ** TunTapFD *)

Definition CLONEDEV : list byte := txt "/dev/net/tun".

(** [strncpy]: the string up to its terminator, cut or padded with zeros. *)
Definition strncpy (src : list byte) (n : nat) : list byte :=
  take n (c_str src) ++ replicate (n - length (c_str src)) Byte.x00.

(** The [ifreq] of the call: the name, the flags (a [short]) and zeros, 40
    bytes. *)
Definition tun_req (devname : list byte) (is_tun : bool) : list byte :=
  let flags := Z.lor (if is_tun then IFF_TUN else IFF_TAP) IFF_NO_PI in
  strncpy devname (IFNAMSIZ - 1) ++ [Byte.x00] ++ take 2 (int_bytes flags) ++ replicate 22 Byte.x00.

Definition TunTapFD (k : K) (devname : list byte) (is_tun : bool) : result (FDWrapper * K) :=
  let '(ret, errno, k) := sys_open k CLONEDEV O_RDWR in
  fd ← SystemCall "open" ret errno 0;
  w ← new_FDWrapper fd;
  let '(ret, errno, k) := sys_ioctl k (_fd w) TUNSETIFF (tun_req devname is_tun) in
  _ ← SystemCall "ioctl" ret errno 0;
  Ok (w, k).

Definition TunFD (k : K) (devname : list byte) : result (FDWrapper * K) := TunTapFD k devname true.
Definition TapFD (k : K) (devname : list byte) : result (FDWrapper * K) := TunTapFD k devname false.

(** ** TCPSpongeSocket *)

Definition socket_pair_helper (k : K) (type : Z) : result (FDWrapper * FDWrapper * K) :=
  let '(ret, errno, (fd0, fd1), k) := sys_socketpair k AF_UNIX type 0 in
  _ ← SystemCall "socketpair" ret errno 0;
  a ← new_FDWrapper fd0;
  b ← new_FDWrapper fd1;
  Ok (a, b, k).

Section adapter.
Context {A : Type}.

(** The constructor from a pair of sockets and an adapter with its descriptor. *)
Definition of_socket_pair (a b : FDWrapper) (datagram_interface : A) (fd : FDWrapper) (k : K)
    : result (TCPSpongeSocket.TCPSpongeSocket A K) :=
  '(own, k) ← LocalStreamSocket a k;
  '(thread_data, k) ← LocalStreamSocket b k;
  k ← set_blocking thread_data k false;
  Ok {| owner := own; _thread_data := thread_data; _datagram_adapter := datagram_interface; adapter_fd := fd;
        _tcp := None; _inbound_shutdown := false; _outbound_shutdown := false; _fully_acked := false; kernel := k |}.

Definition new_TCPSpongeSocket (datagram_interface : A) (fd : FDWrapper) (k : K)
    : result (TCPSpongeSocket.TCPSpongeSocket A K) :=
  '(a, b, k) ← socket_pair_helper k SOCK_STREAM;
  of_socket_pair a b datagram_interface fd k.

End adapter.

(** The configurations that [CS144TCPSocket::connect] passes on; [rnd] is what
    [random_device] gives. *)
Definition cs144_config `{Resolver} (rnd : Z) (address : Address) : result (TCPConfig * FdAdapterConfig Address) :=
  let tcp_config := set_rt_timeout default_TCPConfig 100 in
  multiplexer_config ← default_FdAdapterConfig;
  source ← of_host (txt "169.254.144.9") (decimal (u16 rnd));
  Ok (tcp_config, config_destination (config_source multiplexer_config source) address).

(** ** tcp_native *)

(** The socket that [main] copies from and to; [None] when the usage is shown.
    The listening socket is destroyed at the end of its scope. *)
Definition native_socket `{Resolver} (argv : list (list byte)) (k : K) : result (option (FDWrapper * K)) :=
  let argc := zlen argv in
  let server_mode := match zget argv 1 with Some a => strncmp_eq (txt "-l") a 3 | None => false end in
  if (argc <? 3) || (server_mode && (argc <? 4)) then Ok None
  else
    let argv_at i := match zget argv i with Some a => Ok a | None => Throw (undefined "argv") end in
    if server_mode then
      '(listening_socket, k) ← TCPSocket k;
      k ← set_reuseaddr listening_socket k;
      host ← argv_at 2;
      service ← argv_at 3;
      address ← of_host host service;
      k ← bind listening_socket k address;
      k ← listen listening_socket k default_backlog;
      '(listening_socket, socket, k) ← accept listening_socket k;
      Ok (Some (socket, destroy listening_socket k))
    else
      '(connecting_socket, k) ← TCPSocket k;
      host ← argv_at 1;
      service ← argv_at 2;
      address ← of_host host service;
      k ← connect connecting_socket k address;
      Ok (Some (connecting_socket, k)).

End setup.

(** ** What the manual pages promise

    A descriptor of a socket has a domain and a type, those it was made with;
    [getsockopt] tells them and, like the other calls on a socket, leaves them
    alone; [accept] returns a descriptor that was not in use, and [close] is for
    its own descriptor only. A socket has the name it was bound to, and [getsockname] stores as
    much of it as there is room for and tells its length. *)
Class SetupLaws (K Addr : Type) `{Kernel K} `{SocketKernel K Addr} `{SetupKernel K} := {
  kind_of : K -> Z -> option (Z * Z);
  local_name : K -> Z -> list byte;
  socket_law : forall k d t r e k', sys_socket k d t 0 = (r, e, k') ->
    -2 ^ 31 <= r < 2 ^ 31 /\ (r < 0 -> e <> 0) /\ (0 <= r -> kind_of k' r = Some (d, t));
  getsockopt_law : forall k fd opt r e v len k', sys_getsockopt k fd opt = (r, e, (v, len), k') ->
    -2 ^ 31 <= r < 2 ^ 31 /\ (r < 0 -> e <> 0) /\
    (0 <= r -> exists d t, kind_of k fd = Some (d, t) /\ (opt = SO_DOMAIN -> v = d) /\ (opt = SO_TYPE -> v = t)) /\
    (forall f, kind_of k' f = kind_of k f);
  connect_kind : forall k fd a n r e k' f, sys_connect k fd a n = (r, e, k') -> kind_of k' f = kind_of k f;
  setsockopt_kind : forall k fd l o v r e k' f, sys_setsockopt k fd l o v = (r, e, k') -> kind_of k' f = kind_of k f;
  getfl_kind : forall k fd r e k' f, sys_getfl k fd = (r, e, k') -> kind_of k' f = kind_of k f;
  setfl_kind : forall k fd n r e k' f, sys_setfl k fd n = (r, e, k') -> kind_of k' f = kind_of k f;
  bind_kind : forall k fd a n r e k' f, sys_bind k fd a n = (r, e, k') -> kind_of k' f = kind_of k f;
  listen_kind : forall k fd n r e k' f, sys_listen k fd n = (r, e, k') -> kind_of k' f = kind_of k f;
  accept_law : forall k fd r e k', sys_accept k fd = (r, e, k') ->
    -2 ^ 31 <= r < 2 ^ 31 /\ (r < 0 -> e <> 0) /\ (0 <= r -> kind_of k r = None);
  close_kind : forall k fd r e k' f, sys_close k fd = (r, e, k') -> f <> fd -> kind_of k' f = kind_of k f;
  bind_law : forall k fd a n r e k', sys_bind k fd a n = (r, e, k') ->
    -2 ^ 31 <= r < 2 ^ 31 /\ (r < 0 -> e <> 0) /\ (0 <= r -> local_name k' fd = take (Z.to_nat n) a);
  getname_law : forall k fd room r e stored n k', sys_getname false k fd room = (r, e, (stored, n), k') ->
    -2 ^ 31 <= r < 2 ^ 31 /\ (r < 0 -> e <> 0) /\
    (0 <= r -> stored = take (Z.to_nat room) (local_name k fd) /\ n = zlen (local_name k fd))
}.

(** [runs] goes through a sequence of calls that ends well, with an equation
    for each. *)
Ltac runs :=
  repeat match goal with
  | |- (?m ≫= _) = Ok _ -> _ => destruct m eqn:?; [cbn [mbind result_bind]|done]
  | |- (let '(_, _) := ?p in _) = Ok _ -> _ => destruct p
  end.

Section properties.
Context {K Addr : Type} `{SetupLaws K Addr}.
Abbreviation Address := Address.Address.

(** The checked constructor lets only sockets of the given kind through. *)
Lemma verify_kind w (k k' : K) opt expected what :
  verify (Address := Addr) w k opt expected what = Ok k' ->
  (exists d t, kind_of k (_fd w) = Some (d, t) /\ (opt = SO_DOMAIN -> expected = d) /\ (opt = SO_TYPE -> expected = t)) /\
  forall f, kind_of k' f = kind_of k f.
Proof.
  unfold verify. destruct (sys_getsockopt k (_fd w) opt) as [[[r e] [v len]] k1] eqn:E.
  destruct (getsockopt_law _ _ _ _ _ _ _ _ E) as (Hr & He & Hv & Hk).
  destruct (SystemCall_spec "getsockopt" r e Hr He) as [[Hn ->]|[_ ->]]; [|done]. cbn [mbind result_bind].
  destruct (_ || _) eqn:Em; [done|]. intros [= <-]. split; [|done].
  apply orb_false_iff in Em as [_ Em]. apply negb_false_iff, Z.eqb_eq in Em as <-. by apply Hv.
Qed.

Lemma new_Socket_kind w (k : K) d t w' k' :
  new_Socket (Address := Addr) w k d t = Ok (w', k') ->
  w' = w /\ kind_of k' (_fd w) = Some (d, t) /\ forall f, kind_of k' f = kind_of k f.
Proof.
  unfold new_Socket. destruct (verify w k SO_DOMAIN _ _) as [k1|] eqn:E1; [|done]. cbn [mbind result_bind].
  destruct (verify w k1 SO_TYPE _ _) as [k2|] eqn:E2; [|done]. intros [= <- <-].
  apply verify_kind in E1 as [(d1 & t1 & K1 & D1 & _) P1]. apply verify_kind in E2 as [(d2 & t2 & K2 & _ & T2) P2].
  split; [done|]. split; [|by intros f; rewrite P2, P1]. rewrite P2, K2. rewrite P1, K1 in K2.
  injection K2 as -> ->. by rewrite D1, T2.
Qed.

Lemma open_Socket_kind (k : K) d t w k' :
  open_Socket k d t = Ok (w, k') -> kind_of k' (_fd w) = Some (d, t).
Proof.
  unfold open_Socket. destruct (sys_socket k d t 0) as [[r e] k1] eqn:E. destruct (socket_law _ _ _ _ _ _ E) as (Hr & He & Hk).
  destruct (SystemCall_spec "socket" r e Hr He) as [[Hn ->]|[_ ->]]; [|done]. cbn [mbind result_bind].
  unfold new_FDWrapper. destruct (r <? 0); [done|]. intros [= <- <-]. by apply Hk.
Qed.

Lemma accept_kind w (k : K) w1 w' k' :
  accept w k = Ok (w1, w', k') ->
  w1 = register_read w /\ kind_of k' (_fd w') = Some (AF_INET, SOCK_STREAM) /\ kind_of k (_fd w') = None.
Proof.
  unfold accept, TCPSocket_of. destruct (sys_accept _ _) as [[r e] k1] eqn:Ea. destruct (accept_law _ _ _ _ _ Ea) as (Hr & He & Hk).
  destruct (SystemCall_spec "accept" r e Hr He) as [[Hn ->]|[_ ->]]; [|done]. cbn [mbind result_bind].
  unfold new_FDWrapper. destruct (r <? 0); [done|]. cbn [mbind result_bind].
  destruct (new_Socket _ k1 _ _) as [[w3 k3]|] eqn:E; [|done]. intros [= <- <- <-].
  apply new_Socket_kind in E as (-> & E & _). split; [done|]. split; [done|]. by apply Hk.
Qed.

(** The calls that prepare a listening socket leave the kinds alone. *)
Lemma prepare_keeps w (k k1 k2 k3 : K) a n f :
  set_reuseaddr w k = Ok k1 -> bind w k1 a = Ok k2 -> listen w k2 n = Ok k3 -> kind_of k3 f = kind_of k f.
Proof.
  unfold set_reuseaddr, setsockopt, bind, listen.
  destruct (sys_setsockopt _ _ _ _ _) as [[r1 e1] x1] eqn:E1. destruct (SystemCall _ _ _ _); [|done]. intros [= <-].
  destruct (sys_bind _ _ _ _) as [[r2 e2] x2] eqn:E2. destruct (SystemCall _ _ _ _); [|done]. intros [= <-].
  destruct (sys_listen _ _ _) as [[r3 e3] x3] eqn:E3. destruct (SystemCall _ _ _ _); [|done]. intros [= <-].
  by rewrite (listen_kind _ _ _ _ _ _ f E3), (bind_kind _ _ _ _ _ _ _ f E2), (setsockopt_kind _ _ _ _ _ _ _ _ f E1).
Qed.

Lemma destroy_keeps w (k : K) f : f <> _fd w -> kind_of (destroy w k) f = kind_of k f.
Proof.
  intros Hf. unfold destroy. destruct (_closed w); [done|].
  destruct (sys_close k (_fd w)) as [[r e] k1] eqn:E. by apply (close_kind _ _ _ _ _ _ E).
Qed.

Lemma connect_keeps w (k k' : K) a f : connect w k a = Ok k' -> kind_of k' f = kind_of k f.
Proof.
  unfold connect. destruct (sys_connect _ _ _ _) as [[r e] k1] eqn:E. destruct (SystemCall _ _ _ _); [|done].
  intros [= <-]. by apply (connect_kind _ _ _ _ _ _ _ _ E).
Qed.

Lemma set_blocking_keeps w (k k' : K) b f : set_blocking w k b = Ok k' -> kind_of k' f = kind_of k f.
Proof.
  unfold set_blocking. destruct (sys_getfl _ _) as [[r e] k1] eqn:E1. destruct (SystemCall _ _ _ _) as [flags|]; [|done].
  cbn [mbind result_bind]. destruct (sys_setfl _ _ _) as [[r2 e2] k2] eqn:E2. destruct (SystemCall _ _ _ _); [|done].
  intros [= <-]. by rewrite (setfl_kind _ _ _ _ _ _ f E2), (getfl_kind _ _ _ _ _ f E1).
Qed.

(** A name that was given to a socket is the name it has. *)
Lemma bind_local_address w (k : K) a :
  wf a ->
  (exists c, bind w k a = Throw (unix_error "bind" c)) \/
  exists k', bind w k a = Ok k' /\
    ((exists c, local_address w k' = Throw (unix_error "getsockname" c)) \/ exists k2, local_address w k' = Ok (a, k2)).
Proof.
  intros [Hs (addr & Hl & Ha)]. unfold bind, local_address, get_address, size.
  destruct (sys_bind k (_fd w) _ _) as [[r e] k1] eqn:E1. destruct (bind_law _ _ _ _ _ _ _ E1) as (Hr & He & Hn).
  destruct (SystemCall_spec "bind" r e Hr He) as [[Hp ->]|[_ ->]]; [right|left; by eexists]. cbn [mbind result_bind].
  eexists. split; [done|]. destruct (sys_getname false k1 _ _) as [[[r2 e2] [stored n]] k2] eqn:E2.
  destruct (getname_law _ _ _ _ _ _ _ _ E2) as (Hr2 & He2 & Hn2).
  destruct (SystemCall_spec "getsockname" r2 e2 Hr2 He2) as [[Hp2 ->]|[_ ->]]; [right|left; by eexists]. cbn [mbind result_bind].
  destruct (Hn2 Hp2) as [-> ->]. specialize (Hn Hp).
  assert (Hname : local_name k1 (_fd w) = addr).
  { rewrite Hn, Ha. rewrite take_app_length'; [done|]. unfold zlen in Hl. lia. }
  rewrite Hname, take_ge by (unfold sizeof_storage, zlen in *; lia).
  unfold of_sockaddr. rewrite Hl, (proj2 (Z.ltb_ge _ (_size a))) by lia.
  assert (Ho : zlen (overwrite new_Raw addr) = sizeof_storage).
  { unfold overwrite. rewrite zlen_app, zlen_drop. change (zlen new_Raw) with sizeof_storage. unfold zlen in *. lia. }
  rewrite Ho, (proj2 (Z.ltb_ge sizeof_storage (_size a))) by lia. cbn [mbind result_bind]. eexists. do 2 f_equal.
  destruct a as [n raw]. cbn [_size _address] in *. rewrite u32_small by (unfold sizeof_storage in *; lia). f_equal.
  rewrite Ha. unfold overwrite. rewrite take_app_length' by (unfold zlen in *; lia). done.
Qed.

(** ** Property *)

(** C36: Sockets are of the kind they should be. A socket that is opened has the
    domain and type of its class; what [accept] returns is an IPv4 stream
    socket, and the wait counts as a read; the socket of [tcp_native] is an
    IPv4 stream socket in either mode; and both ends of the pair inside of a
    [TCPSpongeSocket] are local stream sockets, with no connection yet. *)
Theorem sockets_have_their_kind `{Resolver} (A : Type) :
  (forall (k : K) w k', UDPSocket k = Ok (w, k') -> kind_of k' (_fd w) = Some (AF_INET, SOCK_DGRAM)) /\
  (forall w (k : K) w1 w' k', accept w k = Ok (w1, w', k') ->
    w1 = register_read w /\ kind_of k' (_fd w') = Some (AF_INET, SOCK_STREAM)) /\
  (forall argv (k : K) w k', native_socket argv k = Ok (Some (w, k')) -> kind_of k' (_fd w) = Some (AF_INET, SOCK_STREAM)) /\
  (forall (a : A) fd (k : K) s, new_TCPSpongeSocket a fd k = Ok s ->
    kind_of (kernel s) (_fd (owner s)) = Some (AF_UNIX, SOCK_STREAM) /\
    kind_of (kernel s) (_fd (_thread_data s)) = Some (AF_UNIX, SOCK_STREAM) /\ _tcp s = None).
Proof.
  split; [|split; [|split]].
  - intros k w k'. apply open_Socket_kind.
  - intros w k w1 w' k' E. by apply accept_kind in E as (-> & E & _).
  - intros argv k w k'. unfold native_socket, TCPSocket. destruct (_ || _); [done|].
    destruct (match zget argv 1 with Some _ => _ | None => _ end); runs; intros [= <- <-].
    + match goal with E1 : open_Socket _ _ _ = _, E2 : set_reuseaddr _ _ = _, E3 : bind _ _ _ = _,
        E4 : listen _ _ _ = _, E5 : accept _ _ = _ |- _ =>
        apply accept_kind in E5 as (-> & E5 & E6); apply open_Socket_kind in E1;
        rewrite (prepare_keeps _ _ _ _ _ _ _ _ E2 E3 E4) in E6 end.
      rewrite destroy_keeps; [done|]. cbn [register_read _fd]. congruence.
    + match goal with E : connect _ _ _ = _ |- _ => rewrite (connect_keeps _ _ _ _ _ E) end.
      match goal with E : open_Socket _ _ _ = _ |- _ => by apply open_Socket_kind in E end.
  - intros a fd k s. unfold new_TCPSpongeSocket, of_socket_pair, LocalStreamSocket. runs. intros [= <-].
    match goal with E1 : new_Socket _ _ _ _ = _, E2 : new_Socket _ _ _ _ = _, E3 : set_blocking _ _ _ = _ |- _ =>
      apply new_Socket_kind in E1 as (-> & K1 & P1); apply new_Socket_kind in E2 as (-> & K2 & P2);
      cbn [kernel owner _thread_data]; rewrite !(set_blocking_keeps _ _ _ _ _ E3), ?P2, ?P1 end.
    split; [congruence|]. split; [congruence|done].
Qed.

End properties.

(** ** A kernel of sockets *)

Record demo := { kinds : gmap Z (Z * Z); names : gmap Z (list byte); next_fd : Z }.

(** A descriptor for a new socket, while there are numbers left. *)
Definition demo_socket (k : demo) (kind : Z * Z) : Z * Z * demo :=
  if (0 <=? next_fd k) && (next_fd k <? 1024) && bool_decide (kinds k !! next_fd k = None)
  then (next_fd k, 0, {| kinds := <[next_fd k := kind]> (kinds k); names := names k; next_fd := next_fd k + 1 |})
  else (-1, 24, k).

#[local] Instance demo_kernel : Kernel demo := {
  sys_read := fun k _ _ => (-1, 11, [], k);
  sys_writev := fun k _ _ => (-1, 11, k);
  sys_close := fun k _ => (0, 0, k);
  sys_getfl := fun k _ => (0, 0, k);
  sys_setfl := fun k _ _ => (0, 0, k)
}.

#[local] Instance demo_sockets : SocketKernel demo Address.Address := {
  sys_getsockopt := fun k fd opt =>
    match kinds k !! fd with
    | Some (d, t) => (0, 0, (if opt =? SO_DOMAIN then d else if opt =? SO_TYPE then t else 0, 4), k)
    | None => (-1, 88, (0, 0), k)
    end;
  sys_shutdown := fun k _ _ => (0, 0, k);
  sys_recvfrom := fun k _ _ => (-1, 11, [], {| _size := 0; _address := new_Raw |}, k);
  sys_sendmsg := fun k _ _ _ => (-1, 11, k)
}.

#[local] Instance demo_setup : SetupKernel demo := {
  sys_socket := fun k d t _ => demo_socket k (d, t);
  sys_socketpair := fun k d t _ =>
    let '(r1, e1, k1) := demo_socket k (d, t) in
    let '(r2, e2, k2) := demo_socket k1 (d, t) in
    (if r2 <? 0 then -1 else 0, e2, (r1, r2), k2);
  sys_getname := fun peer k fd room =>
    let name := default [] (names k !! fd) in (0, 0, (take (Z.to_nat room) name, zlen name), k);
  sys_bind := fun k fd a n =>
    (0, 0, {| kinds := kinds k; names := <[fd := take (Z.to_nat n) a]> (names k); next_fd := next_fd k |});
  sys_connect := fun k _ _ _ => (0, 0, k);
  sys_listen := fun k _ _ => (0, 0, k);
  sys_accept := fun k _ => demo_socket k (AF_INET, SOCK_STREAM);
  sys_setsockopt := fun k _ _ _ _ => (0, 0, k);
  sys_open := fun k _ _ => (-1, 2, k);
  sys_ioctl := fun k _ _ _ => (-1, 25, k)
}.

#[local] Program Instance demo_laws : SetupLaws demo Address.Address := {
  kind_of := fun k fd => kinds k !! fd;
  local_name := fun k fd => default [] (names k !! fd)
}.
Next Obligation.
  cbn. unfold demo_socket. intros k d t r e k'. destruct (_ && _ && _) eqn:E.
  - apply andb_true_iff in E as [[E1 E2]%andb_true_iff _]. intros [= <- <- <-]. split; [lia|]. split; [lia|].
    intros _. apply lookup_insert_eq.
  - intros [= <- <- <-]. by split_and!; lia.
Qed.
Next Obligation.
  cbn. intros k fd opt r e v len k'. destruct (kinds k !! fd) as [[d t]|] eqn:E; intros [= <- <- <- <- <-].
  - split; [lia|]. split; [lia|]. split; [|done]. intros _. exists d, t. split; [done|]. split; by intros ->.
  - split; [lia|]. split; [lia|]. split; [lia|done].
Qed.
Next Obligation. cbn. by intros k fd a n r e k' f [= _ _ <-]. Qed.
Next Obligation. cbn. by intros k fd l o v r e k' f [= _ _ <-]. Qed.
Next Obligation. cbn. by intros k fd r e k' f [= _ _ <-]. Qed.
Next Obligation. cbn. by intros k fd n r e k' f [= _ _ <-]. Qed.
Next Obligation. cbn. by intros k fd a n r e k' f [= _ _ <-]. Qed.
Next Obligation. cbn. by intros k fd n r e k' f [= _ _ <-]. Qed.
Next Obligation.
  cbn. unfold demo_socket. intros k fd r e k'. destruct (_ && _ && _) eqn:E.
  - apply andb_true_iff in E as [[E1 E2]%andb_true_iff E3]. apply bool_decide_eq_true in E3.
    intros [= <- <- <-]. split; [lia|]. by split; [lia|].
  - intros [= <- <- <-]. by split_and!; lia.
Qed.
Next Obligation. cbn. by intros k fd r e k' f [= _ _ <-]. Qed.
Next Obligation.
  cbn. intros k fd a n r e k' [= <- <- <-]. split; [lia|]. split; [lia|]. intros _. cbn. by rewrite lookup_insert_eq.
Qed.
Next Obligation. cbn. intros k fd room r e stored n k' [= <- <- <- <- <-]. split; [lia|]. by split; [lia|]. Qed.

Lemma sockets_have_their_kind_witness :
  let _ := Address.numeric_resolver in
  let k0 := {| kinds := ∅; names := ∅; next_fd := 3 |} in
  exists w k', native_socket (map txt ["tcp_native"; "-l"; "10.0.0.1"; "80"]) k0 = Ok (Some (w, k')) /\
    kind_of k' (_fd w) = Some (AF_INET, SOCK_STREAM) /\
    default [] (names k' !! 3) = sockaddr_in 167772161 80.
Proof.
  intros R k0. destruct (@sockets_have_their_kind demo _ _ _ _ _ R unit) as (_ & _ & Hn & _).
  destruct (native_socket (map txt ["tcp_native"; "-l"; "10.0.0.1"; "80"]) k0) as [[[w k']|]|] eqn:E.
  - exists w, k'. split; [reflexivity|]. split; [exact (Hn _ _ _ _ E)|].
    vm_compute in E. injection E as <- <-. vm_compute. reflexivity.
  - exfalso. vm_compute in E. discriminate.
  - exfalso. vm_compute in E. discriminate.
Defined.

(** The device name of the request is cut after fifteen characters. *)
Example tun_request :
  take 16 (tun_req (txt "a-very-long-device-name") true) = txt "a-very-long-dev" ++ [Byte.x00] /\
  take 20 (tun_req (txt "tun144") true) = txt "tun144" ++ replicate 10 Byte.x00 ++ [Byte.x01; Byte.x10; Byte.x00; Byte.x00].
Proof. vm_compute. done. Qed.
