(* ===== verification/Process.v ===== *)
(** * A program that copies over a TCPSpongeSocket

    The two threads of [apps/tcp_udp.cc] and [apps/tcp_ipv4.cc] after the options
    are read: the owner's thread opens the socket, copies between it and the
    terminal ([bidirectional_stream_copy]), waits for the end of the connection
    and leaves [main]; the thread it starts runs [_tcp_main]. Models the start
    and the end of that thread, [wait_until_closed] and the destructor of
    [TCPSpongeSocket] ([src/libsponge/tcp_helpers/tcp_sponge_socket.cc]), and what
    the function and [main] destroy on the way out. The threads share the kernel,
    the flag [_abort] and the descriptor of the owner; they take turns, a round
    of an event loop at a time. A round that throws is the last of its thread,
    and what it did before is not followed. [ProcessProps] has the theorems. *)

From S2P Require Import Prelude WrappingIntegers ByteStream StreamReassembler ReassemblerProps Buffer TCPHeader TCPSegment TCPReceiver TCPSender TCPState TCPConnection Transport FdAdapter TCPOverIP FileDescriptor Socket EventLoop Emission AdapterIO ExampleKernel TCPSpongeSocket StreamCopy WireSystem SocketPair CommandLine.

Abbreviation t_socket := TCPSpongeSocket.TCPSpongeSocket.
Abbreviation t_rules A K := (list (Rule (TCPSpongeSocket.TCPSpongeSocket A K) TCPSpongeSocket.socket_fd)).
Abbreviation c_rules K := (list (Rule (copier K) copier_fd)).
Abbreviation t_kernel := TCPSpongeSocket.kernel.

(** ** State *)

(** [_tcp_thread]: a thread can be joined from its start on, once; the clock is
    read when it enters its loop. *)
Inductive thread :=
| NotStarted
| Started
| Running (base_time : Z)
| Returned
| Joined.

Definition joinable (t : thread) : bool :=
  match t with NotStarted | Joined => false | _ => true end.

(** Where the owner's thread is: in [connect] or [listen_and_accept], in the loop
    of the copy, in [join] (called by [wait_until_closed], or by the destructor
    when an exception leaves the block), or at the end, with the status that
    [main] returns and the exception it has caught and reported. An exception
    that leaves the function of the other thread ends the program
    ([std::terminate]). *)
Inductive point {K : Type} :=
| Opening (listens : bool) (base_time : Z)
| Copying (_eventloop : c_rules K) (c : copier K)
| Joining
| Unwinding (e : exn)
| Exited (status : Z) (caught : option exn)
| Terminated (e : exn).
Arguments point : clear implicits.

Record process {A K : Type} := {
  tcp_socket : t_socket A K;
  _eventloop : t_rules A K;
  _abort : bool;
  _tcp_thread : thread;
  owner_at : point K
}.
Arguments process : clear implicits.

(** ** The owner's thread *)

Section operations.
Context {A Address K : Type} `{AdaptT A Address K} `{Kernel K} `{SocketKernel K Address} `{PollKernel K}.

Definition go (p : process A K) (q : point K) : process A K :=
  {| tcp_socket := tcp_socket p; _eventloop := _eventloop p; _abort := _abort p;
     _tcp_thread := _tcp_thread p; owner_at := q |}.
Definition with_socket (p : process A K) (s : t_socket A K) : process A K :=
  {| tcp_socket := s; _eventloop := _eventloop p; _abort := _abort p;
     _tcp_thread := _tcp_thread p; owner_at := owner_at p |}.
Definition with_thread (p : process A K) (t : thread) : process A K :=
  {| tcp_socket := tcp_socket p; _eventloop := _eventloop p; _abort := _abort p;
     _tcp_thread := t; owner_at := owner_at p |}.
Definition with_loop (p : process A K) (s : t_socket A K) (rs : t_rules A K) : process A K :=
  {| tcp_socket := s; _eventloop := rs; _abort := _abort p;
     _tcp_thread := _tcp_thread p; owner_at := owner_at p |}.

(** The end of [main]: the members of the socket are destroyed, the adapter
    first, and with the last handle each descriptor is closed. *)
Definition leave_main (p : process A K) (status : Z) (caught : option exn) : process A K :=
  let s := tcp_socket p in
  let k := destroy (adapter_fd s) (t_kernel s) in
  let k := destroy (_thread_data s) k in
  let k := destroy (owner s) k in
  go (with_socket p (set_owner s (owner s) k)) (Exited status caught).

(** An exception leaves the block that [tcp_socket] lives in; [main] catches it
    after the destructor has run, which may have to wait for the other thread. *)
Definition unwind (p : process A K) (e : exn) : process A K :=
  if joinable (_tcp_thread p)
  then {| tcp_socket := tcp_socket p; _eventloop := _eventloop p; _abort := true;
          _tcp_thread := _tcp_thread p; owner_at := Unwinding e |}
  else leave_main p EXIT_FAILURE (Some e).

(** The condition of the loop that opens the connection. *)
Definition opening (listens : bool) (s : t_socket A K) : bool :=
  test_tcp s (fun c =>
    (listens && (eqb_TCPState (state c) (of_State LISTEN) || eqb_TCPState (state c) (of_State SYN_RCVD)))
    || eqb_TCPState (state c) (of_State SYN_SENT)).

(** One round of [_tcp_loop]: whether it was the last, the new [base_time], the
    rules and the socket. *)
Definition tcp_round (condition : t_socket A K -> bool) (base_time : Z) (abort : bool) (next_time : Z)
    (rs : t_rules A K) (s : t_socket A K) : result (bool * Z * t_rules A K * t_socket A K) :=
  if negb (condition s) then Ok (true, base_time, rs, s)
  else
    '(ret, rs, s) ← wait_next_event rs TCP_TICK_MS s;
    if match ret with EventLoop.Exit => true | _ => false end || abort then Ok (true, base_time, rs, s)
    else
      match _tcp s with
      | None => Throw (runtime_error "bad optional access")
      | Some c =>
          if active c then Ok (false, next_time, rs, tick_all s (u64 (next_time - base_time)))
          else Ok (false, base_time, rs, s)
      end.

(** The call of [connect] or [listen_and_accept] up to its loop. *)
Definition start_main (s : t_socket A K) (c_fsm : TCPConfig) (c_filt : FdAdapterConfig Address) (listen : bool)
    (random now : Z) : process A K :=
  let p := {| tcp_socket := s; _eventloop := []; _abort := false; _tcp_thread := NotStarted;
              owner_at := Opening listen now |} in
  match (if listen then listen_and_accept else connect) s [] c_fsm c_filt random now [] with
  | Ok (_, rs, s) => with_loop p s rs
  | Throw e => unwind p e
  end.

(** The owner's descriptor and the kernel belong to both threads. *)
Definition copier_of (s : t_socket A K) (c : copier K) : copier K :=
  {| _input := _input c; _output := _output c; socket := owner s; _outbound := _outbound c;
     _inbound := _inbound c; _outbound_shutdown := StreamCopy._outbound_shutdown c;
     _inbound_shutdown := StreamCopy._inbound_shutdown c; kernel := t_kernel s |}.
Definition copied (p : process A K) (c : copier K) : process A K :=
  with_socket p (set_owner (tcp_socket p) (socket c) (kernel c)).

(** The end of [bidirectional_stream_copy]: the handles [_output] and [_input]
    go, then the rules with theirs; the last one closes the descriptor. *)
Definition has_rule (rs : c_rules K) (f : copier_fd) : bool :=
  existsb (fun r => match fd r, f with
    | input_fd, input_fd | output_fd, output_fd | socket_fd, socket_fd => true | _, _ => false end) rs.
Definition leave_copy (rs : c_rules K) (_input _output : FDWrapper) (k : K) : K :=
  let k := if has_rule rs output_fd then k else destroy _output k in
  let k := destroy _input k in
  if has_rule rs output_fd then destroy _output k else k.
Definition left_copy (p : process A K) (rs : c_rules K) (_input _output : FDWrapper) : process A K :=
  let s := tcp_socket p in with_socket p (set_owner s (owner s) (leave_copy rs _input _output (t_kernel s))).

(** [FileDescriptor]s for the standard input and output. *)
Definition fresh_fd (n : Z) : FDWrapper :=
  {| _fd := n; _eof := false; _closed := false; _read_count := 0; _write_count := 0 |}.

Definition enter_copy (p : process A K) : process A K :=
  match bidirectional_stream_copy Address (owner (tcp_socket p)) (t_kernel (tcp_socket p)) 0 with
  | Ok (_, rs, c) => go (copied p c) (Copying rs c)
  | Throw e => unwind (left_copy p [] (fresh_fd STDIN_FILENO) (fresh_fd STDOUT_FILENO)) e
  end.

Definition wait_until_closed (p : process A K) : process A K :=
  match shutdown (Address := Address) (owner (tcp_socket p)) (t_kernel (tcp_socket p)) SHUT_RDWR with
  | Ok (w, k) =>
      let p := with_socket p (set_owner (tcp_socket p) w k) in
      if joinable (_tcp_thread p) then go p Joining else leave_main p EXIT_SUCCESS None
  | Throw e => unwind p e
  end.

(** A step of the owner's thread at time [now]. *)
Definition owner_moves (now : Z) (p : process A K) : process A K :=
  match owner_at p with
  | Opening listens base_time =>
      match tcp_round (opening listens) base_time (_abort p) now (_eventloop p) (tcp_socket p) with
      | Ok (true, _, rs, s) => enter_copy (with_thread (with_loop p s rs) Started)
      | Ok (false, base_time, rs, s) => go (with_loop p s rs) (Opening listens base_time)
      | Throw e => unwind p e
      end
  | Copying rs c =>
      match copy_loop 1 rs (copier_of (tcp_socket p) c) with
      | Ok (true, rs, c) => wait_until_closed (left_copy (copied p c) rs (_input c) (_output c))
      | Ok (false, rs, c) => go (copied p c) (Copying rs c)
      | Throw e => unwind (left_copy p rs (_input c) (_output c)) e
      end
  | Joining =>
      match _tcp_thread p with Returned => leave_main (with_thread p Joined) EXIT_SUCCESS None | _ => p end
  | Unwinding e =>
      match _tcp_thread p with Returned => leave_main (with_thread p Joined) EXIT_FAILURE (Some e) | _ => p end
  | Exited _ _ | Terminated _ => p
  end.

(** ** The TCP thread *)

(** [_tcp_main], a round at a time. *)
Definition thread_round (now : Z) (p : process A K) : process A K :=
  match _tcp_thread p with
  | Started =>
      match _tcp (tcp_socket p) with
      | Some _ => with_thread p (Running now)
      | None => go p (Terminated (runtime_error "no TCP"))
      end
  | Running base_time =>
      match tcp_round (fun _ => true) base_time (_abort p) now (_eventloop p) (tcp_socket p) with
      | Ok (false, base_time, rs, s) => with_thread (with_loop p s rs) (Running base_time)
      | Ok (true, _, rs, s) =>
          match shutdown (Address := Address) (owner s) (t_kernel s) SHUT_RDWR with
          | Ok (w, k) => with_thread (with_loop p (set_tcp (set_owner s w k) None) rs) Returned
          | Throw e => go p (Terminated e)
          end
      | Throw e => go p (Terminated e)
      end
  | _ => p
  end.

(** A step of the TCP thread; it ends with the program. *)
Definition thread_moves (now : Z) (p : process A K) : process A K :=
  match owner_at p with
  | Exited _ _ | Terminated _ => p
  | _ => thread_round now p
  end.

(** ** Rounds and whole functions *)

Lemma tcp_loop_rounds condition base_time abort now env rs (s : t_socket A K) :
  _tcp_loop condition base_time ((abort, now) :: env) rs s =
  '(fin, base_time, rs, s) ← tcp_round condition base_time abort now rs s;
  if (fin : bool) then Ok (true, rs, s) else _tcp_loop condition base_time env rs s.
Proof.
  unfold tcp_round. cbn [_tcp_loop]. destruct (negb _); [done|]. destruct (wait_next_event _ _ _) as [[[ret rs1] s1]|]; [|done].
  cbn [mbind result_bind]. destruct (_ || _); [done|]. destruct (_tcp s1) as [c|]; [|done]. by destruct (active c).
Qed.

(** The rounds of the owner in the opening phase are those of [connect] or
    [listen_and_accept]. *)
Lemma opening_loop (listens : bool) (s : t_socket A K) c_tcp c_ad random base_time env :
  (if listens then listen_and_accept else connect) s [] c_tcp c_ad random base_time env =
  '(_, rs, s) ← (if listens then listen_and_accept else connect) s [] c_tcp c_ad random base_time [];
  _tcp_loop (opening listens) base_time env rs s.
Proof.
  destruct listens; unfold listen_and_accept, connect; by destruct (_tcp s).
Qed.

(** The moves of the thread are the rounds of [_tcp_main]. *)
Lemma main_rounds (s : t_socket A K) rs base_time abort now env c :
  _tcp s = Some c ->
  _tcp_main (Address := Address) s rs base_time ((abort, now) :: env) =
  '(fin, base_time, rs, s) ← tcp_round (fun _ => true) base_time abort now rs s;
  if (fin : bool) then
    '(w, k) ← shutdown (Address := Address) (owner s) (t_kernel s) SHUT_RDWR;
    Ok (true, rs, set_tcp (set_owner s w k) None)
  else _tcp_main (Address := Address) s rs base_time env.
Proof.
  intros Hc. unfold _tcp_main. rewrite Hc, tcp_loop_rounds.
  destruct (tcp_round _ _ _ _ _ _) as [[[[fin t] rs1] s1]|] eqn:E; [|done]. cbn [mbind result_bind]. destruct fin; [done|].
  assert (Hs : _tcp s1 <> None); [|by destruct (_tcp s1)]. revert E. unfold tcp_round. cbn [negb].
  destruct (wait_next_event _ _ _) as [[[ret rs2] s2]|]; [|done]. cbn [mbind result_bind]. destruct (_ || _); [done|].
  destruct (_tcp s2) as [c2|] eqn:E2; [|done]. destruct (active c2); intros [= _ _ <-]; [|congruence].
  unfold tick_all. by rewrite E2.
Qed.

End operations.

(** ** What the kernel promises of the socket pair *)

(** The bytes that were read from a descriptor, and which descriptors are the
    two ends of a pair made by [socketpair(2)]. *)
Class Pipes (K : Type) := {
  taken : K -> Z -> list byte;
  joined : K -> Z -> Z -> Prop
}.

(** What was read and what will be read is one stream, and pairs stay pairs. *)
Definition kept {K} `{Streams K} `{Pipes K} (k k' : K) : Prop :=
  (forall f, taken k' f ++ input k' f = taken k f ++ input k f) /\
  (forall a b, joined k a b -> joined k' a b).

(** What comes out of one end was put into the other, in this order; and calls
    move bytes only as [KernelLaws] say. *)
Class PipeLaws (K Address In Out : Type) `{Kernel K} `{SocketKernel K Address} `{PollKernel K} `{Device K In Out}
    `{Streams K} `{Pipes K} := {
  pipe_law : forall k a b, joined k a b -> taken k b `prefix_of` written k a /\ taken k a `prefix_of` written k b;
  sys_read_kept : forall k fd n r e data k', sys_read k fd n = (r, e, data, k') -> kept k k';
  sys_writev_kept : forall k fd iov r e k', sys_writev k fd iov = (r, e, k') -> kept k k';
  sys_close_kept : forall k fd r e k', sys_close k fd = (r, e, k') -> kept k k';
  sys_getfl_kept : forall k fd r e k', sys_getfl k fd = (r, e, k') -> kept k k';
  sys_setfl_kept : forall k fd n r e k', sys_setfl k fd n = (r, e, k') -> kept k k';
  sys_shutdown_kept : forall k fd how r e k', sys_shutdown k fd how = (r, e, k') -> kept k k';
  kernel_poll_kept : forall k ps t r e ps' k', kernel_poll k ps t = (r, e, ps', k') -> kept k k';
  receive_kept : forall w k i w' k', receive w k = Ok (i, w', k') -> kept k k';
  transmit_kept : forall w k out w' k', transmit w k out = Ok (w', k') -> kept k k'
}.
