(* ===== verification/ExampleHost.v ===== *)
(** * A host for examples

    The kernel of [ExampleKernel] with a socket pair: from one of its ends only
    what was written to the other can be read. It keeps the bytes that were read
    from each descriptor. Descriptors are given out in order, [top] is the next;
    there is one pair ([ends], negative before it is made), and nothing is opened
    after a message was sent. All laws of the kernel that [Process] and [Programs]
    ask for hold. *)

From S2P Require Import Prelude Buffer FileDescriptor FdAdapter Socket EventLoop AdapterIO ExampleKernel SocketPair Process.

Record host := {
  net : example_net;
  consumed : gmap Z (list byte);
  ends : Z * Z;
  top : Z
}.

Definition gone (k : host) (fd : Z) : list byte := default [] (consumed k !! fd).

Definition other_end (k : host) (fd : Z) : option Z :=
  if fd =? (ends k).1 then Some (ends k).2 else if fd =? (ends k).2 then Some (ends k).1 else None.

(** The part of what is to come that is there already. *)
Definition readable (k : host) (fd : Z) : list byte :=
  match other_end k fd with
  | None => input (net k) fd
  | Some g =>
      let here := take (length (written (net k) g) - length (gone k fd)) (input (net k) fd) in
      if decide (gone k fd ++ here `prefix_of` written (net k) g) then here else []
  end.

Definition on_net (k : host) (n : example_net) : host := {| net := n; consumed := consumed k; ends := ends k; top := top k |}.

#[export] Instance host_kernel : Kernel host := {
  sys_read := fun k fd size =>
    if match readable k fd with [] => true | _ => false end then (-1, 11, [], k)
    else
      let '(r, e, data, n) := sys_read (net k) fd (Z.min size (zlen (readable k fd))) in
      (r, e, data, {| net := n; consumed := <[fd := gone k fd ++ data]> (consumed k); ends := ends k; top := top k |});
  sys_writev := fun k fd iov => let '(r, e, n) := sys_writev (net k) fd iov in (r, e, on_net k n);
  sys_close := fun k _ => (0, 0, k);
  sys_getfl := fun k _ => (0, 0, k);
  sys_setfl := fun k _ _ => (0, 0, k)
}.

#[export] Instance host_streams : Streams host := {
  input := fun k fd => input (net k) fd;
  written := fun k fd => written (net k) fd
}.

#[export] Instance host_sockets : SocketKernel host (Z * Z) := {
  sys_getsockopt := fun k _ _ => (0, 0, (1, 4), k);
  sys_shutdown := fun k _ _ => (0, 0, k);
  sys_recvfrom := fun k fd size =>
    let '(r, e, data, from, n) := sys_recvfrom (net k) fd size in (r, e, data, from, on_net k n);
  sys_sendmsg := fun k fd dest iov => let '(r, e, n) := sys_sendmsg (net k) fd dest iov in (r, e, on_net k n)
}.

#[export] Instance host_poll : PollKernel host :=
  poll_when (fun k fd => match readable k fd, queue (net k) fd with [], [] => false | _, _ => true end).

#[export] Instance host_pipes : Pipes host := {
  taken := gone;
  joined := fun k a b => (0 <= a /\ (a, b) = ends k) /\ gone k b `prefix_of` written k a /\ gone k a `prefix_of` written k b
}.

#[export] Instance host_net : NetKernel host (received_datagram (Z * Z)) := {
  arrivals := fun k fd => queue (net k) fd;
  posted := fun k fd => posted (net k) fd
}.

(** ** The laws *)

Lemma host_read k fd size r e data k' :
  sys_read k fd size = (r, e, data, k') ->
  (r = -1 /\ e = 11 /\ data = [] /\ k' = k) \/
  exists n, sys_read (net k) fd (Z.min size (zlen (readable k fd))) = (r, e, data, n) /\
    k' = {| net := n; consumed := <[fd := gone k fd ++ data]> (consumed k); ends := ends k; top := top k |}.
Proof.
  unfold sys_read at 1, host_kernel at 1. destruct (match readable k fd with [] => true | _ => false end).
  - intros [= <- <- <- <-]. by left.
  - destruct (sys_read (net k) fd _) as [[[r0 e0] d0] n0]. intros [= <- <- <- <-]. right. eauto.
Qed.

Lemma host_writev k fd iov r e k' :
  sys_writev k fd iov = (r, e, k') -> exists n, sys_writev (net k) fd iov = (r, e, n) /\ k' = on_net k n.
Proof.
  unfold sys_writev at 1, host_kernel at 1. destruct (sys_writev (net k) fd iov) as [[r0 e0] n0]. intros [= <- <- <-]. eauto.
Qed.

Lemma host_recvfrom k fd size r e data from k' :
  sys_recvfrom k fd size = (r, e, data, from, k') ->
  exists n, sys_recvfrom (net k) fd size = (r, e, data, from, n) /\ k' = on_net k n.
Proof.
  unfold sys_recvfrom at 1, host_sockets at 1. destruct (sys_recvfrom (net k) fd size) as [[[[r0 e0] d0] f0] n0].
  intros [= <- <- <- <- <-]. eauto.
Qed.

Lemma host_sendmsg k fd dest iov r e k' :
  sys_sendmsg k fd dest iov = (r, e, k') -> exists n, sys_sendmsg (net k) fd dest iov = (r, e, n) /\ k' = on_net k n.
Proof.
  unfold sys_sendmsg at 1, host_sockets at 1. destruct (sys_sendmsg (net k) fd dest iov) as [[r0 e0] n0]. intros [= <- <- <-]. eauto.
Qed.

#[export] Instance host_kernel_laws : KernelLaws host.
Proof.
  split.
  - intros k fd size r e data k' Hs [(-> & -> & -> & ->)|(n & E & ->)]%host_read; [lia|].
    assert (Hm : 0 <= Z.min size (zlen (readable k fd))) by (pose proof (zlen_nonneg (readable k fd)); lia).
    destruct (read_law _ _ _ _ _ _ _ Hm E) as (H1 & H2 & H3). split; [done|]. split; [done|]. intros Hr.
    destruct (H3 Hr) as (H4 & H5). split; [lia|done].
  - intros k fd iov r e k' (n & E & ->)%host_writev. exact (writev_law _ _ _ _ _ _ E).
  - intros k fd size r e data k' fd' [(_ & _ & _ & ->)|(n & E & ->)]%host_read Hne; [done|].
    exact (read_others _ _ _ _ _ _ _ fd' E Hne).
  - intros k fd iov r e k' fd' (n & E & ->)%host_writev Hne. exact (writev_others _ _ _ _ _ _ fd' E Hne).
  - intros k fd r e k' f [= <- <- <-]. by split_and!; lia || done.
  - intros k fd r e k' f [= <- <- <-]. by split_and!; lia || done.
  - intros k fd flags r e k' f [= <- <- <-]. by split_and!; lia || done.
Qed.

#[export] Program Instance host_socket_laws : SocketLaws host (Z * Z) := {
  sent_to := fun k fd => sent_to (net k) fd
}.
Next Obligation. cbn. intros k fd how r e k' [= <- <- <-]. split; [lia|]. split; [lia|]. by split. Qed.
Next Obligation. intros k fd size r e data from k' Hs (n & E & ->)%host_recvfrom. exact (recvfrom_law _ _ _ _ _ _ _ _ Hs E). Qed.
Next Obligation. intros k fd dest iov r e k' (n & E & ->)%host_sendmsg. exact (sendmsg_law _ _ _ _ _ _ _ E). Qed.

#[export] Instance host_poll_laws : PollKernelLaws host := poll_when_laws _.

(** Sending and receiving are those of [example_net]. *)
Lemma host_receive w k i w' k' :
  receive (In := received_datagram (Z * Z)) (Out := (Z * Z) * BufferList) w k = Ok (i, w', k') ->
  exists n, receive (In := received_datagram (Z * Z)) (Out := (Z * Z) * BufferList) w (net k) = Ok (i, w', n) /\ k' = on_net k n.
Proof.
  cbn. unfold recv. destruct (sys_recvfrom k _ _) as [[[[r e] data] from] k1] eqn:E.
  apply host_recvfrom in E as (n & -> & ->). destruct (SystemCall _ _ _ _); [|done]. cbn [mbind result_bind].
  destruct (_ <? _); [done|]. intros [= <- <- <-]. eauto.
Qed.

Lemma host_transmit w k (out : (Z * Z) * BufferList) w' k' :
  transmit (In := received_datagram (Z * Z)) w k out = Ok (w', k') ->
  exists n, transmit (In := received_datagram (Z * Z)) w (net k) out = Ok (w', n) /\ k' = on_net k n.
Proof.
  cbn. unfold sendto, sendmsg_helper. destruct (sys_sendmsg k _ _ _) as [[r e] k1] eqn:E.
  apply host_sendmsg in E as (n & -> & ->). destruct (SystemCall _ _ _ _); [|done]. cbn [mbind result_bind].
  destruct (negb _); [done|]. intros [= <- <-]. eauto.
Qed.

#[export] Instance host_net_laws : NetLaws host (Z * Z) (received_datagram (Z * Z)) ((Z * Z) * BufferList).
Proof.
  split.
  - intros w k i w' k' (n & E & ->)%host_receive. exact (receive_net _ _ _ _ _ E).
  - intros w k out w' k' (n & E & ->)%host_transmit. exact (transmit_net _ _ _ _ _ E).
  - intros k fd n r e data k' f [(_ & _ & _ & ->)|(m & E & ->)]%host_read Hne; [by split|].
    exact (sys_read_net _ _ _ _ _ _ _ _ E Hne).
  - intros k fd iov r e k' f (m & E & ->)%host_writev Hne. exact (sys_writev_net _ _ _ _ _ _ _ E Hne).
  - intros k fd r e k' f [= _ _ <-]. by split.
  - intros k fd r e k' f [= _ _ <-]. by split.
  - intros k fd n r e k' f [= _ _ <-]. by split.
  - intros k fd how r e k' f [= _ _ <-]. by split.
  - intros k ps t r e ps' k' f [= _ _ _ <-]. by split.
Qed.

(** What a read takes was there. *)
Lemma read_prefix k fd size r e data n g :
  sys_read (net k) fd (Z.min size (zlen (readable k fd))) = (r, e, data, n) -> other_end k fd = Some g ->
  gone k fd `prefix_of` written k g -> gone k fd ++ data `prefix_of` written k g.
Proof.
  intros (f & E & _)%net_read Hg Hp. cbn in E. injection E as _ _ <- _. unfold readable. rewrite Hg.
  set (here := take _ (input (net k) fd)). destruct (decide _) as [Hd|Hd].
  - etrans; [|exact Hd]. apply prefix_app. set (m := Z.to_nat _).
    assert (Hm : (m <= length here)%nat) by (unfold m, zlen; lia). unfold here in Hm. rewrite length_take in Hm.
    transitivity (take m here); [|apply prefix_take]. unfold here. rewrite take_take, Nat.min_l by lia. done.
  - replace (Z.to_nat (2 `min` (size `min` zlen []))) with 0%nat by (unfold zlen; cbn [length]; lia). by rewrite take_0, app_nil_r.
Qed.

Lemma recv_untouched w (n n' : example_net) dg w' f : recv w n 65536 = Ok (dg, w', n') -> untouched f n n'.
Proof.
  unfold recv. destruct (sys_recvfrom _ _ _) as [[[[r e] data] from] n1] eqn:E. destruct (SystemCall _ _ _ _); [|done].
  cbn [mbind result_bind]. destruct (_ <? _); [done|]. intros [= _ _ <-]. by apply (recvfrom_law _ _ _ _ _ _ _ _ (zlen_nonneg _) E).
Qed.
Lemma sendto_untouched w (n n' : example_net) dest payload w' f : sendto w n dest payload = Ok (w', n') -> untouched f n n'.
Proof.
  unfold sendto, sendmsg_helper. destruct (sys_sendmsg _ _ _ _) as [[r e] n1] eqn:E. destruct (SystemCall _ _ _ _); [|done].
  cbn [mbind result_bind]. destruct (negb _); [done|]. intros [= _ <-]. by apply (sendmsg_law _ _ _ _ _ _ _ E).
Qed.

Lemma take_length_drop {X} m (l : list X) : take m l ++ drop (length (take m l)) l = l.
Proof.
  rewrite length_take. destruct (decide (m <= length l)%nat); [rewrite Nat.min_l by lia; apply take_drop|].
  rewrite take_ge, Nat.min_r, drop_all by lia. apply app_nil_r.
Qed.

Lemma gone_insert k n fd x f :
  gone {| net := n; consumed := <[fd := x]> (consumed k); ends := ends k; top := top k |} f = if decide (f = fd) then x else gone k f.
Proof. unfold gone. cbn. destruct (decide _) as [->|Hne]; [by rewrite lookup_insert_eq|by rewrite lookup_insert_ne]. Qed.

Lemma kept_same k n :
  (forall f, input n f = input (net k) f) -> (forall f, written (net k) f `prefix_of` written n f) -> kept k (on_net k n).
Proof.
  intros Hi Hw. split.
  - intros f. change (gone k f ++ input n f = gone k f ++ input (net k) f). by rewrite Hi.
  - intros a b (H1 & H2 & H3). split; [done|]. split; [etrans; [exact H2|apply Hw]|etrans; [exact H3|apply Hw]].
Qed.

#[export] Instance host_pipe_laws : PipeLaws host (Z * Z) (received_datagram (Z * Z)) ((Z * Z) * BufferList).
Proof.
  split; try (intros; match goal with H : _ = _ |- _ => injection H; intros; subst; by split end).
  - by intros k a b (_ & H1 & H2).
  - intros k fd size r e data k' [(_ & _ & _ & ->)|(n & E & ->)]%host_read; [by split|].
    pose proof E as (f & Ef & ->)%net_read. split.
    + intros g. change (gone {| net := {| files := f; mailbox := mailbox (net k); arriving := arriving (net k) |};
        consumed := <[fd := gone k fd ++ data]> (consumed k); ends := ends k; top := top k |} g ++ input f g = gone k g ++ input (files (net k)) g).
      rewrite gone_insert. destruct (decide (g = fd)) as [->|Hne].
      * cbn in Ef. injection Ef as _ _ <- <-. cbn. rewrite file_insert. cbn. by rewrite <- app_assoc, take_length_drop.
      * f_equal. by apply (read_others _ _ _ _ _ _ _ g Ef).
    + intros a b (H1 & H2 & H3). split; [done|].
      assert (Hw : forall g, written f g = written (files (net k)) g).
      { intros g. cbn in Ef. injection Ef as _ _ _ <-. cbn. destruct (decide (g = fd)) as [->|Hne]; [by rewrite file_insert|by rewrite file_insert_ne]. }
      assert (Hx : forall g h, other_end k g = Some h -> gone k g `prefix_of` written (net k) h ->
        gone {| net := {| files := f; mailbox := mailbox (net k); arriving := arriving (net k) |};
          consumed := <[fd := gone k fd ++ data]> (consumed k); ends := ends k; top := top k |} g `prefix_of` written f h).
      { intros g h Hg Hp. rewrite gone_insert, Hw. destruct (decide (g = fd)) as [->|Hne]; [|done]. by eapply read_prefix. }
      split; apply Hx; try done; unfold other_end; rewrite <- (proj2 H1); cbn.
      * destruct (Z.eqb_spec b a) as [->|]; [done|]. by rewrite Z.eqb_refl.
      * by rewrite Z.eqb_refl.
  - intros k fd iov r e k' (n & E & ->)%host_writev. apply kept_same.
    + intros f. destruct (decide (f = fd)) as [->|Hne]; [|by apply (writev_others _ _ _ _ _ _ f E)].
      apply net_writev in E as (m & E & ->). cbn in E. injection E as _ _ <-. cbn. by rewrite file_insert.
    + intros f. apply net_writev in E as (m & E & ->). cbn in E. injection E as _ _ <-. cbn.
      destruct (decide (f = fd)) as [->|Hne]; [rewrite file_insert; cbn; by apply prefix_app_r|by rewrite file_insert_ne].
  - intros w k i w' k' (n & E & ->)%host_receive. apply kept_same; intros f; destruct (recv_untouched _ _ _ _ _ f E) as [H1 H2]; [done|by rewrite H2].
  - intros w k out w' k' (n & E & ->)%host_transmit. apply kept_same; intros f; destruct (sendto_untouched _ _ _ _ _ _ f E) as [H1 H2]; [done|by rewrite H2].
Qed.
