(* ===== verification/ProcessProps.v ===== *)
(** * What the copying programs do

    The programs of [Process] end as they should, whatever arrives from the
    network ([program_outcomes]), and two of them on a network carry what is typed
    into one to the terminal of the other ([terminal_to_terminal]): the copy of
    [StreamCopy] at both ends, the two sockets of [SocketPair] between them, and
    the socket pairs inside of the programs. *)

From S2P Require Import Prelude WrappingIntegers ByteStream StreamReassembler ReassemblerProps Buffer TCPHeader TCPSegment TCPReceiver TCPSender TCPState TCPConnection Transport FdAdapter TCPOverIP FileDescriptor Socket EventLoop Emission AdapterIO ExampleKernel TCPSpongeSocket StreamCopy WireSystem SocketPair CommandLine Process ExampleHost.

Section process.
Context {A Address K In Out : Type} `{!Kernel K} `{!SocketKernel K Address} `{!PollKernel K} `{!Device K In Out}.
Context `{!Wire In} `{!Wire Out} `{!NetKernel K In} `{!NetLaws K Address In Out}.
Context `{!Medium A Address In Out} `{!MediumLaws A Address In Out} `{!AdaptT A Address K} `{!Framed A Address K In Out}.
Context `{!Streams K} `{!KernelLaws K} `{!SocketLaws K Address} `{!AdaptLaws A Address K} `{!PollKernelLaws K}.
Context `{!Pipes K} `{!PipeLaws K Address In Out}.

(** ** Calls on some descriptors *)

(** Nothing has happened to other descriptors. *)
Definition aside (fds : list Z) (k k' : K) : Prop := kept k k' /\ forall f, f ∉ fds -> untouched f k k'.
Definition silent (fds : list Z) (k k' : K) : Prop := forall f, f ∉ fds -> quiet (In := In) f k k'.
Definition within (fds : list Z) (k k' : K) : Prop := aside fds k k' /\ silent fds k k'.

Lemma kept_refl (k : K) : kept k k.
Proof. by split. Qed.
Lemma kept_trans (k1 k2 k3 : K) : kept k1 k2 -> kept k2 k3 -> kept k1 k3.
Proof. intros [A1 B1] [A2 B2]. split; [|by auto]. intros f. by rewrite A2, A1. Qed.

Lemma aside_refl fds (k : K) : aside fds k k.
Proof. split; [apply kept_refl|by split]. Qed.
Lemma aside_trans fds (k1 k2 k3 : K) : aside fds k1 k2 -> aside fds k2 k3 -> aside fds k1 k3.
Proof. intros [A1 B1] [A2 B2]. split; [by eapply kept_trans|]. intros f Hf. eapply untouched_trans; eauto. Qed.

Lemma within_refl fds (k : K) : within fds k k.
Proof. split; [apply aside_refl|by split]. Qed.
Lemma within_trans fds (k1 k2 k3 : K) : within fds k1 k2 -> within fds k2 k3 -> within fds k1 k3.
Proof.
  intros [A1 B1] [A2 B2]. split; [by eapply aside_trans|]. intros f Hf. eapply quiet_trans; eauto.
Qed.
Lemma within_more fds fds' (k k' : K) : (forall f, f ∈ fds -> f ∈ fds') -> within fds k k' -> within fds' k k'.
Proof. intros Hs [[A1 B1] C1]. split; [split; [done|]|]; intros f Hf; [apply B1|apply C1]; auto. Qed.

Lemma within_nil fds (k k' : K) : within [] k k' -> within fds k k'.
Proof. apply within_more. by intros f ?%not_elem_of_nil. Qed.
Lemma within_one f fds (k k' : K) : f ∈ fds -> within [f] k k' -> within fds k k'.
Proof. intros Hf. apply within_more. by intros g ->%list_elem_of_singleton. Qed.

Lemma not_only (f g : Z) : f ∉ [g] -> f <> g.
Proof. intros H ->. apply H, list_elem_of_here. Qed.

Lemma read_within w (k : K) n data w' k' :
  FileDescriptor.read w k n = Ok (data, w', k') -> within [_fd w] k k' /\ _fd w' = _fd w.
Proof.
  unfold FileDescriptor.read. destruct (sys_read _ _ _) as [[[r e] d] k1] eqn:E. destruct (SystemCall _ _ _ _); [|done].
  cbn [mbind result_bind]. destruct (_ <? _); [done|]. intros [= _ <- <-]. split; [|by destruct (_ && _)]. split; [split|].
  - by eapply sys_read_kept.
  - intros f Hf. eapply read_others; [exact E|by apply not_only].
  - intros f Hf. eapply sys_read_net; [exact E|by apply not_only].
Qed.

Lemma write_within w (k : K) bv all n w' k' :
  FileDescriptor.write w k bv all = Ok (n, w', k') -> within [_fd w] k k' /\ _fd w' = _fd w.
Proof.
  unfold FileDescriptor.write. generalize (Datatypes.S (Z.to_nat (bvl_size bv))) 0. intros fuel t. revert w k bv t.
  induction fuel as [|fuel IH]; intros w k bv t; cbn [write_loop]; [done|].
  destruct (sys_writev _ _ _) as [[r e] k1] eqn:E. destruct (SystemCall _ _ _ _) as [m|]; [|done]. cbn [mbind result_bind].
  destruct (_ && _); [done|]. destruct (_ <? m); [done|]. destruct (bvl_remove_prefix _ _) as [b'|]; [|done].
  cbn [mbind result_bind]. intros Hw. assert (H1 : within [_fd w] k k1).
  { split; [split|]; [by eapply sys_writev_kept|..]; intros f Hf;
      [eapply writev_others|eapply sys_writev_net]; try exact E; by apply not_only. }
  destruct (_ && _).
  - destruct (IH _ _ _ _ Hw) as [H2 H3]. split; [|done]. by eapply within_trans.
  - by injection Hw as _ <- <-.
Qed.

Lemma shutdown_within w (k : K) how w' k' :
  shutdown (Address := Address) w k how = Ok (w', k') -> within [] k k' /\ _fd w' = _fd w.
Proof.
  unfold shutdown. destruct (sys_shutdown _ _ _) as [[r e] k1] eqn:E. destruct (SystemCall _ _ _ _); [|done].
  cbn [mbind result_bind]. assert (H1 : within [] k k1).
  { split; [split|]; [by eapply sys_shutdown_kept| |]; intros f _; [|by eapply sys_shutdown_net].
    by apply (shutdown_law _ _ _ _ _ _ E). }
  destruct (_ =? _); [by intros [= <- <-]|]. destruct (_ =? _); [by intros [= <- <-]|]. destruct (_ =? _); [by intros [= <- <-]|done].
Qed.

Lemma sys_close_within (k : K) fd r e k' : sys_close k fd = (r, e, k') -> within [] k k'.
Proof.
  intros E. split; [split|]; [by eapply sys_close_kept| |]; intros f _; [|by eapply sys_close_net].
  by apply (close_law _ _ _ _ _ f E).
Qed.

Lemma close_within w (k : K) w' k' : FileDescriptor.close w k = Ok (w', k') -> within [] k k' /\ _fd w' = _fd w.
Proof.
  unfold FileDescriptor.close. destruct (sys_close _ _) as [[r e] k1] eqn:E. destruct (SystemCall _ _ _ _); [|done].
  intros [= <- <-]. split; [by eapply sys_close_within|done].
Qed.

Lemma destroy_within w (k : K) : within [] k (destroy w k).
Proof.
  unfold destroy. destruct (_closed w); [apply within_refl|]. destruct (sys_close _ _) as [[r e] k1] eqn:E.
  by eapply sys_close_within.
Qed.

Lemma set_blocking_within w (k : K) b k' : set_blocking w k b = Ok k' -> within [] k k'.
Proof.
  unfold set_blocking. destruct (sys_getfl _ _) as [[r e] k1] eqn:E1. destruct (SystemCall _ _ _ _); [|done].
  cbn [mbind result_bind]. destruct (sys_setfl _ _ _) as [[r2 e2] k2] eqn:E2. destruct (SystemCall _ _ _ _); [|done].
  intros [= <-]. apply (within_trans _ _ k1); (split; [split|]).
  - by eapply sys_getfl_kept.
  - intros f _. by apply (getfl_law _ _ _ _ _ f E1).
  - intros f _. by eapply sys_getfl_net.
  - by eapply sys_setfl_kept.
  - intros f _. by apply (setfl_law _ _ _ _ _ _ f E2).
  - intros f _. by eapply sys_setfl_net.
Qed.

Lemma poll_within (k : K) ps t r e ps' k' : kernel_poll k ps t = (r, e, ps', k') -> within [] k k'.
Proof.
  intros E. split; [split|]; [by eapply kernel_poll_kept| |]; intros f _; [by eapply kpoll_streams|by eapply kernel_poll_net].
Qed.

(** ** A round of the TCP thread *)

(** The thread works on its end of the pair and on the adapter's descriptor. *)
Record moved (s s' : t_socket A K) : Prop := {
  moved_owner : owner s' = owner s;
  moved_data : _fd (_thread_data s') = _fd (_thread_data s);
  moved_adapter : _fd (adapter_fd s') = _fd (adapter_fd s);
  moved_kernel : aside [_fd (_thread_data s); _fd (adapter_fd s)] (t_kernel s) (t_kernel s')
}.

Lemma moved_refl s : moved s s.
Proof. split; [done..|apply aside_refl]. Qed.
Lemma moved_trans s1 s2 s3 : moved s1 s2 -> moved s2 s3 -> moved s1 s3.
Proof.
  intros [A1 A2 A3 A4] [B1 B2 B3 B4]. split; try congruence. rewrite A2, A3 in B4. by eapply aside_trans.
Qed.

Lemma within_aside fds fds' (k k' : K) : (forall f, f ∈ fds -> f ∈ fds') -> within fds k k' -> aside fds' k k'.
Proof. intros Hs Hw. by apply (within_more _ _ _ _ Hs). Qed.

Lemma read_moved s w a k :
  at_read (_datagram_adapter s) (adapter_fd s) (t_kernel s) = Ok (w, a.1, a.2, k) -> moved s (set_adapter s a.1 a.2 k).
Proof.
  intros E. pose proof (at_read_law (_datagram_adapter s) (adapter_fd s) (t_kernel s)) as Hl. rewrite E in Hl.
  destruct Hl as (_ & [Hf _] & _ & Hu). rewrite at_read_medium in E.
  destruct (receive _ _) as [[[i w1] k1]|] eqn:Er; [|done]. cbn [mbind result_bind] in E.
  destruct (m_read _ _) as [[o a1]|]; [|done]. injection E as _ _ _ <-. split; try done. split; [by eapply receive_kept|].
  intros f Hf'. apply Hu. intros ->. apply Hf'. apply list_elem_of_further, list_elem_of_here.
Qed.

Lemma send_all_kept segs a fd (k : K) a' fd' k' :
  send_all a fd k segs = Ok (a', fd', k') -> kept k k'.
Proof.
  revert a fd k. induction segs as [|seg segs IH]; intros a fd k; cbn [send_all]; [intros [= _ _ <-]; apply kept_refl|].
  rewrite at_write_medium. destruct (m_write _ _) as [[o a1]|]; [|done]. cbn [mbind result_bind].
  destruct o as [out|]; [|apply IH]. destruct (transmit _ _ _) as [[w1 k1]|] eqn:E; [|done]. cbn [mbind result_bind].
  intros Hs. eapply kept_trans; [by eapply transmit_kept|by eapply IH].
Qed.

Lemma sends_moved S s c a fd k :
  inv S s -> _tcp s = Some c -> send_all (_datagram_adapter s) (adapter_fd s) (t_kernel s) (TCPConnection.segments_out c) = Ok (a, fd, k) ->
  moved s (set_adapter s a fd k).
Proof.
  intros [Hd (c1 & W & b0 & Hc1 & Hg & _)] Hc E. assert (c1 = c) as -> by congruence.
  pose proof (send_all_spec (TCPConnection.segments_out c) (_datagram_adapter s) (adapter_fd s) (t_kernel s) (emits_out _ (good_emits _ _ _ Hg))) as Hs.
  rewrite E in Hs. destruct Hs as [[Hf _] Hu]. split; try done. split; [by eapply send_all_kept|].
  intros f Hf'. apply Hu. intros ->. apply Hf'. apply list_elem_of_further, list_elem_of_here.
Qed.

Lemma data_moved s td k fds :
  (forall f, f ∈ fds -> f ∈ [_fd (_thread_data s)]) ->
  within fds (t_kernel s) k -> _fd td = _fd (_thread_data s) -> moved s (set_thread_data s td k).
Proof.
  intros Hs Hw Hf. split; try done. eapply within_aside; [|exact Hw]. intros f Hin%Hs.
  apply list_elem_of_singleton in Hin as ->. apply list_elem_of_here.
Qed.

(** Changes outside of the kernel. *)
Lemma moved_same s s' s'' :
  moved s s' -> owner s'' = owner s' -> _fd (_thread_data s'') = _fd (_thread_data s') ->
  _fd (adapter_fd s'') = _fd (adapter_fd s') -> t_kernel s'' = t_kernel s' -> moved s s''.
Proof. intros [A1 A2 A3 A4] E1 E2 E3 E4. split; congruence. Qed.

Lemma callback_moved S r s s' :
  r ∈ socket_rules (Address := Address) -> inv S s -> callback r s = Ok s' -> moved s s'.
Proof.
  intros Hr Hi. unfold socket_rules in Hr.
  repeat (apply elem_of_cons in Hr as [-> |Hr]); [..|by apply not_elem_of_nil in Hr]; cbn [callback].
  - unfold datagram_in. destruct (at_read _ _ _) as [[[[seg a] fd] k]|] eqn:E; [|done]. cbn [mbind result_bind].
    pose proof (read_moved s seg (a, fd) k E) as Hm. unfold on_tcp. cbn [_tcp set_adapter]. destruct (_tcp s); [|done].
    destruct (match seg with Some _ => _ | None => _ end); [|done]. intros [= <-]. by apply (moved_same _ _ _ Hm).
  - unfold outbound_in, on_tcp. destruct (_tcp s) as [c|]; [|done].
    destruct (FileDescriptor.read _ _ _) as [[[data td] k]|] eqn:E; [|done]. cbn [mbind result_bind].
    destruct (read_within _ _ _ _ _ _ E) as [Hw Hf]. pose proof (data_moved s td k _ (fun f H => H) Hw Hf) as Hm.
    destruct (TCPConnection.write c data) as [n c']. destruct (negb _); [done|].
    destruct (_eof td); intros [= <-]; by apply (moved_same _ _ _ Hm).
  - unfold inbound_out, on_tcp. destruct (_tcp s) as [c|]; [|done].
    destruct (FileDescriptor.write _ _ _ _) as [[[n td] k]|] eqn:E; [|done]. cbn [mbind result_bind].
    destruct (write_within _ _ _ _ _ _ _ E) as [Hw Hf]. pose proof (data_moved s td k _ (fun f H => H) Hw Hf) as Hm.
    destruct (_ || _); [|intros [= <-]; by apply (moved_same _ _ _ Hm)].
    destruct (shutdown td k SHUT_WR) as [[td2 k2]|] eqn:E2; [|done]. cbn [mbind result_bind]. intros [= <-].
    destruct (shutdown_within _ _ _ _ _ E2) as [Hw2 Hf2].
    assert (Hm2 : moved (set_thread_data s td k) (set_thread_data (set_thread_data s td k) td2 k2)).
    { eapply data_moved; [|exact Hw2|exact Hf2]. by intros f ?%not_elem_of_nil. }
    by apply (moved_same _ _ _ (moved_trans _ _ _ Hm Hm2)).
  - unfold datagram_out, on_tcp. destruct (_tcp s) as [c|] eqn:Hc; [|done].
    destruct (send_all _ _ _ _) as [[[a fd] k]|] eqn:E; [|done]. cbn [mbind result_bind]. intros [= <-].
    pose proof (sends_moved S s c a fd k Hi Hc E) as Hm. by apply (moved_same _ _ _ Hm).
Qed.

Lemma cancel_moved r s s' :
  r ∈ socket_rules (Address := Address) -> cancel r s = Ok s' -> moved s s'.
Proof.
  intros Hr. unfold socket_rules in Hr.
  repeat (apply elem_of_cons in Hr as [-> |Hr]); [..|by apply not_elem_of_nil in Hr]; cbn [cancel];
    try (intros [= <-]; apply moved_refl).
  unfold outbound_in_cancel, on_tcp. destruct (_tcp s); [|done]. intros [= <-]. by apply (moved_same _ _ _ (moved_refl s)).
Qed.

Section rounds.
Context (S : list byte) (HS : zlen S < 2 ^ 62).

Lemma round_rules s0 : Forall (served (fun s => inv S s /\ moved s0 s) need io_error) (socket_rules (Address := Address)).
Proof.
  pose proof (socket_rules_served (Address := Address) S HS) as Hr. rewrite Forall_forall in Hr. apply Forall_forall.
  intros r Hin. apply served_both; [by apply Hr|..]; intros s s' Hi Hm.
  - intros E. eapply moved_trans; [exact Hm|by eapply cancel_moved].
  - intros _ E. eapply moved_trans; [exact Hm|by eapply callback_moved].
Qed.

Lemma round_poll s0 rs : poll_respects (fun s => inv S s /\ moved s0 s) need rs.
Proof.
  intros s ps t r code ps' s' E [Hi Hm].
  destruct (socket_poll_respects S rs s ps t r code ps' s' E Hi) as [Hi' Hn]. split; [|done]. split; [done|].
  revert E. cbn. destruct (kernel_poll _ _ _) as [[[r0 e0] ps0] k0] eqn:E. intros [= _ _ _ <-].
  eapply moved_trans; [exact Hm|]. eapply data_moved; [|by eapply poll_within|done]. by intros f ?%not_elem_of_nil.
Qed.

Lemma round_safe condition base_time abort now rs s :
  sublist rs (socket_rules (Address := Address)) -> inv S s ->
  match tcp_round condition base_time abort now rs s with
  | Throw e => socket_error e
  | Ok (_, _, rs', s') => sublist rs' (socket_rules (Address := Address)) /\ inv S s' /\ moved s s'
  end.
Proof.
  intros Hrs Hs. unfold tcp_round. destruct (negb _); [by split_and!; [..|apply moved_refl]|].
  pose proof (wait_next_event_lem _ need io_error rs TCP_TICK_MS s
    (served_sublist _ _ _ _ _ Hrs (round_rules s))
    (respectful_sublist _ _ _ _ Hrs (respectful_both _ _ _ _ (socket_rules_respectful (Address := Address) S)))
    (round_poll s rs) (conj Hs (moved_refl s))) as Hw.
  destruct (wait_next_event rs TCP_TICK_MS s) as [[[ret rs1] s1]|]; [|done]. cbn [mbind result_bind].
  destruct Hw as [[Hi Hm] Hrs1]. assert (Hrs' : sublist rs1 (socket_rules (Address := Address))) by by etransitivity.
  destruct (_ || _); [done|]. destruct (inv_conn S s1 Hi) as (c & _ & _ & Hc & _). rewrite Hc.
  destruct (active c); [|done]. split; [done|]. split; [by apply tick_all_inv|].
  apply (moved_same _ _ _ Hm); unfold tick_all; by rewrite Hc.
Qed.

End rounds.

(** ** A round of the copy *)

Definition copier_fds (c : copier K) : list Z := [_fd (_input c); _fd (_output c); _fd (socket c)].

Record turned (c c' : copier K) : Prop := {
  turned_fds : copier_fds c' = copier_fds c;
  turned_kernel : within (copier_fds c) (kernel c) (kernel c')
}.

Lemma turned_refl c : turned c c.
Proof. split; [done|apply within_refl]. Qed.
Lemma turned_trans c1 c2 c3 : turned c1 c2 -> turned c2 c3 -> turned c1 c3.
Proof. intros [A1 B1] [A2 B2]. split; [congruence|]. rewrite A1 in B2. by eapply within_trans. Qed.

Lemma fill_within w st (k : K) w' st' k' : fill w st k = Ok (w', st', k') -> within [_fd w] k k' /\ _fd w' = _fd w.
Proof.
  unfold fill. destruct (FileDescriptor.read _ _ _) as [[[d w1] k1]|] eqn:E; [|done]. intros [= <- _ <-]. by eapply read_within.
Qed.
Lemma drain_within w st (k : K) w' st' k' : drain w st k = Ok (w', st', k') -> within [_fd w] k k' /\ _fd w' = _fd w.
Proof.
  unfold drain. destruct (FileDescriptor.write _ _ _ _) as [[[n w1] k1]|] eqn:E; [|done]. intros [= <- _ <-]. by eapply write_within.
Qed.

Lemma rule_turns r c c' : r ∈ copy_rules (K := K) Address -> callback r c = Ok c' -> turned c c'.
Proof.
  intros Hr. unfold copy_rules in Hr. cbn [add_rule app] in Hr.
  repeat (apply elem_of_cons in Hr as [-> |Hr]); [..|by apply not_elem_of_nil in Hr]; cbn [callback].
  - unfold rule1. destruct (fill _ _ _) as [[[w st] k]|] eqn:E; [|done]. intros [= <-].
    destruct (fill_within _ _ _ _ _ _ E) as [Hw Hf]. split; [unfold copier_fds; cbn; by rewrite Hf|].
    eapply within_one; [|exact Hw]. unfold copier_fds; rewrite !elem_of_cons; auto.
  - unfold rule2. destruct (drain _ _ _) as [[[w st] k]|] eqn:E; [|done]. cbn [mbind result_bind].
    destruct (drain_within _ _ _ _ _ _ E) as [Hw Hf].
    assert (Hw' : within (copier_fds c) (kernel c) k) by (eapply within_one; [|exact Hw]; unfold copier_fds; rewrite !elem_of_cons; auto).
    destruct (ByteStream.eof st); [|intros [= <-]; split; [unfold copier_fds; cbn; by rewrite Hf|done]].
    destruct (shutdown w k SHUT_WR) as [[w2 k2]|] eqn:E2; [|done]. intros [= <-].
    destruct (shutdown_within _ _ _ _ _ E2) as [Hw2 Hf2]. split; [unfold copier_fds; cbn; by rewrite Hf2, Hf|].
    eapply within_trans; [exact Hw'|by apply within_nil].
  - unfold rule3. destruct (fill _ _ _) as [[[w st] k]|] eqn:E; [|done]. intros [= <-].
    destruct (fill_within _ _ _ _ _ _ E) as [Hw Hf]. split; [unfold copier_fds; cbn; by rewrite Hf|].
    eapply within_one; [|exact Hw]. unfold copier_fds; rewrite !elem_of_cons; auto.
  - unfold rule4. destruct (drain _ _ _) as [[[w st] k]|] eqn:E; [|done]. cbn [mbind result_bind].
    destruct (drain_within _ _ _ _ _ _ E) as [Hw Hf].
    assert (Hw' : within (copier_fds c) (kernel c) k) by (eapply within_one; [|exact Hw]; unfold copier_fds; rewrite !elem_of_cons; auto).
    destruct (ByteStream.eof st); [|intros [= <-]; split; [unfold copier_fds; cbn; by rewrite Hf|done]].
    destruct (FileDescriptor.close w k) as [[w2 k2]|] eqn:E2; [|done]. intros [= <-].
    destruct (close_within _ _ _ _ E2) as [Hw2 Hf2]. split; [unfold copier_fds; cbn; by rewrite Hf2, Hf|].
    eapply within_trans; [exact Hw'|by apply within_nil].
Qed.

Lemma cancel_turns r c c' : r ∈ copy_rules (K := K) Address -> cancel r c = Ok c' -> turned c c'.
Proof.
  intros Hr. unfold copy_rules in Hr. cbn [add_rule app] in Hr.
  repeat (apply elem_of_cons in Hr as [-> |Hr]); [..|by apply not_elem_of_nil in Hr]; cbn [cancel];
    intros [= <-]; (split; [done|apply within_refl]).
Qed.

Lemma copy_round S T rs c :
  sublist rs (copy_rules Address) -> copies S T c ->
  match copy_loop 1 rs c with
  | Throw e => round_error io_error e
  | Ok (_, rs', c') => sublist rs' (copy_rules Address) /\ copies S T c' /\ turned c c'
  end.
Proof.
  intros Hrs Hc. set (Inv := fun c' => copies S T c' /\ turned c c').
  assert (Hs : Forall (served Inv (fun _ _ => True) io_error) (copy_rules Address)).
  { pose proof (copy_rules_served (Address := Address) S T) as Hr. rewrite Forall_forall in Hr. apply Forall_forall. intros r Hin.
    apply served_both; [by apply Hr|..]; intros c1 c2 _ Ht.
    - intros E. eapply turned_trans; [exact Ht|by eapply cancel_turns].
    - intros _ E. eapply turned_trans; [exact Ht|by eapply rule_turns]. }
  assert (Hp : poll_respects Inv (fun _ _ => True) rs).
  { intros c1 ps t r code ps' c2 E [H1 H2]. destruct (copier_poll_respects S T rs c1 ps t r code ps' c2 E H1) as [H3 H4].
    split; [|done]. split; [done|]. revert E. cbn. destruct (kernel_poll _ _ _) as [[[r0 e0] ps0] k0] eqn:E. intros [= _ _ _ <-].
    eapply turned_trans; [exact H2|]. split; [done|]. eapply within_nil, poll_within, E. }
  pose proof (wait_next_event_lem Inv (fun _ _ => True) io_error rs (-1) c (served_sublist _ _ _ _ _ Hrs Hs)
    (respectful_sublist _ _ _ _ Hrs (respectful_both _ _ _ _ (copy_rules_respectful (Address := Address) S T))) Hp (conj Hc (turned_refl c))) as Hw.
  cbn [copy_loop]. destruct (wait_next_event rs (-1) c) as [[[ret rs1] c1]|]; [|done]. cbn [mbind result_bind].
  destruct Hw as [[H1 H2] H3]. assert (sublist rs1 (copy_rules Address)) by by etransitivity. by destruct ret.
Qed.

(** ** What the owner's thread does to the socket *)

(** Outside of the opening phase it works on its descriptor and on those of the
    terminal. *)
Definition beside (fds : list Z) (s s' : t_socket A K) : Prop :=
  exists w k, s' = set_owner s w k /\ _fd w = _fd (owner s) /\ within fds (t_kernel s) k.

Lemma beside_refl fds s : beside fds s s.
Proof. exists (owner s), (t_kernel s). split; [by destruct s|]. split; [done|apply within_refl]. Qed.
Lemma beside_trans fds s1 s2 s3 : beside fds s1 s2 -> beside fds s2 s3 -> beside fds s1 s3.
Proof.
  intros (w1 & k1 & -> & F1 & H1) (w2 & k2 & -> & F2 & H2). exists w2, k2. split; [done|].
  cbn in F2, H2. split; [congruence|by eapply within_trans].
Qed.
Lemma beside_nil fds s s' : beside [] s s' -> beside fds s s'.
Proof. intros (w & k & -> & F & H). exists w, k. split; [done|]. split; [done|by apply within_nil]. Qed.
Lemma beside_kernel s k : within [] (t_kernel s) k -> beside [] s (set_owner s (owner s) k).
Proof. intros Hk. by exists (owner s), k. Qed.

Lemma leave_main_beside (p : process A K) st o : beside [] (tcp_socket p) (tcp_socket (leave_main p st o)).
Proof.
  apply beside_kernel. eapply within_trans; [apply destroy_within|].
  eapply within_trans; [apply destroy_within|apply destroy_within].
Qed.

Lemma unwind_beside (p : process A K) e : beside [] (tcp_socket p) (tcp_socket (unwind p e)).
Proof. unfold unwind. destruct (joinable _); [apply beside_refl|apply leave_main_beside]. Qed.

Lemma left_copy_beside (p : process A K) rs i o : beside [] (tcp_socket p) (tcp_socket (left_copy p rs i o)).
Proof.
  apply beside_kernel. unfold leave_copy. destruct (has_rule _ _).
  - eapply within_trans; apply destroy_within.
  - eapply within_trans; apply destroy_within.
Qed.

Lemma wait_until_closed_beside (p : process A K) : beside [] (tcp_socket p) (tcp_socket (wait_until_closed (Address := Address) p)).
Proof.
  unfold wait_until_closed. destruct (shutdown _ _ _) as [[w k]|] eqn:E; [|apply unwind_beside].
  destruct (shutdown_within _ _ _ _ _ E) as [Hw Hf].
  assert (H1 : beside [] (tcp_socket p) (set_owner (tcp_socket p) w k)) by by exists w, k.
  destruct (joinable _); [done|]. eapply beside_trans; [exact H1|]. apply (leave_main_beside (with_socket p _)).
Qed.

(** The copy starts with empty streams. *)
Lemma copy_starts w (k : K) :
  match bidirectional_stream_copy Address w k 0 with
  | Throw e => round_error io_error e
  | Ok (_, rs, c) => rs = copy_rules Address /\ socket c = w /\ _fd (_input c) = STDIN_FILENO /\ _fd (_output c) = STDOUT_FILENO /\
      _outbound c = new_ByteStream StreamCopy.buffer_size /\ _inbound c = new_ByteStream StreamCopy.buffer_size /\ within [] k (kernel c)
  end.
Proof.
  unfold bidirectional_stream_copy. cbn [new_FDWrapper STDIN_FILENO STDOUT_FILENO Z.ltb Z.compare mbind result_bind].
  assert (Hb : forall w (k : K), match set_blocking w k false with Throw e => round_error io_error e | Ok k' => within [] k k' end).
  { intros w1 k1. destruct (set_blocking w1 k1 false) as [k2|] eqn:E; [by eapply set_blocking_within|].
    destruct (set_blocking_spec w1 k1 false) as [[c Ec]|(k2 & Ec & _)]; [|congruence]. rewrite Ec in E. injection E as <-. left. left. eauto. }
  pose proof (Hb w k) as H1. destruct (set_blocking w k false) as [k1|]; [|done]. cbn [mbind result_bind].
  match goal with |- context [set_blocking ?x k1 false] => pose proof (Hb x k1) as H2; destruct (set_blocking x k1 false) as [k2|] end;
    [|done]. cbn [mbind result_bind].
  match goal with |- context [set_blocking ?x k2 false] => pose proof (Hb x k2) as H3; destruct (set_blocking x k2 false) as [k3|] end;
    [|done]. cbn [mbind result_bind copy_loop]. split_and!; try done.
  cbn. eapply within_trans; [exact H1|by eapply within_trans].
Qed.

Lemma copied_beside fds (p : process A K) c :
  _fd (socket c) = _fd (owner (tcp_socket p)) -> within fds (t_kernel (tcp_socket p)) (kernel c) ->
  beside fds (tcp_socket p) (tcp_socket (copied p c)).
Proof. intros Hf Hw. by exists (socket c), (kernel c). Qed.

Lemma enter_copy_beside (p : process A K) : beside [] (tcp_socket p) (tcp_socket (enter_copy (Address := Address) p)).
Proof.
  unfold enter_copy. pose proof (copy_starts (owner (tcp_socket p)) (t_kernel (tcp_socket p))) as Hs.
  destruct (bidirectional_stream_copy _ _ _ _) as [[[fin rs] c]|].
  - destruct Hs as (_ & Hw & _ & _ & _ & _ & Hk). apply copied_beside; [by rewrite Hw|done].
  - eapply beside_trans; [apply left_copy_beside|apply unwind_beside].
Qed.

(** ** The program goes on *)

(** The descriptors of the program are different ones. *)
Definition apart (s : t_socket A K) : Prop :=
  NoDup [STDIN_FILENO; STDOUT_FILENO; _fd (owner s); _fd (_thread_data s); _fd (adapter_fd s)].
Definition owner_fds (s : t_socket A K) : list Z := [STDIN_FILENO; STDOUT_FILENO; _fd (owner s)].

Lemma apart_data s : apart s -> _fd (_thread_data s) ∉ owner_fds s.
Proof. unfold apart, owner_fds. rewrite !NoDup_cons, !not_elem_of_cons. intuition congruence. Qed.
Lemma apart_adapter s : apart s -> _fd (adapter_fd s) ∉ owner_fds s.
Proof. unfold apart, owner_fds. rewrite !NoDup_cons, !not_elem_of_cons. intuition congruence. Qed.
Lemma apart_owner s f : apart s -> f ∈ owner_fds s -> f ∉ [_fd (_thread_data s); _fd (adapter_fd s)].
Proof.
  unfold apart. change [_; _; _; _; _] with (owner_fds s ++ [_fd (_thread_data s); _fd (adapter_fd s)]).
  intros (_ & Hd & _)%NoDup_app Hf. by apply Hd.
Qed.

Lemma apart_data_adapter s : apart s -> _fd (_thread_data s) <> _fd (adapter_fd s).
Proof. unfold apart. rewrite !NoDup_cons, !not_elem_of_cons. intuition congruence. Qed.

Lemma beside_apart fds s s' : beside fds s s' -> apart s -> apart s'.
Proof. intros (w & k & -> & Hf & _). unfold apart. cbn. by rewrite Hf. Qed.
Lemma moved_apart s s' : moved s s' -> apart s -> apart s'.
Proof. intros [E1 E2 E3 _]. unfold apart. by rewrite E1, E2, E3. Qed.

Lemma inv_beside S s s' : apart s -> beside (owner_fds s) s s' -> inv S s -> inv S s'.
Proof.
  intros Ha (w & k & -> & _ & [[_ Hu] _]) [Hd (c & W & b & Hc & Hg & Ho & HW)].
  destruct (Hu _ (apart_data s Ha)) as [Hi _]. split; [done|]. exists c, W, b. split_and!; try done.
  unfold thread_input in *. cbn. by rewrite Hi.
Qed.

Lemma shutdown_error w (k : K) e : shutdown (Address := Address) w k SHUT_RDWR = Throw e -> socket_error e.
Proof.
  intros E. destruct (shutdown_safe (Address := Address) w k SHUT_RDWR) as [[code E2]|(w2 & k2 & E2)];
    [unfold SHUT_RDWR; lia| |congruence]. rewrite E2 in E. injection E as <-. left. left. eauto.
Qed.

Section soundness.
Context (S : list byte) (HS : zlen S < 2 ^ 62).

(** The socket and its thread. *)
Record core (p : process A K) : Prop := {
  core_apart : apart (tcp_socket p);
  core_tcp : _tcp (tcp_socket p) <> None ->
    inv S (tcp_socket p) /\ sublist (_eventloop p) (socket_rules (Address := Address));
  core_thread : match _tcp_thread p with
    | NotStarted => True
    | Started | Running _ => _tcp (tcp_socket p) <> None
    | Returned | Joined => _tcp (tcp_socket p) = None
    end
}.

(** The owner's thread. *)
(** [main] returns [EXIT_SUCCESS] with its thread joined, and [EXIT_FAILURE] when
    it has caught an exception. *)
Definition exit_sound (p : process A K) (st : Z) (caught : option exn) : Prop :=
  match caught with
  | None => st = EXIT_SUCCESS /\ _tcp_thread p = Joined
  | Some e => st = EXIT_FAILURE /\ socket_error e
  end.

Definition owner_sound (p : process A K) : Prop :=
  match owner_at p with
  | Opening _ _ => _tcp_thread p = NotStarted /\ _tcp (tcp_socket p) <> None
  | Copying rs c => joinable (_tcp_thread p) = true /\ sublist rs (copy_rules Address) /\
      _fd (_input c) = STDIN_FILENO /\ _fd (_output c) = STDOUT_FILENO /\
      ByteStream.wf (_outbound c) /\ ByteStream.wf (_inbound c)
  | Joining => joinable (_tcp_thread p) = true
  | Unwinding e => joinable (_tcp_thread p) = true /\ _abort p = true /\ socket_error e
  | Exited st o => joinable (_tcp_thread p) = false /\ exit_sound p st o
  | Terminated e => socket_error e
  end.

Definition sound (p : process A K) : Prop := core p /\ owner_sound p.

Lemma core_beside (p p' : process A K) :
  core p -> beside (owner_fds (tcp_socket p)) (tcp_socket p) (tcp_socket p') ->
  _eventloop p' = _eventloop p -> _tcp_thread p' = _tcp_thread p -> core p'.
Proof.
  intros [H1 H2 H3] Hb E1 E2. assert (Et : _tcp (tcp_socket p') = _tcp (tcp_socket p)) by by destruct Hb as (w & k & -> & _).
  split; rewrite ?Et, ?E1, ?E2; [by eapply beside_apart|intros Hc; destruct (H2 Hc)|done].
  split; [by eapply inv_beside|done].
Qed.

Lemma leave_main_sound p st o :
  core p -> joinable (_tcp_thread p) = false -> exit_sound p st o -> sound (leave_main p st o).
Proof. intros Hc Hj Hs. split; [|done]. eapply core_beside; [exact Hc|apply beside_nil, leave_main_beside|done|done]. Qed.

Lemma unwind_sound p e : core p -> socket_error e -> sound (unwind p e).
Proof.
  intros Hc He. unfold unwind. destruct (joinable (_tcp_thread p)) eqn:Ej; [|by apply leave_main_sound].
  split; [|done]. by destruct Hc; split.
Qed.

Lemma left_copy_core p rs i o : core p -> core (left_copy p rs i o).
Proof. intros Hc. eapply core_beside; [exact Hc|apply beside_nil, left_copy_beside|done|done]. Qed.

Lemma enter_copy_sound p : core p -> joinable (_tcp_thread p) = true -> sound (enter_copy (Address := Address) p).
Proof.
  intros Hc Hj. pose proof (enter_copy_beside p) as Hb. revert Hb. unfold enter_copy.
  pose proof (copy_starts (owner (tcp_socket p)) (t_kernel (tcp_socket p))) as Hs.
  destruct (bidirectional_stream_copy _ _ _ _) as [[[fin rs] c]|].
  - destruct Hs as (-> & _ & Hi & Ho & E1 & E2 & _). intros Hb. split.
    + eapply core_beside; [exact Hc|apply beside_nil, Hb|done|done].
    + split_and!; try done; [rewrite E1|rewrite E2]; by apply bs_wf_new.
  - intros _. apply unwind_sound; [by apply left_copy_core|done].
Qed.

Lemma wait_until_closed_sound p : core p -> joinable (_tcp_thread p) = true -> sound (wait_until_closed (Address := Address) p).
Proof.
  intros Hc Hj. pose proof (wait_until_closed_beside p) as Hb. revert Hb. unfold wait_until_closed.
  destruct (shutdown _ _ _) as [[w k]|e] eqn:E.
  - cbn [_tcp_thread with_socket]. rewrite Hj. intros Hb. split; [|done].
    eapply core_beside; [exact Hc|apply beside_nil, Hb|done|done].
  - intros _. apply unwind_sound; [done|by eapply shutdown_error].
Qed.

(** What the copy needs of its variables. *)
Lemma copier_ready p rs c :
  core p -> owner_at p = Copying rs c -> owner_sound p ->
  sublist rs (copy_rules Address) /\ copier_fds (copier_of (tcp_socket p) c) = owner_fds (tcp_socket p) /\
  copies (outbound_bytes (copier_of (tcp_socket p) c)) (inbound_bytes (copier_of (tcp_socket p) c)) (copier_of (tcp_socket p) c).
Proof.
  intros Hc Ep. unfold owner_sound. rewrite Ep. intros (_ & Hrs & Hi & Ho & W1 & W2). split; [done|].
  assert (Hf : copier_fds (copier_of (tcp_socket p) c) = owner_fds (tcp_socket p)) by (unfold copier_fds, owner_fds; cbn; by rewrite Hi, Ho).
  split; [done|]. constructor; cbn; try done. rewrite Hi, Ho. destruct Hc as [Ha _ _]. revert Ha.
  unfold apart. rewrite !NoDup_cons, !not_elem_of_cons. by intuition.
Qed.

(** A round of the copy, for the whole program. *)
Lemma copied_core p rs c c' :
  core p -> owner_at p = Copying rs c -> owner_sound p -> turned (copier_of (tcp_socket p) c) c' ->
  core (copied p c') /\ beside (owner_fds (tcp_socket p)) (tcp_socket p) (tcp_socket (copied p c')) /\
  _fd (_input c') = STDIN_FILENO /\ _fd (_output c') = STDOUT_FILENO.
Proof.
  intros Hc Ep Hs [T1 T2]. destruct (copier_ready p rs c Hc Ep Hs) as (_ & Hf & _). rewrite Hf in T1, T2.
  injection T1 as E1 E2 E3. assert (Hb : beside (owner_fds (tcp_socket p)) (tcp_socket p) (tcp_socket (copied p c')))
    by by apply copied_beside.
  split_and!; try done. by apply (core_beside p).
Qed.

Lemma round_core p condition base_time now fin t rs s :
  core p -> _tcp (tcp_socket p) <> None ->
  tcp_round condition base_time (_abort p) now (_eventloop p) (tcp_socket p) = Ok (fin, t, rs, s) ->
  apart s /\ inv S s /\ sublist rs (socket_rules (Address := Address)) /\ moved (tcp_socket p) s.
Proof.
  intros [Ha Ht _] Hn E. destruct (Ht Hn) as [Hi Hrs].
  pose proof (round_safe S HS condition base_time (_abort p) now _ _ Hrs Hi) as Hr. rewrite E in Hr.
  destruct Hr as (H1 & H2 & H3). split_and!; try done. by eapply moved_apart.
Qed.

Lemma inv_tcp (s : t_socket A K) : inv S s -> _tcp s <> None.
Proof. intros [_ (c & _ & _ & -> & _)]. done. Qed.

Lemma owner_moves_sound now p : sound p -> sound (owner_moves (Address := Address) now p).
Proof.
  intros [Hc Hs]. unfold owner_moves. destruct (owner_at p) as [li bt|rs c| |e|st o|e] eqn:Ep.
  - unfold owner_sound in Hs. rewrite Ep in Hs. destruct Hs as [Et Hn].
    destruct (tcp_round _ _ _ _ _ _) as [[[[[] t] rs] s]|e] eqn:E.
    + destruct (round_core _ _ _ _ _ _ _ _ Hc Hn E) as (R1 & R2 & R3 & _).
      apply enter_copy_sound; [|done]. split; [done|done|by apply inv_tcp].
    + destruct (round_core _ _ _ _ _ _ _ _ Hc Hn E) as (R1 & R2 & R3 & _).
      split; [split; [done|done|cbn; by rewrite Et]|]. split; [done|by apply inv_tcp].
    + apply unwind_sound; [done|]. destruct (core_tcp p Hc Hn) as [Hi Hrs].
      pose proof (round_safe S HS (opening li) bt (_abort p) now _ _ Hrs Hi) as Hr. by rewrite E in Hr.
  - assert (Hj : joinable (_tcp_thread p) = true) by (unfold owner_sound in Hs; rewrite Ep in Hs; by apply Hs).
    destruct (copier_ready p rs c Hc Ep Hs) as (Hrs & _ & Hcp). pose proof (copy_round _ _ _ _ Hrs Hcp) as Hr.
    destruct (copy_loop 1 rs _) as [[[[] rs'] c']|e]; [| |by apply unwind_sound; [apply left_copy_core|]].
    + destruct Hr as (R1 & R2 & R3). destruct (copied_core p rs c c' Hc Ep Hs R3) as (H1 & _).
      apply wait_until_closed_sound; [by apply left_copy_core|done].
    + destruct Hr as (R1 & R2 & R3). destruct (copied_core p rs c c' Hc Ep Hs R3) as ([H1 H2 H3] & _ & H5 & H6).
      split; [done|]. split_and!; try done; apply R2.
  - unfold owner_sound in Hs. rewrite Ep in Hs. destruct (_tcp_thread p) eqn:Et; try (by split; [done|unfold owner_sound; rewrite Ep, Et]).
    apply leave_main_sound; [|done|done]. destruct Hc as [H1 H2 H3]. rewrite Et in H3. by split.
  - unfold owner_sound in Hs. rewrite Ep in Hs. destruct (_tcp_thread p) eqn:Et; try (by split; [done|unfold owner_sound; rewrite Ep, Et]).
    apply leave_main_sound; [|done|by split; [|apply Hs]]. destruct Hc as [H1 H2 H3]. rewrite Et in H3. by split.
  - by split.
  - by split.
Qed.

(** The owner's thread does not look at the other one, but for joining it. *)
Lemma owner_sound_thread p t s rs :
  joinable (_tcp_thread p) = true -> joinable t = true -> owner_sound p -> owner_sound (with_thread (with_loop p s rs) t).
Proof.
  intros Hp Ht. unfold owner_sound. cbn. destruct (owner_at p); try (by intuition).
  - intros [Et _]. by rewrite Et in Hp.
  - intros [Et _]. by rewrite Et in Hp.
Qed.

Lemma thread_round_sound now p : sound p -> sound (thread_round (Address := Address) now p).
Proof.
  intros [Hc Hs]. unfold thread_round. pose proof (core_thread p Hc) as Hn.
  assert (Hterm : forall e, socket_error e -> sound (go p (Terminated e))) by (intros e He; split; [by destruct Hc|done]).
  destruct (_tcp_thread p) as [| |bt| |] eqn:Et; try done.
  - destruct (_tcp (tcp_socket p)) eqn:Ec; [|done]. split.
    + destruct Hc as [H1 H2 H3]. split; [done|done|]. cbn. by rewrite Ec.
    + pose proof (owner_sound_thread p (Running now) (tcp_socket p) (_eventloop p)) as Ho. rewrite Et in Ho.
      destruct p. by apply Ho.
  - destruct (core_tcp p Hc Hn) as [Hi Hrs]. pose proof (round_safe S HS (fun _ => true) bt (_abort p) now _ _ Hrs Hi) as Hr.
    destruct (tcp_round _ _ _ _ _ _) as [[[[[] t] rs] s]|e] eqn:E; [..|by apply Hterm];
      destruct (round_core _ _ _ _ _ _ _ _ Hc Hn E) as (R1 & R2 & R3 & _).
    + destruct (shutdown (owner s) _ _) as [[w k]|e] eqn:Es; [|by eapply Hterm, shutdown_error].
      destruct (shutdown_within _ _ _ _ _ Es) as [_ Hf]. split; [|apply owner_sound_thread; by rewrite ?Et].
      split; [|done|done]. unfold apart in *. cbn. by rewrite Hf.
    + split; [|apply owner_sound_thread; by rewrite ?Et]. split; [done|done|by apply inv_tcp].
Qed.

Lemma thread_moves_sound now p : sound p -> sound (thread_moves (Address := Address) now p).
Proof. intros Hs. unfold thread_moves. destruct (owner_at p); try done; by apply thread_round_sound. Qed.

(** ** Runs of the program *)

(** The threads move, and the world outside does: what arrives from the network
    changes, but nothing that is typed, printed or in the socket pair. *)
Inductive run_step : process A K -> process A K -> Prop :=
| run_owner now p : run_step p (owner_moves (Address := Address) now p)
| run_thread now p : run_step p (thread_moves (Address := Address) now p)
| run_world k p : aside [] (t_kernel (tcp_socket p)) k ->
    run_step p (with_socket p (set_owner (tcp_socket p) (owner (tcp_socket p)) k)).

Lemma run_step_sound p p' : run_step p p' -> sound p -> sound p'.
Proof.
  intros [now p1|now p1|k p1 [_ Hk]] Hs; [by apply owner_moves_sound|by apply thread_moves_sound|].
  destruct Hs as [[H1 H2 H3] Hs]. split; [|done]. split; [done| |done]. intros Hn. destruct (H2 Hn) as [Hi Hrs]. split; [|done].
  destruct Hi as [Hd (c & W & b & Hc & Hg & Ho & HW)]. split; [done|]. exists c, W, b. split_and!; try done.
  destruct (Hk (_fd (_thread_data (tcp_socket p1)))) as [Hi _]; [apply not_elem_of_nil|]. unfold thread_input in *. cbn. by rewrite Hi.
Qed.

Lemma run_sound p p' : rtc run_step p p' -> sound p -> sound p'.
Proof. induction 1 as [|p1 p2 p3 Hs _ IH]; [done|]. intros Hp. by apply IH, (run_step_sound p1). Qed.

End soundness.

(** A socket that has just been made. *)
Definition new_socket (s : t_socket A K) : Prop :=
  apart s /\ _tcp s = None /\ zlen (thread_input s) < 2 ^ 62.

Lemma start_main_opens (s : t_socket A K) cfg (ad : FdAdapterConfig Address) (listens : bool) rnd now :
  _tcp s = None ->
  exists s1, (if listens then listen_and_accept else connect) s [] cfg ad rnd now [] = Ok (false, socket_rules (Address := Address), s1) /\
    start_main s cfg ad listens rnd now =
      {| tcp_socket := s1; _eventloop := socket_rules (Address := Address); _abort := false; _tcp_thread := NotStarted;
         owner_at := Opening listens now |} /\
    owner s1 = owner s /\ _thread_data s1 = _thread_data s /\ adapter_fd s1 = adapter_fd s /\ t_kernel s1 = t_kernel s /\
    _datagram_adapter s1 = (let a := at_set_config (_datagram_adapter s) ad in if listens then at_set_listening a true else a) /\
    _tcp s1 = Some (if listens then new_TCPConnection cfg rnd else TCPConnection.connect (new_TCPConnection cfg rnd)).
Proof.
  intros Hn. unfold start_main. destruct listens; unfold listen_and_accept, connect; rewrite Hn; cbn [_initialize_TCP].
  - eexists. by split_and!.
  - cbn [_tcp set_adapter set_tcp]. rewrite connect_new. cbn [neqb_TCPState]. eexists. by split_and!.
Qed.

Lemma start_main_sound (s : t_socket A K) cfg (ad : FdAdapterConfig Address) (listens : bool) rnd now :
  new_socket s -> cfg_ok cfg -> sound (thread_input s) (start_main s cfg ad listens rnd now).
Proof.
  intros (Ha & Hn & HS) Hcfg. destruct (start_main_opens s cfg ad listens rnd now Hn) as (s1 & _ & -> & E1 & E2 & E3 & E4 & _ & E6).
  split; [split|]; cbn.
  - unfold apart in *. by rewrite E1, E2, E3.
  - intros _. split; [|done].
    assert (Hg : good [] false (if listens then new_TCPConnection cfg rnd else TCPConnection.connect (new_TCPConnection cfg rnd))).
    { destruct listens; [by apply good_new|by apply (good_connect [] false), good_new]. }
    eapply fresh_inv; [|by unfold thread_input; rewrite E2, E4|exact Hg|exact E6]. rewrite E2, E3.
    apply apart_data_adapter, Ha.
  - done.
  - split; [done|]. cbn. by rewrite E6.
Qed.

(** ** Where the bytes are *)

(** What has been read and what is to come from the standard input, from the
    owner's end of the pair and from the other end. *)
Definition account (T0 To S : list byte) (s : t_socket A K) : Prop :=
  let k := t_kernel s in
  joined k (_fd (owner s)) (_fd (_thread_data s)) /\
  taken k STDIN_FILENO ++ input k STDIN_FILENO = T0 /\
  taken k (_fd (owner s)) ++ input k (_fd (owner s)) = To /\
  taken k (_fd (_thread_data s)) ++ input k (_fd (_thread_data s)) = S.

(** The owner writes what it has read. *)
Definition relayed (s : t_socket A K) : Prop :=
  let k := t_kernel s in
  written k (_fd (owner s)) `prefix_of` taken k STDIN_FILENO /\ written k STDOUT_FILENO `prefix_of` taken k (_fd (owner s)).

Definition relay (T0 To S : list byte) (s : t_socket A K) (q : point K) : Prop :=
  account T0 To S s /\
  match q with
  | Opening _ _ => written (t_kernel s) (_fd (owner s)) = taken (t_kernel s) STDIN_FILENO /\
      written (t_kernel s) STDOUT_FILENO = taken (t_kernel s) (_fd (owner s))
  | Copying _ c => copies T0 To (copier_of s c) /\ _fd (_input c) = STDIN_FILENO /\ _fd (_output c) = STDOUT_FILENO
  | _ => relayed s
  end.

(** The owner's descriptors are left alone. *)
Record calm (s s' : t_socket A K) : Prop := {
  calm_owner : _fd (owner s') = _fd (owner s);
  calm_data : _fd (_thread_data s') = _fd (_thread_data s);
  calm_kept : kept (t_kernel s) (t_kernel s');
  calm_fds : forall f, f ∈ owner_fds s -> untouched f (t_kernel s) (t_kernel s')
}.

Lemma beside_calm s s' : beside [] s s' -> calm s s'.
Proof. intros (w & k & -> & Hf & [[H1 H2] _]). split; try done. intros f _. apply H2, not_elem_of_nil. Qed.

Lemma moved_calm s s' : apart s -> moved s s' -> calm s s'.
Proof. intros Ha [E1 E2 _ [H1 H2]]. split; try congruence. intros f Hf. by apply H2, apart_owner. Qed.

Lemma calm_trans s1 s2 s3 : calm s1 s2 -> calm s2 s3 -> calm s1 s3.
Proof.
  intros [A1 A2 A3 A4] [B1 B2 B3 B4]. split; try congruence; [by eapply kept_trans|]. intros f Hf.
  eapply untouched_trans; [by apply A4|]. apply B4. unfold owner_fds in *. by rewrite A1.
Qed.

Lemma account_kept T0 To S s s' :
  _fd (owner s') = _fd (owner s) -> _fd (_thread_data s') = _fd (_thread_data s) -> kept (t_kernel s) (t_kernel s') ->
  account T0 To S s -> account T0 To S s'.
Proof. intros E1 E2 [Hk Hj] (H1 & H2 & H3 & H4). unfold account. rewrite E1, E2, !Hk. auto. Qed.

Lemma taken_same f (k k' : K) : kept k k' -> untouched f k k' -> taken k' f = taken k f.
Proof. intros [Hk _] [Hi _]. specialize (Hk f). rewrite Hi in Hk. by apply app_inv_tail in Hk. Qed.

Lemma owner_fds_in s : STDIN_FILENO ∈ owner_fds s /\ STDOUT_FILENO ∈ owner_fds s /\ _fd (owner s) ∈ owner_fds s.
Proof. unfold owner_fds. rewrite !elem_of_cons. split_and!; auto. Qed.

Lemma relay_calm T0 To S s s' q : calm s s' -> relay T0 To S s q -> relay T0 To S s' q.
Proof.
  intros [C1 C2 C3 C4] [Ha Hq]. split; [by eapply account_kept|]. destruct (owner_fds_in s) as (I0 & I1 & Io).
  destruct (C4 _ I0) as [U1 _], (C4 _ I1) as [_ U2], (C4 _ Io) as [U3 U4].
  pose proof (taken_same _ _ _ C3 (C4 _ I0)) as T1. pose proof (taken_same _ _ _ C3 (C4 _ Io)) as T2.
  destruct q as [li bt|rs c| |e|st|e]; unfold relayed in *; rewrite ?C1, ?U2, ?U4, ?T1, ?T2; try done.
  destruct Hq as (Hq & Hi & Ho). split; [|done]. destruct Hq as [D Hwo Hwi H1 H2]. cbn in D.
  constructor; cbn; rewrite ?C1; try done.
  - rewrite <- H1. unfold outbound_bytes. cbn. by rewrite C1, U4, Hi, U1.
  - rewrite <- H2. unfold inbound_bytes. cbn. by rewrite C1, Ho, U2, U3.
Qed.

(** In every phase what is written was read. *)
Lemma relay_relayed T0 To S s q : relay T0 To S s q -> relayed s.
Proof.
  intros [(_ & H0 & Ho & _) Hq]. destruct q as [li bt|rs c| |e|st|e]; try done.
  - destruct Hq as [E1 E2]. split; [by rewrite E1|by rewrite E2].
  - destruct Hq as ([_ _ _ H1 H2] & Hi & Hout). unfold outbound_bytes, inbound_bytes in *. cbn in H1, H2. rewrite Hi, Hout in *.
    rewrite <- H0, app_assoc in H1. rewrite <- Ho, app_assoc in H2. apply app_inv_tail in H1. apply app_inv_tail in H2.
    split; [rewrite <- H1|rewrite <- H2]; by apply prefix_app_r.
Qed.

(** The last phases. *)
Definition over (q : point K) : Prop := match q with Opening _ _ | Copying _ _ => False | _ => True end.

Lemma relay_over T0 To S s q q' : over q' -> relay T0 To S s q -> relay T0 To S s q'.
Proof. intros Ho Hr. pose proof (relay_relayed _ _ _ _ _ Hr). destruct Hr as [Ha _]. by destruct q'. Qed.

Lemma unwind_over (p : process A K) e : over (owner_at (unwind p e)).
Proof. unfold unwind. by destruct (joinable _). Qed.
Lemma wait_over (p : process A K) : over (owner_at (wait_until_closed (Address := Address) p)).
Proof.
  unfold wait_until_closed. destruct (shutdown _ _ _) as [[w k]|e]; [|apply unwind_over]. by destruct (joinable _).
Qed.

Lemma relay_ends T0 To S (p p' : process A K) q :
  relay T0 To S (tcp_socket p) q -> beside [] (tcp_socket p) (tcp_socket p') -> over (owner_at p') ->
  relay T0 To S (tcp_socket p') (owner_at p').
Proof. intros Hr Hb Ho. eapply relay_over; [exact Ho|]. eapply relay_calm; [by apply beside_calm|exact Hr]. Qed.

Section relay.
Context (T0 To S : list byte) (HS : zlen S < 2 ^ 62).
Abbreviation relays p := (relay T0 To S (tcp_socket p) (owner_at p)).

Lemma enter_copy_relays (p : process A K) li bt :
  core S p -> relay T0 To S (tcp_socket p) (Opening li bt) -> relays (enter_copy (Address := Address) p).
Proof.
  intros Hc Hr. pose proof (enter_copy_beside p) as Hb. revert Hb. unfold enter_copy.
  pose proof (copy_starts (owner (tcp_socket p)) (t_kernel (tcp_socket p))) as Hs.
  destruct (bidirectional_stream_copy _ _ _ _) as [[[fin rs] c]|e]; intros Hb; [|by eapply relay_ends; [exact Hr|exact Hb|apply unwind_over]].
  destruct Hs as (_ & Hw & Hi & Ho & E1 & E2 & _). pose proof (relay_calm _ _ _ _ _ _ (beside_calm _ _ Hb) Hr) as [Ha [W1 W2]].
  split; [done|]. cbn [owner_at go]. split; [|done]. destruct Ha as (_ & H0 & H1 & _). cbn in H0, H1, W1, W2.
  assert (Ha : apart (tcp_socket p)) by apply Hc. unfold apart in Ha. rewrite !NoDup_cons, !not_elem_of_cons in Ha.
  rewrite <- W1, Hw in H0. rewrite <- W2, Hw in H1. constructor; cbn; rewrite ?Hi, ?Ho, ?Hw, ?E1, ?E2.
  - intuition.
  - by apply bs_wf_new.
  - by apply bs_wf_new.
  - unfold outbound_bytes. cbn. by rewrite Hi, E1.
  - unfold inbound_bytes. cbn. by rewrite Ho, E2.
Qed.

(** A round of the copy keeps account of its bytes. *)
Lemma copied_relays p rs c rs' c' fin :
  core S p -> owner_at p = Copying rs c -> owner_sound p -> relays p ->
  copy_loop 1 rs (copier_of (tcp_socket p) c) = Ok (fin, rs', c') -> relay T0 To S (tcp_socket (copied p c')) (Copying rs' c').
Proof.
  intros Hc Ep Hs [Ha Hq] E. rewrite Ep in Hq. destruct Hq as (Hq & _).
  destruct (copier_ready S p rs c Hc Ep Hs) as (Hrs & _). pose proof (copy_round _ _ _ _ Hrs Hq) as Hr. rewrite E in Hr.
  destruct Hr as (R1 & R2 & R3). destruct (copied_core S p rs c c' Hc Ep Hs R3) as (_ & (w & k & Eb & Hf & [[Hk _] _]) & H5 & H6).
  split.
  - rewrite Eb. by eapply account_kept; [| | |exact Ha].
  - split; [|done]. by destruct R2.
Qed.

Lemma owner_moves_relays now p : sound S p -> relays p -> relays (owner_moves (Address := Address) now p).
Proof.
  intros [Hc Hs] Hr. unfold owner_moves. destruct (owner_at p) as [li bt|rs c| |e|st o|e] eqn:Ep.
  - unfold owner_sound in Hs. rewrite Ep in Hs. destruct Hs as [Et Hn].
    destruct (tcp_round _ _ _ _ _ _) as [[[[[] t] rs] s]|e] eqn:E;
      [..|eapply relay_ends; [exact Hr|apply unwind_beside|apply unwind_over]];
      destruct (round_core S HS _ _ _ _ _ _ _ _ Hc Hn E) as (R1 & R2 & R3 & R4);
      pose proof (relay_calm _ _ _ _ _ _ (moved_calm _ _ (core_apart _ _ Hc) R4) Hr) as Hr'; [|exact Hr'].
    eapply enter_copy_relays; [|exact Hr']. split; [done|done|by apply (inv_tcp S)].
  - destruct (copy_loop 1 rs _) as [[[fin rs'] c']|e] eqn:E.
    + assert (Hr' : relay T0 To S (tcp_socket (copied p c')) (Copying rs' c')).
      { eapply copied_relays; [done|exact Ep|done|by rewrite Ep|exact E]. }
      destruct fin; [|exact Hr'].
      eapply (relay_ends _ _ _ (copied p c')); [exact Hr'| |apply wait_over].
      eapply beside_trans; [apply left_copy_beside|apply wait_until_closed_beside].
    + eapply relay_ends; [exact Hr| |apply unwind_over]. eapply beside_trans; [apply left_copy_beside|apply unwind_beside].
  - destruct (_tcp_thread p); try (by rewrite Ep). eapply relay_ends; [exact Hr|apply (leave_main_beside (with_thread p Joined))|done].
  - destruct (_tcp_thread p); try (by rewrite Ep). eapply relay_ends; [exact Hr|apply (leave_main_beside (with_thread p Joined))|done].
  - by rewrite Ep.
  - by rewrite Ep.
Qed.

Lemma thread_round_relays now p : core S p -> relays p -> relays (thread_round (Address := Address) now p).
Proof.
  intros Hc Hr. unfold thread_round. pose proof (core_thread _ p Hc) as Hn.
  assert (Hterm : forall e, relays (go p (Terminated e))) by (intros e; by eapply relay_over).
  destruct (_tcp_thread p) as [| |bt| |] eqn:Et; try done.
  - by destruct (_tcp (tcp_socket p)).
  - destruct (tcp_round _ _ _ _ _ _) as [[[[[] t] rs] s]|e] eqn:E; [..|by apply Hterm];
      destruct (round_core S HS _ _ _ _ _ _ _ _ Hc Hn E) as (R1 & R2 & R3 & R4);
      pose proof (relay_calm _ _ _ _ _ _ (moved_calm _ _ (core_apart _ _ Hc) R4) Hr) as Hr'; [|exact Hr'].
    destruct (shutdown (owner s) _ _) as [[w k]|e] eqn:Es; [|by apply Hterm].
    destruct (shutdown_within _ _ _ _ _ Es) as [[[Hk Hu] _] Hf]. eapply relay_calm; [|exact Hr'].
    split; try done. intros f _. apply Hu, not_elem_of_nil.
Qed.

Lemma run_step_relays p p' : run_step p p' -> sound S p -> relays p -> relays p'.
Proof.
  intros [now p1|now p1|k p1 [Hk Hu]] Hs Hr; [by apply owner_moves_relays| |].
  - unfold thread_moves. destruct (owner_at p1) eqn:Ep; try (by rewrite Ep); rewrite <- Ep in Hr; apply thread_round_relays; by destruct Hs.
  - eapply relay_calm; [|exact Hr]. split; try done. intros f _. apply Hu, not_elem_of_nil.
Qed.
End relay.

(** ** A program on the network *)

Abbreviation t_pair p := (tcp_socket p, _eventloop p).

(** The threads move, or the network brings datagrams: those of the peer, again
    or for the first time, and those of others. *)
Inductive net_step (peer : Address) (peer_posted : list (list byte)) : process A K -> process A K -> Prop :=
| net_owner now p : net_step peer peer_posted p (owner_moves (Address := Address) now p)
| net_thread now p : net_step peer peer_posted p (thread_moves (Address := Address) now p)
| net_arrival k p :
    (forall d, d ∈ arrivals k (_fd (adapter_fd (tcp_socket p))) -> d ∈ socket_arrivals (tcp_socket p) \/
      (exists bs, bs ∈ peer_posted /\ d = frame peer bs) \/ noise peer (_datagram_adapter (tcp_socket p)) d = true) ->
    posted (In := In) k (_fd (adapter_fd (tcp_socket p))) = socket_posted (tcp_socket p) ->
    aside [] (t_kernel (tcp_socket p)) k ->
    net_step peer peer_posted p (with_socket p (set_owner (tcp_socket p) (owner (tcp_socket p)) k)).

Lemma net_run peer peer_posted p p' : net_step peer peer_posted p p' -> run_step p p'.
Proof. intros [now p1|now p1|k p1 _ _ Hk]; by constructor. Qed.

Section side.
Context (calls : bool) (self peer : Address) (S : list byte) (HS : zlen S + 2 < 2 ^ 32).
Context (b : bool) (y : endpoint) (yours : list TCPSegment).
Abbreviation t_party := (party calls self peer S).
Abbreviation leads := (continues b y yours).

(** The owner's thread leaves the socket to its thread. *)
Lemma party_beside mine s s' rs e :
  apart s -> beside (owner_fds s) s s' -> t_party mine yours (s, rs) e -> t_party mine yours (s', rs) e.
Proof.
  intros Ha Hb [Hh Hi]. cbn [fst snd] in *. assert (Hi' : _tcp s' <> None -> inv S s' /\ sublist rs (socket_rules (Address := Address))).
  { intros Hn. assert (Hn' : _tcp s <> None) by (by destruct Hb as (w & k & -> & _)). destruct (Hi Hn'). split; [|done].
    by eapply inv_beside. }
  split; [|done]. destruct Hb as (w & k & -> & Hf & [[_ Hu] Hq]). cbn [fst snd].
  destruct (Hu _ (apart_data s Ha)) as [U1 U2]. destruct (Hq _ (apart_adapter s Ha)) as [Q1 Q2].
  eapply host_same; [exact Hh|apply Hh|exact U1|exact U2|done|exact Q1|exact Q2].
Qed.

Lemma move_party mine e (p p' : process A K) :
  core S p -> t_party mine yours (t_pair p) e -> beside (owner_fds (tcp_socket p)) (tcp_socket p) (tcp_socket p') ->
  _eventloop p' = _eventloop p -> exists e' mine', leads e mine e' mine' /\ t_party mine' yours (t_pair p') e'.
Proof.
  intros Hc Hp Hb He. exists e, mine. split; [apply continues_refl|]. rewrite He. eapply party_beside; [apply Hc|exact Hb|exact Hp].
Qed.

(** A round of the loop, in the opening phase and in the thread. *)
Lemma round_party mine e (p : process A K) condition base_time now fin t rs s :
  core S p -> t_party mine yours (t_pair p) e -> _tcp (tcp_socket p) <> None ->
  tcp_round condition base_time (_abort p) now (_eventloop p) (tcp_socket p) = Ok (fin, t, rs, s) ->
  exists e' mine', leads e mine e' mine' /\ t_party mine' yours (s, rs) e'.
Proof.
  intros Hc Hp Hn E. eapply (host_step_party calls self peer S HS b y yours []);
    [|exact Hp|by intros bs ?%not_elem_of_nil].
  eapply (host_round _ _ condition base_time (_abort p) now _ _ fin); [exact Hn|].
  rewrite tcp_loop_rounds, E. by destruct fin.
Qed.

Lemma leads_then mine e e1 m1 (q : t_socket A K * t_rules A K) :
  leads e mine e1 m1 -> (exists e' mine', leads e1 m1 e' mine' /\ t_party mine' yours q e') ->
  exists e' mine', leads e mine e' mine' /\ t_party mine' yours q e'.
Proof. intros Hl (e2 & m2 & Hl2 & Hp). exists e2, m2. split; [by eapply continues_trans|done]. Qed.

Lemma owner_moves_party now mine e p :
  sound S p -> t_party mine yours (t_pair p) e ->
  exists e' mine', leads e mine e' mine' /\ t_party mine' yours (t_pair (owner_moves (Address := Address) now p)) e'.
Proof.
  intros [Hc Hs] Hp. unfold owner_moves. assert (HS62 : zlen S < 2 ^ 62) by lia.
  assert (Hun : forall e1, exists e' mine', leads e mine e' mine' /\ t_party mine' yours (t_pair (unwind p e1)) e').
  { intros e1. eapply move_party; [done|done|apply beside_nil, unwind_beside|]. unfold unwind. by destruct (joinable _). }
  destruct (owner_at p) as [li bt|rs c| |e1|st|e1] eqn:Ep.
  - unfold owner_sound in Hs. rewrite Ep in Hs. destruct Hs as [Et Hn].
    destruct (tcp_round _ _ _ _ _ _) as [[[[fin t] rs] s]|e1] eqn:E; [|apply Hun].
    destruct (round_core S HS62 _ _ _ _ _ _ _ _ Hc Hn E) as (R1 & R2 & R3 & R4).
    destruct (round_party mine e p _ _ _ _ _ _ _ Hc Hp Hn E) as (e2 & m2 & Hl & Hp2). destruct fin; [|by exists e2, m2].
    eapply leads_then; [exact Hl|]. apply (move_party _ _ (with_thread (with_loop p s rs) Started));
      [split; [done|done|by apply (inv_tcp S)]|done|apply beside_nil, enter_copy_beside|].
    unfold enter_copy. destruct (bidirectional_stream_copy _ _ _ _) as [[[f1 r1] c1]|]; [done|]. unfold unwind. by destruct (joinable _).
  - destruct (copier_ready S p rs c Hc Ep Hs) as (Hrs & _ & Hcp). pose proof (copy_round _ _ _ _ Hrs Hcp) as Hr.
    destruct (copy_loop 1 rs _) as [[[fin rs'] c']|e1].
    + destruct Hr as (R1 & R2 & R3). destruct (copied_core S p rs c c' Hc Ep Hs R3) as (_ & Hb & _).
      destruct fin; [|by eapply (move_party _ _ p (go (copied p c') _))]. apply (move_party _ _ p); [done|done| |].
      * eapply beside_trans; [exact Hb|]. apply beside_nil. eapply beside_trans; [apply left_copy_beside|apply wait_until_closed_beside].
      * unfold wait_until_closed, unwind. by repeat case_match.
    + apply (move_party _ _ p); [done|done| |unfold unwind; by destruct (joinable _)].
      apply beside_nil. eapply beside_trans; [apply left_copy_beside|apply unwind_beside].
  - destruct (_tcp_thread p); try (by exists e, mine; split; [apply continues_refl|]).
    apply (move_party _ _ p); [done|done|apply beside_nil, (leave_main_beside (with_thread p Joined))|done].
  - destruct (_tcp_thread p); try (by exists e, mine; split; [apply continues_refl|]).
    apply (move_party _ _ p); [done|done|apply beside_nil, (leave_main_beside (with_thread p Joined))|done].
  - by exists e, mine; split; [apply continues_refl|].
  - by exists e, mine; split; [apply continues_refl|].
Qed.

Lemma thread_round_party now mine e p :
  core S p -> t_party mine yours (t_pair p) e ->
  exists e' mine', leads e mine e' mine' /\ t_party mine' yours (t_pair (thread_round (Address := Address) now p)) e'.
Proof.
  intros Hc Hp. unfold thread_round. pose proof (core_thread _ p Hc) as Hn.
  assert (Hstay : exists e' mine', leads e mine e' mine' /\ t_party mine' yours (t_pair p) e').
  { exists e, mine. split; [apply continues_refl|done]. }
  destruct (_tcp_thread p) as [| |bt| |] eqn:Et; try done; [by destruct (_tcp (tcp_socket p))|].
  destruct (tcp_round _ _ _ _ _ _) as [[[[[] t] rs] s]|e1] eqn:E; [| |done].
  - destruct (shutdown (owner s) _ _) as [[w k]|e1] eqn:Es; [|done]. destruct (_tcp (tcp_socket p)) as [c|] eqn:Ec; [|done].
    eapply (host_step_party calls self peer S HS b y yours []); [|exact Hp|by intros bs ?%not_elem_of_nil].
    apply (host_main _ _ bt (_abort p) now _ _ true). by rewrite (main_rounds _ _ _ _ _ _ c Ec), E; cbn [mbind result_bind]; rewrite Es.
  - by eapply round_party.
Qed.

Lemma net_step_party peer_posted mine e p p' :
  net_step peer peer_posted p p' -> sound S p -> t_party mine yours (t_pair p) e ->
  (forall bs, bs ∈ peer_posted -> written_for (A := A) peer (placed (negb calls) peer) yours (frame peer bs)) ->
  exists e' mine', leads e mine e' mine' /\ t_party mine' yours (t_pair p') e'.
Proof.
  intros [now p1|now p1|k p1 Ha Hpo [_ Hu]] Hs Hp Hw; [by apply owner_moves_party| |].
  - assert (Hstay : exists e' mine', leads e mine e' mine' /\ t_party mine' yours (t_pair p1) e').
    { exists e, mine. split; [apply continues_refl|done]. }
    unfold thread_moves. destruct (owner_at p1); try done; apply thread_round_party; by destruct Hs.
  - exact (host_step_party calls self peer S HS b y yours peer_posted _ _ mine e
      (host_network peer _ _ _ k Ha Hpo (Hu _ (not_elem_of_nil _))) Hp Hw).
Qed.

End side.

(** ** Two programs *)

Record programs := {
  client : process A K;
  server : process A K
}.

(** The client is at [xc], the server at [xs]. *)
Inductive programs_step (xc xs : Address) : programs -> programs -> Prop :=
| client_step P p :
    net_step xs (socket_posted (tcp_socket (server P))) (client P) p -> programs_step xc xs P {| client := p; server := server P |}
| server_step P p :
    net_step xc (socket_posted (tcp_socket (client P))) (server P) p -> programs_step xc xs P {| client := client P; server := p |}.

Record program_ok (calls : bool) (self peer : Address) (T0 To S : list byte) (mine yours : list TCPSegment)
    (p : process A K) (e : endpoint) : Prop := {
  ok_party : party calls self peer S mine yours (t_pair p) e;
  ok_sound : sound S p;
  ok_relay : relay T0 To S (tcp_socket p) (owner_at p)
}.

Lemma net_step_ok calls self peer T0 To S b y mine yours p p' e peer_posted :
  zlen S + 2 < 2 ^ 32 -> net_step peer peer_posted p p' -> program_ok calls self peer T0 To S mine yours p e ->
  (forall bs, bs ∈ peer_posted -> written_for (A := A) peer (placed (negb calls) peer) yours (frame peer bs)) ->
  exists e' mine', continues b y yours e mine e' mine' /\ program_ok calls self peer T0 To S mine' yours p' e'.
Proof.
  intros HS Hst [Hp Hs Hr] Hw. assert (HS62 : zlen S < 2 ^ 62) by lia. pose proof (net_run _ _ _ _ Hst) as Hrun.
  destruct (net_step_party calls self peer S HS b y yours peer_posted mine e p p' Hst Hs Hp Hw) as (e' & m' & Hl & Hp').
  exists e', m'. split; [done|]. constructor; [done|by eapply run_step_sound|by eapply run_step_relays].
Qed.

Definition programs_ok (xc xs : Address) (TC SC TS SS : list byte) (toc tos : list byte) (s0 : system) (P : programs) : Prop :=
  exists ec es mc ms, rtc system_step s0 (sys true ec es mc ms) /\
    program_ok true xc xs TC toc SC mc ms (client P) ec /\ program_ok false xs xc TS tos SS ms mc (server P) es.

Lemma programs_run_ok xc xs TC SC TS SS toc tos s0 P P' :
  zlen SC + 2 < 2 ^ 32 -> zlen SS + 2 < 2 ^ 32 -> rtc (programs_step xc xs) P P' ->
  programs_ok xc xs TC SC TS SS toc tos s0 P -> programs_ok xc xs TC SC TS SS toc tos s0 P'.
Proof.
  intros HC HS. induction 1 as [|P1 P2 P3 Hst _ IH]; [done|]. intros (ec & es & mc & ms & Hr & Pc & Ps). apply IH.
  destruct Hst as [P p Hst|P p Hst].
  - destruct (net_step_ok true xc xs _ _ SC true es mc ms _ _ ec _ HC Hst Pc) as (e' & m' & [Hl Hm] & Hp).
    { apply (h_posted _ _ _ _ _ _ _ _ (party_host _ _ _ _ _ _ _ _ (ok_party _ _ _ _ _ _ _ _ _ _ Ps))). }
    exists e', es, m', ms. split; [by etrans|]. split; [done|]. destruct Ps. constructor; try done. by eapply party_more.
  - destruct (net_step_ok false xs xc _ _ SS false ec ms mc _ _ es _ HS Hst Ps) as (e' & m' & [Hl Hm] & Hp).
    { apply (h_posted _ _ _ _ _ _ _ _ (party_host _ _ _ _ _ _ _ _ (ok_party _ _ _ _ _ _ _ _ _ _ Pc))). }
    exists ec, e', mc, m'. split; [by etrans|]. split; [|done]. destruct Pc. constructor; try done. by eapply party_more.
Qed.

(** What a program has printed and what was typed into it so far. *)
Definition printed (p : process A K) : list byte := written (t_kernel (tcp_socket p)) STDOUT_FILENO.
Definition typed (p : process A K) : list byte := taken (t_kernel (tcp_socket p)) STDIN_FILENO.

Lemma prints_typed calls calls' x x' T0 To S T0' To' S' m y m' y' p q e f net :
  program_ok calls x x' T0 To S m y p e -> program_ok calls' x' x T0' To' S' m' y' q f -> side_inv e f net ->
  printed p `prefix_of` typed q.
Proof.
  intros [[Hp _] _ Rp] [[Hq _] _ Rq] Hs. destruct (host_gets _ _ _ _ _ _ _ _ _ _ Hp Hs) as [Hg _].
  destruct (relay_relayed _ _ _ _ _ Rp) as [_ R1]. destruct (relay_relayed _ _ _ _ _ Rq) as [R2 _].
  destruct Rp as [(J1 & _) _]. destruct Rq as [(J2 & _ & _ & A2) _].
  destruct (pipe_law (In := In) (Out := Out) (Address := Address) _ _ _ J1) as [_ L1].
  destruct (pipe_law (In := In) (Out := Out) (Address := Address) _ _ _ J2) as [L2 _].
  pose proof (h_in _ _ _ _ _ _ _ _ Hq) as Hin. rewrite <- A2 in Hin. apply app_inv_tail in Hin. cbn [fst] in *.
  etrans; [exact R1|]. etrans; [exact L1|]. etrans; [exact Hg|]. rewrite Hin. by etrans.
Qed.

(** A program before it opens its socket: nothing was typed, printed, sent or
    received yet. *)
Definition fresh_program (s : t_socket A K) : Prop :=
  apart s /\ _tcp s = None /\ unused s /\ joined (t_kernel s) (_fd (owner s)) (_fd (_thread_data s)) /\
  taken (t_kernel s) STDIN_FILENO = [] /\ taken (t_kernel s) (_fd (owner s)) = [] /\ taken (t_kernel s) (_fd (_thread_data s)) = [] /\
  written (t_kernel s) (_fd (owner s)) = [] /\ written (t_kernel s) STDOUT_FILENO = [].

Lemma start_main_ok calls self peer s cfg ad listens rnd now :
  let p := start_main s cfg ad listens rnd now in
  fresh_program s -> cfg_ok cfg -> knows (base (_datagram_adapter (tcp_socket p))) peer ->
  (calls = true -> listening (base (_datagram_adapter (tcp_socket p))) = false /\ located (base (_datagram_adapter (tcp_socket p))) self) ->
  exists e, (local_step [] (new_endpoint cfg rnd) e [] \/ e = new_endpoint cfg rnd) /\
    program_ok calls self peer (input (t_kernel s) STDIN_FILENO) (input (t_kernel s) (_fd (owner s))) (thread_input s) [] [] p e.
Proof.
  intros p (F1 & F2 & F3 & F4 & F5 & F6 & F7 & F8 & F9) Hcfg Hk Hc.
  destruct (start_main_opens s cfg ad listens rnd now F2) as (s1 & Eo & Ep & E1 & E2 & E3 & E4 & _). fold p in Ep.
  destruct (opened_party calls self peer s cfg ad rnd listens (t_pair p)) as (e & He & Hparty); [|done|done|done|done|].
  { exists now, false. by rewrite Ep. }
  exists e. split; [done|]. constructor; [done| |].
  - apply start_main_sound; [|done]. destruct F3 as (_ & Hl & _). split; [done|]. split; [done|lia].
  - rewrite Ep. cbn. unfold relay, account. rewrite E1, E2, E4, F5, F6, F7, F8, F9. done.
Qed.

(** Two programs that talk to each other. *)
Lemma terminal_lemma xc xs (sc ss : t_socket A K) cfgC cfgS (adC adS : FdAdapterConfig Address) listens rndC rndS tc ts P :
  let p0 := start_main sc cfgC adC false rndC tc in
  let q0 := start_main ss cfgS adS listens rndS ts in
  cfg_ok cfgC -> cfg_ok cfgS -> fresh_program sc -> fresh_program ss ->
  introduced xc xs (_datagram_adapter (tcp_socket p0)) (_datagram_adapter (tcp_socket q0)) ->
  rtc (programs_step xc xs) {| client := p0; server := q0 |} P ->
  printed (server P) `prefix_of` typed (client P) /\ printed (client P) `prefix_of` typed (server P).
Proof.
  intros p0 q0 HC HS FC FS (I1 & I2 & I3 & I4) Hr.
  destruct (start_main_ok true xc xs sc cfgC adC false rndC tc FC HC I3 (fun _ => conj I1 I2)) as (ec & Hec & Pc).
  destruct (start_main_ok false xs xc ss cfgS adS listens rndS ts FS HS I4 ltac:(done)) as (es & Hes & Ps).
  assert (Hl : forall s : t_socket A K, fresh_program s -> zlen (thread_input s) + 2 < 2 ^ 32) by (intros s Hs; apply Hs).
  assert (Hp : programs_ok xc xs (input (t_kernel sc) STDIN_FILENO) (thread_input sc) (input (t_kernel ss) STDIN_FILENO) (thread_input ss)
    (input (t_kernel sc) (_fd (owner sc))) (input (t_kernel ss) (_fd (owner ss))) (start cfgC cfgS rndC rndS) {| client := p0; server := q0 |}).
  { exists ec, es, [], []. split; [|done]. etrans; [|etrans; [|reflexivity]].
    - instantiate (1 := sys true ec (new_endpoint cfgS rndS) [] []).
      destruct Hec as [Hc| ->]; [|done]. exact (rtc_once _ _ (sys_step true _ _ [] [] _ _ Hc)).
    - destruct Hes as [Hc| ->]; [|done]. exact (rtc_once _ _ (sys_step false _ _ [] [] _ _ Hc)). }
  apply (programs_run_ok _ _ _ _ _ _ _ _ _ _ _ (Hl _ FC) (Hl _ FS) Hr) in Hp.
  destruct Hp as (ec' & es' & mc & ms & Hrun & Pc' & Ps'). destruct (reachable_inv _ _ _ _ _ HC HS Hrun) as [SL SR].
  split; by eapply prints_typed.
Qed.

(** How a program may have ended, or how it will once an exception has reached
    the destructor of its socket. *)
Definition ends_well (p : process A K) : Prop :=
  match owner_at p with
  | Exited st o => exit_sound p st o
  | Unwinding e =>
      socket_error e /\ forall bt t, _tcp_thread p = Running bt ->
        match owner_at (owner_moves (Address := Address) t (thread_moves (Address := Address) t p)) with
        | Exited st o => st = EXIT_FAILURE /\ o = Some e
        | Terminated e' => socket_error e'
        | _ => False
        end
  | Terminated e => socket_error e
  | _ => True
  end.

Lemma outcome_lemma (s : t_socket A K) cfg (ad : FdAdapterConfig Address) listens rnd now p :
  new_socket s -> cfg_ok cfg -> rtc run_step (start_main s cfg ad listens rnd now) p -> ends_well p.
Proof.
  intros Hn Hcfg Hr. unfold ends_well. destruct Hn as (Ha & Ht & HS). assert (Hsound : sound (thread_input s) p).
  { eapply run_sound; [exact HS|exact Hr|]. by apply start_main_sound. }
  pose proof Hsound as [Hc Ho]. unfold owner_sound in Ho. destruct (owner_at p) as [| | |e|st o|e] eqn:Ep; try done; [|by destruct Ho].
  destruct Ho as (_ & Hab & He). split; [done|]. intros bt t Et.
  pose proof (thread_moves_sound _ HS t p Hsound) as [_ Ht2]. revert Ht2. unfold thread_moves, thread_round. rewrite Ep, Et.
  destruct (tcp_round _ _ _ _ _ _) as [[[[fin b] rs] s1]|e1] eqn:E; [|done].
  assert (fin = true) as ->.
  { revert E. unfold tcp_round. cbn [negb]. rewrite Hab. destruct (wait_next_event _ _ _) as [[[ret rs1] s2]|]; [|done].
    cbn [mbind result_bind]. rewrite orb_true_r. by intros [= <- _ _ _]. }
  destruct (shutdown (owner s1) _ _) as [[w k]|e1]; [|done]. intros _. unfold owner_moves. cbn. by rewrite Ep.
Qed.

Lemma fresh_new s : fresh_program s -> new_socket s.
Proof. intros (Ha & Ht & (_ & Hl & _) & _). split; [done|]. split; [done|lia]. Qed.

(** Each of two programs runs as it would alone. *)
Lemma programs_run xc xs P P' :
  rtc (programs_step xc xs) P P' -> rtc run_step (client P) (client P') /\ rtc run_step (server P) (server P').
Proof.
  induction 1 as [|P1 P2 P3 Hs _ [IH1 IH2]]; [done|].
  destruct Hs as [P p Hn%net_run|P p Hn%net_run]; cbn [client server] in *.
  - split; [by eapply rtc_l|done].
  - split; [done|by eapply rtc_l].
Qed.

End process.
Arguments programs : clear implicits.

(** ** Properties *)

(** C4: From terminal to terminal. Two programs open their sockets towards each
    other and copy. Whatever their threads have done so far, in any order, and
    whatever the network has lost, repeated, reordered or added, what one has
    printed is the beginning of what was typed into the other. *)
Theorem terminal_to_terminal {A Address K In Out : Type} `{!Kernel K} `{!SocketKernel K Address} `{!PollKernel K}
    `{!Device K In Out} `{!Wire In} `{!Wire Out} `{!NetKernel K In} `{!NetLaws K Address In Out}
    `{!Medium A Address In Out} `{!MediumLaws A Address In Out} `{!AdaptT A Address K} `{!Framed A Address K In Out}
    `{!Streams K} `{!KernelLaws K} `{!SocketLaws K Address} `{!AdaptLaws A Address K} `{!PollKernelLaws K}
    `{!Pipes K} `{!PipeLaws K Address In Out}
    xc xs (sc ss : t_socket A K) cfgC cfgS (adC adS : FdAdapterConfig Address) listens rndC rndS tc ts P :
  let p0 := start_main sc cfgC adC false rndC tc in
  let q0 := start_main ss cfgS adS listens rndS ts in
  cfg_ok cfgC -> cfg_ok cfgS -> fresh_program sc -> fresh_program ss ->
  introduced xc xs (_datagram_adapter (tcp_socket p0)) (_datagram_adapter (tcp_socket q0)) ->
  rtc (programs_step xc xs) {| client := p0; server := q0 |} P ->
  printed (server P) `prefix_of` typed (client P) /\ printed (client P) `prefix_of` typed (server P).
Proof. apply terminal_lemma. Qed.

(** C5: How a program ends. With any network, a program that has made its
    socket goes on without an exception of its own making, while it opens the
    connection, copies or waits for the end: [main] returns [EXIT_SUCCESS] only
    when it has caught nothing and has joined the thread, and [EXIT_FAILURE] only
    when it has caught a [socket_error] (a system call has failed, a datagram was
    larger than the buffer, [writev] took nothing, or [poll] reports an error on a
    descriptor); and only such an error leaves the function of the other thread.
    When an exception has reached the destructor of the socket, the other thread
    ends after its next round, and [main] then reports that exception and returns
    [EXIT_FAILURE]. *)
Theorem program_outcomes {A Address K In Out : Type} `{!Kernel K} `{!SocketKernel K Address} `{!PollKernel K}
    `{!Device K In Out} `{!Wire In} `{!Wire Out} `{!NetKernel K In} `{!NetLaws K Address In Out}
    `{!Medium A Address In Out} `{!MediumLaws A Address In Out} `{!AdaptT A Address K} `{!Framed A Address K In Out}
    `{!Streams K} `{!KernelLaws K} `{!SocketLaws K Address} `{!AdaptLaws A Address K} `{!PollKernelLaws K}
    `{!Pipes K} `{!PipeLaws K Address In Out}
    (s : t_socket A K) cfg (ad : FdAdapterConfig Address) listens rnd now p :
  new_socket s -> cfg_ok cfg -> rtc run_step (start_main s cfg ad listens rnd now) p ->
  match owner_at p with
  | Exited st o => exit_sound p st o
  | Unwinding e =>
      socket_error e /\ forall bt t, _tcp_thread p = Running bt ->
        match owner_at (owner_moves (Address := Address) t (thread_moves (Address := Address) t p)) with
        | Exited st o => st = EXIT_FAILURE /\ o = Some e
        | Terminated e' => socket_error e'
        | _ => False
        end
  | Terminated e => socket_error e
  | _ => True
  end.
Proof. apply outcome_lemma. Qed.

(** ** An example *)

#[local] Hint Extern 0 (AdaptT (FdAdapterBase (Z * Z)) (Z * Z) host) =>
  exact (plain_adapt (In := received_datagram (Z * Z))) : typeclass_instances.

Abbreviation example_process := (process (FdAdapterBase (Z * Z)) host).

(** A program into which [text] will be typed, and whose socket will bring
    [reply]. *)
Definition terminal (text reply : list byte) : t_socket (FdAdapterBase (Z * Z)) host :=
  {| owner := fresh_fd 5; _thread_data := fresh_fd 3; _datagram_adapter := new_FdAdapterBase; adapter_fd := fresh_fd 4;
     _tcp := None; TCPSpongeSocket._inbound_shutdown := false; TCPSpongeSocket._outbound_shutdown := false; _fully_acked := false;
     TCPSpongeSocket.kernel :=
       {| net := {| files := <[0 := (text, [])]> (<[3 := (text, [])]> (<[5 := (reply, [])]> ∅)); mailbox := []; arriving := ∅ |};
          consumed := ∅; ends := (5, 3); top := 6 |} |}.

(** A step of one of the threads, or the arrival of a datagram of the peer. *)
Inductive turn := Main (now : Z) | Thread (now : Z) | Brings (i : nat).

(** A kernel to which a datagram can be brought. *)
Class Carrier (K In : Type) `{Streams K} `{Pipes K} `{NetKernel K In} := {
  bring : K -> Z -> In -> K;
  bring_arrivals : forall k fd d x, x ∈ arrivals (bring k fd d) fd -> x ∈ arrivals k fd \/ x = d;
  bring_posted : forall k fd d, posted (In := In) (bring k fd d) fd = posted k fd;
  bring_aside : forall k fd d, aside [] k (bring k fd d)
}.

#[export] Program Instance host_carrier : Carrier host (received_datagram (Z * Z)) := {
  bring := fun k fd d => on_net k
    {| files := files (net k); mailbox := mailbox (net k); arriving := <[fd := queue (net k) fd ++ [d]]> (arriving (net k)) |}
}.
Next Obligation.
  intros k fd d x. cbn. unfold queue at 1. cbn. rewrite lookup_insert_eq. cbn.
  intros [?|Hd]%elem_of_app; [by left|right; by apply list_elem_of_singleton].
Qed.
Next Obligation. done. Qed.
Next Obligation. intros k fd d. split; [by apply kept_same|by split]. Qed.

Section play.
Context {A K In Out : Type} `{!Kernel K} `{!SocketKernel K (Z * Z)} `{!PollKernel K} `{!Device K In Out} `{!Wire In} `{!Wire Out} `{!Streams K} `{!Pipes K}.
Context `{!NetKernel K In} `{!Carrier K In} `{!AdaptT A (Z * Z) K} `{!Medium A (Z * Z) In Out} `{!Framed A (Z * Z) K In Out}.
Abbreviation program := (process A K).

Definition arrived (p : program) (d : In) : program :=
  let s := tcp_socket p in with_socket p (set_owner s (owner s) (bring (t_kernel s) (_fd (adapter_fd s)) d)).

Definition play (peer : Z * Z) (peer_posted : list (list byte)) (p : program) (t : turn) : program :=
  match t with
  | Main now => owner_moves (Address := Z * Z) now p
  | Thread now => thread_moves (Address := Z * Z) now p
  | Brings i => match peer_posted !! i with Some bs => arrived p (frame peer bs) | None => p end
  end.

(** [true] is the client. *)
Definition play_on (xc xs : Z * Z) (P : programs A K) (a : bool * turn) : programs A K :=
  if a.1 then {| client := play xs (socket_posted (tcp_socket (server P))) (client P) a.2; server := server P |}
  else {| client := client P; server := play xc (socket_posted (tcp_socket (client P))) (server P) a.2 |}.

Lemma play_step peer peer_posted p t :
  net_step (In := In) peer peer_posted p (play peer peer_posted p t) \/ play peer peer_posted p t = p.
Proof.
  destruct t as [now|now|i]; [left; apply net_owner|left; apply net_thread|]. cbn [play].
  destruct (peer_posted !! i) as [bs|] eqn:E; [left|by right]. apply net_arrival; [|apply bring_posted|apply bring_aside].
  intros d [?| ->]%bring_arrivals; [by left|]. right. left. exists bs. split; [by eapply list_elem_of_lookup_2|done].
Qed.

Lemma play_on_reach xc xs turns P : rtc (programs_step (In := In) xc xs) P (fold_left (play_on xc xs) turns P).
Proof.
  revert P. induction turns as [|[c a] turns IH]; intros P; [constructor|]. cbn [fold_left].
  assert (Hs : rtc (programs_step (In := In) xc xs) P (play_on xc xs P (c, a))); [|by etrans].
  unfold play_on. cbn [fst snd]. destruct c.
  - destruct (play_step xs (socket_posted (tcp_socket (server P))) (client P) a) as [H|H]; [by apply rtc_once, client_step|].
    rewrite H. by destruct P.
  - destruct (play_step xc (socket_posted (tcp_socket (client P))) (server P) a) as [H|H]; [by apply rtc_once, server_step|].
    rewrite H. by destruct P.
Qed.

Lemma play_reach peer peer_posted turns p : rtc (run_step (Address := Z * Z)) p (fold_left (play peer peer_posted) turns p).
Proof.
  revert p. induction turns as [|t turns IH]; intros p; [constructor|]. cbn [fold_left]. etrans; [|apply IH].
  destruct (play_step peer peer_posted p t) as [H|H]; [by eapply rtc_once, net_run|by rewrite H].
Qed.
End play.

Definition client_config : FdAdapterConfig (Z * Z) :=
  {| source := (5, 1234); destination := (7, 80); loss_rate_dn := 0; loss_rate_up := 0 |}.
Definition server_config : FdAdapterConfig (Z * Z) :=
  {| source := (7, 80); destination := (0, 0); loss_rate_dn := 0; loss_rate_up := 0 |}.
Definition hi : list byte := [Byte.x68; Byte.x69].
Definition example_client : example_process := start_main (terminal hi []) test_config client_config false 0 0.
Definition example_server : example_process := start_main (terminal [] hi) test_config server_config true 0 0.

(** The handshake, two letters typed, and a data segment that arrives before
    the acknowledgment of the handshake. *)
Definition example_turns : list (bool * turn) :=
  [(true, Main 10); (false, Brings 0); (false, Main 20); (false, Main 30); (true, Brings 0); (true, Main 40); (true, Main 50);
   (true, Thread 60); (true, Main 70); (true, Main 80); (true, Thread 90); (true, Thread 100); (true, Thread 110);
   (false, Brings 2); (false, Brings 1); (false, Main 120); (false, Main 130); (false, Main 140); (false, Thread 150);
   (false, Thread 160); (false, Thread 170); (false, Main 180); (false, Main 190); (false, Thread 200); (false, Main 210); (false, Main 220)].
Definition example_programs : programs (FdAdapterBase (Z * Z)) host :=
  fold_left (play_on (5, 1234) (7, 80)) example_turns {| client := example_client; server := example_server |}.

Lemma terminal_fresh text reply : zlen text + 2 < 2 ^ 32 -> fresh_program (terminal text reply).
Proof.
  intros Hl. split; [|split; [done|split; [split; [done|split; [exact Hl|done]]|by split_and!]]].
  unfold apart. cbn. repeat apply NoDup_cons_2; [..|apply NoDup_nil_2]; rewrite ?elem_of_cons, ?elem_of_nil; unfold STDIN_FILENO, STDOUT_FILENO; lia.
Qed.

Lemma terminal_to_terminal_witness :
  printed (server example_programs) = hi /\ typed (client example_programs) = hi /\
  printed (server example_programs) `prefix_of` typed (client example_programs) /\
  printed (client example_programs) `prefix_of` typed (server example_programs).
Proof.
  split; [vm_compute; reflexivity|]. split; [vm_compute; reflexivity|].
  apply (terminal_to_terminal (Address := Z * Z) (5, 1234) (7, 80) (terminal hi []) (terminal [] hi) test_config test_config
    client_config server_config true 0 0 0 0 example_programs).
  - exact test_config_ok.
  - exact test_config_ok.
  - apply terminal_fresh. vm_compute. reflexivity.
  - apply terminal_fresh. vm_compute. reflexivity.
  - split; [vm_compute; reflexivity|]. split; [exact I|]. split; [right; vm_compute; reflexivity|left; vm_compute; reflexivity].
  - apply play_on_reach.
Defined.

(** A terminal that [poll] reports as readable, but that cannot be read: the
    first round of the copy throws. *)
Definition broken : t_socket (FdAdapterBase (Z * Z)) host :=
  let s := terminal [] [] in
  let n := net (t_kernel s) in
  set_owner s (owner s) (on_net (t_kernel s)
    {| files := files n; mailbox := []; arriving := <[0 := [{| FdAdapter.source_address := (0, 0); datagram_payload := [] |}]]> ∅ |}).

Definition example_answer : list (list byte) := socket_posted (tcp_socket (server example_programs)).
Definition failed : example_process :=
  fold_left (play (7, 80) example_answer) [Main 10; Brings 0; Main 20; Main 30; Main 40; Thread 50]
    (start_main broken test_config client_config false 0 0).

(** The exception waits for one more round of the thread. *)
Lemma program_outcomes_witness :
  owner_at failed = Unwinding (unix_error "read" 11) /\ _tcp_thread failed = Running 50 /\
  match owner_at (owner_moves (Address := Z * Z) 60 (thread_moves (Address := Z * Z) 60 failed)) with
  | Exited st o => st = EXIT_FAILURE /\ o = Some (unix_error "read" 11)
  | Terminated e => socket_error e
  | _ => False
  end.
Proof.
  assert (H1 : owner_at failed = Unwinding (unix_error "read" 11)) by (vm_compute; reflexivity).
  assert (H2 : _tcp_thread failed = Running 50) by (vm_compute; reflexivity).
  split; [exact H1|]. split; [exact H2|].
  pose proof (program_outcomes broken test_config client_config false 0 0 failed) as H. rewrite H1 in H.
  apply H with (bt := 50).
  - split; [|split; [reflexivity|vm_compute; reflexivity]]. apply (proj1 (terminal_fresh [] [] ltac:(vm_compute; reflexivity))).
  - exact test_config_ok.
  - apply play_reach.
  - exact H2.
Defined.
