(* ===== verification/Programs.v ===== *)
(** * The programs

    Models [main] of [src/apps/tcp_udp.cc], [apps/tcp_ipv4.cc] and
    [apps/tcp_native.cc], and [CS144TCPSocket]
    ([src/libsponge/tcp_helpers/tcp_sponge_socket.cc]): from the arguments of the
    command to the state that [Process] starts with. What the set-up prints on the
    error stream when an exception is caught is left out. The theorem takes two
    commands to a conversation between their terminals. *)

From S2P Require Import Prelude Text WrappingIntegers ByteStream Buffer TCPHeader TCPSegment TCPReceiver TCPSender TCPState TCPConnection Transport FdAdapter TCPOverIP Address FileDescriptor Socket EventLoop Emission AdapterIO ExampleKernel TCPSpongeSocket StreamCopy Benchmark WireSystem SocketPair CommandLine SocketSetup Process ExampleHost ProcessProps.

(** ** Addresses *)

(** The adapters are used with the addresses of IPv4 sockets; options come as
    [Address]es of any family. *)
Class Narrow (Addr : Type) := narrow : Address.Address -> result Addr.

#[export] Instance ipv4_narrow : Narrow IPv4Address := fun a =>
  match decide (is_ipv4 a = true) with
  | Specif.left H => Ok (exist _ a H)
  | Specif.right _ => Throw (undefined "address of another family")
  end.

#[export] Instance pair_narrow : Narrow (Z * Z) := fun a =>
  if is_ipv4 a then Ok (sin_addr (_address a), sin_port (_address a)) else Throw (undefined "address of another family").

Definition narrow_config {Addr} `{Narrow Addr} (c : FdAdapterConfig Address.Address) : result (FdAdapterConfig Addr) :=
  s ← narrow (source c);
  d ← narrow (destination c);
  Ok {| source := s; destination := d; loss_rate_dn := loss_rate_dn c; loss_rate_up := loss_rate_up c |}.

(** ** main *)

(** The [catch] of the programs; undefined behaviour is not an exception. *)
Definition caught {X} (m : prog X) : prog X :=
  match m with
  | Raise (undefined what) => Raise (undefined what)
  | Raise _ => Exit EXIT_FAILURE []
  | _ => m
  end.

Section programs.
Context {K Addr R : Type} `{Kernel K} `{SocketKernel K Addr} `{PollKernel K} `{SetupKernel K} `{Resolver}.
Context `{AddressLib Addr} `{Narrow Addr} (rand : R -> Z * R).

Abbreviation base_adapter := (FdAdapterBase Addr).
Abbreviation lossy := (@LossyFdAdapter (FdAdapterBase Addr) R).

(** [LossyTCPOverUDPSocketAdapter] and [LossyTCPOverIPv4OverTunFdAdapter]. *)
Definition lossy_udp : AdaptT lossy Addr K := lossy_adapt (In := received_datagram Addr) rand.
Definition lossy_tun : AdaptT lossy Addr K :=
  @lossy_adapt (FdAdapterBase Addr) Addr (list byte) BufferList K tun_adapter tun_device R rand.

(** A new adapter; [gen] is what [get_random_generator] returns. *)
Definition new_lossy (gen : R) : lossy := {| _rand := gen; _adapter := new_FdAdapterBase |}.

(** The program up to the loop of [connect] or [listen_and_accept]. [gen],
    [random] and [now] are what the random devices and the clock give. *)
Definition udp_main (argv : list (list byte)) (gen : R) (random now : Z) (k : K) : prog (process lossy K) :=
  caught (
    c ← udp_main_config argv;
    '(udp_sock, k) ← lift (UDPSocket k);
    k ← (if CommandLine.listen c then lift (bind udp_sock k (source (c_filt c))) else Return k);
    tcp_socket ← lift (new_TCPSpongeSocket (new_lossy gen) udp_sock k);
    filt ← lift (narrow_config (c_filt c));
    Return (start_main (H := lossy_udp) tcp_socket (c_fsm c) filt (CommandLine.listen c) random now)).

(** [rnd] is drawn for the source port. *)
Definition ip_main (argv : list (list byte)) (gen : R) (rnd random now : Z) (k : K) : prog (process lossy K) :=
  caught (
    c ← ip_main_config rnd argv;
    '(tun, k) ← lift (TunFD k (match tundev c with Some d => d | None => TUN_DFLT end));
    tcp_socket ← lift (new_TCPSpongeSocket (new_lossy gen) tun k);
    filt ← lift (narrow_config (c_filt (base_options c)));
    Return (start_main (H := lossy_tun) tcp_socket (c_fsm (base_options c)) filt (CommandLine.listen (base_options c)) random now)).

(** ** CS144TCPSocket *)

Definition CS144TCPSocket (k : K) : result (TCPSpongeSocket.TCPSpongeSocket base_adapter K) :=
  '(tun, k) ← TunFD k (txt "tun144");
  new_TCPSpongeSocket new_FdAdapterBase tun k.

(** [rnd] is drawn for the source port. *)
Definition cs144_connect (s : TCPSpongeSocket.TCPSpongeSocket base_adapter K) (rnd : Z) (address : Address.Address) (random now : Z)
    : result (process base_adapter K) :=
  '(tcp_config, multiplexer_config) ← cs144_config rnd address;
  multiplexer_config ← narrow_config multiplexer_config;
  Ok (start_main (H := @plain_adapt base_adapter Addr (list byte) BufferList K tun_adapter tun_device)
        s tcp_config multiplexer_config false random now).

(** ** tcp_native *)

Definition native_show_usage (argv0 : list byte) : list byte :=
  txt "Usage: " ++ argv0 ++ txt " [-l] <host> <port>" ++ nl ++ nl ++
  txt "  -l specifies listen mode; <host>:<port> is the listening address." ++ nl.

(** The program, for [n] rounds of the copy; the copier is returned while it goes
    on. *)
Definition native_main (argv : list (list byte)) (k : K) (n : nat) : prog (list (Rule (copier K) copier_fd) * copier K) :=
  caught (
    socket ← lift (native_socket argv k);
    match socket with
    | None => argv0 ← arg argv 0; Exit EXIT_FAILURE (native_show_usage argv0)
    | Some (socket, k) =>
        '(finished, rs, c) ← lift (bidirectional_stream_copy Addr socket k n);
        if (finished : bool) then Exit EXIT_SUCCESS [] else Return (rs, c)
    end).

End programs.

(** ** What the kernel promises of new descriptors *)

(** The descriptors that are open. *)
Class OpenFds (K : Type) := is_open : K -> Z -> Prop.

(** A call that has nothing to do with the open descriptors. *)
Definition left_alone {K In} `{Streams K} `{Pipes K} `{NetKernel K In} `{OpenFds K} (k k' : K) : Prop :=
  (forall f, is_open k f ->
    is_open k' f /\ untouched f k k' /\ taken k' f = taken k f /\ quiet (In := In) f k k') /\
  (forall a b, joined k a b -> joined k' a b).

(** A descriptor that was not in use, and through which nothing has passed. *)
Definition new_fd {K} `{Streams K} `{Pipes K} `{OpenFds K} (k k' : K) (f : Z) : Prop :=
  ~ is_open k f /\ is_open k' f /\ taken k' f = [] /\ written k' f = [].

(** One for datagrams, of which none has come or was sent. *)
Definition new_device {K In} `{Streams K} `{Pipes K} `{NetKernel K In} `{OpenFds K} (k k' : K) (f : Z) : Prop :=
  new_fd k k' f /\ arrivals (In := In) k' f = [] /\ posted (In := In) k' f = [].

Definition int_result (r e : Z) : Prop := -2 ^ 31 <= r < 2 ^ 31 /\ (r < 0 -> e <> 0).

(** [socket(2)], [socketpair(2)] and [open(2)] return descriptors that were not
    open; the other calls of the start, like these, leave the rest alone. *)
Class StartLaws (K Addr In : Type) `{Kernel K} `{SocketKernel K Addr} `{SetupKernel K} `{Streams K} `{Pipes K}
    `{NetKernel K In} `{OpenFds K} := {
  socket_start : forall k d t p r e k', sys_socket k d t p = (r, e, k') ->
    int_result r e /\ left_alone (In := In) k k' /\ (0 <= r -> new_device (In := In) k k' r);
  open_start : forall k name flags r e k', sys_open k name flags = (r, e, k') ->
    int_result r e /\ left_alone (In := In) k k' /\ (0 <= r -> new_device (In := In) k k' r);
  socketpair_start : forall k d t p r e a b k', sys_socketpair k d t p = (r, e, (a, b), k') ->
    int_result r e /\ left_alone (In := In) k k' /\
    (0 <= r -> new_fd k k' a /\ new_fd k k' b /\ a <> b /\ joined k' a b);
  bind_start : forall k fd a n r e k', sys_bind k fd a n = (r, e, k') -> left_alone (In := In) k k';
  ioctl_start : forall k fd req arg r e k', sys_ioctl k fd req arg = (r, e, k') -> left_alone (In := In) k k';
  getsockopt_start : forall k fd opt r e v k', sys_getsockopt k fd opt = (r, e, v, k') -> left_alone (In := In) k k';
  getfl_start : forall k fd r e k', sys_getfl k fd = (r, e, k') -> left_alone (In := In) k k';
  setfl_start : forall k fd n r e k', sys_setfl k fd n = (r, e, k') -> left_alone (In := In) k k'
}.

Section start.
Context {K Addr In : Type} `{Kernel K} `{SocketKernel K Addr} `{SetupKernel K} `{Streams K} `{Pipes K} `{NetKernel K In} `{OpenFds K}.
Context `{!StartLaws K Addr In}.
Abbreviation alone := (left_alone (In := In)).

Lemma alone_trans (k1 k2 k3 : K) : alone k1 k2 -> alone k2 k3 -> alone k1 k3.
Proof.
  intros [A1 B1] [A2 B2]. split; [|by auto]. intros f Hf. destruct (A1 f Hf) as (O1 & U1 & T1 & Q1).
  destruct (A2 f O1) as (O2 & U2 & T2 & Q2). split_and!; [done|by eapply untouched_trans|congruence|by eapply quiet_trans].
Qed.

Lemma new_fd_alone (k k1 k2 : K) f : new_fd k k1 f -> alone k1 k2 -> new_fd k k2 f.
Proof. intros (N1 & N2 & N3 & N4) [A _]. destruct (A f N2) as (O & [_ U] & T & _). split_and!; congruence. Qed.

Lemma new_device_alone (k k1 k2 : K) f : new_device (In := In) k k1 f -> alone k1 k2 -> new_device (In := In) k k2 f.
Proof.
  intros (N & N5 & N6) Ha. split; [by eapply new_fd_alone|]. destruct (proj1 Ha f (proj1 (proj2 N))) as (_ & _ & _ & [Q1 Q2]).
  split; [|congruence]. apply elem_of_nil_inv. intros d Hd%Q1. rewrite N5 in Hd. by apply not_elem_of_nil in Hd.
Qed.

Lemma new_Socket_alone w (k : K) d t w' k' : Socket.new_Socket (Address := Addr) w k d t = Ok (w', k') -> alone k k' /\ w' = w.
Proof.
  assert (Hv : forall (k k' : K) opt x what, verify (Address := Addr) w k opt x what = Ok k' -> alone k k').
  { intros k1 k2 opt x what. unfold verify. destruct (sys_getsockopt _ _ _) as [[[r e] [v len]] k3] eqn:E.
    destruct (SystemCall _ _ _ _); [|done]. cbn [mbind result_bind]. destruct (_ || _); [done|]. intros [= <-]. by eapply getsockopt_start. }
  unfold Socket.new_Socket. destruct (verify w k SO_DOMAIN _ _) as [k1|] eqn:E1; [|done]. cbn [mbind result_bind].
  destruct (verify w k1 SO_TYPE _ _) as [k2|] eqn:E2; [|done]. intros [= <- <-]. split; [|done]. eapply alone_trans; by eapply Hv.
Qed.

Lemma set_blocking_alone w (k : K) b k' : set_blocking w k b = Ok k' -> alone k k'.
Proof.
  unfold set_blocking. destruct (sys_getfl _ _) as [[r e] k1] eqn:E1. destruct (SystemCall _ _ _ _); [|done].
  cbn [mbind result_bind]. destruct (sys_setfl _ _ _) as [[r2 e2] k2] eqn:E2. destruct (SystemCall _ _ _ _); [|done].
  intros [= <-]. eapply alone_trans; [by eapply getfl_start|by eapply setfl_start].
Qed.

(** The constructor of [TCPSpongeSocket] makes a pair of new descriptors. *)
Lemma new_TCPSpongeSocket_starts {A} (a : A) w (k : K) s :
  new_TCPSpongeSocket a w k = Ok s ->
  alone k (t_kernel s) /\ new_fd k (t_kernel s) (_fd (owner s)) /\ new_fd k (t_kernel s) (_fd (_thread_data s)) /\
  _fd (owner s) <> _fd (_thread_data s) /\ joined (t_kernel s) (_fd (owner s)) (_fd (_thread_data s)) /\
  _tcp s = None /\ _datagram_adapter s = a /\ adapter_fd s = w.
Proof.
  unfold new_TCPSpongeSocket, socket_pair_helper, of_socket_pair, LocalStreamSocket.
  destruct (sys_socketpair _ _ _ _) as [[[r e] [fd0 fd1]] k1] eqn:E. destruct (socketpair_start _ _ _ _ _ _ _ _ _ E) as ([Hr He] & Hk & Hn).
  destruct (SystemCall_spec "socketpair" r e Hr He) as [[Hp ->]|[_ ->]]; [|done]. cbn [mbind result_bind].
  unfold new_FDWrapper. destruct (fd0 <? 0); [done|]. cbn [mbind result_bind]. destruct (fd1 <? 0); [done|]. cbn [mbind result_bind].
  destruct (Hn Hp) as (N0 & N1 & Hne & Hj).
  destruct (Socket.new_Socket _ k1 _ _) as [[w0 k2]|] eqn:E0; [|done]. cbn [mbind result_bind].
  destruct (Socket.new_Socket _ k2 _ _) as [[w1 k3]|] eqn:E1; [|done]. cbn [mbind result_bind].
  destruct (set_blocking w1 k3 false) as [k4|] eqn:E4; [|done]. intros [= <-].
  apply new_Socket_alone in E0 as [A0 ->]. apply new_Socket_alone in E1 as [A1 ->]. apply set_blocking_alone in E4. cbn.
  assert (Ha : alone k1 k4) by (eapply alone_trans; [exact A0|by eapply alone_trans]).
  split_and!; try done; [by eapply alone_trans|by eapply new_fd_alone|by eapply new_fd_alone|by apply Ha].
Qed.

Lemma open_Socket_starts (k : K) d t w k' :
  open_Socket k d t = Ok (w, k') -> alone k k' /\ new_device (In := In) k k' (_fd w).
Proof.
  unfold open_Socket. destruct (sys_socket k d t 0) as [[r e] k1] eqn:E. destruct (socket_start _ _ _ _ _ _ _ E) as ([Hr He] & Hk & Hn).
  destruct (SystemCall_spec "socket" r e Hr He) as [[Hp ->]|[_ ->]]; [|done]. cbn [mbind result_bind].
  unfold new_FDWrapper. destruct (r <? 0); [done|]. intros [= <- <-]. auto.
Qed.

Lemma TunFD_starts (k : K) name w k' :
  TunFD k name = Ok (w, k') -> alone k k' /\ new_device (In := In) k k' (_fd w).
Proof.
  unfold TunFD, TunTapFD. destruct (sys_open k _ _) as [[r e] k1] eqn:E. destruct (open_start _ _ _ _ _ _ E) as ([Hr He] & Hk & Hn).
  destruct (SystemCall_spec "open" r e Hr He) as [[Hp ->]|[_ ->]]; [|done]. cbn [mbind result_bind].
  unfold new_FDWrapper. destruct (r <? 0); [done|]. cbn [mbind result_bind].
  destruct (sys_ioctl k1 _ _ _) as [[r2 e2] k2] eqn:E2. destruct (SystemCall _ _ _ _); [|done]. intros [= <- <-].
  pose proof (ioctl_start _ _ _ _ _ _ _ E2) as Hi. split; [by eapply alone_trans|eapply new_device_alone; [|exact Hi]; auto].
Qed.

(** A terminal that nobody has used. *)
Definition idle_terminal (k : K) : Prop :=
  is_open k STDIN_FILENO /\ is_open k STDOUT_FILENO /\ taken k STDIN_FILENO = [] /\ written k STDOUT_FILENO = [].

Lemma idle_alone (k k' : K) : alone k k' -> idle_terminal k -> idle_terminal k'.
Proof.
  intros [Ha _] (I1 & I2 & I3 & I4). destruct (Ha _ I1) as (O1 & _ & T1 & _). destruct (Ha _ I2) as (O2 & [_ U2] & _).
  split_and!; try done; congruence.
Qed.

(** The socket of a program whose adapter is on a new descriptor is fresh. *)
Lemma socket_fresh {A} (a : A) w (k0 k : K) s :
  idle_terminal k0 -> alone k0 k -> new_device (In := In) k0 k (_fd w) -> new_TCPSpongeSocket a w k = Ok s ->
  zlen (thread_input s) + 2 < 2 ^ 32 -> fresh_program (In := In) s /\ _datagram_adapter s = a.
Proof.
  intros Hi0 Hk0 Hw E Hl. pose proof (idle_alone _ _ Hk0 Hi0) as Hi.
  destruct (new_TCPSpongeSocket_starts a w k s E) as (Ha & Ho & Ht & Hne & Hj & Hn & Hd & Hf).
  pose proof (new_device_alone _ _ _ _ Hw Ha) as ((W1 & _) & W5 & W6).
  destruct (idle_alone _ _ Ha Hi) as (I1 & I2 & I3 & I4). destruct Hi as (J1 & J2 & _).
  destruct Ho as (O1 & O2 & O3 & O4), Ht as (T1 & T2 & T3 & T4).
  assert (Hdiff : forall f g, is_open k f -> ~ is_open k g -> f <> g) by congruence.
  assert (Hw0 : is_open k (_fd w)) by apply Hw.
  assert (Hdiff0 : forall f, is_open k0 f -> f <> _fd w) by congruence.
  split; [|done]. split.
  { unfold apart. rewrite Hf. repeat apply NoDup_cons_2; [..|apply NoDup_nil_2];
      rewrite ?not_elem_of_cons; split_and?; try apply not_elem_of_nil; try done; try (by apply Hdiff);
      try (apply Hdiff0; apply Hi0); apply not_eq_sym; by apply Hdiff. }
  split; [done|]. split; [|by split_and!].
  unfold unused, socket_arrivals, socket_posted, thread_output. rewrite Hf. split_and!; try done. apply not_eq_sym. by apply Hdiff.
Qed.

End start.

(** ** tcp_udp *)

Section udp.
Context {K Addr R : Type} `{!Kernel K} `{!SocketKernel K Addr} `{!PollKernel K} `{!SetupKernel K} `{!Resolver}.
Context `{!AddressLib Addr} `{!AddressLaws Addr} `{!Narrow Addr} (rand : R -> Z * R).
Abbreviation datagram := (received_datagram Addr).
Abbreviation message := (Addr * BufferList)%type.
Context `{!NetKernel K datagram} `{!NetLaws K Addr datagram message}.
Context `{!Streams K} `{!KernelLaws K} `{!SocketLaws K Addr} `{!PollKernelLaws K} `{!Pipes K} `{!PipeLaws K Addr datagram message}.
Context `{!OpenFds K} `{!StartLaws K Addr datagram}.
Abbreviation lossy := (@LossyFdAdapter (FdAdapterBase Addr) R).

Definition lossy_udp_medium : Medium lossy Addr datagram message := lossy_medium udp_medium rand.
#[local] Hint Extern 0 (Medium lossy Addr datagram message) => exact lossy_udp_medium : typeclass_instances.
#[local] Hint Extern 0 (AdaptT lossy Addr K) => exact (lossy_udp rand) : typeclass_instances.

Lemma lossy_udp_medium_laws : MediumLaws lossy Addr datagram message.
Proof. apply (lossy_medium_laws udp_medium); reflexivity. Qed.
Definition lossy_udp_framed : Framed lossy Addr K datagram message :=
  lossy_framed udp_medium rand (fun _ _ => eq_refl) udp_framed.
Lemma lossy_udp_laws : AdaptLaws lossy Addr K.
Proof. apply lossy_laws. Qed.
#[local] Hint Extern 0 (MediumLaws lossy Addr datagram message) => exact lossy_udp_medium_laws : typeclass_instances.
#[local] Hint Extern 0 (Framed lossy Addr K datagram message) => exact lossy_udp_framed : typeclass_instances.
#[local] Hint Extern 0 (AdaptLaws lossy Addr K) => exact lossy_udp_laws : typeclass_instances.

(** What [main] has made when it starts to open the connection. *)
Lemma udp_main_starts argv gen random now (k : K) c p :
  udp_main_config argv = Return c -> udp_main rand argv gen random now k = Return p -> idle_terminal k ->
  exists s filt, narrow_config (c_filt c) = Ok filt /\
    p = start_main (H := lossy_udp rand) s (c_fsm c) filt (CommandLine.listen c) random now /\
    thread_input (tcp_socket p) = thread_input s /\
    (zlen (thread_input s) + 2 < 2 ^ 32 -> fresh_program (In := datagram) s /\ _datagram_adapter s = new_lossy gen).
Proof.
  intros Ec Hm Hi. unfold udp_main in Hm. rewrite Ec in Hm. cbn [mbind prog_bind] in Hm.
  destruct (UDPSocket k) as [[w k1]|e] eqn:Eu; [cbn [lift mbind prog_bind] in Hm|by destruct e].
  destruct (open_Socket_starts _ _ _ _ _ Eu) as [A1 N1].
  assert (Hb : exists k2, left_alone (In := datagram) k1 k2 /\
    (tcp_socket ← lift (new_TCPSpongeSocket (new_lossy gen) w k2); filt ← lift (narrow_config (c_filt c));
     Return (start_main (H := lossy_udp rand) tcp_socket (c_fsm c) filt (CommandLine.listen c) random now)) = Return p).
  { destruct (CommandLine.listen c).
    - unfold bind in Hm. destruct (sys_bind k1 _ _ _) as [[r e] k2] eqn:E. destruct (SystemCall _ _ _ _) as [v|x];
        [cbn [lift mbind prog_bind result_bind] in Hm|by destruct x]. exists k2. split; [by eapply bind_start|].
      revert Hm. unfold caught. by destruct (_ ≫= _) as [|? ?|[]].
    - exists k1. split; [|revert Hm; unfold caught; by destruct (_ ≫= _) as [|? ?|[]]].
      split; [|done]. intros f Hf. by split_and!. }
  destruct Hb as (k2 & A2 & Hb). destruct (new_TCPSpongeSocket _ w k2) as [s|e] eqn:Es; [cbn [lift mbind prog_bind] in Hb|done].
  destruct (narrow_config (c_filt c)) as [filt|e] eqn:Ef; [cbn [lift mbind prog_bind] in Hb|done]. injection Hb as <-.
  destruct (new_TCPSpongeSocket_starts _ _ _ _ Es) as (_ & _ & _ & _ & _ & Hn & _).
  destruct (start_main_opens s (c_fsm c) filt (CommandLine.listen c) random now Hn) as (s1 & _ & Ep & _ & E2 & _ & E4 & _).
  exists s, filt. split; [done|]. split; [done|]. split; [rewrite Ep; unfold thread_input; cbn; by rewrite E2, E4|].
  intros Hl. eapply socket_fresh; [exact Hi| | |exact Es|exact Hl]; [by eapply alone_trans|by eapply new_device_alone].
Qed.

(** What the options of a client and a server say about whom they talk to. *)
Lemma udp_introduced (sc ss : t_socket lossy K) gC gS fsmC fsmS (filtC filtS : FdAdapterConfig Addr) rC rS tC tS (xc xs : Addr) :
  _tcp sc = None -> _tcp ss = None -> _datagram_adapter sc = new_lossy gC -> _datagram_adapter ss = new_lossy gS ->
  destination filtC = xs ->
  introduced (In := datagram) (Out := message) xc xs (_datagram_adapter (tcp_socket (start_main sc fsmC filtC false rC tC)))
    (_datagram_adapter (tcp_socket (start_main ss fsmS filtS true rS tS))).
Proof.
  intros Nc Ns Ac As Hd. destruct (start_main_opens sc fsmC filtC false rC tC Nc) as (s1 & _ & -> & _ & _ & _ & _ & D1 & _).
  destruct (start_main_opens ss fsmS filtS true rS tS Ns) as (s2 & _ & -> & _ & _ & _ & _ & D2 & _). cbn [tcp_socket].
  rewrite D1, D2, Ac, As. split; [done|]. split; [done|]. split; [by right|by left].
Qed.

(** ** Properties *)

(** C2: [tcp_udp] carries a conversation. One is started with the options of a
    client, one with those of a server, on hosts whose terminals have not been
    used; the client's options name the server's address. Whatever the threads
    of both do and the network does, for any losses the options ask for, what
    each has printed is the beginning of what was typed into the other. And each,
    once its socket is made, ends as it should ([ends_well]): while it opens the
    connection, copies or waits, [main] returns [EXIT_SUCCESS] only after its
    thread was joined, and [EXIT_FAILURE] only with a [socket_error] caught: a
    system call has failed, a datagram was larger than the buffer, [writev] took
    nothing, or a descriptor is in error. *)
Theorem tcp_udp_carries argvC argvS gC gS rC rS tC tS (kC kS : K) cC cS pC pS (xc xs : Addr) P :
  udp_main_config argvC = Return cC -> CommandLine.listen cC = false -> cfg_ok (c_fsm cC) ->
  narrow (destination (c_filt cC)) = Ok xs ->
  udp_main_config argvS = Return cS -> CommandLine.listen cS = true -> cfg_ok (c_fsm cS) ->
  idle_terminal kC -> idle_terminal kS ->
  udp_main rand argvC gC rC tC kC = Return pC -> udp_main rand argvS gS rS tS kS = Return pS ->
  zlen (thread_input (tcp_socket pC)) + 2 < 2 ^ 32 -> zlen (thread_input (tcp_socket pS)) + 2 < 2 ^ 32 ->
  rtc (programs_step xc xs) {| client := pC; server := pS |} P ->
  (printed (server P) `prefix_of` typed (client P) /\ printed (client P) `prefix_of` typed (server P)) /\
  ends_well (Address := Addr) (client P) /\ ends_well (Address := Addr) (server P).
Proof.
  intros EcC LC HC Hx EcS LS HS IC IS MC MS ZC ZS Hr.
  destruct (udp_main_starts argvC gC rC tC kC cC pC EcC MC IC) as (sc & fc & Fc & -> & Tc & Pc).
  destruct (udp_main_starts argvS gS rS tS kS cS pS EcS MS IS) as (ss & fs & Fs & -> & Ts & Ps).
  rewrite Tc in ZC. rewrite Ts in ZS. rewrite LC, LS in *. destruct (Pc ZC) as [Fresh1 A1], (Ps ZS) as [Fresh2 A2].
  destruct (programs_run _ _ _ _ Hr) as [R1 R2].
  split; [|split; [exact (outcome_lemma _ _ _ _ _ _ _ (fresh_new _ Fresh1) HC R1)|exact (outcome_lemma _ _ _ _ _ _ _ (fresh_new _ Fresh2) HS R2)]].
  refine (terminal_lemma xc xs sc ss _ _ _ _ true _ _ _ _ P HC HS Fresh1 Fresh2 _ Hr).
  apply (udp_introduced sc ss gC gS); try done; [apply Fresh1|apply Fresh2|].
  revert Fc. unfold narrow_config. destruct (narrow (source _)); [|done]. cbn [mbind result_bind]. rewrite Hx. by intros [= <-].
Qed.

End udp.

(** ** An example *)

(** A descriptor through which nothing has passed. *)
Definition cleared (k : host) (f : Z) : host :=
  let n := net k in
  {| net := {| files := <[f := (input n f, [])]> (files n); mailbox := mailbox n; arriving := delete f (arriving n) |};
     consumed := delete f (consumed k); ends := ends k; top := top k |}.

Definition next_open (k : host) : host :=
  let k' := cleared k (top k) in {| net := net k'; consumed := consumed k'; ends := ends k; top := top k + 1 |}.

(** Whether a descriptor can be opened. *)
Definition may_open (k : host) : bool :=
  (0 <=? top k) && (top k <? 1024) && (((ends k).1 <? 0) || ((ends k).1 <? top k) && ((ends k).2 <? top k)) &&
  match mailbox (net k) with [] => true | _ => false end.

Definition host_socket (k : host) : Z * Z * host :=
  if may_open k then (top k, 0, next_open k) else (-1, 24, k).

#[export] Instance host_setup : SetupKernel host := {
  sys_socket := fun k _ _ _ => host_socket k;
  sys_socketpair := fun k _ _ _ =>
    if may_open k && ((ends k).1 <? 0) then
      let k' := next_open (next_open k) in
      (0, 0, (top k, top k + 1),
       {| net := net k'; consumed := consumed k'; ends := (top k, top k + 1); top := top k' |})
    else (-1, 24, (0, 0), k);
  sys_getname := fun _ k _ _ => (0, 0, ([], 0), k);
  sys_bind := fun k _ _ _ => (0, 0, k);
  sys_connect := fun k _ _ _ => (0, 0, k);
  sys_listen := fun k _ _ => (0, 0, k);
  sys_accept := fun k _ => (-1, 11, k);
  sys_setsockopt := fun k _ _ _ _ => (0, 0, k);
  sys_open := fun k _ _ => host_socket k;
  sys_ioctl := fun k _ _ _ => (0, 0, k)
}.

#[export] Instance host_open : OpenFds host := fun k f => 0 <= f < top k.

Abbreviation host_alone := (left_alone (In := received_datagram (Z * Z))).
Abbreviation host_new := (new_device (In := received_datagram (Z * Z))).

Lemma alone_refl (k : host) : host_alone k k.
Proof. split; [|done]. intros f Hf. by split_and!. Qed.

(** What opening does to another descriptor, and to the new one. *)
Lemma next_open_other k f :
  f <> top k -> untouched f k (next_open k) /\ gone (next_open k) f = gone k f /\ queue (net (next_open k)) f = queue (net k) f.
Proof.
  intros Hf. unfold untouched, gone, queue. cbn. rewrite !file_insert_ne by done. by rewrite !lookup_delete_ne by done.
Qed.

Lemma next_open_self k :
  gone (next_open k) (top k) = [] /\ written (next_open k) (top k) = [] /\ queue (net (next_open k)) (top k) = [].
Proof. unfold gone, queue. cbn. rewrite file_insert, !lookup_delete_eq. done. Qed.

Lemma may_open_spec k :
  may_open k = true -> (0 <= top k < 1024 /\ ((ends k).1 < 0 \/ (ends k).1 < top k /\ (ends k).2 < top k)) /\ mailbox (net k) = [].
Proof. unfold may_open. intros [H1 H2]%andb_prop. split; [lia|]. by destruct (mailbox (net k)). Qed.

Lemma next_open_alone k : (ends k).1 < 0 \/ (ends k).1 < top k /\ (ends k).2 < top k -> host_alone k (next_open k).
Proof.
  intros He. split.
  - intros f [H1 H2]. destruct (next_open_other k f) as (U & G & Q); [lia|]. split; [split; cbn; lia|]. split; [done|]. split; [done|].
    split; [|done]. intros d. cbn [arrivals host_net]. by rewrite Q.
  - intros a b ([Ha E] & H1 & H2). split; [by split|]. rewrite <- E in He. cbn in He.
    destruct (next_open_other k a) as ([_ U1] & G1 & _); [lia|]. destruct (next_open_other k b) as ([_ U2] & G2 & _); [lia|].
    rewrite U1, U2, G1, G2. done.
Qed.

Lemma next_open_new k : 0 <= top k -> mailbox (net k) = [] -> host_new k (next_open k) (top k).
Proof.
  intros Ht Hm. destruct (next_open_self k) as (S1 & S2 & S3). split; [|split; [done|cbn; by rewrite Hm]].
  split_and!; try done; unfold is_open, host_open; cbn; lia.
Qed.

Lemma host_socket_start k r e k' :
  host_socket k = (r, e, k') -> int_result r e /\ host_alone k k' /\ (0 <= r -> host_new k k' r).
Proof.
  unfold host_socket, int_result. destruct (may_open k) eqn:E; intros [= <- <- <-].
  - apply may_open_spec in E as [[Ht He] Hm]. split; [lia|]. split; [by apply next_open_alone|]. intros _. by apply next_open_new; [lia|].
  - split; [lia|]. split; [apply alone_refl|lia].
Qed.

(** Making the pair. *)
Lemma host_pair_start k :
  may_open k = true -> (ends k).1 < 0 ->
  let k2 := next_open (next_open k) in
  let k' := {| net := net k2; consumed := consumed k2; ends := (top k, top k + 1); top := top k2 |} in
  host_alone k k' /\ new_fd k k' (top k) /\ new_fd k k' (top k + 1) /\ joined k' (top k) (top k + 1).
Proof.
  intros [[Ht _] Hm]%may_open_spec He k2 k'.
  assert (A1 : host_alone k (next_open k)) by (apply next_open_alone; by left).
  assert (A2 : host_alone (next_open k) k2) by (apply next_open_alone; by left).
  assert (N1 : new_fd k k2 (top k)) by (eapply (new_fd_alone (In := received_datagram (Z * Z))); [apply next_open_new; [lia|done]|exact A2]).
  assert (N2 : new_fd (next_open k) k2 (top k + 1)) by (apply (next_open_new (next_open k)); [cbn; lia|done]).
  destruct N2 as (_ & M2 & M3 & M4).
  split; [split|split; [exact N1|split]].
  - intros f Hf. destruct (proj1 A1 f Hf) as (O1 & U1 & T1 & Q1). destruct (proj1 A2 f O1) as (O2 & U2 & T2 & Q2).
    split; [done|]. split; [by eapply untouched_trans|]. split; [by etrans|by eapply quiet_trans].
  - intros a b ([Ha E] & _). rewrite <- E in He. cbn in He. lia.
  - split_and!; try done. unfold is_open, host_open. lia.
  - split; [split; [lia|done]|]. change (gone k' (top k + 1)) with (gone k2 (top k + 1)). change (gone k' (top k)) with (gone k2 (top k)).
    destruct N1 as (_ & _ & G & _). change (gone k2 (top k) = []) in G. change (gone k2 (top k + 1) = []) in M3. rewrite G, M3.
    split; apply prefix_nil.
Qed.

#[export] Instance host_start_laws : StartLaws host (Z * Z) (received_datagram (Z * Z)).
Proof.
  split.
  - intros k d t p r e k' E. by apply host_socket_start.
  - intros k name flags r e k' E. by apply host_socket_start.
  - intros k d t p r e a b k'. cbn [sys_socketpair host_setup]. destruct (may_open k && ((ends k).1 <? 0)) eqn:Em; intros [= <- <- <- <- <-].
    + apply andb_prop in Em as [Em He%Z.ltb_lt]. destruct (host_pair_start k Em He) as (H1 & H2 & H3 & H4).
      split; [split; lia|]. split; [done|]. intros _. split_and!; try done. lia.
    + split; [split; lia|]. split; [apply alone_refl|lia].
  - intros k fd a n r e k' [= _ _ <-]. apply alone_refl.
  - intros k fd req arg r e k' [= _ _ <-]. apply alone_refl.
  - intros k fd opt r e v k' [= _ _ _ <-]. apply alone_refl.
  - intros k fd r e k' [= _ _ <-]. apply alone_refl.
  - intros k fd n r e k' [= _ _ <-]. apply alone_refl.
Qed.

(** A host with a terminal, on which [text] will be typed. The program will open
    descriptor 3 for its datagrams and the pair 4 and 5. *)
Definition desk (text reply : list byte) : host :=
  {| net := {| files := <[0 := (text, [])]> (<[5 := (text, [])]> (<[4 := (reply, [])]> ∅)); mailbox := []; arriving := ∅ |};
     consumed := ∅; ends := (-1, -1); top := 3 |}.

Definition client_command : list (list byte) := map txt ["tcp_udp"; "-t"; "400"; "0.0.0.7"; "80"].
Definition server_command : list (list byte) := map txt ["tcp_udp"; "-l"; "0.0.0.0"; "80"].
Definition no_loss (r : unit) : Z * unit := (0, r).

Abbreviation example_program := (process (@LossyFdAdapter (FdAdapterBase (Z * Z)) unit) host).
#[local] Existing Instance Address.numeric_resolver.
#[local] Hint Extern 0 (AdaptT (@LossyFdAdapter (FdAdapterBase (Z * Z)) unit) (Z * Z) host) => exact (lossy_udp no_loss) : typeclass_instances.
#[local] Hint Extern 0 (Medium (@LossyFdAdapter (FdAdapterBase (Z * Z)) unit) (Z * Z) (received_datagram (Z * Z)) ((Z * Z) * BufferList)) =>
  exact (lossy_udp_medium no_loss) : typeclass_instances.
#[local] Hint Extern 0 (Framed (@LossyFdAdapter (FdAdapterBase (Z * Z)) unit) (Z * Z) host (received_datagram (Z * Z)) ((Z * Z) * BufferList)) =>
  exact (lossy_udp_framed no_loss) : typeclass_instances.

(** What a call returns, if it does. *)
Definition returned {X} (m : prog X) (x : X) : X := match m with Return y => y | _ => x end.
Lemma returned_ok {X} (m : prog X) x : (if m is Return _ then true else false) = true -> m = Return (returned m x).
Proof. by destruct m. Qed.

Definition unborn : example_program :=
  {| tcp_socket :=
       {| owner := fresh_fd 4; _thread_data := fresh_fd 5; _datagram_adapter := new_lossy (); adapter_fd := fresh_fd 3; _tcp := None;
          TCPSpongeSocket._inbound_shutdown := false; TCPSpongeSocket._outbound_shutdown := false; _fully_acked := false;
          TCPSpongeSocket.kernel := desk [] [] |};
     _eventloop := []; _abort := false; _tcp_thread := NotStarted; owner_at := Exited EXIT_FAILURE None |}.

Definition udp_client : example_program := returned (udp_main no_loss client_command () 0 0 (desk hi [])) unborn.
Definition udp_server : example_program := returned (udp_main no_loss server_command () 0 0 (desk [] hi)) unborn.
Definition conversation : programs (@LossyFdAdapter (FdAdapterBase (Z * Z)) unit) host :=
  fold_left (play_on (5, 1234) (7, 80)) example_turns {| client := udp_client; server := udp_server |}.

Definition no_options : udp_options :=
  {| c_fsm := default_TCPConfig;
     c_filt := {| source := ipv4 0 0; destination := ipv4 0 0; loss_rate_dn := 0; loss_rate_up := 0 |}; CommandLine.listen := false |}.
Definition client_options : udp_options := returned (udp_main_config client_command) no_options.
Definition server_options : udp_options := returned (udp_main_config server_command) no_options.

Lemma tcp_udp_carries_witness :
  printed (server conversation) = hi /\
  (printed (server conversation) `prefix_of` typed (client conversation) /\
   printed (client conversation) `prefix_of` typed (server conversation)) /\
  ends_well (Address := Z * Z) (client conversation) /\ ends_well (Address := Z * Z) (server conversation).
Proof.
  split; [vm_compute; reflexivity|].
  apply (tcp_udp_carries no_loss client_command server_command () () 0 0 0 0 (desk hi []) (desk [] hi) client_options server_options
    udp_client udp_server (5, 1234) (7, 80) conversation).
  - apply returned_ok. vm_compute. reflexivity.
  - vm_compute. reflexivity.
  - replace (c_fsm client_options) with (set_rt_timeout default_TCPConfig 400) by (vm_compute; reflexivity).
    unfold cfg_ok, wi_wf. cbn. split_and!; try lia; done.
  - vm_compute. reflexivity.
  - apply returned_ok. vm_compute. reflexivity.
  - vm_compute. reflexivity.
  - replace (c_fsm server_options) with default_TCPConfig by (vm_compute; reflexivity). exact default_config_ok.
  - repeat split; vm_compute; done.
  - repeat split; vm_compute; done.
  - apply returned_ok. vm_compute. reflexivity.
  - apply returned_ok. vm_compute. reflexivity.
  - vm_compute. reflexivity.
  - vm_compute. reflexivity.
  - apply play_on_reach.
Defined.

(** A command that ends at once. *)
Example short_command :
  native_main (Addr := Z * Z) (map txt ["tcp_native"]) (desk [] []) 3 = Exit EXIT_FAILURE (native_show_usage (txt "tcp_native")).
Proof. vm_compute. reflexivity. Qed.
