(* ===== verification/TunHost.v ===== *)
(** * A host with a TUN device for examples

    The host of [ExampleHost] with a device that carries whole packets. The
    packets that will ever come are known from the start ([tun_coming], part of
    what will be read); [tun_there] of them have arrived. A read of the device
    takes a whole packet. Every write is done at once and kept in [tun_log], so
    that what was posted through a descriptor is the list of its writes. All laws
    of the kernel that [Process] and [Programs] ask for hold. *)

From S2P Require Import Prelude Buffer FileDescriptor FdAdapter Socket EventLoop AdapterIO ExampleKernel SocketPair SocketSetup Process ExampleHost ProcessProps Programs.

Record tun_host := {
  under : host;
  tun_fd : Z;
  tun_coming : list (list byte);
  tun_there : nat;
  tun_taken : list byte;
  tun_log : gmap Z (list (list byte))
}.

Definition on_under (k : tun_host) (u : host) : tun_host :=
  {| under := u; tun_fd := tun_fd k; tun_coming := tun_coming k; tun_there := tun_there k; tun_taken := tun_taken k;
     tun_log := tun_log k |}.

(** The packets that can be read, and those that were sent. *)
Definition packets (k : tun_host) : list (list byte) := take (tun_there k) (tun_coming k).
Definition log (k : tun_host) (fd : Z) : list (list byte) := default [] (tun_log k !! fd).

Definition packet_read (k : tun_host) (p : list byte) (ps : list (list byte)) (n : nat) : tun_host :=
  {| under := under k; tun_fd := tun_fd k; tun_coming := ps; tun_there := n; tun_taken := tun_taken k ++ p; tun_log := tun_log k |}.

(** A write to a file, whole. *)
Definition wrote (u : host) (fd : Z) (data : list byte) : host :=
  on_net u {| files := <[fd := (input u fd, written u fd ++ data)]> (files (net u)); mailbox := mailbox (net u); arriving := arriving (net u) |}.

Definition packet_sent (k : tun_host) (fd : Z) (p : list byte) : tun_host :=
  {| under := wrote (under k) fd p; tun_fd := tun_fd k; tun_coming := tun_coming k; tun_there := tun_there k; tun_taken := tun_taken k;
     tun_log := <[fd := log k fd ++ [p]]> (tun_log k) |}.

#[export] Instance tun_kernel : Kernel tun_host := {
  sys_read := fun k fd size =>
    if fd =? tun_fd k then
      match tun_coming k, tun_there k with
      | p :: ps, S n => if zlen p <=? Z.min size (2 ^ 31 - 1) then (zlen p, 0, p, packet_read k p ps n) else (-1, 22, [], k)
      | _, _ => (-1, 11, [], k)
      end
    else let '(r, e, data, u) := sys_read (under k) fd size in (r, e, data, on_under k u);
  sys_writev := fun k fd iov =>
    let p := concat (map fst iov) in
    if zlen p <? 2 ^ 31 then (zlen p, 0, packet_sent k fd p) else (-1, 90, k);
  sys_close := fun k _ => (0, 0, k);
  sys_getfl := fun k _ => (0, 0, k);
  sys_setfl := fun k _ _ => (0, 0, k)
}.

#[export] Instance tun_streams : Streams tun_host := {
  input := fun k fd => if fd =? tun_fd k then concat (tun_coming k) else input (under k) fd;
  written := fun k fd => written (under k) fd
}.

#[export] Instance tun_sockets : SocketKernel tun_host (Z * Z) := {
  sys_getsockopt := fun k _ _ => (0, 0, (1, 4), k);
  sys_shutdown := fun k _ _ => (0, 0, k);
  sys_recvfrom := fun k _ _ => (-1, 88, [], (0, 0), k);
  sys_sendmsg := fun k _ _ _ => (-1, 88, k)
}.

#[export] Instance tun_poll : PollKernel tun_host :=
  poll_when (fun k fd => if fd =? tun_fd k then negb (bool_decide (packets k = [])) else negb (bool_decide (readable (under k) fd = []))).

#[export] Instance tun_pipes : Pipes tun_host := {
  taken := fun k fd => if fd =? tun_fd k then tun_taken k else gone (under k) fd;
  joined := fun k a b => joined (under k) a b /\ a <> tun_fd k /\ b <> tun_fd k
}.

(** What a read of a stream may yield. *)
Definition pieces {X} (l : list X) : list (list X) :=
  flat_map (fun i => map (fun j => take j (drop i l)) (seq 0 (S (length l)))) (seq 0 (S (length l))).

#[export] Instance tun_net : NetKernel tun_host (list byte) := {
  arrivals := fun k fd => if fd =? tun_fd k then packets k else pieces (input (under k) fd);
  posted := log
}.

(** ** The laws *)

Lemma elem_of_pieces {X} (x l : list X) : x ∈ pieces l <-> exists a b, l = a ++ x ++ b.
Proof.
  unfold pieces. rewrite list_elem_of_In, in_flat_map. split.
  - intros (i & _ & Hx). apply in_map_iff in Hx as (j & <- & _). exists (take i l), (drop j (drop i l)). by rewrite !take_drop.
  - intros (a & b & ->). exists (length a). split; [apply in_seq; rewrite length_app; lia|]. apply in_map_iff. exists (length x).
    rewrite drop_app_length, take_app_length. split; [done|]. apply in_seq. rewrite !length_app. lia.
Qed.

Lemma tun_sys_read k fd size r e data k' :
  sys_read k fd size = (r, e, data, k') ->
  (fd = tun_fd k /\ r = -1 /\ e <> 0 /\ k' = k) \/
  (exists ps n, fd = tun_fd k /\ tun_coming k = data :: ps /\ tun_there k = S n /\ r = zlen data /\ zlen data <= Z.min size (2 ^ 31 - 1) /\
     k' = packet_read k data ps n) \/
  (fd <> tun_fd k /\ exists u, sys_read (under k) fd size = (r, e, data, u) /\ k' = on_under k u).
Proof.
  unfold sys_read at 1, tun_kernel at 1. destruct (Z.eqb_spec fd (tun_fd k)) as [->|Hne].
  - destruct (tun_coming k) as [|p ps] eqn:Ec; [intros [= <- <- _ <-]; by left|].
    destruct (tun_there k) as [|n] eqn:Et; [intros [= <- <- _ <-]; by left|].
    destruct (Z.leb_spec (zlen p) (Z.min size (2 ^ 31 - 1))) as [Hle|Hle]; intros [= <- <- <- <-]; [right; left|by left].
    by exists ps, n.
  - destruct (sys_read (under k) fd size) as [[[r0 e0] d0] u] eqn:E. intros [= <- <- <- <-]. right; right. split; [done|]. by exists u.
Qed.

Lemma tun_sys_writev k fd iov r e k' :
  sys_writev k fd iov = (r, e, k') ->
  (r = -1 /\ e <> 0 /\ k' = k) \/
  (r = zlen (concat (map fst iov)) /\ r < 2 ^ 31 /\ k' = packet_sent k fd (concat (map fst iov))).
Proof.
  unfold sys_writev, tun_kernel. destruct (Z.ltb_spec (zlen (concat (map fst iov))) (2 ^ 31)); intros [= <- <- <-]; [by right|by left].
Qed.

Lemma untouched_under k u f : untouched f (under k) u -> untouched f k (on_under k u).
Proof. intros [H1 H2]. split; cbn; [by destruct (f =? tun_fd k)|done]. Qed.

Lemma kept_under k u : kept (under k) u -> kept k (on_under k u).
Proof.
  intros [H1 H2]. split.
  - intros f. cbn. destruct (f =? tun_fd k); [done|apply H1].
  - intros a b (Hj & Ha & Hb). split; [by apply H2|done].
Qed.

Lemma wrote_input u fd data f : input (wrote u fd data) f = input u f.
Proof. cbn. destruct (decide (f = fd)) as [->|Hne]; [by rewrite file_insert|by rewrite file_insert_ne]. Qed.
Lemma wrote_written u fd data f : written (wrote u fd data) f = if decide (f = fd) then written u fd ++ data else written u f.
Proof. cbn. destruct (decide (f = fd)) as [->|Hne]; [by rewrite file_insert|by rewrite file_insert_ne]. Qed.

Lemma sent_untouched k fd p f : f <> fd -> untouched f k (packet_sent k fd p).
Proof.
  intros Hne. split; unfold input, written, tun_streams, packet_sent; cbn [tun_fd under tun_coming].
  - by rewrite wrote_input.
  - rewrite wrote_written. by destruct (decide _).
Qed.

#[export] Instance tun_kernel_laws : KernelLaws tun_host.
Proof.
  split.
  - intros k fd size r e data k' Hs [(-> & -> & He & ->)|[(ps & n & -> & Hc & _ & -> & Hl & ->)|(Hne & u & E & ->)]]%tun_sys_read.
    + split; [lia|]. split; [done|lia].
    + pose proof (zlen_nonneg data). split; [lia|]. split; [lia|]. intros _. cbn. rewrite Z.eqb_refl, Hc. split; [lia|done].
    + destruct (read_law _ _ _ _ _ _ _ Hs E) as (H1 & H2 & H3). split; [done|]. split; [done|]. intros Hr.
      cbn. rewrite (proj2 (Z.eqb_neq fd (tun_fd k)) Hne). by apply H3.
  - intros k fd iov r e k' [(-> & He & ->)|(-> & Hl & ->)]%tun_sys_writev.
    + split; [lia|]. split; [done|lia].
    + pose proof (zlen_nonneg (concat (map fst iov))). split; [lia|]. split; [lia|]. intros _. split; [lia|].
      unfold input, written, tun_streams, packet_sent; cbn [tun_fd under tun_coming]. rewrite wrote_input, wrote_written, decide_True by done.
      split; [done|]. unfold zlen. by rewrite Nat2Z.id, firstn_all.
  - intros k fd size r e data k' f [(_ & _ & _ & ->)|[(ps & n & -> & _ & _ & _ & _ & ->)|(_ & u & E & ->)]]%tun_sys_read Hne; [done| |].
    + split; cbn; [by rewrite (proj2 (Z.eqb_neq f (tun_fd k)) Hne)|done].
    + apply untouched_under. by eapply read_others.
  - intros k fd iov r e k' f [(_ & _ & ->)|(_ & _ & ->)]%tun_sys_writev Hne; [done|by apply sent_untouched].
  - intros k fd r e k' f [= <- <- <-]. by split_and!; lia || done.
  - intros k fd r e k' f [= <- <- <-]. by split_and!; lia || done.
  - intros k fd flags r e k' f [= <- <- <-]. by split_and!; lia || done.
Qed.

#[export] Program Instance tun_socket_laws : SocketLaws tun_host (Z * Z) := {
  sent_to := fun _ _ => []
}.
Next Obligation. cbn. intros k fd how r e k' [= <- <- <-]. split; [lia|]. split; [lia|]. by split. Qed.
Next Obligation. cbn. intros k fd size r e data from k' Hs [= <- <- <- <- <-]. split; [lia|]. split; [lia|]. split; [lia|]. by split. Qed.
Next Obligation. cbn. intros k fd dest iov r e k' [= <- <- <-]. split; [lia|]. split; [lia|]. split; [lia|]. by split. Qed.

#[export] Instance tun_poll_laws : PollKernelLaws tun_host := poll_when_laws _.

(** A read of the device yields the first packet that has arrived, one of a
    stream a piece of it. *)
Lemma tun_receive w k i w' k' :
  receive (In := list byte) (Out := BufferList) w k = Ok (i, w', k') ->
  exists size r e, sys_read k (_fd w) size = (r, e, i, k') /\ 0 <= size /\ 0 <= r.
Proof.
  cbn [receive tun_device]. unfold FileDescriptor.read. set (size := Z.min _ _).
  destruct (sys_read k (_fd w) size) as [[[r e] data] k1] eqn:E.
  assert (Hs : 0 <= size) by (unfold size, BUFFER_SIZE, ULONG_LONG_MAX; lia).
  destruct (read_law _ _ _ _ _ _ _ Hs E) as (Hr & He & Hd).
  destruct (SystemCall_spec "read" r e Hr He) as [[Hp ->]|[_ ->]]; [|done]. cbn [mbind result_bind].
  destruct (Hd Hp) as (Hle & Hl & _). destruct (_ <? r); [done|]. intros [= <- _ <-]. exists size, r, e.
  split; [|done]. by rewrite u64_small, <- Hl, resize_overwrite, Hl by lia.
Qed.

(** A write ends after one call. *)
Lemma tun_transmit w k (out : BufferList) w' k' :
  transmit (In := list byte) w k out = Ok (w', k') -> k' = packet_sent k (_fd w) (wire_bytes out).
Proof.
  cbn [transmit tun_device]. unfold FileDescriptor.write. cbn [write_loop].
  destruct (sys_writev k _ _) as [[r e] k1] eqn:E. destruct (writev_law _ _ _ _ _ _ E) as (Hr & He & _).
  destruct (SystemCall_spec "writev" r e Hr He) as [[Hp ->]|[_ ->]]; [|done]. cbn [mbind result_bind].
  apply tun_sys_writev in E as [(-> & _)|(Er & Hl & ->)]; [lia|]. rewrite as_iovecs_concat in Er |- *.
  rewrite bvl_of_BufferList_concat in Er |- *. change (bl_concatenate out) with (wire_bytes out) in *.
  pose proof (bvl_remove_prefix_lem (bvl_of_BufferList out) (u64 r) (u64_range r)) as Hrem. rewrite (u64_small r) in * by lia.
  rewrite bvl_of_BufferList_concat in Hrem. change (bl_concatenate out) with (wire_bytes out) in Hrem.
  rewrite (proj2 (Z.leb_le r _)) in Hrem by lia. destruct Hrem as (l' & -> & El).
  assert (Hz : bvl_size l' = 0).
  { rewrite bvl_size_concat; rewrite El, Er; unfold zlen; rewrite Nat2Z.id, drop_all; cbn; lia. }
  cbn [mbind result_bind]. rewrite Hz. destruct (_ && _); [done|]. destruct (_ <? r); [done|]. by intros [= _ <-].
Qed.

Lemma log_sent k fd p f : log (packet_sent k fd p) f = if decide (f = fd) then log k fd ++ [p] else log k f.
Proof. unfold log. cbn. destruct (decide _) as [->|Hne]; [by rewrite lookup_insert_eq|by rewrite lookup_insert_ne]. Qed.

Lemma sent_arrivals k fd p f : arrivals (In := list byte) (packet_sent k fd p) f = arrivals k f.
Proof. unfold arrivals, tun_net, packet_sent. cbn [tun_fd under]. by rewrite wrote_input. Qed.

(** What was read from a file came from the front of it. *)
Lemma host_read_front (u u' : host) fd size r e data :
  0 <= size -> sys_read u fd size = (r, e, data, u') ->
  input u fd = data ++ input u' fd.
Proof.
  intros Hs E. destruct (decide (0 <= r)) as [Hr|Hr].
  - by destruct (read_law _ _ _ _ _ _ _ Hs E) as (_ & _ & (_ & _ & Hi & _)).
  - apply host_read in E as [(_ & _ & -> & ->)|(n & E & _)]; [done|]. apply net_read in E as (f & E & _).
    apply (f_equal (fun x => x.1.1.1)) in E. cbn in E. subst r. by pose proof (zlen_nonneg (take (Z.to_nat (2 `min` (size `min` zlen (readable u fd)))) (file (files (net u)) fd).1)).
Qed.

(** Reading never adds to what may arrive. *)
Lemma tun_read_quiet k fd size r e data k' f :
  f <> fd \/ 0 <= size -> sys_read k fd size = (r, e, data, k') -> quiet (In := list byte) f k k'.
Proof.
  intros Hs [(-> & -> & He & ->)|[(ps & n & -> & Hc & Ht & -> & Hl & ->)|(Hne & u & E & ->)]]%tun_sys_read; [by split| |]; (split; [|done]).
  - intros d. cbn. unfold packets. cbn. rewrite Hc, Ht. destruct (f =? tun_fd k); [|done]. cbn. intros Hd. by apply list_elem_of_further.
  - intros d. unfold arrivals, tun_net. cbn [tun_fd under on_under]. destruct (f =? tun_fd k); [done|].
    destruct (decide (f = fd)) as [->|Hf].
    + destruct Hs as [|Hs]; [done|]. rewrite (host_read_front _ _ _ _ _ _ _ Hs E), !elem_of_pieces.
      intros (a & b & ->). exists (data ++ a), b. by rewrite <- app_assoc.
    + destruct (read_others _ _ _ _ _ _ _ f E Hf) as [Hi _]. by rewrite Hi.
Qed.

Lemma tun_read_arrived k fd size r e data k' :
  0 <= size -> 0 <= r -> sys_read k fd size = (r, e, data, k') -> data ∈ arrivals k fd.
Proof.
  intros Hs Hr [(-> & -> & He & ->)|[(ps & n & -> & Hc & Ht & -> & Hl & ->)|(Hne & u & E & ->)]]%tun_sys_read; [lia| |]; unfold arrivals, tun_net.
  - unfold packets. rewrite Hc, Ht, Z.eqb_refl. apply list_elem_of_here.
  - rewrite (proj2 (Z.eqb_neq fd (tun_fd k)) Hne). apply elem_of_pieces. exists [], (input u fd). exact (host_read_front _ _ _ _ _ _ _ Hs E).
Qed.

#[export] Instance tun_net_laws : NetLaws tun_host (Z * Z) (list byte) BufferList.
Proof.
  split.
  - intros w k i w' k' (size & r & e & E & Hs & Hr)%tun_receive. split; [exact (tun_read_arrived _ _ _ _ _ _ _ Hs Hr E)|]. exact (tun_read_quiet _ _ _ _ _ _ _ _ (or_intror Hs) E).
  - intros w k out w' k' ->%tun_transmit. rewrite sent_arrivals. split; [done|]. cbn [posted tun_net]. by rewrite log_sent, decide_True.
  - intros k fd n r e data k' f E Hne. eapply tun_read_quiet; [by left|exact E].
  - intros k fd iov r e k' f [(_ & _ & ->)|(_ & _ & ->)]%tun_sys_writev Hne; [by split|]. unfold quiet. rewrite sent_arrivals.
    split; [done|]. cbn [posted tun_net]. by rewrite log_sent, decide_False.
  - intros k fd r e k' f [= _ _ <-]. by split.
  - intros k fd r e k' f [= _ _ <-]. by split.
  - intros k fd n r e k' f [= _ _ <-]. by split.
  - intros k fd how r e k' f [= _ _ <-]. by split.
  - intros k ps t r e ps' k' f [= _ _ _ <-]. by split.
Qed.

Lemma sent_kept k fd p : kept k (packet_sent k fd p).
Proof.
  split.
  - intros f. unfold taken, input, tun_pipes, tun_streams, packet_sent. cbn [tun_fd under tun_taken tun_coming]. by rewrite wrote_input.
  - intros a b ((H1 & H2 & H3) & Ha & Hb). split; [|done]. split; [done|]. cbn [under packet_sent].
    assert (Hp : forall f, written (under k) f `prefix_of` written (wrote (under k) fd p) f).
    { intros f. rewrite wrote_written. destruct (decide _) as [->|]; [by apply prefix_app_r|done]. }
    split; [etrans; [exact H2|apply Hp]|etrans; [exact H3|apply Hp]].
Qed.

Lemma tun_read_kept k fd size r e data k' : sys_read k fd size = (r, e, data, k') -> kept k k'.
Proof.
  intros [(-> & -> & He & ->)|[(ps & n & -> & Hc & Ht & -> & Hl & ->)|(Hne & u & E & ->)]]%tun_sys_read; [by split| |].
  - split; [|done]. intros f. cbn. destruct (f =? tun_fd k); [|done]. rewrite Hc. cbn. by rewrite <- app_assoc.
  - apply kept_under. exact (sys_read_kept _ _ _ _ _ _ _ E).
Qed.

#[export] Instance tun_pipe_laws : PipeLaws tun_host (Z * Z) (list byte) BufferList.
Proof.
  split; try (intros; match goal with H : _ = _ |- _ => injection H; intros; subst; by split end).
  - intros k a b (Hj & Ha & Hb). cbn. rewrite (proj2 (Z.eqb_neq a _) Ha), (proj2 (Z.eqb_neq b _) Hb). exact (pipe_law _ _ _ Hj).
  - exact tun_read_kept.
  - intros k fd iov r e k' [(_ & _ & ->)|(_ & _ & ->)]%tun_sys_writev; [by split|apply sent_kept].
  - intros w k i w' k' (size & r & e & E & _)%tun_receive. by eapply tun_read_kept.
  - intros w k out w' k' ->%tun_transmit. apply sent_kept.
Qed.

(** ** Opening *)

(** The device becomes usable, or the pair is made. *)
Definition tun_opened (k : tun_host) : tun_host :=
  {| under := next_open (under k); tun_fd := tun_fd k; tun_coming := tun_coming k; tun_there := 0; tun_taken := [];
     tun_log := delete (tun_fd k) (tun_log k) |}.

#[export] Instance tun_setup : SetupKernel tun_host := {
  sys_socket := fun k _ _ _ => (-1, 24, k);
  sys_socketpair := fun k d t p =>
    if tun_fd k <? top (under k) then
      let '(r, e, fds, u) := sys_socketpair (under k) d t p in (r, e, fds, on_under k u)
    else (-1, 24, (0, 0), k);
  sys_getname := fun _ k _ _ => (0, 0, ([], 0), k);
  sys_bind := fun k _ _ _ => (0, 0, k);
  sys_connect := fun k _ _ _ => (0, 0, k);
  sys_listen := fun k _ _ => (0, 0, k);
  sys_accept := fun k _ => (-1, 11, k);
  sys_setsockopt := fun k _ _ _ _ => (0, 0, k);
  sys_open := fun k _ _ => if may_open (under k) && (top (under k) =? tun_fd k) then (tun_fd k, 0, tun_opened k) else (-1, 24, k);
  sys_ioctl := fun k _ _ _ => (0, 0, k)
}.

#[export] Instance tun_open : OpenFds tun_host := fun k f => is_open (under k) f.

Abbreviation tun_alone := (left_alone (In := list byte)).

Lemma tun_alone_refl (k : tun_host) : tun_alone k k.
Proof. split; [|done]. intros f Hf. by split_and!. Qed.

Lemma tun_opened_alone k :
  may_open (under k) = true -> top (under k) = tun_fd k -> tun_alone k (tun_opened k).
Proof.
  intros [[_ He] _]%may_open_spec Ht. destruct (next_open_alone (under k) He) as [A1 A2]. split.
  - intros f Hf. destruct (A1 f Hf) as (O & [U1 U2] & T & _). assert (Hne : f <> tun_fd k) by (destruct Hf; lia).
    split; [done|]. unfold untouched, quiet, input, written, taken, arrivals, posted, tun_streams, tun_pipes, tun_net, log.
    cbn [tun_opened tun_fd under tun_log]. rewrite (proj2 (Z.eqb_neq f (tun_fd k)) Hne), U1, U2, lookup_delete_ne by done. done.
  - intros a b (Hj & Ha & Hb). split; [by apply A2|done].
Qed.

Lemma tun_opened_new k :
  may_open (under k) = true -> top (under k) = tun_fd k -> new_device (In := list byte) k (tun_opened k) (tun_fd k).
Proof.
  intros [[H0 _] Hm]%may_open_spec Ht. destruct (next_open_new (under k) (proj1 H0) Hm) as ((N1 & N2 & N3 & N4) & _ & _). rewrite Ht in *.
  unfold new_device, new_fd, written, taken, arrivals, posted, tun_streams, tun_pipes, tun_net, log, packets.
  cbn [tun_opened tun_fd under tun_log tun_there tun_taken]. rewrite Z.eqb_refl, lookup_delete_eq. by split_and!.
Qed.

Lemma tun_pair_alone k u :
  host_alone (under k) u -> tun_alone k (on_under k u).
Proof.
  intros [A1 A2]. split.
  - intros f Hf. destruct (A1 f Hf) as (O & U & T & _). split; [done|]. split; [by apply untouched_under|].
    unfold quiet, taken, arrivals, posted, tun_pipes, tun_net, log. cbn [on_under tun_fd under tun_log]. rewrite (proj1 U). split; [by destruct (_ =? _)|done].
  - intros a b (Hj & Ha & Hb). split; [by apply A2|done].
Qed.

#[export] Instance tun_start_laws : StartLaws tun_host (Z * Z) (list byte).
Proof.
  split.
  - intros k d t p r e k' [= <- <- <-]. split; [split; lia|]. split; [apply tun_alone_refl|lia].
  - intros k name flags r e k'. cbn [sys_open tun_setup]. destruct (may_open (under k) && (top (under k) =? tun_fd k)) eqn:Em; intros [= <- <- <-].
    + apply andb_prop in Em as [Em Ht%Z.eqb_eq]. pose proof (may_open_spec _ Em) as [[Hb _] _]. split; [split; lia|].
      split; [by apply tun_opened_alone|]. intros _. by apply tun_opened_new.
    + split; [split; lia|]. split; [apply tun_alone_refl|lia].
  - intros k d t p r e a b k'. cbn [sys_socketpair tun_setup]. destruct (Z.ltb_spec (tun_fd k) (top (under k))) as [Ht|Ht].
    + destruct (sys_socketpair (under k) d t p) as [[[r0 e0] [a0 b0]] u] eqn:E. intros [= <- <- <- <- <-].
      destruct (socketpair_start _ _ _ _ _ _ _ _ _ E) as (Hi & Hk & Hn). split; [done|]. split; [by apply tun_pair_alone|].
      intros Hr. destruct (Hn Hr) as (Na & Nb & Hne & Hj).
      assert (Hnew : forall f, new_fd (under k) u f -> f <> tun_fd k /\ new_fd k (on_under k u) f).
      { intros f (N1 & N2 & N3 & N4). assert (Hf : f <> tun_fd k).
        { intros ->. apply N1. destruct N2 as [N2 _]. split; [done|lia]. }
        split; [done|]. unfold new_fd, written, taken, tun_streams, tun_pipes. cbn [on_under tun_fd under].
        by rewrite (proj2 (Z.eqb_neq f (tun_fd k)) Hf). }
      destruct (Hnew _ Na), (Hnew _ Nb). by split_and!.
    + intros [= <- <- <- <- <-]. split; [split; lia|]. split; [apply tun_alone_refl|lia].
  - intros k fd a n r e k' [= _ _ <-]. apply tun_alone_refl.
  - intros k fd req arg r e k' [= _ _ <-]. apply tun_alone_refl.
  - intros k fd opt r e v k' [= _ _ _ <-]. apply tun_alone_refl.
  - intros k fd r e k' [= _ _ <-]. apply tun_alone_refl.
  - intros k fd n r e k' [= _ _ <-]. apply tun_alone_refl.
Qed.

(** A packet arrives when it is the next one to come. *)
#[export] Program Instance tun_carrier : Carrier tun_host (list byte) := {
  bring := fun k fd d =>
    if (fd =? tun_fd k) && bool_decide (tun_coming k !! tun_there k = Some d)
    then {| under := under k; tun_fd := tun_fd k; tun_coming := tun_coming k; tun_there := S (tun_there k); tun_taken := tun_taken k;
            tun_log := tun_log k |}
    else k
}.
Next Obligation.
  intros k fd d x. cbn beta. destruct (Z.eqb_spec fd (tun_fd k)) as [->|Hne]; cbn [andb]; [|by left].
  case_bool_decide as Hd; [|by left]. unfold arrivals, tun_net, packets. cbn [tun_fd tun_there tun_coming]. rewrite Z.eqb_refl.
  rewrite (take_S_r _ _ _ Hd). intros [?|Hx]%elem_of_app; [by left|right; by apply list_elem_of_singleton].
Qed.
Next Obligation. intros k fd d. cbn. by destruct (_ && _). Qed.
Next Obligation. intros k fd d. cbn. destruct (_ && _); (split; [by split|by split]). Qed.
