(* ===== verification/IPv4Program.v ===== *)
(** * tcp_ipv4 from its command line

    What [main] of [src/apps/tcp_ipv4.cc] carries, from the arguments of two
    commands to the terminals of their users. The packets go through TUN
    devices, so that each side is known by the addresses and ports in the
    headers. *)

From S2P Require Import Prelude Text WrappingIntegers ByteStream Buffer TCPHeader TCPSegment TCPReceiver TCPSender TCPState TCPConnection Transport FdAdapter TCPOverIP Address FileDescriptor Socket EventLoop Emission AdapterIO TCPSpongeSocket StreamCopy Benchmark WireSystem SocketPair CommandLine SocketSetup Process ExampleHost ProcessProps Programs TunHost.

Section ip.
Context {K Addr R : Type} `{!Kernel K} `{!SocketKernel K Addr} `{!PollKernel K} `{!SetupKernel K} `{!Resolver}.
Context `{!AddressLib Addr} `{!AddressLaws Addr} `{!Narrow Addr} (rand : R -> Z * R).
Abbreviation packet := (list byte).
Context `{!NetKernel K packet} `{!NetLaws K Addr packet BufferList}.
Context `{!Streams K} `{!KernelLaws K} `{!SocketLaws K Addr} `{!PollKernelLaws K} `{!Pipes K} `{!PipeLaws K Addr packet BufferList}.
Context `{!OpenFds K} `{!StartLaws K Addr packet}.
Abbreviation lossy := (@LossyFdAdapter (FdAdapterBase Addr) R).

Definition lossy_tun_medium : Medium lossy Addr packet BufferList :=
  @lossy_medium (FdAdapterBase Addr) Addr packet BufferList R tun_adapter tun_medium rand.
#[local] Hint Extern 0 (Medium lossy Addr packet BufferList) => exact lossy_tun_medium : typeclass_instances.
#[local] Hint Extern 0 (AdaptT lossy Addr K) => exact (lossy_tun rand) : typeclass_instances.

Lemma lossy_tun_medium_laws : MediumLaws lossy Addr packet BufferList.
Proof. apply (@lossy_medium_laws _ _ _ _ _ tun_adapter tun_medium _ tun_medium_laws); reflexivity. Qed.
Definition lossy_tun_framed : Framed lossy Addr K packet BufferList :=
  @lossy_framed _ _ _ _ K R tun_adapter tun_device tun_medium _ rand (fun _ _ => eq_refl) tun_framed.
Lemma lossy_tun_laws : AdaptLaws lossy Addr K.
Proof. exact (@lossy_laws _ _ packet BufferList K tun_adapter tun_device _ _ _ tun_safe _ R rand). Qed.
#[local] Hint Extern 0 (MediumLaws lossy Addr packet BufferList) => exact lossy_tun_medium_laws : typeclass_instances.
#[local] Hint Extern 0 (Framed lossy Addr K packet BufferList) => exact lossy_tun_framed : typeclass_instances.
#[local] Hint Extern 0 (AdaptLaws lossy Addr K) => exact lossy_tun_laws : typeclass_instances.

(** What [main] has made when it starts to open the connection. *)
Lemma ip_main_starts argv gen rnd random now (k : K) c p :
  ip_main_config rnd argv = Return c -> ip_main rand argv gen rnd random now k = Return p -> idle_terminal k ->
  exists s filt, narrow_config (c_filt (base_options c)) = Ok filt /\
    p = start_main (H := lossy_tun rand) s (c_fsm (base_options c)) filt (CommandLine.listen (base_options c)) random now /\
    thread_input (tcp_socket p) = thread_input s /\
    (zlen (thread_input s) + 2 < 2 ^ 32 -> fresh_program (In := packet) s /\ _datagram_adapter s = new_lossy gen).
Proof.
  intros Ec Hm Hi. unfold ip_main in Hm. rewrite Ec in Hm. cbn [mbind prog_bind] in Hm.
  destruct (TunFD k _) as [[w k1]|e] eqn:Eu; [cbn [lift mbind prog_bind] in Hm|by destruct e].
  destruct (TunFD_starts _ _ _ _ Eu) as [A1 N1].
  destruct (new_TCPSpongeSocket _ w k1) as [s|e] eqn:Es; [cbn [lift mbind prog_bind] in Hm|by destruct e].
  destruct (narrow_config (c_filt (base_options c))) as [filt|e] eqn:Ef; [cbn [lift mbind prog_bind] in Hm|by destruct e].
  injection Hm as <-. destruct (new_TCPSpongeSocket_starts _ _ _ _ Es) as (_ & _ & _ & _ & _ & Hn & _).
  destruct (start_main_opens s (c_fsm (base_options c)) filt (CommandLine.listen (base_options c)) random now Hn) as (s1 & _ & Ep & _ & E2 & _ & E4 & _).
  exists s, filt. split; [done|]. split; [done|]. split; [rewrite Ep; unfold thread_input; cbn; by rewrite E2, E4|].
  intros Hl. by eapply socket_fresh.
Qed.

(** The client's options name both ends; the server learns of the client. *)
Lemma ip_introduced (sc ss : t_socket lossy K) gC gS fsmC fsmS (filtC filtS : FdAdapterConfig Addr) rC rS tC tS :
  _tcp sc = None -> _tcp ss = None -> _datagram_adapter sc = new_lossy gC -> _datagram_adapter ss = new_lossy gS ->
  introduced (In := packet) (Out := BufferList) (source filtC) (destination filtC)
    (_datagram_adapter (tcp_socket (start_main sc fsmC filtC false rC tC)))
    (_datagram_adapter (tcp_socket (start_main ss fsmS filtS true rS tS))).
Proof.
  intros Nc Ns Ac As. destruct (start_main_opens sc fsmC filtC false rC tC Nc) as (s1 & _ & -> & _ & _ & _ & _ & D1 & _).
  destruct (start_main_opens ss fsmS filtS true rS tS Ns) as (s2 & _ & -> & _ & _ & _ & _ & D2 & _). cbn [tcp_socket].
  rewrite D1, D2, Ac, As. split; [done|]. split; [done|]. split; [by right|by left].
Qed.

(** What two programs owe to their users: what each has printed is the beginning
    of what was typed into the other, and each ends as it should. *)
Definition conversed (P : programs lossy K) : Prop :=
  (printed (server P) `prefix_of` typed (client P) /\ printed (client P) `prefix_of` typed (server P)) /\
  ends_well (Address := Addr) (client P) /\ ends_well (Address := Addr) (server P).

(** ** Properties *)

(** C3: [tcp_ipv4] carries a conversation through TUN devices. One is started
    with the options of a client, whose addresses and ports are [xc] for itself
    and [xs] for the server, one with those of a server that takes what the first
    segment names; their terminals have not been used. Whatever the threads of
    both do and the network does with their packets, packets of others included,
    for any losses the options ask for, what each has printed is the beginning of
    what was typed into the other. And each, once its socket is made, ends as it
    should ([ends_well]): while it opens the connection, copies or waits, [main]
    returns [EXIT_SUCCESS] only after its thread was joined, and [EXIT_FAILURE]
    only with a [socket_error] caught: a system call has failed, a packet was
    larger than the buffer, [writev] took nothing, or a descriptor is in error. *)
Theorem tcp_ipv4_carries argvC argvS gC gS nC nS rC rS tC tS (kC kS : K) cC cS pC pS (xc xs : Addr) P :
  ip_main_config nC argvC = Return cC -> CommandLine.listen (base_options cC) = false -> cfg_ok (c_fsm (base_options cC)) ->
  narrow (source (c_filt (base_options cC))) = Ok xc -> narrow (destination (c_filt (base_options cC))) = Ok xs ->
  ip_main_config nS argvS = Return cS -> CommandLine.listen (base_options cS) = true -> cfg_ok (c_fsm (base_options cS)) ->
  idle_terminal kC -> idle_terminal kS ->
  ip_main rand argvC gC nC rC tC kC = Return pC -> ip_main rand argvS gS nS rS tS kS = Return pS ->
  zlen (thread_input (tcp_socket pC)) + 2 < 2 ^ 32 -> zlen (thread_input (tcp_socket pS)) + 2 < 2 ^ 32 ->
  rtc (programs_step xc xs) {| client := pC; server := pS |} P ->
  conversed P.
Proof.
  intros EcC LC HC Hxc Hxs EcS LS HS IC IS MC MS ZC ZS Hr.
  destruct (ip_main_starts argvC gC nC rC tC kC cC pC EcC MC IC) as (sc & fc & Fc & -> & Tc & Pc).
  destruct (ip_main_starts argvS gS nS rS tS kS cS pS EcS MS IS) as (ss & fs & Fs & -> & Ts & Ps).
  rewrite Tc in ZC. rewrite Ts in ZS. rewrite LC, LS in *. destruct (Pc ZC) as [Fresh1 A1], (Ps ZS) as [Fresh2 A2].
  destruct (programs_run _ _ _ _ Hr) as [R1 R2].
  split; [|split; [exact (outcome_lemma _ _ _ _ _ _ _ (fresh_new _ Fresh1) HC R1)|exact (outcome_lemma _ _ _ _ _ _ _ (fresh_new _ Fresh2) HS R2)]].
  refine (terminal_lemma xc xs sc ss _ _ _ _ true _ _ _ _ P HC HS Fresh1 Fresh2 _ Hr).
  assert (Hx : xc = source fc /\ xs = destination fc).
  { revert Fc. unfold narrow_config. rewrite Hxc. cbn [mbind result_bind]. rewrite Hxs. by intros [= <-]. }
  destruct Hx as [-> ->]. apply (ip_introduced sc ss gC gS); try done; [apply Fresh1|apply Fresh2].
Qed.

End ip.

(** ** An example *)

(** A host with a terminal, on which [text] will be typed, and with a TUN device
    that will bring [coming]. The program will open the device as descriptor 3
    and the pair 4 and 5. *)
Definition tun_desk (text reply : list byte) (coming : list (list byte)) : tun_host :=
  {| under := desk text reply; tun_fd := 3; tun_coming := coming; tun_there := 0; tun_taken := []; tun_log := ∅ |}.

Definition client_line : list (list byte) := map txt ["tcp_ipv4"; "-a"; "0.0.0.5"; "-s"; "1234"; "-d"; "tun0"; "0.0.0.7"; "80"].
Definition server_line : list (list byte) := map txt ["tcp_ipv4"; "-l"; "0.0.0.7"; "80"].

Abbreviation tun_program := (process (@LossyFdAdapter (FdAdapterBase (Z * Z)) unit) tun_host).
#[local] Existing Instance Address.numeric_resolver.
#[local] Hint Extern 0 (AdaptT (@LossyFdAdapter (FdAdapterBase (Z * Z)) unit) (Z * Z) tun_host) => exact (lossy_tun no_loss) : typeclass_instances.
#[local] Hint Extern 0 (Medium (@LossyFdAdapter (FdAdapterBase (Z * Z)) unit) (Z * Z) (list byte) BufferList) =>
  exact (lossy_tun_medium no_loss) : typeclass_instances.
#[local] Hint Extern 0 (Framed (@LossyFdAdapter (FdAdapterBase (Z * Z)) unit) (Z * Z) tun_host (list byte) BufferList) =>
  exact (lossy_tun_framed no_loss) : typeclass_instances.

Definition tun_unborn : tun_program :=
  {| tcp_socket :=
       {| owner := fresh_fd 4; _thread_data := fresh_fd 5; _datagram_adapter := new_lossy (); adapter_fd := fresh_fd 3; _tcp := None;
          TCPSpongeSocket._inbound_shutdown := false; TCPSpongeSocket._outbound_shutdown := false; _fully_acked := false;
          TCPSpongeSocket.kernel := tun_desk [] [] [] |};
     _eventloop := []; _abort := false; _tcp_thread := NotStarted; owner_at := Exited EXIT_FAILURE None |}.

Definition ip_client (coming : list (list byte)) : tun_program :=
  returned (ip_main no_loss client_line () 0 0 0 (tun_desk hi [] coming)) tun_unborn.
Definition ip_server (coming : list (list byte)) : tun_program :=
  returned (ip_main no_loss server_line () 0 0 0 (tun_desk [] hi coming)) tun_unborn.
Definition talk (to_client to_server : list (list byte)) : programs (@LossyFdAdapter (FdAdapterBase (Z * Z)) unit) tun_host :=
  fold_left (play_on (5, 1234) (7, 80)) example_turns {| client := ip_client to_client; server := ip_server to_server |}.

(** The client's first packet; the server's answer to it; what the client sends
    when that arrives; and the order in which the server gets them. *)
Definition ip_posted (p : tun_program) : list (list byte) := socket_posted (In := list byte) (tcp_socket p).
Definition ip_call : list (list byte) := ip_posted (client (talk [] [])).
Definition ip_answer : list (list byte) := ip_posted (server (talk [] ip_call)).
Definition ip_data : list (list byte) :=
  match ip_posted (client (talk ip_answer ip_call)) with
  | [syn; ack; data] => [syn; data; ack]
  | ps => ps
  end.
Definition ip_conversation : programs (@LossyFdAdapter (FdAdapterBase (Z * Z)) unit) tun_host := talk ip_answer ip_data.

Definition no_ip_options : ip_options := {| base_options := no_options; tundev := None; source_address := []; source_port := [] |}.
Definition ip_client_options : ip_options := returned (ip_main_config 0 client_line) no_ip_options.
Definition ip_server_options : ip_options := returned (ip_main_config 0 server_line) no_ip_options.

Lemma tcp_ipv4_carries_witness : printed (server ip_conversation) = hi /\ conversed no_loss ip_conversation.
Proof.
  split; [vm_compute; reflexivity|].
  apply (tcp_ipv4_carries no_loss client_line server_line () () 0 0 0 0 0 0 (tun_desk hi [] ip_answer) (tun_desk [] hi ip_data)
    ip_client_options ip_server_options (ip_client ip_answer) (ip_server ip_data) (5, 1234) (7, 80) ip_conversation).
  - apply returned_ok. vm_compute. reflexivity.
  - vm_compute. reflexivity.
  - replace (c_fsm (base_options ip_client_options)) with default_TCPConfig by (vm_compute; reflexivity). exact default_config_ok.
  - vm_compute. reflexivity.
  - vm_compute. reflexivity.
  - apply returned_ok. vm_compute. reflexivity.
  - vm_compute. reflexivity.
  - replace (c_fsm (base_options ip_server_options)) with default_TCPConfig by (vm_compute; reflexivity). exact default_config_ok.
  - repeat split; vm_compute; done.
  - repeat split; vm_compute; done.
  - refine (returned_ok (ip_main no_loss client_line () 0 0 0 (tun_desk hi [] ip_answer)) tun_unborn _). vm_compute. reflexivity.
  - refine (returned_ok (ip_main no_loss server_line () 0 0 0 (tun_desk [] hi ip_data)) tun_unborn _). vm_compute. reflexivity.
  - vm_compute. reflexivity.
  - vm_compute. reflexivity.
  - apply play_on_reach.
Defined.
