(* ===== verification/Clock.v ===== *)
(** * The clock

    Models [timestamp_ms] ([src/libsponge/util/util.cc]) with
    [std::chrono::steady_clock] as a parameter, and relates the clock to the
    time that the loop of [TCPSpongeSocket] tells the connection about: however
    the rounds fall, what the ticks add up to is never more than a millisecond
    away from the time that went by. *)

From S2P Require Import Prelude TCPConnection Transport FdAdapter FileDescriptor Socket EventLoop AdapterIO ExampleKernel TCPSpongeSocket StreamCopy SocketPair Process.
From Stdlib Require Import Sorting.Sorted.

(** [steady_clock::now()] in nanoseconds, and the state after the call. *)
Class SteadyClock (T : Type) := steady_now : T -> Z * T.

(** The clock is steady: a reading lies between the instants before and after
    the call. A time point is a 64-bit count. *)
Class SteadyLaws (T : Type) `{SteadyClock T} := {
  instant : T -> Z;
  instant_range : forall k, 0 <= instant k < 2 ^ 63;
  steady_now_law : forall k t k', steady_now k = (t, k') -> instant k <= t <= instant k'
}.

(** [duration_cast<milliseconds>] truncates. *)
Definition duration_cast_ms (ns : Z) : Z := Z.quot ns 1000000.

Section timestamp.
Context {T : Type} `{SteadyClock T}.

(** The state is the function's static variable, which the first call sets. *)
Definition timestamp_ms (program_start : option Z) (k : T) : Z * option Z * T :=
  let '(start, k) := match program_start with Some t => (t, k) | None => steady_now k end in
  let '(now, k) := steady_now k in
  (u64 (duration_cast_ms (now - start)), Some start, k).
End timestamp.

Section laws.
Context {T : Type} `{SteadyLaws T}.

(** The static variable holds an instant of the past. *)
Definition started (program_start : option Z) (k : T) : Prop :=
  match program_start with Some t => 0 <= t <= instant k | None => True end.

Lemma timestamp_spec st k ts st' k' :
  started st k -> timestamp_ms st k = (ts, st', k') ->
  exists start now,
    st' = Some start /\ ts = (now - start) / 1000000 /\ 0 <= ts < 2 ^ 63 /\ 0 <= start <= now /\
    (st = None \/ st = Some start) /\ (st = None -> instant k <= start) /\
    instant k <= now <= instant k' /\ started st' k'.
Proof.
  intros Hst E. unfold timestamp_ms in E.
  assert (exists start k1, (match st with Some t => (t, k) | None => steady_now k end) = (start, k1) /\
            0 <= start <= instant k1 /\ instant k <= instant k1 /\ (st = None \/ st = Some start) /\
            (st = None -> instant k <= start)) as (start & k1 & E1 & Hs & Hk & Hor & Hn).
  { destruct st as [t|]; cbn in Hst.
    - exists t, k. repeat split; try lia; auto. done.
    - destruct (steady_now k) as [t k1] eqn:En. apply steady_now_law in En.
      pose proof (instant_range k). exists t, k1. repeat split; try lia; auto. }
  rewrite E1 in E. destruct (steady_now k1) as [now k2] eqn:En. apply steady_now_law in En.
  simplify_eq. pose proof (instant_range k'). exists start, now.
  assert (0 <= (now - start) / 1000000 < 2 ^ 63) as Hq.
  { split; [apply Z.div_pos; lia|apply Z.div_lt_upper_bound; lia]. }
  unfold duration_cast_ms. rewrite Z.quot_div_nonneg by lia. rewrite u64_small by lia. cbn.
  repeat split; try lia; auto.
Qed.

(** Successive calls, with time going by between them; the flags are those of
    [_abort] that the loop reads beside the clock. *)
Inductive clocked : option Z -> T -> list (bool * Z) -> T -> Prop :=
| clocked_end st k : clocked st k [] k
| clocked_wait st k k1 env k2 : instant k <= instant k1 -> clocked st k1 env k2 -> clocked st k env k2
| clocked_call st k abort ts st1 k1 env k2 :
    timestamp_ms st k = (ts, st1, k1) -> clocked st1 k1 env k2 -> clocked st k ((abort, ts) :: env) k2.
End laws.

(** ** The ticks of a loop *)

Section loop.
Context {A Address K : Type} `{AdaptT A Address K} `{Kernel K} `{SocketKernel K Address} `{PollKernel K}.

(** The rounds of [_tcp_loop], seen from outside: each waits for events, and
    then, exactly if the connection is active, the connection and the adapter
    are told that some milliseconds went by. The list has, for each of these
    ticks, the reading of the clock in its round and the milliseconds. *)
Inductive ticked (condition : t_socket A K -> bool) :
    list (bool * Z) -> t_rules A K -> t_socket A K -> list (Z * Z) -> t_rules A K -> t_socket A K -> Prop :=
| ticked_end rs s : ticked condition [] rs s [] rs s
| ticked_tick now env rs s ret rs1 s1 c ms l rs' s' :
    condition s = true -> wait_next_event rs TCP_TICK_MS s = Ok (ret, rs1, s1) -> ret <> Exit ->
    _tcp s1 = Some c -> active c = true -> ticked condition env rs1 (tick_all s1 ms) l rs' s' ->
    ticked condition ((false, now) :: env) rs s ((now, ms) :: l) rs' s'
| ticked_quiet now env rs s ret rs1 s1 c l rs' s' :
    condition s = true -> wait_next_event rs TCP_TICK_MS s = Ok (ret, rs1, s1) -> ret <> Exit ->
    _tcp s1 = Some c -> active c = false -> ticked condition env rs1 s1 l rs' s' ->
    ticked condition ((false, now) :: env) rs s l rs' s'.

Definition total (l : list Z) : Z := foldr Z.add 0 l.

(** Each tick is for the time since the one before it. *)
Fixpoint laps (base_time : Z) (l : list (Z * Z)) : Prop :=
  match l with
  | [] => True
  | (now, ms) :: l => ms = u64 (now - base_time) /\ laps now l
  end.

Lemma loop_ticked condition base_time env (rs : t_rules A K) s rs' s' :
  _tcp_loop condition base_time env rs s = Ok (false, rs', s') ->
  exists l, ticked condition env rs s l rs' s' /\ laps base_time l /\ sublist (map fst l) (map snd env).
Proof.
  revert base_time rs s. induction env as [|[abort now] env IH]; intros base_time rs s; cbn [_tcp_loop].
  { intros [= <- <-]. exists []. repeat constructor. }
  destruct (condition s) eqn:Ec; cbn [negb]; [|done].
  destruct (wait_next_event rs TCP_TICK_MS s) as [[[ret rs1] s1]|] eqn:Ew; [|done]. cbn [mbind result_bind].
  destruct ret, abort; cbn [orb]; try done;
  (destruct (_tcp s1) as [c|] eqn:Et; [|done]); destruct (active c) eqn:Ea; intros (l & Hl & Hb & Hs)%IH;
  solve [eexists; split; [eapply ticked_tick; done|]; split; [by split|by constructor]
        |eexists; split; [eapply ticked_quiet; done|]; split; [done|by constructor]].
Qed.

Lemma last_from (t d : Z) ts : List.last (t :: ts) d = List.last ts t.
Proof. revert t d. induction ts as [|x ts IH]; intros t d; [done|]. transitivity (List.last (x :: ts) d); [done|]. by rewrite !IH. Qed.

Lemma laps_total base_time l :
  Forall (fun t => 0 <= t < 2 ^ 63) (base_time :: map fst l) -> StronglySorted Z.le (base_time :: map fst l) ->
  laps base_time l -> total (map snd l) = List.last (map fst l) base_time - base_time.
Proof.
  revert base_time. induction l as [|[t ms] l IH]; intros base_time Hr Hs Hl; [cbn; lia|].
  cbn [map fst snd laps] in *. destruct Hl as [-> Hl].
  apply Forall_cons in Hr as [Hb Hr]. apply StronglySorted_inv in Hs as [Hs Hd].
  pose proof (proj1 (Forall_cons _ _ _) Hr) as [Ht _]. pose proof (proj1 (Forall_cons _ _ _) Hd) as [Hle _].
  change (u64 (t - base_time) + total (map snd l) = List.last (t :: map fst l) base_time - base_time).
  rewrite (IH t), u64_small by (done || lia).
  rewrite last_from. lia.
Qed.

Lemma sorted_sublist (l1 l2 : list Z) : sublist l1 l2 -> StronglySorted Z.le l2 -> StronglySorted Z.le l1.
Proof.
  induction 1 as [|x l1 l2 Hs IH|x l1 l2 Hs IH]; [done| |]; intros [Hss Hf]%StronglySorted_inv; [|by apply IH].
  constructor; [by apply IH|]. rewrite Forall_forall in *. intros y Hy. apply Hf. by eapply elem_of_sublist.
Qed.

Context {T : Type} `{SteadyLaws T}.

(** [b] is the timestamp of some instant up to [k]. *)
Definition stamped (start : Z) (k : T) (b : Z) : Prop :=
  exists t, start <= t <= instant k /\ b = (t - start) / 1000000.

Lemma stamped_later start k k' b : instant k <= instant k' -> stamped start k b -> stamped start k' b.
Proof. intros ? (t & ? & ?). exists t. split; [lia|done]. Qed.

Lemma stamped_range start k b : 0 <= start -> stamped start k b -> 0 <= b < 2 ^ 63.
Proof.
  intros ? (t & Ht & ->). pose proof (instant_range k).
  split; [apply Z.div_pos; lia|apply Z.div_lt_upper_bound; lia].
Qed.

(** The readings are timestamps, in the order of the calls. *)
Lemma readings_stamped start k env k2 :
  clocked (Some start) k env k2 -> 0 <= start <= instant k ->
  forall b, stamped start k b ->
  Forall (stamped start k2) (b :: map snd env) /\ StronglySorted Z.le (b :: map snd env).
Proof.
  intros Hc. remember (Some start) as st eqn:Est.
  induction Hc as [st k|st k k1 env k2 Hk Hc IH|st k abort ts st1 k1 env k2 E Hc IH]; intros Hst b Hb; subst st.
  - split; repeat constructor. done.
  - apply IH; [done|lia|]. by eapply stamped_later.
  - destruct (timestamp_spec (Some start) k ts st1 k1 Hst E)
      as (start' & now & -> & -> & _ & Hs & [?|[= <-]] & _ & Hn & _); [done|].
    assert (stamped start k1 b) as Hb1 by (eapply stamped_later; [|exact Hb]; lia).
    assert (b <= (now - start) / 1000000) as Hle.
    { destruct Hb as (t & Ht & ->). apply Z.div_le_mono; lia. }
    assert (stamped start k1 ((now - start) / 1000000)) as Hnow by (exists now; split; [lia|done]).
    destruct (IH eq_refl ltac:(lia) _ Hnow) as [Hf Hso]. destruct (IH eq_refl ltac:(lia) _ Hb1) as [Hf1 _].
    apply Forall_cons in Hf1 as [Hb2 _]. cbn [map snd]. split; [by constructor|]. constructor; [done|].
    constructor; [done|]. apply StronglySorted_inv in Hso as [_ Hall]. eapply Forall_impl; [exact Hall|]. cbn. lia.
Qed.

Lemma clocked_snoc st (k : T) env k2 k3 abort now st' k4 :
  clocked st k env k2 -> st <> None -> started st k -> instant k2 <= instant k3 ->
  timestamp_ms st k3 = (now, st', k4) -> clocked st k (env ++ [(abort, now)]) k4.
Proof.
  intros Hc. induction Hc as [st k|st k k1 env k2 Hk Hc IH|st k ab ts st1 k1 env k2 E Hc IH]; intros Hst Hs Hi Hn; cbn [app].
  - eapply clocked_wait; [exact Hi|]. eapply clocked_call; [exact Hn|]. constructor.
  - eapply clocked_wait; [exact Hk|]. apply IH; [done| |done|done].
    destruct st as [t|]; [|done]. cbn in *. lia.
  - eapply clocked_call; [exact E|].
    destruct (timestamp_spec st k ts st1 k1 Hs E) as (start & t & -> & _ & _ & _ & [->| ->] & _ & _ & ?); [done|].
    by apply IH.
Qed.

Lemma clocked_time start (k : T) env k2 :
  clocked (Some start) k env k2 -> 0 <= start <= instant k -> instant k <= instant k2.
Proof.
  intros Hc. remember (Some start) as st eqn:Est. revert Est.
  induction Hc as [|st k k1 env k2 Hk Hc IH|st k ab ts st1 k1 env k2 E Hc IH]; intros ->; intros Hs;
    [lia|specialize (IH eq_refl ltac:(lia)); lia|].
  destruct (timestamp_spec (Some start) k ts st1 k1 Hs E)
    as (start' & n & -> & _ & _ & _ & [?|[= <-]] & _ & Hn & Hs'); [done|].
  specialize (IH eq_refl Hs'). lia.
Qed.

(** The ticks of a loop, up to any of them, add up to the difference of the
    readings. *)
Lemma loop_total start k env k2 base_time l1 l2 :
  clocked (Some start) k env k2 -> 0 <= start <= instant k -> stamped start k base_time ->
  laps base_time (l1 ++ l2) -> sublist (map fst (l1 ++ l2)) (map snd env) ->
  total (map snd l1) = List.last (map fst l1) base_time - base_time /\
  stamped start k2 (List.last (map fst l1) base_time).
Proof.
  intros Hc Hs Hb Hl Hsub. destruct (readings_stamped start k env k2 Hc Hs base_time Hb) as [Hf Hso].
  assert (sublist (base_time :: map fst l1) (base_time :: map snd env)) as Hsub1.
  { constructor. etransitivity; [|exact Hsub]. rewrite map_app. by apply sublist_inserts_r. }
  assert (Forall (stamped start k2) (base_time :: map fst l1)) as Hf1.
  { rewrite Forall_forall in Hf |- *. intros x Hx. apply Hf. by eapply elem_of_sublist. }
  split.
  - apply laps_total.
    + eapply Forall_impl; [exact Hf1|]. intros b. cbn. apply stamped_range. lia.
    + by eapply sorted_sublist.
    + clear -Hl. revert base_time Hl. induction l1 as [|[t ms] l1 IH]; intros b; cbn [app laps]; [done|].
      intros [-> Hl]. split; [done|by apply IH].
  - assert (forall b ts, Forall (stamped start k2) (b :: ts) -> stamped start k2 (List.last ts b)) as Hlast; [|by apply Hlast].
    clear. intros b ts. revert b. induction ts as [|t ts IH]; intros b [Hb Hts]%Forall_cons; [done|].
    rewrite last_from. by apply IH.
Qed.
End loop.

(** C29: The loop of the socket and the clock. A loop that has come through its
    rounds ticked in exactly the rounds in which the connection was active, and
    up to each tick the milliseconds given to the connection and the adapter
    add up to the reading of the clock in that round less the one at the start.
    So they exceed the time since the start of the loop by less than one; and
    if the last round has ticked, they fall short of the time between the start
    of the loop and that round's reading by less than one. *)
Theorem ticks_follow_clock {A Address K T : Type} `{AdaptT A Address K} `{Kernel K} `{SocketKernel K Address}
    `{PollKernel K} `{SteadyLaws T} condition st0 (k0 : T) base_time st k1 env k2 k3 now st' k4 (rs : t_rules A K) s rs' s' :
  started st0 k0 -> timestamp_ms st0 k0 = (base_time, st, k1) -> clocked st k1 env k2 ->
  instant k2 <= instant k3 -> timestamp_ms st k3 = (now, st', k4) ->
  _tcp_loop condition base_time (env ++ [(false, now)]) rs s = Ok (false, rs', s') ->
  exists l, ticked condition (env ++ [(false, now)]) rs s l rs' s' /\
    (forall l1 t ms l2, l = l1 ++ (t, ms) :: l2 -> total (map snd l1) + ms = t - base_time) /\
    1000000 * total (map snd l) < instant k4 - instant k0 + 1000000 /\
    ((exists l1 ms, l = l1 ++ [(now, ms)]) -> instant k3 - instant k1 - 1000000 < 1000000 * total (map snd l)).
Proof.
  intros Hs0 E Hc Hk En Eloop.
  destruct (timestamp_spec _ _ _ _ _ Hs0 E) as (start & t0 & -> & -> & _ & Hst & _ & _ & Ht0 & Hs1).
  cbn in Hs1. assert (stamped start k1 ((t0 - start) / 1000000)) as Hb by (exists t0; split; [lia|done]).
  assert (clocked (Some start) k1 (env ++ [(false, now)]) k4) as Hc' by (by eapply clocked_snoc).
  pose proof (clocked_time start k1 env k2 Hc Hs1) as Hk12.
  assert (started (Some start) k3) as Hs3 by (cbn; lia).
  destruct (timestamp_spec (Some start) k3 now st' k4 Hs3 En) as (start' & n & _ & En' & _ & _ & [?|[= <-]] & _ & ? & _); [done|].
  destruct (loop_ticked _ _ _ _ _ _ _ Eloop) as (l & Hl & Hlaps & Hsub). exists l. split; [done|].
  pose proof (Z.div_mod (n - start) 1000000). pose proof (Z.div_mod (t0 - start) 1000000).
  pose proof (Z.mod_pos_bound (n - start) 1000000). pose proof (Z.mod_pos_bound (t0 - start) 1000000).
  assert (forall l1 t ms l2, l = l1 ++ (t, ms) :: l2 -> total (map snd (l1 ++ [(t, ms)])) = t - (t0 - start) / 1000000) as Hsum.
  { intros l1 t ms l2 ->. change ((t, ms) :: l2) with ([(t, ms)] ++ l2) in *. rewrite app_assoc in Hlaps, Hsub.
    destruct (loop_total start k1 _ k4 _ _ l2 Hc' Hs1 Hb Hlaps Hsub) as [-> _].
    rewrite map_app. cbn [map fst]. by rewrite List.last_last. }
  assert (forall x ms, total (x ++ [ms]) = total x + ms) as Hsnoc.
  { intros x ms. unfold total. rewrite foldr_app. cbn. clear. induction x as [|y x IH]; cbn; lia. }
  split; [|split].
  - intros l1 t ms l2 El. rewrite <-(Hsum l1 t ms l2 El), map_app. symmetry. apply Hsnoc.
  - rewrite <-(app_nil_r l) in Hlaps, Hsub.
    destruct (loop_total start k1 _ k4 _ l [] Hc' Hs1 Hb Hlaps Hsub) as [-> (t & Ht & ->)].
    pose proof (Z.div_mod (t - start) 1000000). pose proof (Z.mod_pos_bound (t - start) 1000000). lia.
  - intros (l1 & ms & ->). rewrite (Hsum l1 now ms [] eq_refl). lia.
Qed.

(** ** An example: a clock that stands still while it is read *)

Definition example_clock : Type := Z.
#[export] Instance example_clock_now : SteadyClock example_clock := fun k => (Z.max 0 (Z.min k (2 ^ 63 - 1)), k).
#[export] Program Instance example_clock_laws : SteadyLaws example_clock := {
  instant := fun k : Z => Z.max 0 (Z.min k (2 ^ 63 - 1))
}.
Next Obligation. lia. Qed.
Next Obligation. intros k t k' E. injection E as <- <-. lia. Qed.

#[local] Existing Instance plain_adapt.

(** A socket and its rules after the start of [connect]. *)
Definition example_opening :=
  match connect example_socket [] test_config example_peer 0 0 [] with
  | Ok (_, rs, s) => (rs, s)
  | Throw _ => ([], example_socket)
  end.

(** The loop starts at 1.5 ms on the clock, reads it at 13.9 ms and at 20.4 ms:
    the ticks are of 12 and 6 ms. *)
Definition example_loop :=
  match _tcp_loop (fun _ => true) 0 [(false, 12); (false, 18)] example_opening.1 example_opening.2 with
  | Ok (_, rs, s) => (rs, s)
  | Throw _ => ([], example_socket)
  end.

Lemma example_loop_goes_on :
  _tcp_loop (fun _ => true) 0 [(false, 12); (false, 18)] example_opening.1 example_opening.2 =
  Ok (false, example_loop.1, example_loop.2).
Proof.
  assert (match _tcp_loop (fun _ => true) 0 [(false, 12); (false, 18)] example_opening.1 example_opening.2 with
          | Ok (ended, _, _) => ended | Throw _ => true end = false) as E by (vm_compute; reflexivity).
  unfold example_loop. destruct (_tcp_loop _ _ _ _ _) as [[[b rs] s]|]; [by subst b|done].
Qed.

Lemma ticks_follow_clock_witness :
  exists l, ticked (fun _ => true) [(false, 12); (false, 18)] example_opening.1 example_opening.2 l
              example_loop.1 example_loop.2 /\
    1000000 * total (map snd l) < 20400000 - 1500000 + 1000000.
Proof.
  assert (Hc : clocked (T := example_clock) (Some 1500000) 1500000 [(false, 12)] 13900000).
  { apply (clocked_wait _ _ 13900000); [cbn; lia|]. eapply clocked_call; [reflexivity|]. constructor. }
  assert (E : timestamp_ms (T := example_clock) None 1500000 = (0, Some 1500000, 1500000)) by (vm_compute; reflexivity).
  destruct (ticks_follow_clock (T := example_clock) (fun _ => true) None 1500000 0 (Some 1500000) 1500000 [(false, 12)] 13900000
    20400000 18 (Some 1500000) 20400000 example_opening.1 example_opening.2 example_loop.1 example_loop.2 I E Hc)
    as (l & Hl & _ & Hup & _); [cbn; lia|reflexivity|exact example_loop_goes_on|].
  exists l. split; [exact Hl|exact Hup].
Defined.
