(* ===== verification/Webget.v ===== *)
(** * webget

    Models [get_URL] and [main] of [src/apps/webget.cc]: resolve, connect, send the
    request, print what comes until a read yields nothing. *)

From S2P Require Import Prelude Text Buffer Address FileDescriptor Socket SocketSetup CommandLine.

(** The end of a line of the request. *)
Definition crlf : list byte := [Byte.x0d; Byte.x0a].

Definition request (host path : list byte) : list byte :=
  txt "GET " ++ path ++ txt " HTTP/1.1" ++ crlf ++
  txt "Host: " ++ host ++ crlf ++
  txt "Connection: close" ++ crlf ++ crlf.

(** The default limit of [read]. *)
Definition SIZE_MAX : Z := 2 ^ 64 - 1.

Section webget.
Context {K : Type} `{Kernel K} `{SocketKernel K Address.Address} `{SetupKernel K} `{Resolver}.

(** The loop that reads and prints. *)
Fixpoint print_loop (fuel : nat) (w : FDWrapper) (k : K) (printed : list byte)
    : result (list byte * FDWrapper * K) :=
  match fuel with
  | O => Throw (undefined "get_URL: out of fuel")
  | S fuel =>
      '(recvd, w, k) ← read w k SIZE_MAX;
      if zlen recvd =? 0 then Ok (printed, w, k) else print_loop fuel w k (printed ++ recvd)
  end.

Definition get_URL (fuel : nat) (host path : list byte) (k : K) : result (list byte * FDWrapper * K) :=
  userhost ← of_host host (txt "http");
  '(sock, k) ← TCPSocket k;
  k ← connect sock k userhost;
  '(_, sock, k) ← write sock k (bvl_of_string (request host path)) true;
  print_loop fuel sock k [].

(** [main]: the exit status, [None] for [abort]; the usage, like an exception,
    goes to the error stream. *)
Definition webget_main (fuel : nat) (argv : list (list byte)) (k : K) : option Z :=
  match argv with
  | [] => None
  | [_; host; path] =>
      Some (match get_URL fuel host path k with Ok _ => EXIT_SUCCESS | Throw _ => EXIT_FAILURE end)
  | _ => Some EXIT_FAILURE
  end.

End webget.

(** [read(2)]: zero says that the end of the file has been reached. *)
Class EndOfFile (K : Type) `{Kernel K} `{Streams K} : Prop :=
  read_zero : forall k fd size e data k', 0 < size -> sys_read k fd size = (0, e, data, k') -> input k fd = [].

(** ** Property *)

Section properties.
Context {K : Type} `{KernelLaws K} `{!EndOfFile K} `{SocketKernel K Address.Address} `{SetupKernel K} `{Resolver}.

(** A read that yields nothing was at the end. *)
Lemma read_at_end w (k : K) w' k' : read w k SIZE_MAX = Ok ([], w', k') -> input k (_fd w) = [].
Proof.
  unfold read. destruct (sys_read k (_fd w) _) as [[[r e] data] k1] eqn:E.
  destruct (read_law _ _ _ _ _ _ _ (ltac:(vm_compute; discriminate) : 0 <= Z.min BUFFER_SIZE SIZE_MAX) E) as (Hr & He & Hok).
  destruct (SystemCall_spec "read" r e Hr He) as [[Hn ->]|[_ ->]]; [|done]. destruct (Hok Hn) as (Hle & Hd & _).
  cbn [mbind result_bind]. destruct (_ <? r); [done|]. intros [= Hz _ _].
  assert (r = 0) as ->.
  { rewrite u64_small, <- Hd, resize_overwrite in Hz by lia. by rewrite Hz in Hd. }
  by apply (read_zero k (_fd w) (Z.min BUFFER_SIZE SIZE_MAX) e data k1).
Qed.

Lemma print_loop_spec fuel w (k : K) printed :
  (length (input k (_fd w)) < fuel)%nat ->
  (exists c, print_loop fuel w k printed = Throw (unix_error "read" c)) \/
  exists w' k', print_loop fuel w k printed = Ok (printed ++ input k (_fd w), w', k') /\
    written k' (_fd w) = written k (_fd w).
Proof.
  revert w k printed. induction fuel as [|fuel IH]; intros w k printed Hf; [lia|]. cbn [print_loop].
  destruct (fd_read_spec w k SIZE_MAX) as [[c ->]|(data & w' & k' & E & _ & Hi & Hw & _ & Hw')];
    [vm_compute; split; [discriminate|done]|left; by exists c|].
  rewrite E. cbn [mbind result_bind]. destruct (Z.eqb_spec (zlen data) 0) as [Hz|Hz].
  - apply zlen_zero in Hz as ->. right. exists (register_read w'), k'. rewrite (read_at_end _ _ _ _ E), app_nil_r. done.
  - assert (Hfd : _fd (register_read w') = _fd w) by (rewrite Hw'; by destruct (_ && _)).
    destruct (IH (register_read w') k' (printed ++ data)) as [?|(w2 & k2 & E2 & Hw2)].
    + rewrite Hfd. rewrite Hi, length_app in Hf. unfold zlen in Hz. lia.
    + by left.
    + right. exists w2, k2. rewrite E2, Hfd, <- app_assoc, <- Hi. split; [done|]. rewrite Hfd in Hw2. congruence.
Qed.

(** C35: The whole reply is printed. Once the connection is there, [get_URL]
    sends exactly the request and prints exactly what the server sends until
    it closes, however the kernel cuts it into reads, with at most one read
    more than there are bytes; or a read or write fails. *)
Theorem get_url_prints_reply fuel host path a sock (k k0 k1 : K) :
  of_host host (txt "http") = Ok a -> TCPSocket k = Ok (sock, k0) -> connect sock k0 a = Ok k1 ->
  zlen host + zlen path < 2 ^ 62 -> (length (input k1 (_fd sock)) < fuel)%nat ->
  (exists e, get_URL fuel host path k = Throw e /\ (write_error e \/ exists c, e = unix_error "read" c)) \/
  exists w' k', get_URL fuel host path k = Ok (input k1 (_fd sock), w', k') /\
    written k' (_fd sock) = written k1 (_fd sock) ++ request host path.
Proof.
  intros Ha Hs Hc Hl Hf. unfold get_URL. rewrite Ha. cbn [mbind result_bind]. rewrite Hs. cbn [mbind result_bind].
  rewrite Hc. cbn [mbind result_bind]. unfold write.
  assert (Hz : zlen (concat (bvl_of_string (request host path))) < 2 ^ 63).
  { unfold bvl_of_string. cbn [concat]. rewrite app_nil_r. unfold request. rewrite !zlen_app.
    repeat match goal with |- context [zlen (txt ?s)] => let v := eval vm_compute in (zlen (txt s)) in change (zlen (txt s)) with v end.
    change (zlen crlf) with 2. lia. }
  pose proof (zlen_nonneg (concat (bvl_of_string (request host path)))). rewrite bvl_size_concat by lia.
  destruct (write_loop_spec (S (Z.to_nat (zlen (concat (bvl_of_string (request host path)))))) sock k1
    (bvl_of_string (request host path)) true 0) as [(e & -> & He)|(n & w' & k' & -> & Hn & Hall & Hw & Hi & _ & [Hfd _] & _)];
    [lia|lia|lia|left; eexists; split; [done|by left]|]. cbn [mbind result_bind].
  destruct (print_loop_spec fuel w' k' []) as [[c ->]|(w2 & k2 & E & Hw2)].
  - rewrite Hfd, Hi. lia.
  - left. eexists. split; [done|]. right. eauto.
  - right. exists w2, k2. rewrite E, Hfd, Hi. split; [done|]. rewrite Hfd in Hw2. rewrite Hw2, Hw, (Hall eq_refl).
    unfold bvl_of_string. cbn [concat]. rewrite app_nil_r, take_ge by (unfold zlen; lia). done.
Qed.

End properties.

(** ** An example *)

#[local] Instance files_sockets : SocketKernel example_files Address.Address := {
  sys_getsockopt := fun k _ _ => (0, 0, (0, 4), k);
  sys_shutdown := fun k _ _ => (0, 0, k);
  sys_recvfrom := fun k _ _ => (-1, 11, [], {| _size := 0; _address := new_Raw |}, k);
  sys_sendmsg := fun k _ _ _ => (-1, 11, k)
}.

#[local] Instance files_setup : SetupKernel example_files := {
  sys_socket := fun k _ _ _ => (3, 0, k);
  sys_socketpair := fun k _ _ _ => (-1, 24, (0, 0), k);
  sys_getname := fun _ k _ _ => (0, 0, ([], 0), k);
  sys_bind := fun k _ _ _ => (0, 0, k);
  sys_connect := fun k fd _ _ => (0, 0, <[fd := (txt "HTTP/1.1 200 OK", [])]> k);
  sys_listen := fun k _ _ => (0, 0, k);
  sys_accept := fun k _ => (-1, 24, k);
  sys_setsockopt := fun k _ _ _ _ => (0, 0, k);
  sys_open := fun k _ _ => (-1, 2, k);
  sys_ioctl := fun k _ _ _ => (-1, 25, k)
}.

#[local] Instance files_end : EndOfFile example_files.
Proof.
  intros k fd size e data k' Hs [= Hz _ _ _]. change ((file k fd).1 = []). rewrite zlen_take in Hz.
  apply zlen_zero. pose proof (zlen_nonneg (file k fd).1). lia.
Qed.

(** One host is known, and the service "http". *)
#[local] Instance one_host : Resolver := {
  getaddrinfo := fun node service _ =>
    if bool_decide (node = txt "example.org") && bool_decide (service = txt "http")
    then (0, Some (sockaddr_in 1572395042 80)) else (-2, None);
  getnameinfo := fun _ _ _ => (-6, [], [])
}.

Lemma get_url_prints_reply_witness :
  exists w' k', get_URL 16 (txt "example.org") (txt "/") (∅ : example_files) = Ok (txt "HTTP/1.1 200 OK", w', k') /\
    written k' 3 = request (txt "example.org") (txt "/").
Proof.
  pose (sock := {| _fd := 3; _eof := false; _closed := false; _read_count := 0; _write_count := 0 |}).
  destruct (get_url_prints_reply 16 (txt "example.org") (txt "/") (ipv4 1572395042 80) sock (∅ : example_files) ∅
    (<[3 := (txt "HTTP/1.1 200 OK", [])]> ∅)) as [(e & He & _)|(w' & k' & He & Hw)].
  - vm_compute. reflexivity.
  - reflexivity.
  - reflexivity.
  - vm_compute. reflexivity.
  - apply Nat.ltb_lt. vm_compute. reflexivity.
  - exfalso. revert He. vm_compute. discriminate.
  - exists w', k'. split; [exact He|exact Hw].
Defined.
