(* ===== verification/TunDump.v ===== *)
(** * tun

    Models [src/apps/tun.cc], which prints what arrives on a TUN device: the text
    for a packet and the loop over the device. *)

From S2P Require Import Prelude Text Buffer Parser TCPHeader TCPSegment IPv4Header IPv4Datagram FdAdapter TCPOverIP FileDescriptor HexDump HeaderText SocketSetup Webget.

(** The part of an iteration after the packet was read. *)
Definition show_datagram (buffer : list byte) : result (list byte) :=
  dump ← hexdump buffer 0;
  let out := nl ++ nl ++ txt "***" ++ nl ++ txt "*** Got packet:" ++ nl ++ txt "***" ++ nl ++ dump ++
             txt "attempting to parse as ipv4 datagram... " in
  '(r, ip_dgram) ← IPv4Datagram.parse default_IPv4Datagram (new_Buffer buffer);
  if negb (bool_decide (r = NoError)) then Ok (out ++ txt "failed." ++ nl)
  else
    let h := IPv4Datagram.header ip_dgram in
    let out := out ++ txt "success! totlen=" ++ decimal (len h) ++ txt ", IPv4 header contents:" ++ nl ++
               ip_to_string h in
    if negb (proto h =? PROTO_TCP) then Ok (out ++ nl ++ txt "Not TCP, skipping." ++ nl)
    else
      let out := out ++ nl ++ txt "Attempting to parse as a TCP segment... " in
      payload ← bl_to_Buffer (IPv4Datagram.payload ip_dgram);
      '(r, tcp_seg) ← TCPSegment.parse default_TCPSegment payload (pseudo_cksum h);
      if negb (bool_decide (r = NoError)) then Ok (out ++ txt "failed." ++ nl)
      else Ok (out ++ txt "success! payload len=" ++ decimal (buf_length (TCPSegment.payload tcp_seg)) ++
               txt ", TCP header contents:" ++ nl ++ tcp_to_string (TCPSegment.header tcp_seg) ++ nl).

Section loop.
Context {K : Type} `{Kernel K} `{SetupKernel K}.

(** The loop, for a number of iterations; what has been printed so far. *)
Fixpoint tun_loop (n : nat) (tun : FDWrapper) (k : K) (out : list byte) : result (list byte * FDWrapper * K) :=
  match n with
  | O => Ok (out, tun, k)
  | S n =>
      '(buffer, tun, k) ← read tun k SIZE_MAX;
      text ← show_datagram buffer;
      tun_loop n tun k (out ++ text)
  end.

Definition tun_main (n : nat) (k : K) : result (list byte * FDWrapper * K) :=
  '(tun, k) ← TunFD k (txt "tun144");
  tun_loop n tun k [].

End loop.

(** ** Properties *)

(** Any packet is shown. *)
Lemma show_datagram_total buffer : zlen buffer < 2 ^ 31 -> exists text, show_datagram buffer = Ok text.
Proof.
  intros Hl. unfold show_datagram. destruct (hexdump_total buffer 0 Hl) as [dump ->]. cbn [mbind result_bind].
  destruct (datagram_parse_total default_IPv4Datagram (new_Buffer buffer)) as (r & h & b & -> & Hb & _); [apply wf_new_Buffer; lia|].
  cbn [mbind result_bind]. destruct (negb _); [eauto|]. destruct (negb _); [eauto|].
  cbn [IPv4Datagram.payload IPv4Datagram._payload bl_to_Buffer mbind result_bind].
  destruct (segment_parse_total default_TCPSegment b (pseudo_cksum (IPv4Datagram.header {| IPv4Datagram._header := h; IPv4Datagram._payload := [b] |})) Hb) as (r' & seg & -> & _).
  cbn [mbind result_bind]. destruct (negb _); eauto.
Qed.

(** The loop stops only when a read fails. *)
Lemma tun_loop_safe {K} `{KernelLaws K} n tun (k : K) out :
  (exists c, tun_loop n tun k out = Throw (unix_error "read" c)) \/ exists r, tun_loop n tun k out = Ok r.
Proof.
  revert tun k out. induction n as [|n IH]; intros tun k out; [right; eauto|]. cbn [tun_loop].
  destruct (fd_read_spec tun k SIZE_MAX) as [[c ->]|(data & w' & k' & -> & Hl & _)];
    [vm_compute; split; [discriminate|done]|left; by exists c|].
  cbn [mbind result_bind]. destruct (show_datagram_total data) as [text ->]; [unfold BUFFER_SIZE in Hl; lia|apply IH].
Qed.

Section properties.
Context {Address : Type} `{AddressLaws Address}.

(** The text for a packet that an adapter wrote. *)
Lemma show_written (a : FdAdapterBase Address) seg :
  wf_TCPHeader (TCPSegment.header seg) -> fits seg ->
  exists bl ci c, tun_write a seg = Ok bl /\
    let bytes := bl_concatenate bl in
    let s := address_segment a seg in
    let h := set_cksum (wrap_header a s) ci in
    show_datagram bytes =
      Ok (nl ++ nl ++ txt "***" ++ nl ++ txt "*** Got packet:" ++ nl ++ txt "***" ++ nl ++
          dump_lines (length bytes) 0 0 bytes ++ nl ++
          txt "attempting to parse as ipv4 datagram... success! totlen=" ++ decimal (zlen bytes) ++
          txt ", IPv4 header contents:" ++ nl ++ ip_to_string h ++ nl ++
          txt "Attempting to parse as a TCP segment... success! payload len=" ++
          decimal (zlen (str (TCPSegment.payload seg))) ++ txt ", TCP header contents:" ++ nl ++
          tcp_to_string (TCPHeader.set_cksum (TCPSegment.header s) c) ++ nl).
Proof.
  intros Hwf Hfit. destruct (tun_write_parses a seg Hwf Hfit) as (bl & ci & buf & c & p & Hw & Hlen & Hdp & Hp & Hsp).
  pose proof (wf_doff _ Hwf) as Hd. pose proof (zlen_nonneg (str (TCPSegment.payload seg))). unfold fits in Hfit.
  set (s := address_segment a seg) in *. set (h0 := wrap_header a s) in *.
  change (hlen h0) with 5 in Hlen.
  exists bl, ci, c. split; [done|]. cbn zeta. unfold show_datagram.
  rewrite hexdump_text; [|intros E; rewrite E, (@zlen_nil byte) in Hlen; lia|lia]. cbn [mbind result_bind].
  rewrite Hdp. cbn [mbind result_bind]. rewrite bool_decide_eq_true_2 by done. cbn [negb IPv4Datagram.header IPv4Datagram._header].
  change (proto (set_cksum h0 ci)) with PROTO_TCP. rewrite Z.eqb_refl. cbn [negb IPv4Datagram.payload IPv4Datagram._payload bl_to_Buffer mbind result_bind].
  change (pseudo_cksum (set_cksum h0 ci)) with (pseudo_cksum h0). rewrite Hp. cbn [mbind result_bind].
  rewrite bool_decide_eq_true_2 by done. cbn [negb TCPSegment.header TCPSegment.payload TCPSegment._header TCPSegment._payload].
  assert (Hl : len (set_cksum h0 ci) = zlen (bl_concatenate bl)).
  { unfold h0. cbn [len set_cksum wrap_header]. change (hlen default_IPv4Header) with 5.
    change (doff (TCPSegment.header s)) with (doff (TCPSegment.header seg)).
    change (TCPSegment.payload s) with (TCPSegment.payload seg). rewrite u16_small; lia. }
  rewrite Hl. unfold buf_length. rewrite Hsp. f_equal. rewrite <- !app_assoc. repeat f_equal.
Qed.

(** What the program shows. Whatever bytes arrive on the device, the loop
    goes on until a read fails; and for the packet that an adapter writes for
    a segment it shows all bytes, the IPv4 header of the adapter and the TCP
    header of the segment, as text, and the size of its payload. *)
Theorem tun_shows_traffic (a : FdAdapterBase Address) seg :
  wf_TCPHeader (TCPSegment.header seg) -> fits seg ->
  (forall K `(KernelLaws K) n tun (k : K) out,
    (exists c, tun_loop n tun k out = Throw (unix_error "read" c)) \/ exists r, tun_loop n tun k out = Ok r) /\
  exists bl ci c, tun_write a seg = Ok bl /\
    let bytes := bl_concatenate bl in
    let s := address_segment a seg in
    let h := set_cksum (wrap_header a s) ci in
    show_datagram bytes =
      Ok (nl ++ nl ++ txt "***" ++ nl ++ txt "*** Got packet:" ++ nl ++ txt "***" ++ nl ++
          dump_lines (length bytes) 0 0 bytes ++ nl ++
          txt "attempting to parse as ipv4 datagram... success! totlen=" ++ decimal (zlen bytes) ++
          txt ", IPv4 header contents:" ++ nl ++ ip_to_string h ++ nl ++
          txt "Attempting to parse as a TCP segment... success! payload len=" ++
          decimal (zlen (str (TCPSegment.payload seg))) ++ txt ", TCP header contents:" ++ nl ++
          tcp_to_string (TCPHeader.set_cksum (TCPSegment.header s) c) ++ nl).
Proof. intros Hwf Hfit. split; [intros; apply tun_loop_safe|by apply show_written]. Qed.

End properties.

(** A SYN from 0.0.0.5:1234 to 0.0.0.7:80. *)
Lemma tun_shows_traffic_witness :
  let a : FdAdapterBase (Z * Z) := set_source (set_destination new_FdAdapterBase (7, 80)) (5, 1234) in
  let seg := {| TCPSegment._header := set_syn default_TCPHeader; TCPSegment._payload := new_Buffer [] |} in
  exists bl text, tun_write a seg = Ok bl /\ show_datagram (bl_concatenate bl) = Ok text.
Proof.
  intros a seg. destruct (tun_shows_traffic a seg) as (_ & bl & ci & c & Hw & Hs).
  - constructor; vm_compute; done.
  - vm_compute. done.
  - exists bl. eexists. split; [exact Hw|exact Hs].
Defined.
