(* ===== verification/Doctests.v ===== *)
(** * The examples of the documentation

    Models [src/doctests/parser_dt.cc], [address_dt.cc] and the pair of local
    sockets of [socket_dt.cc], with the snippets that they include, on the
    definitions of the library; name resolution and the system calls are
    parameters. The examples that need an Internet stack in the kernel
    ([socket_example_1.cc] and [socket_example_2.cc]) are left out. *)

From S2P Require Import Prelude Text Buffer Parser FdAdapter Address FileDescriptor Socket SocketSetup CommandLine.

(** ** parser_dt.cc *)

Definition val1 : Z := 0xdeadbeef.
Definition val2 : Z := 0xc0c0.
Definition val3 : Z := 0xff.
Definition val4 : Z := 0x0c05fefe.

Definition serialized : list byte :=
  let buffer := [] ++ [z2b 0x32] in
  let buffer := unparse_u32 buffer val1 in
  let buffer := unparse_u16 buffer val2 in
  let buffer := unparse_u8 buffer val3 in
  unparse_u32 buffer val4.

Definition parser_example : result unit :=
  let p := new_NetParser (new_Buffer serialized) in
  '(out0, p) ← parse_u8 p;
  '(out1, p) ← parse_u32 p;
  '(out2, p) ← parse_u16 p;
  '(out3, p) ← parse_u8 p;
  '(out4, p) ← parse_u32 p;
  if negb (out0 =? 0x32) || negb (out1 =? val1) || negb (out2 =? val2) || negb (out3 =? val3) || negb (out4 =? val4)
  then Throw (runtime_error "bad parse") else Ok tt.

(** [try { ... } catch (...) { return EXIT_FAILURE; } return EXIT_SUCCESS;] *)
Definition status {X} (r : result X) : Z :=
  match r with Ok _ => EXIT_SUCCESS | Throw _ => EXIT_FAILURE end.

Definition parser_dt_main : Z := status parser_example.

(** ** address_dt.cc *)

Definition address_example `{Resolver} : result unit :=
  google_webserver ← of_host (txt "www.google.com") (txt "https");
  a_dns_server ← of_ip (txt "18.71.0.151") 53;
  a_dns_server_numeric ← ipv4_numeric a_dns_server;
  p ← port google_webserver;
  if negb (p =? 443) || negb (a_dns_server_numeric =? 0x12470097)
  then Throw (runtime_error "unexpected value") else Ok tt.

Definition address_dt_main `{Resolver} : Z := status address_example.

(** ** socket_example_3.cc *)

(** The two sockets are destroyed when the block ends, in the reverse order. *)
Definition socket_example_3 {K Addr : Type} `{Kernel K} `{SocketKernel K Addr} `{SetupKernel K} (k : K) : result K :=
  let '(ret, errno, (fd0, fd1), k) := sys_socketpair k Socket.AF_UNIX SOCK_STREAM 0 in
  _ ← SystemCall "socketpair" ret errno 0;
  w0 ← new_FDWrapper fd0;
  '(pipe1, k) ← LocalStreamSocket (Addr := Addr) w0 k;
  w1 ← new_FDWrapper fd1;
  '(pipe2, k) ← LocalStreamSocket (Addr := Addr) w1 k;
  '(_, pipe1, k) ← write pipe1 k [txt "hi there"] true;
  '(recvd, pipe2, k) ← read pipe2 k ULONG_LONG_MAX;
  '(_, pipe2, k) ← write pipe2 k [txt "hi yourself"] true;
  '(recvd2, pipe1, k) ← read pipe1 k ULONG_LONG_MAX;
  if negb (bool_decide (recvd = txt "hi there")) || negb (bool_decide (recvd2 = txt "hi yourself"))
  then Throw (runtime_error "wrong data received")
  else Ok (destroy pipe1 (destroy pipe2 k)).

(** ** What they return *)

(** The serialized integers are the bytes that the network order prescribes,
    and the parser finds them again. *)
Example parser_example_bytes :
  map b2z serialized = [0x32; 0xde; 0xad; 0xbe; 0xef; 0xc0; 0xc0; 0xff; 0x0c; 0x05; 0xfe; 0xfe] /\
  parser_dt_main = EXIT_SUCCESS.
Proof. split; vm_compute; reflexivity. Qed.

(** With a resolver that reads numeric addresses the example fails only where
    the lookup of the web server does, or its port is not 443. *)
Lemma address_example_status `{ResolverLaws} :
  address_dt_main = EXIT_SUCCESS <->
  exists a, of_host (txt "www.google.com") (txt "https") = Ok a /\ port a = Ok 443.
Proof.
  unfold address_dt_main, address_example.
  rewrite (of_ip_numeric 0x12470097 53 (txt "18.71.0.151")) by (done || (left; vm_compute; reflexivity)).
  destruct (of_host _ _) as [a|e]; cbn [mbind result_bind status]; [|split; [done|by intros (? & ? & _)]].
  rewrite ipv4_numeric_ipv4 by done. cbn [mbind result_bind].
  split.
  - destruct (port a) as [p|] eqn:Ep; cbn [mbind result_bind status]; [|done].
    destruct (Z.eqb_spec p 443) as [->|]; [|done]. eauto.
  - intros (? & [= <-] & ->). done.
Qed.

(** ** A kernel with one pair of sockets

    Descriptor 3 writes what 4 reads and 4 what 3 reads; a read yields at most
    [chunk] bytes. *)
Record pair_kernel := { to3 : list byte; to4 : list byte; chunk : Z; shut : list Z }.

Definition pair_buffer (k : pair_kernel) (fd : Z) : list byte := if fd =? 3 then to3 k else to4 k.
Definition pair_update (k : pair_kernel) (fd : Z) (b : list byte) : pair_kernel :=
  if fd =? 3 then {| to3 := b; to4 := to4 k; chunk := chunk k; shut := shut k |}
  else {| to3 := to3 k; to4 := b; chunk := chunk k; shut := shut k |}.

#[local] Instance pair_files : Kernel pair_kernel := {
  sys_read := fun k fd size =>
    let data := take (Z.to_nat (Z.min size (chunk k))) (pair_buffer k fd) in
    (zlen data, 0, data, pair_update k fd (drop (length data) (pair_buffer k fd)));
  sys_writev := fun k fd iov =>
    let data := concat (map fst iov) in
    (zlen data, 0, pair_update k (7 - fd) (pair_buffer k (7 - fd) ++ data));
  sys_close := fun k fd => (0, 0, {| to3 := to3 k; to4 := to4 k; chunk := chunk k; shut := shut k ++ [fd] |});
  sys_getfl := fun k _ => (0, 0, k);
  sys_setfl := fun k _ _ => (0, 0, k)
}.
#[local] Instance pair_sockets : SocketKernel pair_kernel (Z * Z) := {
  sys_getsockopt := fun k _ _ => (0, 0, (1, 4), k);
  sys_shutdown := fun k _ _ => (0, 0, k);
  sys_recvfrom := fun k _ _ => (-1, 11, [], (0, 0), k);
  sys_sendmsg := fun k _ _ _ => (-1, 90, k)
}.
#[local] Instance pair_setup : SetupKernel pair_kernel := {
  sys_socket := fun k _ _ _ => (-1, 24, k);
  sys_socketpair := fun k _ _ _ => (0, 0, (3, 4), k);
  sys_getname := fun _ k _ _ => (0, 0, ([], 0), k);
  sys_bind := fun k _ _ _ => (-1, 22, k);
  sys_connect := fun k _ _ _ => (-1, 22, k);
  sys_listen := fun k _ _ => (-1, 22, k);
  sys_accept := fun k _ => (-1, 22, k);
  sys_setsockopt := fun k _ _ _ _ => (0, 0, k);
  sys_open := fun k _ _ => (-1, 24, k);
  sys_ioctl := fun k _ _ _ => (-1, 22, k)
}.

(** With whole reads the example succeeds and leaves nothing unread and both
    descriptors closed; a read may be short, and then it fails. *)
Example socket_example_3_runs :
  socket_example_3 (Addr := Z * Z) {| to3 := []; to4 := []; chunk := 4096; shut := [] |} =
    Ok {| to3 := []; to4 := []; chunk := 4096; shut := [4; 3] |} /\
  socket_example_3 (Addr := Z * Z) {| to3 := []; to4 := []; chunk := 5; shut := [] |} =
    Throw (runtime_error "wrong data received").
Proof. split; vm_compute; reflexivity. Qed.
